(** * Soar kernel: symbol table, learning gate, rule naming, state stack

    A shallow embedding of
    - [Core/SoarKernel/src/symtab.cpp] (the five symbol tables, reference
      counting, identifier counters, the leak report),
    - [Core/SoarKernel/src/explanation_based_chunking/ebc.cpp]
      ([set_learning_for_instantiation], [generate_name_for_new_rule]),
    - [Core/SoarKernel/src/decision_process/decider.cpp]
      ([get_state_stack_string]),
    followed by the properties proved about them.

    Conventions.  A [Symbol*] is an address ([addr]); the records live in
    [heap].  Fixed-width unsigned integers are [Z] values kept in range by
    [uint32] / [uint64] at every operation that can wrap.  A [const char*] is
    the [string] of its characters before the terminating NUL.  Loops that
    the source writes as [while] take a [fuel] argument; lemmas show how much
    fuel is enough. *)

From Stdlib Require Import ZArith String Ascii List Lia.
From Stdlib Require Import Floats.SpecFloat.
From stdpp Require Import gmap strings list.

Local Open Scope Z_scope.

(* ===================================================================== *)
(** * Part I: the embedding                                               *)
(* ===================================================================== *)

(** ** Machine integers and text *)

Definition uint32 (z : Z) : Z := z mod 2 ^ 32.
Definition uint64 (z : Z) : Z := z mod 2 ^ 64.

(** [std::to_string] and [printf("%lu")] / [("%llu")] on an unsigned 64-bit
    value: its decimal digits.  Twenty digits are enough below [2^64]. *)
Definition digit_char (d : Z) : ascii := ascii_of_N (Z.to_N (48 + d)).

Fixpoint to_string_digits (fuel : nat) (n : Z) (acc : string) : string :=
  let acc' := String (digit_char (n mod 10)) acc in
  match fuel with
  | O => acc'
  | S fuel' => if n / 10 =? 0 then acc' else to_string_digits fuel' (n / 10) acc'
  end.

Definition to_string (n : Z) : string := to_string_digits 19 n "".

(** [SNPRINTF (buf, size, ...)] followed by [buf[size - 1] = 0]: at most
    [size - 1] characters of the formatted text are kept. *)
Fixpoint string_take (n : nat) (s : string) : string :=
  match n, s with
  | S n', String c s' => String c (string_take n' s')
  | _, _ => EmptyString
  end.

Definition snprintf (size : nat) (formatted : string) : string :=
  string_take (size - 1) formatted.

(** ** Hash functions (symtab.cpp, lines 59-141) *)

(** Modelled from the spec: the table [masks_for_n_low_order_bits] is
    declared outside the files at hand; the compression function folds the
    hash "by successive XORs of b-bit chunks" (section 4.2), so entry [n] is
    the mask of the [n] low-order bits. *)
Definition masks_for_n_low_order_bits (n : Z) : Z := Z.ones n.

(** The [while (h)] loop of [compress]. *)
Fixpoint compress_loop (fuel : nat) (h num_bits result : Z) : Z :=
  match fuel with
  | O => result
  | S fuel' =>
      if h =? 0 then result
      else compress_loop fuel' (Z.shiftr h num_bits) num_bits
             (Z.lxor result (Z.land h (masks_for_n_low_order_bits num_bits)))
  end.

(** [compress]: [h] is a 32-bit value, so with [num_bits >= 1] the loop runs
    at most 32 times (lemma [compress_loop_fuel]). *)
Definition compress (h num_bits : Z) : Z :=
  let h := if num_bits <? 16 then Z.lxor (Z.land h 65535) (Z.shiftr h 16) else h in
  let h := if num_bits <? 8 then Z.lxor (Z.land h 255) (Z.shiftr h 8) else h in
  compress_loop 32 h num_bits 0.

(** The integer promotion of [*s] converted to [uint32_t]; plain [char] is
    signed on the platforms the kernel is built for. *)
Definition char_to_uint32 (c : ascii) : Z :=
  let n := Z.of_N (N_of_ascii c) in
  uint32 (if n <? 128 then n else n - 256).

Fixpoint hash_string_from (h : Z) (s : string) : Z :=
  match s with
  | EmptyString => h
  | String c s' =>
      hash_string_from
        (Z.lxor (Z.lor (uint32 (Z.shiftl h 8)) (Z.shiftr h 24)) (char_to_uint32 c)) s'
  end.

Definition hash_string (s : string) : Z := hash_string_from 0 s.

(** [static_cast<uint32_t>(double)]: the value truncated toward zero.  The
    conversion is undefined in C++ outside the range of [uint32_t]; there the
    model takes the low 32 bits (0 for infinities and NaN).  Only the bucket a
    float constant lands in depends on it. *)
Definition double_to_uint32 (value : spec_float) : Z :=
  match value with
  | S754_finite s m e =>
      let mag := Z.shiftl (Z.pos m) e in
      uint32 (if s then - mag else mag)
  | _ => 0
  end.

Definition hash_variable_raw_info (name : string) (num_bits : Z) : Z :=
  compress (hash_string name) num_bits.

Definition hash_identifier_raw_info (letter : ascii) (number : Z) (num_bits : Z) : Z :=
  compress (Z.lxor (uint32 number)
                   (uint32 (Z.shiftl (char_to_uint32 letter) 24))) num_bits.

Definition hash_sym_constant_raw_info (name : string) (num_bits : Z) : Z :=
  compress (hash_string name) num_bits.

Definition hash_int_constant_raw_info (value : Z) (num_bits : Z) : Z :=
  compress (uint32 value) num_bits.

Definition hash_float_constant_raw_info (value : spec_float) (num_bits : Z) : Z :=
  compress (double_to_uint32 value) num_bits.

(** ** Symbols *)

(** A [Symbol*]: an address.  0 is never the address of a record. *)
Abbreviation addr := Z (only parsing).

Inductive symbol_type :=
  | VARIABLE_SYMBOL_TYPE
  | IDENTIFIER_SYMBOL_TYPE
  | SYM_CONSTANT_SYMBOL_TYPE
  | INT_CONSTANT_SYMBOL_TYPE
  | FLOAT_CONSTANT_SYMBOL_TYPE.

Inductive impasse_kind :=
  | NONE_IMPASSE_TYPE
  | CONSTRAINT_FAILURE_IMPASSE_TYPE
  | CONFLICT_IMPASSE_TYPE
  | TIE_IMPASSE_TYPE
  | ONC_IMPASSE_TYPE
  | SNC_IMPASSE_TYPE.

(** The fields of an identifier that the functions below read or that name
    it.  [make_new_identifier] sets every other field of the structure to
    [NIL] / [FALSE] / 0 and nothing here reads them.  [impasse_type] and
    [allow_bottom_up_chunks] are the fields ebc.cpp reads through
    [goal->id->...]; the decision procedure, not the symbol table, assigns
    them. *)
Record identifier := {
  name_letter : ascii;
  name_number : Z;                 (* uint64_t *)
  level : Z;                       (* goal_stack_level *)
  promotion_level : Z;
  higher_goal : option addr;
  lower_goal : option addr;
  smem_lti : Z;                    (* 0 is NIL *)
  impasse_type : impasse_kind;
  allow_bottom_up_chunks : bool
}.

(** The variant part of the [Symbol] union. *)
Inductive symbol_data :=
  | var (name : string) (gensym_number : Z)
  | id (i : identifier)
  | sc (name : string) (production : option addr)
  | ic (value : Z)                 (* int64_t *)
  | fc (value : spec_float).       (* double *)

(** [sym->common] and the variant. *)
Record Symbol := {
  reference_count : Z;             (* uint64_t *)
  hash_id : Z;                     (* uint32_t *)
  tc_num : Z;
  variablized_symbol : option addr;
  unvariablized_symbol : option addr;
  original_var_symbol : option addr;
  data : symbol_data
}.

(** [sym->common.symbol_type]: the tag of the variant. *)
Definition data_kind (d : symbol_data) : symbol_type :=
  match d with
  | var _ _ => VARIABLE_SYMBOL_TYPE
  | id _ => IDENTIFIER_SYMBOL_TYPE
  | sc _ _ => SYM_CONSTANT_SYMBOL_TYPE
  | ic _ => INT_CONSTANT_SYMBOL_TYPE
  | fc _ => FLOAT_CONSTANT_SYMBOL_TYPE
  end.

Definition symbol_type_of (s : Symbol) : symbol_type := data_kind (data s).

Definition set_reference_count (rc : Z) (s : Symbol) : Symbol :=
  {| reference_count := rc; hash_id := hash_id s; tc_num := tc_num s;
     variablized_symbol := variablized_symbol s;
     unvariablized_symbol := unvariablized_symbol s;
     original_var_symbol := original_var_symbol s;
     data := data s |}.

(** The hashing callbacks handed to [make_hash_table] (lines 113-141). *)
Definition hash_variable (item : Symbol) (num_bits : Z) : Z :=
  match data item with
  | var name _ => compress (hash_string name) num_bits
  | _ => 0
  end.

Definition hash_identifier (item : Symbol) (num_bits : Z) : Z :=
  match data item with
  | id i => compress (Z.lxor (uint32 (name_number i))
                             (uint32 (Z.shiftl (char_to_uint32 (name_letter i)) 24))) num_bits
  | _ => 0
  end.

Definition hash_sym_constant (item : Symbol) (num_bits : Z) : Z :=
  match data item with
  | sc name _ => compress (hash_string name) num_bits
  | _ => 0
  end.

Definition hash_int_constant (item : Symbol) (num_bits : Z) : Z :=
  match data item with
  | ic value => compress (uint32 value) num_bits
  | _ => 0
  end.

Definition hash_float_constant (item : Symbol) (num_bits : Z) : Z :=
  match data item with
  | fc value => compress (double_to_uint32 value) num_bits
  | _ => 0
  end.

Definition hash_callback (k : symbol_type) : Symbol -> Z -> Z :=
  match k with
  | VARIABLE_SYMBOL_TYPE => hash_variable
  | IDENTIFIER_SYMBOL_TYPE => hash_identifier
  | SYM_CONSTANT_SYMBOL_TYPE => hash_sym_constant
  | INT_CONSTANT_SYMBOL_TYPE => hash_int_constant
  | FLOAT_CONSTANT_SYMBOL_TYPE => hash_float_constant
  end.

(** ** Hash tables *)

(** Modelled from the spec: the resizable hash table (section 4.2) is
    implemented outside the files at hand.  It is open-chained with
    [2 ^ log2size] buckets; the chain of a bucket, linked through
    [next_in_hash_table] in the items, is the list of their addresses in
    chain order.  [count] is kept as an unbounded integer. *)
Record hash_table := {
  count : Z;
  log2size : Z;                            (* short *)
  buckets : gmap Z (list addr)
}.

Definition ht_size (ht : hash_table) : Z := Z.shiftl 1 (log2size ht).

(** [*(ht->buckets + hash_value)] *)
Definition bucket (ht : hash_table) (hash_value : Z) : list addr :=
  default [] (buckets ht !! hash_value).

(** Modelled from the spec: [for_each] visits the buckets in order and each
    chain from its head (section 4.2). *)
Definition all_items (ht : hash_table) : list addr :=
  flat_map (bucket ht) (seqZ 0 (ht_size ht)).

(** The callback applied to the record an item address points to. *)
Definition hash_item (heap : gmap Z Symbol) (h : Symbol -> Z -> Z)
    (item : addr) (num_bits : Z) : Z :=
  match heap !! item with
  | Some s => h s num_bits
  | None => 0
  end.

Definition push_item (hash_value : Z) (item : addr) (bs : gmap Z (list addr))
    : gmap Z (list addr) :=
  <[hash_value := item :: default [] (bs !! hash_value)]> bs.

(** Modelled from the spec: [resize] rehashes every item into the new number
    of buckets (section 4.2). *)
Definition resize_hash_table (heap : gmap Z Symbol) (h : Symbol -> Z -> Z)
    (ht : hash_table) (new_log2size : Z) : hash_table :=
  {| count := count ht;
     log2size := new_log2size;
     buckets := foldr (fun item bs => push_item (hash_item heap h item new_log2size) item bs)
                      ∅ (all_items ht) |}.

(** Modelled from the spec: [insert(item)] links the item at the head of its
    chain, after a [resize] "triggered when count > 2 x capacity"
    (section 4.2). *)
Definition add_to_hash_table (heap : gmap Z Symbol) (h : Symbol -> Z -> Z)
    (ht : hash_table) (item : addr) : hash_table :=
  let counted := {| count := count ht + 1; log2size := log2size ht; buckets := buckets ht |} in
  let ht' := if 2 * ht_size counted <? count counted
             then resize_hash_table heap h counted (log2size counted + 1)
             else counted in
  {| count := count ht';
     log2size := log2size ht';
     buckets := push_item (hash_item heap h item (log2size ht')) item (buckets ht') |}.

Fixpoint unlink (item : addr) (chain : list addr) : list addr :=
  match chain with
  | [] => []
  | x :: rest => if x =? item then rest else x :: unlink item rest
  end.

(** Modelled from the spec: [remove(item)] "unlinks from chain"
    (section 4.2). *)
Definition remove_from_hash_table (heap : gmap Z Symbol) (h : Symbol -> Z -> Z)
    (ht : hash_table) (item : addr) : hash_table :=
  let hash_value := hash_item heap h item (log2size ht) in
  {| count := count ht - 1;
     log2size := log2size ht;
     buckets := <[hash_value := unlink item (bucket ht hash_value)]> (buckets ht) |}.

(** Modelled from the spec: [make_hash_table] is outside the files at hand;
    a new table is empty, and its buckets are "sized as a power of two", two
    of them initially. *)
Definition make_hash_table : hash_table :=
  {| count := 0; log2size := 1; buckets := ∅ |}.

(** The walk [for ( ; sym!=NIL; sym = sym->common.next_in_hash_table)] of
    the [find_*] functions, with the test of the loop body as [matches]. *)
Fixpoint find_in_chain (heap : gmap Z Symbol) (matches : Symbol -> bool)
    (chain : list addr) : option addr :=
  match chain with
  | [] => None
  | sym :: rest =>
      match heap !! sym with
      | Some s => if matches s then Some sym else find_in_chain heap matches rest
      | None => find_in_chain heap matches rest
      end
  end.

(** ** Memory pools *)

(** Modelled from the spec: the slab allocator (section 4.1) is outside the
    files at hand.  [free] "returns the block to the free list; the block may
    be reused by the next allocate".  How many records a pool gains when it
    has to grow is not described; here it takes one fresh record from the
    general heap ([heap_top]). *)
Record memory_pool := { free_list : list addr }.

(** One value per symbol kind: the five tables, the five pools. *)
Record per_kind (A : Type) := {
  of_variable : A;
  of_identifier : A;
  of_sym_constant : A;
  of_int_constant : A;
  of_float_constant : A
}.
Arguments of_variable {A} _.
Arguments of_identifier {A} _.
Arguments of_sym_constant {A} _.
Arguments of_int_constant {A} _.
Arguments of_float_constant {A} _.

Definition get_kind {A : Type} (k : symbol_type) (p : per_kind A) : A :=
  match k with
  | VARIABLE_SYMBOL_TYPE => of_variable p
  | IDENTIFIER_SYMBOL_TYPE => of_identifier p
  | SYM_CONSTANT_SYMBOL_TYPE => of_sym_constant p
  | INT_CONSTANT_SYMBOL_TYPE => of_int_constant p
  | FLOAT_CONSTANT_SYMBOL_TYPE => of_float_constant p
  end.

Definition set_kind {A : Type} (k : symbol_type) (x : A) (p : per_kind A) : per_kind A :=
  match k with
  | VARIABLE_SYMBOL_TYPE =>
      {| of_variable := x; of_identifier := of_identifier p;
         of_sym_constant := of_sym_constant p; of_int_constant := of_int_constant p;
         of_float_constant := of_float_constant p |}
  | IDENTIFIER_SYMBOL_TYPE =>
      {| of_variable := of_variable p; of_identifier := x;
         of_sym_constant := of_sym_constant p; of_int_constant := of_int_constant p;
         of_float_constant := of_float_constant p |}
  | SYM_CONSTANT_SYMBOL_TYPE =>
      {| of_variable := of_variable p; of_identifier := of_identifier p;
         of_sym_constant := x; of_int_constant := of_int_constant p;
         of_float_constant := of_float_constant p |}
  | INT_CONSTANT_SYMBOL_TYPE =>
      {| of_variable := of_variable p; of_identifier := of_identifier p;
         of_sym_constant := of_sym_constant p; of_int_constant := x;
         of_float_constant := of_float_constant p |}
  | FLOAT_CONSTANT_SYMBOL_TYPE =>
      {| of_variable := of_variable p; of_identifier := of_identifier p;
         of_sym_constant := of_sym_constant p; of_int_constant := of_int_constant p;
         of_float_constant := x |}
  end.

(** ** The agent *)

(** The file system as far as [reset_id_counters] touches it. *)
Record file_system := {
  writable : bool;                         (* does fopen (..., "w") succeed? *)
  files : gmap string string
}.

(** The part of [agent] the three files use. *)
Record agent := {
  heap : gmap Z Symbol;                    (* the live symbol records *)
  heap_top : addr;                         (* first address not yet handed to a pool *)
  hash_tables : per_kind hash_table;
  pools : per_kind memory_pool;
  current_symbol_hash_id : Z;              (* uint32_t *)
  id_counter : list Z;                     (* uint64_t id_counter[26] *)
  top_goal : option addr;
  bottom_goal : option addr;
  init_count : Z;                          (* uint64_t *)
  d_cycle_count : Z;                       (* uint64_t *)
  smem_connected : bool;                   (* smem_db->get_status() == connected *)
  smem_notified : bool;                    (* smem_reset_id_counters was called *)
  trace_chunks_warnings : bool;            (* trace_settings[TRACE_CHUNKS_WARNINGS_SYSPARAM] *)
  printed : list string;                   (* print (thisAgent, ...), printa_sf *)
  xml_warnings : list string;              (* xml_generate_warning *)
  xml_verbose : list string;               (* xml_generate_verbose *)
  fs : file_system
}.

Definition variable_hash_table (a : agent) := of_variable (hash_tables a).
Definition identifier_hash_table (a : agent) := of_identifier (hash_tables a).
Definition sym_constant_hash_table (a : agent) := of_sym_constant (hash_tables a).
Definition int_constant_hash_table (a : agent) := of_int_constant (hash_tables a).
Definition float_constant_hash_table (a : agent) := of_float_constant (hash_tables a).

(** Assignments to one field of the agent. *)
Definition set_heap (x : gmap Z Symbol) (a : agent) : agent :=
  {| heap := x; heap_top := heap_top a; hash_tables := hash_tables a; pools := pools a;
     current_symbol_hash_id := current_symbol_hash_id a; id_counter := id_counter a;
     top_goal := top_goal a; bottom_goal := bottom_goal a; init_count := init_count a;
     d_cycle_count := d_cycle_count a; smem_connected := smem_connected a;
     smem_notified := smem_notified a;
     trace_chunks_warnings := trace_chunks_warnings a; printed := printed a;
     xml_warnings := xml_warnings a; xml_verbose := xml_verbose a; fs := fs a |}.

Definition set_heap_top (x : addr) (a : agent) : agent :=
  {| heap := heap a; heap_top := x; hash_tables := hash_tables a; pools := pools a;
     current_symbol_hash_id := current_symbol_hash_id a; id_counter := id_counter a;
     top_goal := top_goal a; bottom_goal := bottom_goal a; init_count := init_count a;
     d_cycle_count := d_cycle_count a; smem_connected := smem_connected a;
     smem_notified := smem_notified a;
     trace_chunks_warnings := trace_chunks_warnings a; printed := printed a;
     xml_warnings := xml_warnings a; xml_verbose := xml_verbose a; fs := fs a |}.

Definition set_hash_tables (x : per_kind hash_table) (a : agent) : agent :=
  {| heap := heap a; heap_top := heap_top a; hash_tables := x; pools := pools a;
     current_symbol_hash_id := current_symbol_hash_id a; id_counter := id_counter a;
     top_goal := top_goal a; bottom_goal := bottom_goal a; init_count := init_count a;
     d_cycle_count := d_cycle_count a; smem_connected := smem_connected a;
     smem_notified := smem_notified a;
     trace_chunks_warnings := trace_chunks_warnings a; printed := printed a;
     xml_warnings := xml_warnings a; xml_verbose := xml_verbose a; fs := fs a |}.

Definition set_pools (x : per_kind memory_pool) (a : agent) : agent :=
  {| heap := heap a; heap_top := heap_top a; hash_tables := hash_tables a; pools := x;
     current_symbol_hash_id := current_symbol_hash_id a; id_counter := id_counter a;
     top_goal := top_goal a; bottom_goal := bottom_goal a; init_count := init_count a;
     d_cycle_count := d_cycle_count a; smem_connected := smem_connected a;
     smem_notified := smem_notified a;
     trace_chunks_warnings := trace_chunks_warnings a; printed := printed a;
     xml_warnings := xml_warnings a; xml_verbose := xml_verbose a; fs := fs a |}.

Definition set_current_symbol_hash_id (x : Z) (a : agent) : agent :=
  {| heap := heap a; heap_top := heap_top a; hash_tables := hash_tables a;
     pools := pools a; current_symbol_hash_id := x; id_counter := id_counter a;
     top_goal := top_goal a; bottom_goal := bottom_goal a; init_count := init_count a;
     d_cycle_count := d_cycle_count a; smem_connected := smem_connected a;
     smem_notified := smem_notified a;
     trace_chunks_warnings := trace_chunks_warnings a; printed := printed a;
     xml_warnings := xml_warnings a; xml_verbose := xml_verbose a; fs := fs a |}.

Definition set_id_counter (x : list Z) (a : agent) : agent :=
  {| heap := heap a; heap_top := heap_top a; hash_tables := hash_tables a;
     pools := pools a; current_symbol_hash_id := current_symbol_hash_id a;
     id_counter := x; top_goal := top_goal a; bottom_goal := bottom_goal a;
     init_count := init_count a; d_cycle_count := d_cycle_count a;
     smem_connected := smem_connected a; smem_notified := smem_notified a;
     trace_chunks_warnings := trace_chunks_warnings a; printed := printed a;
     xml_warnings := xml_warnings a; xml_verbose := xml_verbose a; fs := fs a |}.

Definition set_smem_notified (x : bool) (a : agent) : agent :=
  {| heap := heap a; heap_top := heap_top a; hash_tables := hash_tables a;
     pools := pools a; current_symbol_hash_id := current_symbol_hash_id a;
     id_counter := id_counter a; top_goal := top_goal a; bottom_goal := bottom_goal a;
     init_count := init_count a; d_cycle_count := d_cycle_count a;
     smem_connected := smem_connected a; smem_notified := x;
     trace_chunks_warnings := trace_chunks_warnings a; printed := printed a;
     xml_warnings := xml_warnings a; xml_verbose := xml_verbose a; fs := fs a |}.

Definition set_printed (x : list string) (a : agent) : agent :=
  {| heap := heap a; heap_top := heap_top a; hash_tables := hash_tables a;
     pools := pools a; current_symbol_hash_id := current_symbol_hash_id a;
     id_counter := id_counter a; top_goal := top_goal a; bottom_goal := bottom_goal a;
     init_count := init_count a; d_cycle_count := d_cycle_count a;
     smem_connected := smem_connected a; smem_notified := smem_notified a;
     trace_chunks_warnings := trace_chunks_warnings a; printed := x;
     xml_warnings := xml_warnings a; xml_verbose := xml_verbose a; fs := fs a |}.

Definition set_xml_warnings (x : list string) (a : agent) : agent :=
  {| heap := heap a; heap_top := heap_top a; hash_tables := hash_tables a;
     pools := pools a; current_symbol_hash_id := current_symbol_hash_id a;
     id_counter := id_counter a; top_goal := top_goal a; bottom_goal := bottom_goal a;
     init_count := init_count a; d_cycle_count := d_cycle_count a;
     smem_connected := smem_connected a; smem_notified := smem_notified a;
     trace_chunks_warnings := trace_chunks_warnings a; printed := printed a;
     xml_warnings := x; xml_verbose := xml_verbose a; fs := fs a |}.

Definition set_xml_verbose (x : list string) (a : agent) : agent :=
  {| heap := heap a; heap_top := heap_top a; hash_tables := hash_tables a;
     pools := pools a; current_symbol_hash_id := current_symbol_hash_id a;
     id_counter := id_counter a; top_goal := top_goal a; bottom_goal := bottom_goal a;
     init_count := init_count a; d_cycle_count := d_cycle_count a;
     smem_connected := smem_connected a; smem_notified := smem_notified a;
     trace_chunks_warnings := trace_chunks_warnings a; printed := printed a;
     xml_warnings := xml_warnings a; xml_verbose := x; fs := fs a |}.

Definition set_fs (x : file_system) (a : agent) : agent :=
  {| heap := heap a; heap_top := heap_top a; hash_tables := hash_tables a;
     pools := pools a; current_symbol_hash_id := current_symbol_hash_id a;
     id_counter := id_counter a; top_goal := top_goal a; bottom_goal := bottom_goal a;
     init_count := init_count a; d_cycle_count := d_cycle_count a;
     smem_connected := smem_connected a; smem_notified := smem_notified a;
     trace_chunks_warnings := trace_chunks_warnings a; printed := printed a;
     xml_warnings := xml_warnings a; xml_verbose := xml_verbose a; fs := x |}.

Definition set_top_goal (x : option addr) (a : agent) : agent :=
  {| heap := heap a; heap_top := heap_top a; hash_tables := hash_tables a;
     pools := pools a; current_symbol_hash_id := current_symbol_hash_id a;
     id_counter := id_counter a; top_goal := x; bottom_goal := bottom_goal a;
     init_count := init_count a; d_cycle_count := d_cycle_count a;
     smem_connected := smem_connected a; smem_notified := smem_notified a;
     trace_chunks_warnings := trace_chunks_warnings a; printed := printed a;
     xml_warnings := xml_warnings a; xml_verbose := xml_verbose a; fs := fs a |}.

Definition set_bottom_goal (x : option addr) (a : agent) : agent :=
  {| heap := heap a; heap_top := heap_top a; hash_tables := hash_tables a;
     pools := pools a; current_symbol_hash_id := current_symbol_hash_id a;
     id_counter := id_counter a; top_goal := top_goal a; bottom_goal := x;
     init_count := init_count a; d_cycle_count := d_cycle_count a;
     smem_connected := smem_connected a; smem_notified := smem_notified a;
     trace_chunks_warnings := trace_chunks_warnings a; printed := printed a;
     xml_warnings := xml_warnings a; xml_verbose := xml_verbose a; fs := fs a |}.

Definition set_init_count (x : Z) (a : agent) : agent :=
  {| heap := heap a; heap_top := heap_top a; hash_tables := hash_tables a;
     pools := pools a; current_symbol_hash_id := current_symbol_hash_id a;
     id_counter := id_counter a; top_goal := top_goal a; bottom_goal := bottom_goal a;
     init_count := x; d_cycle_count := d_cycle_count a;
     smem_connected := smem_connected a; smem_notified := smem_notified a;
     trace_chunks_warnings := trace_chunks_warnings a; printed := printed a;
     xml_warnings := xml_warnings a; xml_verbose := xml_verbose a; fs := fs a |}.

Definition set_d_cycle_count (x : Z) (a : agent) : agent :=
  {| heap := heap a; heap_top := heap_top a; hash_tables := hash_tables a;
     pools := pools a; current_symbol_hash_id := current_symbol_hash_id a;
     id_counter := id_counter a; top_goal := top_goal a; bottom_goal := bottom_goal a;
     init_count := init_count a; d_cycle_count := x;
     smem_connected := smem_connected a; smem_notified := smem_notified a;
     trace_chunks_warnings := trace_chunks_warnings a; printed := printed a;
     xml_warnings := xml_warnings a; xml_verbose := xml_verbose a; fs := fs a |}.

Definition set_smem_connected (x : bool) (a : agent) : agent :=
  {| heap := heap a; heap_top := heap_top a; hash_tables := hash_tables a;
     pools := pools a; current_symbol_hash_id := current_symbol_hash_id a;
     id_counter := id_counter a; top_goal := top_goal a; bottom_goal := bottom_goal a;
     init_count := init_count a; d_cycle_count := d_cycle_count a; smem_connected := x;
     smem_notified := smem_notified a;
     trace_chunks_warnings := trace_chunks_warnings a; printed := printed a;
     xml_warnings := xml_warnings a; xml_verbose := xml_verbose a; fs := fs a |}.

Definition set_trace_chunks_warnings (x : bool) (a : agent) : agent :=
  {| heap := heap a; heap_top := heap_top a; hash_tables := hash_tables a;
     pools := pools a; current_symbol_hash_id := current_symbol_hash_id a;
     id_counter := id_counter a; top_goal := top_goal a; bottom_goal := bottom_goal a;
     init_count := init_count a; d_cycle_count := d_cycle_count a;
     smem_connected := smem_connected a; smem_notified := smem_notified a;
     trace_chunks_warnings := x; printed := printed a; xml_warnings := xml_warnings a;
     xml_verbose := xml_verbose a; fs := fs a |}.

Definition table (k : symbol_type) (a : agent) : hash_table := get_kind k (hash_tables a).
Definition set_table (k : symbol_type) (ht : hash_table) (a : agent) : agent :=
  set_hash_tables (set_kind k ht (hash_tables a)) a.
Definition pool (k : symbol_type) (a : agent) : memory_pool := get_kind k (pools a).
Definition set_pool (k : symbol_type) (p : memory_pool) (a : agent) : agent :=
  set_pools (set_kind k p (pools a)) a.

(** ** symtab.cpp: lookup *)

Definition find_variable (a : agent) (name : string) : option addr :=
  let hash_value := hash_variable_raw_info name (log2size (variable_hash_table a)) in
  find_in_chain (heap a)
    (fun sym => match data sym with
                | var n _ => String.eqb n name      (* !strcmp (sym->var.name, name) *)
                | _ => false
                end)
    (bucket (variable_hash_table a) hash_value).

Definition find_identifier (a : agent) (letter : ascii) (number : Z) : option addr :=
  let hash_value := hash_identifier_raw_info letter number
                      (log2size (identifier_hash_table a)) in
  find_in_chain (heap a)
    (fun sym => match data sym with
                | id i => Ascii.eqb letter (name_letter i) && (number =? name_number i)
                | _ => false
                end)
    (bucket (identifier_hash_table a) hash_value).

Definition find_sym_constant (a : agent) (name : string) : option addr :=
  let hash_value := hash_sym_constant_raw_info name (log2size (sym_constant_hash_table a)) in
  find_in_chain (heap a)
    (fun sym => match data sym with
                | sc n _ => String.eqb n name       (* !strcmp (sym->sc.name, name) *)
                | _ => false
                end)
    (bucket (sym_constant_hash_table a) hash_value).

Definition find_int_constant (a : agent) (value : Z) : option addr :=
  let hash_value := hash_int_constant_raw_info value (log2size (int_constant_hash_table a)) in
  find_in_chain (heap a)
    (fun sym => match data sym with
                | ic v => value =? v
                | _ => false
                end)
    (bucket (int_constant_hash_table a) hash_value).

(** [value == sym->fc.value] is the IEEE comparison: [SFeqb], false whenever
    either side is a NaN. *)
Definition find_float_constant (a : agent) (value : spec_float) : option addr :=
  let hash_value := hash_float_constant_raw_info value (log2size (float_constant_hash_table a)) in
  find_in_chain (heap a)
    (fun sym => match data sym with
                | fc v => SFeqb value v
                | _ => false
                end)
    (bucket (float_constant_hash_table a) hash_value).

(** ** symtab.cpp: reference counts, allocation, creation *)

(** Modelled from the spec: [symbol_add_ref] and [symbol_remove_ref] are
    declared in symtab.h, outside the files at hand.  "add_ref(s),
    release(s): refcount maintenance.  release dropping to zero triggers
    deallocation" (section 4.3).  An address that is not live is left alone
    (the C++ behaviour there is undefined). *)
Definition symbol_add_ref (a : agent) (x : addr) : agent :=
  match heap a !! x with
  | Some s => set_heap (<[x := set_reference_count (uint64 (reference_count s + 1)) s]> (heap a)) a
  | None => a
  end.

Definition allocate_with_pool (k : symbol_type) (a : agent) : agent * addr :=
  match free_list (pool k a) with
  | block :: rest => (set_pool k {| free_list := rest |} a, block)
  | [] => (set_heap_top (heap_top a + 1) a, heap_top a)
  end.

Definition free_with_pool (k : symbol_type) (item : addr) (a : agent) : agent :=
  set_pool k {| free_list := item :: free_list (pool k a) |}
    (set_heap (delete item (heap a)) a).

(** [thisAgent->current_symbol_hash_id += 137] (line 152). *)
Definition get_next_symbol_hash_id (a : agent) : agent * Z :=
  let next := uint32 (current_symbol_hash_id a + 137) in
  (set_current_symbol_hash_id next a, next).

(** The creation sequence every [make_*] function repeats when the symbol is
    new: [allocate_with_pool], the common fields with [reference_count = 0]
    and [hash_id = get_next_symbol_hash_id], the variant fields,
    [symbol_add_ref], [add_to_hash_table]. *)
Definition new_symbol (a : agent) (d : symbol_data) : agent * addr :=
  let k := data_kind d in
  let '(a1, sym) := allocate_with_pool k a in
  let '(a2, hid) := get_next_symbol_hash_id a1 in
  let a3 := set_heap (<[sym := {| reference_count := 0; hash_id := hid; tc_num := 0;
                                  variablized_symbol := None;
                                  unvariablized_symbol := None;
                                  original_var_symbol := None;
                                  data := d |}]> (heap a2)) a2 in
  let a4 := symbol_add_ref a3 sym in
  (set_table k (add_to_hash_table (heap a4) (hash_callback k) (table k a4) sym) a4, sym).

Definition make_variable (a : agent) (name : string) : agent * addr :=
  match find_variable a name with
  | Some sym => (symbol_add_ref a sym, sym)
  | None => new_symbol a (var name 0)
  end.

Definition isalpha (c : ascii) : bool :=
  let n := Z.of_N (N_of_ascii c) in
  ((65 <=? n) && (n <=? 90)) || ((97 <=? n) && (n <=? 122)).

Definition islower (c : ascii) : bool :=
  let n := Z.of_N (N_of_ascii c) in (97 <=? n) && (n <=? 122).

Definition toupper (c : ascii) : ascii :=
  if islower c then ascii_of_N (N_of_ascii c - 32) else c.

(** [name_letter - 'A'] as an index into [id_counter]. *)
Definition letter_index (c : ascii) : nat := Z.to_nat (Z.of_N (N_of_ascii c) - 65).

(** The letter as [make_new_identifier] stores it (lines 369-373). *)
Definition normalize_letter (letter : ascii) : ascii :=
  if isalpha letter
  then (if islower letter then toupper letter else letter)
  else "I"%char.

(** [make_new_identifier] (lines 366-443); the arguments [letter], [lvl] and
    [number] are the source's [name_letter], [level] and [name_number].
    [name_number == NIL], that is 0, stands for "no number given".  The
    counter is updated between the allocation and the insertion in the
    source; the two do not interact, and the model updates it first. *)
Definition make_new_identifier (a : agent) (letter : ascii) (lvl : Z)
    (number : Z) : agent * addr :=
  let letter := normalize_letter letter in
  let current_number := id_counter a !!! letter_index letter in
  let '(number, counters) :=
    if number =? 0
    then (current_number,
          <[letter_index letter := uint64 (current_number + 1)]> (id_counter a))
    else if current_number <=? number
         then (number, <[letter_index letter := uint64 (number + 1)]> (id_counter a))
         else (number, id_counter a) in
  new_symbol (set_id_counter counters a)
    (id {| name_letter := letter;
           name_number := number;
           level := lvl;
           promotion_level := lvl;
           higher_goal := None;
           lower_goal := None;
           smem_lti := 0;
           impasse_type := NONE_IMPASSE_TYPE;
           allow_bottom_up_chunks := false |}).

Definition make_sym_constant (a : agent) (name : string) : agent * addr :=
  match find_sym_constant a name with
  | Some sym => (symbol_add_ref a sym, sym)
  | None => new_symbol a (sc name None)
  end.

Definition make_int_constant (a : agent) (value : Z) : agent * addr :=
  match find_int_constant a value with
  | Some sym => (symbol_add_ref a sym, sym)
  | None => new_symbol a (ic value)
  end.

Definition make_float_constant (a : agent) (value : spec_float) : agent * addr :=
  match find_float_constant a value with
  | Some sym => (symbol_add_ref a sym, sym)
  | None => new_symbol a (fc value)
  end.

(** [deallocate_symbol] (lines 530-572).  Freeing the name string has no
    counterpart: the name is part of the record that leaves [heap].  The
    [default] branch of the switch needs a tag outside the five kinds, which
    [symbol_data] excludes. *)
Definition deallocate_symbol (a : agent) (sym : addr) : agent :=
  match heap a !! sym with
  | Some s =>
      match data s with
      | var _ _ =>
          free_with_pool VARIABLE_SYMBOL_TYPE sym
            (set_table VARIABLE_SYMBOL_TYPE
               (remove_from_hash_table (heap a) hash_variable (variable_hash_table a) sym) a)
      | id _ =>
          free_with_pool IDENTIFIER_SYMBOL_TYPE sym
            (set_table IDENTIFIER_SYMBOL_TYPE
               (remove_from_hash_table (heap a) hash_identifier (identifier_hash_table a) sym) a)
      | sc _ _ =>
          free_with_pool SYM_CONSTANT_SYMBOL_TYPE sym
            (set_table SYM_CONSTANT_SYMBOL_TYPE
               (remove_from_hash_table (heap a) hash_sym_constant (sym_constant_hash_table a) sym) a)
      | ic _ =>
          free_with_pool INT_CONSTANT_SYMBOL_TYPE sym
            (set_table INT_CONSTANT_SYMBOL_TYPE
               (remove_from_hash_table (heap a) hash_int_constant (int_constant_hash_table a) sym) a)
      | fc _ =>
          free_with_pool FLOAT_CONSTANT_SYMBOL_TYPE sym
            (set_table FLOAT_CONSTANT_SYMBOL_TYPE
               (remove_from_hash_table (heap a) hash_float_constant (float_constant_hash_table a) sym) a)
      end
  | None => a
  end.

(** Modelled from the spec: see [symbol_add_ref]. *)
Definition symbol_remove_ref (a : agent) (x : addr) : agent :=
  match heap a !! x with
  | Some s =>
      let rc := uint64 (reference_count s - 1) in
      let a1 := set_heap (<[x := set_reference_count rc s]> (heap a)) a in
      if rc =? 0 then deallocate_symbol a1 x else a1
  | None => a
  end.

(** ** symtab.cpp: the identifier counters and the leak report *)

Definition TAB : string := String "009"%char EmptyString.
Definition NEWLINE : string := String "010"%char EmptyString.

Definition print (msg : string) (a : agent) : agent :=
  set_printed (printed a ++ [msg]) a.

Definition xml_generate_warning (msg : string) (a : agent) : agent :=
  set_xml_warnings (xml_warnings a ++ [msg]) a.

(** [fopen (path, "w")]: the stream, with the file created or emptied, when
    the file system lets the file be written. *)
Definition fopen_w (path : string) (a : agent) : agent * option string :=
  if writable (fs a)
  then (set_fs {| writable := true; files := <[path := EmptyString]> (files (fs a)) |} a,
        Some path)
  else (a, None).

(** [fprintf (f, "%s", msg)] *)
Definition fprintf (f : string) (msg : string) (a : agent) : agent :=
  set_fs {| writable := writable (fs a);
            files := <[f := (default EmptyString (files (fs a) !! f) ++ msg)%string]>
                       (files (fs a)) |} a.

(** Modelled from the spec: [do_for_all_items_in_hash_table] is outside the
    files at hand.  "for_each(visitor, cookie): iterates; visitor returns
    stop?" (section 4.2).  The visitor's effects are threaded through a state
    [S]. *)
Fixpoint do_for_all_items {S : Type} (f : S -> addr -> S * bool) (items : list addr)
    (st : S) : S :=
  match items with
  | [] => st
  | item :: rest =>
      let '(st', stop) := f st item in
      if stop then st' else do_for_all_items f rest st'
  end.

Definition do_for_all_items_in_hash_table {S : Type} (ht : hash_table)
    (f : S -> addr -> S * bool) (st : S) : S :=
  do_for_all_items f (all_items ht) st.

(** Modelled from the spec: [smem_count_ltis] belongs to the semantic memory,
    outside the files at hand.  It counts the "identifiers whose smem_lti
    back-reference is set" (section 4.3). *)
Definition smem_count_ltis (heap : gmap Z Symbol) (ltis : Z) (item : addr) : Z * bool :=
  match heap !! item with
  | Some {| data := id i |} =>
      (if smem_lti i =? 0 then ltis else uint64 (ltis + 1), false)
  | _ => (ltis, false)
  end.

(** The line [print_identifier_ref_info] formats for an identifier
    (lines 607-624): ["\t@%c%llu --> %llu\n"] for a long-term identifier,
    ["\t%c%llu --> %llu\n"] otherwise, in a 256-byte buffer. *)
Definition identifier_ref_line (i : identifier) (rc : Z) : string :=
  let lti := negb (smem_lti i =? 0) in
  let letter := String (name_letter i) EmptyString in
  snprintf 256
    ((if lti then TAB ++ "@" else TAB) ++ letter ++ to_string (name_number i)
     ++ " --> " ++ to_string rc ++ NEWLINE)%string.

(** [print_identifier_ref_info] (lines 598-637); [f] is the [FILE*] passed
    as [userdata], [None] for the null pointer. *)
Definition print_identifier_ref_info (f : option string) (a : agent) (item : addr)
    : agent * bool :=
  match heap a !! item with
  | Some sym =>
      match data sym with
      | id i =>
          if 0 <? reference_count sym
          then
            let msg := identifier_ref_line i (reference_count sym) in
            let a := print msg a in
            let a := xml_generate_warning msg a in
            let a := match f with
                     | Some file => fprintf file msg a
                     | None => a
                     end in
            (a, false)
          else (a, false)
      | _ => (print (TAB ++ "ERROR: HASHTABLE ITEM IS NOT AN IDENTIFIER!" ++ NEWLINE)%string a,
              true)
      end
  | None => (a, false)
  end.

(** Modelled from the spec: [smem_reset_id_counters] belongs to the semantic
    memory, outside the files at hand.  On success "any external long-term
    identifier subsystem is notified" (section 4.3); the notification is
    recorded and leaves the core state alone. *)
Definition smem_reset_id_counters (a : agent) : agent := set_smem_notified true a.

Definition leak_warning : string :=
  ("Internal warning:  wanted to reset identifier generator numbers, but" ++ NEWLINE ++
   "there are still some identifiers allocated.  (Probably a memory leak.)" ++ NEWLINE ++
   "(Leaving identifier numbers alone.)")%string.

(** [reset_id_counters] (lines 639-678). *)
Definition reset_id_counters (a : agent) : agent * bool :=
  let ht := identifier_hash_table a in
  let reset (a : agent) : agent * bool :=
    (* for (i=0; i<26; i++) thisAgent->id_counter[i]=1; *)
    let a := set_id_counter
               (foldl (fun counters i => <[i := 1]> counters) (id_counter a) (seq 0 26)) a in
    let a := if smem_connected a then smem_reset_id_counters a else a in
    (a, true) in
  if negb (count ht =? 0)
  then
    let ltis := do_for_all_items_in_hash_table ht (smem_count_ltis (heap a)) 0 in
    if negb (uint64 (count ht) =? ltis)
    then
      let a := print ("Internal warning:  wanted to reset identifier generator numbers, but"
                      ++ NEWLINE)%string a in
      let a := print ("there are still some identifiers allocated.  (Probably a memory leak.)"
                      ++ NEWLINE)%string a in
      let a := print ("(Leaving identifier numbers alone.)" ++ NEWLINE)%string a in
      let a := xml_generate_warning leak_warning a in
      let a := do_for_all_items_in_hash_table ht (print_identifier_ref_info None) a in
      let '(a, ids) := fopen_w "leaked-ids.txt" a in
      let a := match ids with
               | Some f => do_for_all_items_in_hash_table ht
                             (print_identifier_ref_info (Some f)) a   (* then fclose *)
               | None => a
               end in
      (a, false)
    else reset a
  else reset a.

(** ** symtab.cpp: gensym of symbolic constants *)

(** The loop of [generate_new_sym_constant] (lines 729-733): the name tried
    and the counter after it; [None] when [fuel] names were all taken.
    ["%lu"] prints the 64-bit counter in full where [unsigned long] has 64
    bits. *)
Fixpoint generate_new_sym_constant_name (fuel : nat) (a : agent) (prefix : string)
    (counter : Z) : option (string * Z) :=
  match fuel with
  | O => None
  | S fuel' =>
      let name := snprintf 2000 (prefix ++ to_string counter)%string in
      let counter := uint64 (counter + 1) in
      match find_sym_constant a name with
      | None => Some (name, counter)
      | Some _ => generate_new_sym_constant_name fuel' a prefix counter
      end
  end.

(** [generate_new_sym_constant] (lines 724-736): the agent, the new symbol
    and the value left in [*counter]. *)
Definition generate_new_sym_constant (fuel : nat) (a : agent) (prefix : string)
    (counter : Z) : option (agent * addr * Z) :=
  match generate_new_sym_constant_name fuel a prefix counter with
  | Some (name, counter') =>
      let '(a', New) := make_sym_constant a name in Some (a', New, counter')
  | None => None
  end.

(** [init_symbol_tables] (lines 155-170) on an agent without symbols: five
    empty tables, five empty pools, then [reset_id_counters]. *)
Definition empty_agent : agent :=
  {| heap := ∅; heap_top := 1;
     hash_tables := {| of_variable := make_hash_table; of_identifier := make_hash_table;
                       of_sym_constant := make_hash_table;
                       of_int_constant := make_hash_table;
                       of_float_constant := make_hash_table |};
     pools := {| of_variable := {| free_list := [] |}; of_identifier := {| free_list := [] |};
                 of_sym_constant := {| free_list := [] |};
                 of_int_constant := {| free_list := [] |};
                 of_float_constant := {| free_list := [] |} |};
     current_symbol_hash_id := 0;
     id_counter := replicate 26 0;
     top_goal := None; bottom_goal := None; init_count := 0; d_cycle_count := 0;
     smem_connected := false; smem_notified := false; trace_chunks_warnings := false;
     printed := []; xml_warnings := []; xml_verbose := [];
     fs := {| writable := true; files := ∅ |} |}.

Definition init_symbol_tables : agent := fst (reset_id_counters empty_agent).

(** ** Results of functions that can dereference a null pointer or loop *)

Inductive result (A : Type) :=
  | Done (x : A)
  | OutOfFuel
  | NullDereference.
Arguments Done {A} _.
Arguments OutOfFuel {A}.
Arguments NullDereference {A}.

(** The identifier record behind [sym->id], when [sym] is a live
    identifier. *)
Definition identifier_at (heap : gmap Z Symbol) (sym : addr) : option identifier :=
  match heap !! sym with
  | Some {| data := id i |} => Some i
  | _ => None
  end.

(** Modelled from the spec: [Symbol::to_string] is outside the files at
    hand.  An identifier prints as its letter and number (the form
    [print_identifier_ref_info] uses), a variable or symbolic constant as its
    name; numeric constants are never printed by the functions below. *)
Definition symbol_to_string (heap : gmap Z Symbol) (sym : addr) : string :=
  match heap !! sym with
  | Some s =>
      match data s with
      | var n _ => n
      | sc n _ => n
      | id i => String (name_letter i) EmptyString ++ to_string (name_number i)
      | _ => EmptyString
      end
  | None => EmptyString
  end.

(** ** ebc.cpp: the learning gate and the rule namer *)

Record production := { original_rule_name : string }.

Record instantiation := {
  prod : option production;                (* NULL for an architectural instantiation *)
  prod_name : addr;
  prod_naming_depth : Z;                   (* uint64_t *)
  match_goal : addr;
  match_goal_level : Z
}.

Record ebc_settings_array := {
  SETTING_EBC_LEARNING_ON : bool;
  SETTING_EBC_EXCEPT : bool;
  SETTING_EBC_ONLY : bool;
  SETTING_EBC_BOTTOM_ONLY : bool
}.

Inductive chunkNameFormats := numberedFormat | descriptiveFormat.

Inductive ebc_rule_type := ebc_no_rule | ebc_chunk | ebc_justification.

(** The members of [Explanation_Based_Chunker] the two functions use. *)
Record Explanation_Based_Chunker := {
  ebc_settings : ebc_settings_array;
  naming_style : chunkNameFormats;         (* ebc_params->naming_style->get_value() *)
  chunk_name_prefix : string;
  justification_name_prefix : string;
  chunk_naming_counter : Z;                (* uint64_t *)
  justification_naming_counter : Z;
  chunks_this_d_cycle : Z;
  justifications_this_d_cycle : Z;
  m_rule_type : ebc_rule_type;
  m_inst : option instantiation;
  m_chunk_inst : option instantiation;
  chunk_free_problem_spaces : list addr;
  chunky_problem_spaces : list addr;
  m_learning_on_for_instantiation : bool
}.

Definition set_m_learning_on_for_instantiation (x : bool) (e : Explanation_Based_Chunker)
    : Explanation_Based_Chunker :=
  {| ebc_settings := ebc_settings e; naming_style := naming_style e;
     chunk_name_prefix := chunk_name_prefix e;
     justification_name_prefix := justification_name_prefix e;
     chunk_naming_counter := chunk_naming_counter e;
     justification_naming_counter := justification_naming_counter e;
     chunks_this_d_cycle := chunks_this_d_cycle e;
     justifications_this_d_cycle := justifications_this_d_cycle e;
     m_rule_type := m_rule_type e; m_inst := m_inst e; m_chunk_inst := m_chunk_inst e;
     chunk_free_problem_spaces := chunk_free_problem_spaces e;
     chunky_problem_spaces := chunky_problem_spaces e;
     m_learning_on_for_instantiation := x |}.

Definition set_chunk_naming_counter (x : Z) (e : Explanation_Based_Chunker)
    : Explanation_Based_Chunker :=
  {| ebc_settings := ebc_settings e; naming_style := naming_style e;
     chunk_name_prefix := chunk_name_prefix e;
     justification_name_prefix := justification_name_prefix e;
     chunk_naming_counter := x;
     justification_naming_counter := justification_naming_counter e;
     chunks_this_d_cycle := chunks_this_d_cycle e;
     justifications_this_d_cycle := justifications_this_d_cycle e;
     m_rule_type := m_rule_type e; m_inst := m_inst e; m_chunk_inst := m_chunk_inst e;
     chunk_free_problem_spaces := chunk_free_problem_spaces e;
     chunky_problem_spaces := chunky_problem_spaces e;
     m_learning_on_for_instantiation := m_learning_on_for_instantiation e |}.

Definition set_justification_naming_counter (x : Z) (e : Explanation_Based_Chunker)
    : Explanation_Based_Chunker :=
  {| ebc_settings := ebc_settings e; naming_style := naming_style e;
     chunk_name_prefix := chunk_name_prefix e;
     justification_name_prefix := justification_name_prefix e;
     chunk_naming_counter := chunk_naming_counter e;
     justification_naming_counter := x;
     chunks_this_d_cycle := chunks_this_d_cycle e;
     justifications_this_d_cycle := justifications_this_d_cycle e;
     m_rule_type := m_rule_type e; m_inst := m_inst e; m_chunk_inst := m_chunk_inst e;
     chunk_free_problem_spaces := chunk_free_problem_spaces e;
     chunky_problem_spaces := chunky_problem_spaces e;
     m_learning_on_for_instantiation := m_learning_on_for_instantiation e |}.

Definition set_m_chunk_inst (x : option instantiation) (e : Explanation_Based_Chunker)
    : Explanation_Based_Chunker :=
  {| ebc_settings := ebc_settings e; naming_style := naming_style e;
     chunk_name_prefix := chunk_name_prefix e;
     justification_name_prefix := justification_name_prefix e;
     chunk_naming_counter := chunk_naming_counter e;
     justification_naming_counter := justification_naming_counter e;
     chunks_this_d_cycle := chunks_this_d_cycle e;
     justifications_this_d_cycle := justifications_this_d_cycle e;
     m_rule_type := m_rule_type e; m_inst := m_inst e; m_chunk_inst := x;
     chunk_free_problem_spaces := chunk_free_problem_spaces e;
     chunky_problem_spaces := chunky_problem_spaces e;
     m_learning_on_for_instantiation := m_learning_on_for_instantiation e |}.

Definition set_prod_naming_depth (x : Z) (i : instantiation) : instantiation :=
  {| prod := prod i; prod_name := prod_name i; prod_naming_depth := x;
     match_goal := match_goal i; match_goal_level := match_goal_level i |}.

(** [TOP_GOAL_LEVEL] is defined outside the files at hand; goal stack levels
    start at 1. *)
Definition TOP_GOAL_LEVEL : Z := 1.

(** [member_of_list] is defined outside the files at hand: membership of a
    pointer in a cons list. *)
Definition member_of_list (item : addr) (the_list : list addr) : bool :=
  existsb (Z.eqb item) the_list.

(** The trace each refusal writes when chunk warnings are traced
    (lines 132-139, 146-152, 161-167). *)
Definition trace_refusal (inst : instantiation) (reason : string) (a : agent) : agent :=
  if trace_chunks_warnings a
  then
    let message := (NEWLINE ++ "Will not attempt to learn a chunk for match of "
                    ++ symbol_to_string (heap a) (prod_name inst) ++ " because state "
                    ++ symbol_to_string (heap a) (match_goal inst) ++ reason)%string in
    set_xml_verbose (xml_verbose a ++ [message]) (print message a)
  else a.

(** [set_learning_for_instantiation] (lines 122-174).  [None] stands for the
    dereference of [inst->match_goal->id] when the match goal is not a live
    identifier. *)
Definition set_learning_for_instantiation (e : Explanation_Based_Chunker) (a : agent)
    (inst : instantiation) : option (Explanation_Based_Chunker * agent * bool) :=
  if negb (SETTING_EBC_LEARNING_ON (ebc_settings e))
     || (match_goal_level inst =? TOP_GOAL_LEVEL)
  then Some (set_m_learning_on_for_instantiation false e, a, false)
  else if SETTING_EBC_EXCEPT (ebc_settings e)
          && member_of_list (match_goal inst) (chunk_free_problem_spaces e)
  then Some (set_m_learning_on_for_instantiation false e,
             trace_refusal inst " was flagged to prevent learning" a, false)
  else if SETTING_EBC_ONLY (ebc_settings e)
          && negb (member_of_list (match_goal inst) (chunky_problem_spaces e))
  then Some (set_m_learning_on_for_instantiation false e,
             trace_refusal inst " was not flagged for learning" a, false)
  else if SETTING_EBC_BOTTOM_ONLY (ebc_settings e)
  then
    match identifier_at (heap a) (match_goal inst) with
    | Some g =>
        if negb (allow_bottom_up_chunks g)
        then Some (set_m_learning_on_for_instantiation false e,
                   trace_refusal inst " is not the bottom state" a, false)
        else Some (set_m_learning_on_for_instantiation true e, a, true)
    | None => None
    end
  else Some (set_m_learning_on_for_instantiation true e, a, true).

(** Modelled from the spec: [increment_counter] is defined outside the files
    at hand; it advances a 64-bit counter by one ("incrementing the counter",
    section 4.6). *)
Definition increment_counter (counter : Z) : Z := uint64 (counter + 1).

(** Modelled from the spec: the [symbolManager] members are declared outside
    the files at hand.  [find_str_constant] and [generate_new_str_constant]
    are the symbolic-constant functions of symtab.cpp under their later
    names; [make_str_constant_no_find] creates the constant without the
    lookup ("the name is installed without the find-then-insert",
    section 4.6). *)
Definition find_str_constant := find_sym_constant.
Definition generate_new_str_constant := generate_new_sym_constant.
Definition make_str_constant_no_find (a : agent) (name : string) : agent * addr :=
  new_symbol a (sc name None).

(** Step 2 of [generate_name_for_new_rule] (lines 204-214): the text added
    for the triggering instantiation. *)
Definition learning_depth_segment (inst : instantiation) : string :=
  match prod inst with
  | Some p =>
      let depth := if negb (prod_naming_depth inst =? 0)
                   then String "x" (to_string (uint64 (prod_naming_depth inst + 1)))
                   else EmptyString in
      (depth ++ "*" ++ original_rule_name p)%string
  | None => EmptyString
  end.

(** Step 3 (lines 217-236). *)
Definition impasse_type_segment (t : impasse_kind) : string :=
  match t with
  | CONSTRAINT_FAILURE_IMPASSE_TYPE => "*Failure"
  | CONFLICT_IMPASSE_TYPE => "*Conflict"
  | TIE_IMPASSE_TYPE => "*Tie"
  | ONC_IMPASSE_TYPE => "*OpNoChange"
  | SNC_IMPASSE_TYPE => "*StateNoChange"
  | NONE_IMPASSE_TYPE => ""
  end.

(** Step 4 (lines 239-247). *)
Definition time_segment (a : agent) (rule_number : Z) : string :=
  let init := if negb (init_count a =? 0)
              then (to_string (uint64 (init_count a + 1)) ++ "-")%string
              else EmptyString in
  ("*t" ++ init ++ to_string (d_cycle_count a) ++ "-" ++ to_string rule_number)%string.

(** [generate_name_for_new_rule] (lines 176-256). *)
Definition generate_name_for_new_rule (fuel : nat) (e : Explanation_Based_Chunker)
    (a : agent) : result (Explanation_Based_Chunker * agent * addr) :=
  (* Step 1: prefix and rule count *)
  let is_chunk := match m_rule_type e with ebc_chunk => true | _ => false end in
  let rule_prefix := if is_chunk then chunk_name_prefix e else justification_name_prefix e in
  let rule_number := if is_chunk then chunks_this_d_cycle e
                     else justifications_this_d_cycle e in
  let rule_naming_counter := if is_chunk then chunk_naming_counter e
                             else justification_naming_counter e in
  let set_rule_naming_counter := if is_chunk then set_chunk_naming_counter
                                 else set_justification_naming_counter in
  if negb (SETTING_EBC_LEARNING_ON (ebc_settings e))
     || match naming_style e with numberedFormat => true | _ => false end
  then
    match generate_new_str_constant fuel a rule_prefix
            (increment_counter rule_naming_counter) with
    | Some (a', sym, counter') => Done (set_rule_naming_counter counter' e, a', sym)
    | None => OutOfFuel
    end
  else
    match m_inst e with
    | None => NullDereference
    | Some inst =>
        (* Step 2: learning depth *)
        let e' := match prod inst, m_chunk_inst e with
                  | Some _, Some chunk_inst =>
                      Some (set_m_chunk_inst
                              (Some (set_prod_naming_depth
                                       (uint64 (prod_naming_depth inst + 1)) chunk_inst)) e)
                  | Some _, None => None
                  | None, _ => Some e
                  end in
        (* Step 3: impasse type of the goal above the match goal *)
        let impasse :=
          match identifier_at (heap a) (match_goal inst) with
          | Some g =>
              match higher_goal g with
              | Some h =>
                  match identifier_at (heap a) h with
                  | Some hg => Some (impasse_type hg)
                  | None => None
                  end
              | None => None
              end
          | None => None
          end in
        match e', impasse with
        | Some e', Some t =>
            let new_rule_name := (rule_prefix ++ learning_depth_segment inst
                                  ++ impasse_type_segment t
                                  ++ time_segment a rule_number)%string in
            match find_str_constant a new_rule_name with
            | Some _ =>
                match generate_new_str_constant fuel a new_rule_name 2 with
                | Some (a', sym, _) => Done (e', a', sym)
                | None => OutOfFuel
                end
            | None =>
                let '(a', sym) := make_str_constant_no_find a new_rule_name in
                Done (e', a', sym)
            end
        | _, _ => NullDereference
        end
    end.

(** ** decider.cpp: the state stack *)

(** The first loop of [get_state_stack_string] (lines 117-121). *)
Fixpoint count_stack_depth (fuel : nat) (heap : gmap Z Symbol) (lState : addr)
    (soarStackDepth : Z) : result Z :=
  match fuel with
  | O => OutOfFuel
  | S fuel' =>
      match identifier_at heap lState with
      | Some i =>
          match lower_goal i with
          | Some lower => count_stack_depth fuel' heap lower (soarStackDepth + 1)
          | None => Done soarStackDepth
          end
      | None => NullDereference
      end
  end.

(** The second loop (lines 126-131); [lState] is [None] for the null
    pointer. *)
Fixpoint append_all_states (fuel : nat) (heap : gmap Z Symbol) (lState : option addr)
    (notFirstItem : bool) (stateStackStr : string) : result string :=
  match lState with
  | None => Done stateStackStr
  | Some s =>
      match fuel with
      | O => OutOfFuel
      | S fuel' =>
          let stateStackStr := if notFirstItem then (stateStackStr ++ ", ")%string
                               else stateStackStr in
          match identifier_at heap s with
          | Some i =>
              append_all_states fuel' heap (lower_goal i) true
                (stateStackStr ++ symbol_to_string heap s)%string
          | None => NullDereference
          end
      end
  end.

(** [SoarDecider::get_state_stack_string] (lines 111-145): the text left in
    [stateStackStr] and the returned depth.  [soarStackDepth] is an [int];
    the model counts without the 32-bit limit. *)
Definition get_state_stack_string (fuel : nat) (a : agent) (stateStackStr : string)
    : result (string * Z) :=
  match top_goal a with
  | None => NullDereference
  | Some top =>
      match count_stack_depth fuel (heap a) top 1 with
      | Done soarStackDepth =>
          if soarStackDepth <? 4
          then
            match append_all_states fuel (heap a) (Some top) false stateStackStr with
            | Done str => Done (str, soarStackDepth)
            | OutOfFuel => OutOfFuel
            | NullDereference => NullDereference
            end
          else
            match identifier_at (heap a) top, bottom_goal a with
            | Some t, Some bottom =>
                match lower_goal t, identifier_at (heap a) bottom with
                | Some second, Some b =>
                    match higher_goal b with
                    | Some above_bottom =>
                        Done ((stateStackStr
                               ++ symbol_to_string (heap a) top
                               ++ ", "
                               ++ symbol_to_string (heap a) second
                               ++ (if Z.ltb 4 soarStackDepth then " ... " else ", ")
                               ++ symbol_to_string (heap a) above_bottom
                               ++ ", "
                               ++ symbol_to_string (heap a) bottom)%string,
                              soarStackDepth)
                    | None => NullDereference
                    end
                | _, _ => NullDereference
                end
            | _, _ => NullDereference
            end
      | OutOfFuel => OutOfFuel
      | NullDereference => NullDereference
      end
  end.

(** ** States for the examples *)

(** The decision procedure that builds the goal stack is outside the files
    at hand.  [push_goal] builds the stacks the examples below use: a new
    state identifier one level below the bottom goal, linked to it in both
    directions, the impasse recorded on the goal above; the new goal is the
    bottom of the stack and may learn bottom-up. *)
Definition set_identifier (sym : addr) (f : identifier -> identifier) (a : agent) : agent :=
  set_heap
    (alter (fun s =>
              {| reference_count := reference_count s; hash_id := hash_id s;
                 tc_num := tc_num s; variablized_symbol := variablized_symbol s;
                 unvariablized_symbol := unvariablized_symbol s;
                 original_var_symbol := original_var_symbol s;
                 data := match data s with
                         | id i => id (f i)
                         | d => d
                         end |}) sym (heap a)) a.

Definition as_lower_goal (above : option addr) (i : identifier) : identifier :=
  {| name_letter := name_letter i; name_number := name_number i; level := level i;
     promotion_level := promotion_level i; higher_goal := above;
     lower_goal := lower_goal i; smem_lti := smem_lti i;
     impasse_type := impasse_type i; allow_bottom_up_chunks := true |}.

Definition as_higher_goal (below : addr) (impasse : impasse_kind) (i : identifier)
    : identifier :=
  {| name_letter := name_letter i; name_number := name_number i; level := level i;
     promotion_level := promotion_level i; higher_goal := higher_goal i;
     lower_goal := Some below; smem_lti := smem_lti i;
     impasse_type := impasse; allow_bottom_up_chunks := false |}.

Definition push_goal (impasse : impasse_kind) (a : agent) : agent :=
  let lvl := match bottom_goal a with
             | Some b => match identifier_at (heap a) b with
                         | Some i => level i + 1
                         | None => TOP_GOAL_LEVEL
                         end
             | None => TOP_GOAL_LEVEL
             end in
  let '(a1, g) := make_new_identifier a "S" lvl 0 in
  let a2 := set_identifier g (as_lower_goal (bottom_goal a)) a1 in
  let a3 := match bottom_goal a with
            | Some b => set_identifier b (as_higher_goal g impasse) a2
            | None => set_top_goal (Some g) a2
            end in
  set_bottom_goal (Some g) a3.

(** A long-term identifier for the examples: the semantic memory, outside
    the files at hand, sets [smem_lti]. *)
Definition as_long_term (lti : Z) (i : identifier) : identifier :=
  {| name_letter := name_letter i; name_number := name_number i; level := level i;
     promotion_level := promotion_level i; higher_goal := higher_goal i;
     lower_goal := lower_goal i; smem_lti := lti;
     impasse_type := impasse_type i; allow_bottom_up_chunks := allow_bottom_up_chunks i |}.

(* ===================================================================== *)
(** * Part II: properties                                                 *)
(* ===================================================================== *)

(** ** Text *)

Lemma string_length_app (s t : string) :
  String.length (s ++ t) = (String.length s + String.length t)%nat.
Proof. induction s as [|c s IH]; simpl; [reflexivity | now rewrite IH]. Qed.

Lemma string_take_all (n : nat) (s : string) :
  (String.length s <= n)%nat -> string_take n s = s.
Proof.
  revert n; induction s as [|c s IH]; intros [|n] H; simpl in *; try reflexivity; try lia.
  f_equal. apply IH. lia.
Qed.

Lemma to_string_digits_length (fuel : nat) (n : Z) (acc : string) :
  (String.length (to_string_digits fuel n acc) <= S fuel + String.length acc)%nat.
Proof.
  revert n acc; induction fuel as [|fuel IH]; intros n acc; simpl; [lia|].
  destruct (n / 10 =? 0); simpl; [lia|].
  specialize (IH (n / 10) (String (digit_char (n mod 10)) acc)). simpl in IH. lia.
Qed.

Lemma to_string_length (n : Z) : (String.length (to_string n) <= 20)%nat.
Proof.
  unfold to_string. etransitivity; [apply to_string_digits_length|]. simpl. lia.
Qed.

(** A short prefix followed by a number fits the 2000-byte buffer of
    [generate_new_sym_constant]. *)
Lemma snprintf_2000_fits (prefix : string) (n : Z) :
  (String.length prefix <= 1979)%nat ->
  snprintf 2000 (prefix ++ to_string n) = (prefix ++ to_string n)%string.
Proof.
  intros H. unfold snprintf. apply string_take_all.
  rewrite string_length_app. pose proof (to_string_length n). lia.
Qed.

Example to_string_max : to_string (2 ^ 64 - 1) = "18446744073709551615"%string.
Proof. reflexivity. Qed.

(** ** The learning gate (ebc.cpp, [set_learning_for_instantiation]) *)

(** The four refusals, in the order the function tests them. *)
Definition learning_off_or_top_level (e : Explanation_Based_Chunker) (inst : instantiation)
    : Prop :=
  SETTING_EBC_LEARNING_ON (ebc_settings e) = false
  \/ match_goal_level inst = TOP_GOAL_LEVEL.

Definition except_and_chunk_free (e : Explanation_Based_Chunker) (inst : instantiation)
    : Prop :=
  SETTING_EBC_EXCEPT (ebc_settings e) = true
  /\ In (match_goal inst) (chunk_free_problem_spaces e).

Definition only_and_not_chunky (e : Explanation_Based_Chunker) (inst : instantiation)
    : Prop :=
  SETTING_EBC_ONLY (ebc_settings e) = true
  /\ ~ In (match_goal inst) (chunky_problem_spaces e).

Definition bottom_only_and_not_bottom (e : Explanation_Based_Chunker) (g : identifier)
    : Prop :=
  SETTING_EBC_BOTTOM_ONLY (ebc_settings e) = true
  /\ allow_bottom_up_chunks g = false.

Lemma member_of_list_In (x : addr) (l : list addr) :
  member_of_list x l = true <-> In x l.
Proof.
  unfold member_of_list. rewrite existsb_exists. split.
  - intros (y & Hy & E). apply Z.eqb_eq in E. now subst.
  - intros H. exists x. split; [assumption | apply Z.eqb_refl].
Qed.

Lemma member_of_list_not_In (x : addr) (l : list addr) :
  member_of_list x l = false <-> ~ In x l.
Proof.
  rewrite <- member_of_list_In. destruct (member_of_list x l); split; intros; congruence.
Qed.

(** C7.  For an instantiation whose match goal is a live identifier [g],
    [set_learning_for_instantiation] returns; it returns [false] exactly when
    learning is off or the firing is at the top level, or except-mode is on
    and the goal is chunk-free, or only-mode is on and the goal is not
    chunky, or bottom-only is on and [allow_bottom_up_chunks] is false; it
    returns [true] otherwise.  The member [m_learning_on_for_instantiation]
    is left equal to the result, a top-level firing is never eligible, and
    the trace shows the order of the tests: the reason written is that of the
    first refusal that applies. *)
Theorem set_learning_for_instantiation_spec
    (e : Explanation_Based_Chunker) (a : agent) (inst : instantiation) (g : identifier) :
  identifier_at (heap a) (match_goal inst) = Some g ->
  exists e' a' r,
    set_learning_for_instantiation e a inst = Some (e', a', r)
    /\ (r = false <->
          learning_off_or_top_level e inst \/ except_and_chunk_free e inst
          \/ only_and_not_chunky e inst \/ bottom_only_and_not_bottom e g)
    /\ (r = true <->
          ~ (learning_off_or_top_level e inst \/ except_and_chunk_free e inst
             \/ only_and_not_chunky e inst \/ bottom_only_and_not_bottom e g))
    /\ m_learning_on_for_instantiation e' = r
    /\ (match_goal_level inst = TOP_GOAL_LEVEL -> r = false)
    /\ (learning_off_or_top_level e inst -> a' = a)
    /\ (~ learning_off_or_top_level e inst -> except_and_chunk_free e inst ->
        a' = trace_refusal inst " was flagged to prevent learning" a)
    /\ (~ learning_off_or_top_level e inst -> ~ except_and_chunk_free e inst ->
        only_and_not_chunky e inst ->
        a' = trace_refusal inst " was not flagged for learning" a)
    /\ (~ learning_off_or_top_level e inst -> ~ except_and_chunk_free e inst ->
        ~ only_and_not_chunky e inst -> bottom_only_and_not_bottom e g ->
        a' = trace_refusal inst " is not the bottom state" a)
    /\ (r = true -> a' = a).
Proof.
  intros Hg. unfold set_learning_for_instantiation. rewrite Hg.
  destruct (negb (SETTING_EBC_LEARNING_ON (ebc_settings e))
            || (match_goal_level inst =? TOP_GOAL_LEVEL)) eqn:H1.
  { assert (R1 : learning_off_or_top_level e inst).
    { apply orb_true_iff in H1 as [H1|H1]; [left | right].
      - now apply negb_true_iff in H1.
      - now apply Z.eqb_eq in H1. }
    do 3 eexists; split; [reflexivity|]. simpl. intuition congruence. }
  assert (N1 : ~ learning_off_or_top_level e inst).
  { apply orb_false_iff in H1 as [H1a H1b]. apply negb_false_iff in H1a.
    apply Z.eqb_neq in H1b. intros [A|A]; congruence. }
  assert (T : match_goal_level inst <> TOP_GOAL_LEVEL) by (intros A; apply N1; now right).
  destruct (SETTING_EBC_EXCEPT (ebc_settings e)
            && member_of_list (match_goal inst) (chunk_free_problem_spaces e)) eqn:H2.
  { assert (R2 : except_and_chunk_free e inst).
    { apply andb_true_iff in H2 as [A B]. apply member_of_list_In in B. now split. }
    do 3 eexists; split; [reflexivity|]. simpl. intuition congruence. }
  assert (N2 : ~ except_and_chunk_free e inst).
  { intros [A B]. apply member_of_list_In in B. rewrite A, B in H2. discriminate. }
  destruct (SETTING_EBC_ONLY (ebc_settings e)
            && negb (member_of_list (match_goal inst) (chunky_problem_spaces e))) eqn:H3.
  { assert (R3 : only_and_not_chunky e inst).
    { apply andb_true_iff in H3 as [A B]. apply negb_true_iff in B.
      apply member_of_list_not_In in B. now split. }
    do 3 eexists; split; [reflexivity|]. simpl. intuition congruence. }
  assert (N3 : ~ only_and_not_chunky e inst).
  { intros [A B]. apply member_of_list_not_In in B. rewrite A, B in H3. discriminate. }
  destruct (SETTING_EBC_BOTTOM_ONLY (ebc_settings e)) eqn:H4.
  - destruct (allow_bottom_up_chunks g) eqn:H5; simpl.
    + assert (N4 : ~ bottom_only_and_not_bottom e g) by (intros [A B]; congruence).
      do 3 eexists; split; [reflexivity|]. simpl. intuition congruence.
    + assert (R4 : bottom_only_and_not_bottom e g) by (now split).
      do 3 eexists; split; [reflexivity|]. simpl. intuition congruence.
  - assert (N4 : ~ bottom_only_and_not_bottom e g) by (intros [A B]; congruence).
    do 3 eexists; split; [reflexivity|]. simpl. intuition congruence.
Qed.


(** ** Hash functions *)

Lemma lxor_range (n a b : Z) :
  0 <= a < 2 ^ n -> 0 <= b < 2 ^ n -> 0 <= Z.lxor a b < 2 ^ n.
Proof.
  intros Ha Hb.
  assert (Hx : 0 <= Z.lxor a b) by (apply Z.lxor_nonneg; lia).
  split; [assumption|].
  destruct (Z.eq_dec (Z.lxor a b) 0) as [E|E]; [rewrite E; lia|].
  assert (Hn : 0 < n).
  { destruct (Z_lt_le_dec 0 n) as [|Hn]; [assumption|]. exfalso.
    assert (2 ^ n <= 1).
    { destruct (Z.eq_dec n 0) as [->|]; [simpl; lia|]. rewrite Z.pow_neg_r; lia. }
    assert (a = 0) by lia. assert (b = 0) by lia. subst. now apply E. }
  apply Z.log2_lt_pow2; [lia|].
  eapply Z.le_lt_trans; [apply Z.log2_lxor; lia|].
  apply Z.max_lub_lt.
  - destruct (Z.eq_dec a 0) as [->|]; [simpl; lia|]. apply Z.log2_lt_pow2; lia.
  - destruct (Z.eq_dec b 0) as [->|]; [simpl; lia|]. apply Z.log2_lt_pow2; lia.
Qed.

Lemma compress_loop_range (fuel : nat) :
  forall h num_bits result,
    0 <= num_bits -> 0 <= result < 2 ^ num_bits ->
    0 <= compress_loop fuel h num_bits result < 2 ^ num_bits.
Proof.
  induction fuel as [|fuel IH]; intros h nb r Hnb Hr; simpl; [assumption|].
  destruct (h =? 0); [assumption|].
  apply IH; [assumption|]. apply lxor_range; [assumption|].
  unfold masks_for_n_low_order_bits. rewrite Z.land_ones by assumption.
  apply Z.mod_pos_bound. apply Z.pow_pos_nonneg; lia.
Qed.

(** The compressed hash is a bucket index. *)
Lemma compress_range (h num_bits : Z) :
  0 <= num_bits -> 0 <= compress h num_bits < 2 ^ num_bits.
Proof.
  intros Hnb. unfold compress. apply compress_loop_range; [assumption|].
  split; [lia | apply Z.pow_pos_nonneg; lia].
Qed.

(** With at least one bit per step, a value below [2 ^ fuel] is used up in
    [fuel] steps: more fuel changes nothing. *)
Lemma compress_loop_fuel (fuel : nat) :
  forall (k : nat) h num_bits result,
    1 <= num_bits -> 0 <= h < 2 ^ Z.of_nat fuel ->
    compress_loop (fuel + k) h num_bits result = compress_loop fuel h num_bits result.
Proof.
  induction fuel as [|fuel IH]; intros k h nb r Hnb Hh.
  - change (2 ^ Z.of_nat 0) with 1 in Hh. assert (h = 0) by lia. subst h.
    destruct k; reflexivity.
  - cbn [Nat.add compress_loop]. destruct (h =? 0); [reflexivity|].
    apply IH; [assumption|]. rewrite Z.shiftr_div_pow2 by lia.
    assert (0 < 2 ^ nb) by (apply Z.pow_pos_nonneg; lia).
    split; [apply Z.div_pos; lia|].
    apply Z.div_lt_upper_bound; [assumption|].
    rewrite Nat2Z.inj_succ, Z.pow_succ_r in Hh by lia.
    assert (2 ^ 1 <= 2 ^ nb) by (apply Z.pow_le_mono_r; lia).
    assert (0 < 2 ^ Z.of_nat fuel) by (apply Z.pow_pos_nonneg; lia).
    change (2 ^ 1) with 2 in *. nia.
Qed.

(** The 32 iterations [compress] is given are enough for a 32-bit hash. *)
Lemma compress_enough_fuel (k : nat) (h num_bits : Z) :
  1 <= num_bits -> 0 <= h < 2 ^ 32 ->
  compress_loop (32 + k) h num_bits 0 = compress_loop 32 h num_bits 0.
Proof. intros Hnb Hh. apply compress_loop_fuel; [assumption|]. exact Hh. Qed.

Lemma hash_callback_range (k : symbol_type) (s : Symbol) (num_bits : Z) :
  0 <= num_bits -> 0 <= hash_callback k s num_bits < 2 ^ num_bits.
Proof.
  intros Hnb. assert (0 < 2 ^ num_bits) by (apply Z.pow_pos_nonneg; lia).
  destruct k; simpl;
    unfold hash_variable, hash_identifier, hash_sym_constant, hash_int_constant,
      hash_float_constant;
    destruct (data s); try lia; now apply compress_range.
Qed.

(** ** Hash tables *)

Lemma ht_size_pow (ht : hash_table) : ht_size ht = 2 ^ log2size ht.
Proof. unfold ht_size. apply Z.shiftl_1_l. Qed.

Lemma flat_map_ext_elem {A B : Type} (f g : A -> list B) (l : list A) :
  (forall x, x ∈ l -> f x = g x) -> flat_map f l = flat_map g l.
Proof.
  induction l as [|x l IH]; intros H; simpl; [reflexivity|].
  rewrite (H x) by constructor. f_equal. apply IH. intros y Hy. apply H. now constructor.
Qed.

Lemma elem_of_flat_map {A B : Type} (f : A -> list B) (l : list A) (y : B) :
  y ∈ flat_map f l <-> exists x, x ∈ l /\ y ∈ f x.
Proof.
  rewrite list_elem_of_In, in_flat_map. split; intros (x & Hx & Hy); exists x.
  - now rewrite !list_elem_of_In.
  - now rewrite <- !list_elem_of_In.
Qed.

(** Changing one chain by one item changes the sequence of all items by
    that item. *)
Lemma flat_map_cons_at (l : list Z) (f g : Z -> list addr) (hv : Z) (x : addr) :
  NoDup l -> hv ∈ l -> g hv ≡ₚ x :: f hv ->
  (forall k, k ∈ l -> k <> hv -> g k = f k) ->
  flat_map g l ≡ₚ x :: flat_map f l.
Proof.
  induction l as [|k l IH]; intros Hnd Hin Hhv Hother; [now apply elem_of_nil in Hin|].
  apply NoDup_cons in Hnd as [Hk Hnd]. simpl.
  destruct (Z.eq_dec k hv) as [->|Hne].
  - rewrite Hhv. rewrite (flat_map_ext_elem g f l); [reflexivity|].
    intros y Hy. apply Hother; [now constructor|]. intros ->. contradiction.
  - rewrite Hother by (try constructor; assumption).
    apply elem_of_cons in Hin as [Hin|Hin]; [congruence|].
    rewrite IH; try assumption.
    + symmetry. apply Permutation_middle.
    + intros y Hy. apply Hother. now constructor.
Qed.

Lemma unlink_perm (x : addr) (chain : list addr) :
  x ∈ chain -> chain ≡ₚ x :: unlink x chain.
Proof.
  induction chain as [|y chain IH]; intros H; [now apply elem_of_nil in H|].
  simpl. destruct (y =? x) eqn:E.
  - apply Z.eqb_eq in E. now subst.
  - apply Z.eqb_neq in E. apply elem_of_cons in H as [H|H]; [congruence|].
    rewrite (IH H) at 1. apply perm_swap.
Qed.

Lemma unlink_absent (x : addr) (chain : list addr) : x ∉ chain -> unlink x chain = chain.
Proof.
  induction chain as [|y chain IH]; intros H; [reflexivity|]. simpl.
  apply not_elem_of_cons in H as [Hne H]. destruct (y =? x) eqn:E.
  - apply Z.eqb_eq in E. congruence.
  - now rewrite IH.
Qed.

Lemma elem_of_all_items (ht : hash_table) (x : addr) :
  x ∈ all_items ht <-> exists hv, 0 <= hv < ht_size ht /\ x ∈ bucket ht hv.
Proof.
  unfold all_items. rewrite elem_of_flat_map. split; intros (hv & H & Hx); exists hv.
  - apply elem_of_seqZ in H. split; [lia | assumption].
  - split; [apply elem_of_seqZ; lia | assumption].
Qed.

Section hash_table.
Variable h : Symbol -> Z -> Z.
Hypothesis h_range : forall s num_bits, 0 <= num_bits -> 0 <= h s num_bits < 2 ^ num_bits.

Lemma hash_item_range (heap : gmap Z Symbol) (item : addr) (num_bits : Z) :
  0 <= num_bits -> 0 <= hash_item heap h item num_bits < 2 ^ num_bits.
Proof.
  intros Hnb. unfold hash_item. destruct (heap !! item); [now apply h_range|].
  split; [lia | apply Z.pow_pos_nonneg; lia].
Qed.

(** Every item sits in the chain its hash selects. *)
Definition placed (heap : gmap Z Symbol) (ht : hash_table) : Prop :=
  forall hv x, x ∈ bucket ht hv -> hash_item heap h x (log2size ht) = hv.

(** The representation invariant of a table. *)
Record table_wf (heap : gmap Z Symbol) (ht : hash_table) : Prop := {
  wf_log2size : 1 <= log2size ht;
  wf_placed : placed heap ht;
  wf_nodup : NoDup (all_items ht);
  wf_count : count ht = Z.of_nat (length (all_items ht))
}.

Lemma elem_of_all_items_placed (heap : gmap Z Symbol) (ht : hash_table) (x : addr) :
  0 <= log2size ht -> placed heap ht ->
  x ∈ all_items ht <-> x ∈ bucket ht (hash_item heap h x (log2size ht)).
Proof.
  intros Hl Hp. rewrite elem_of_all_items. split.
  - intros (hv & _ & Hx). now rewrite (Hp hv x Hx).
  - intros Hx. eexists. split; [|exact Hx]. rewrite ht_size_pow.
    now apply hash_item_range.
Qed.

Lemma placed_ext (heap heap' : gmap Z Symbol) (ht : hash_table) :
  (forall x, x ∈ all_items ht ->
     hash_item heap' h x (log2size ht) = hash_item heap h x (log2size ht)) ->
  0 <= log2size ht -> placed heap ht -> placed heap' ht.
Proof.
  intros Hext Hl Hp hv x Hx. rewrite Hext; [now apply Hp|].
  apply elem_of_all_items. exists hv. split; [|assumption].
  rewrite <- (Hp hv x Hx). rewrite ht_size_pow. now apply hash_item_range.
Qed.

Lemma table_wf_ext (heap heap' : gmap Z Symbol) (ht : hash_table) :
  (forall x, x ∈ all_items ht ->
     hash_item heap' h x (log2size ht) = hash_item heap h x (log2size ht)) ->
  table_wf heap ht -> table_wf heap' ht.
Proof.
  intros Hext [Hl Hp Hnd Hc]. split; try assumption.
  apply (placed_ext heap); [assumption | lia | assumption].
Qed.

(** *** Linking an item at the head of a chain *)

Lemma all_items_push (c l : Z) (bs : gmap Z (list addr)) (hv : Z) (x : addr) :
  0 <= hv < 2 ^ l ->
  all_items {| count := c; log2size := l; buckets := push_item hv x bs |}
  ≡ₚ x :: all_items {| count := c; log2size := l; buckets := bs |}.
Proof.
  intros Hhv. unfold all_items. rewrite !ht_size_pow. cbn [log2size].
  apply (flat_map_cons_at _ _ _ hv).
  - apply NoDup_seqZ.
  - apply elem_of_seqZ. lia.
  - unfold bucket, push_item. cbn [buckets]. now rewrite lookup_insert_eq.
  - intros k _ Hk. unfold bucket, push_item. cbn [buckets].
    now rewrite lookup_insert_ne by congruence.
Qed.

Lemma bucket_push (c l : Z) (bs : gmap Z (list addr)) (hv : Z) (x : addr) (k : Z) :
  bucket {| count := c; log2size := l; buckets := push_item hv x bs |} k
  = if decide (hv = k) then x :: default [] (bs !! hv) else default [] (bs !! k).
Proof.
  unfold bucket, push_item. cbn [buckets]. rewrite lookup_insert.
  destruct (decide (hv = k)); reflexivity.
Qed.

(** *** Rehashing *)

Definition rebuild (heap : gmap Z Symbol) (l : Z) (items : list addr)
    : gmap Z (list addr) :=
  foldr (fun item bs => push_item (hash_item heap h item l) item bs) ∅ items.

Lemma all_items_rebuild (heap : gmap Z Symbol) (c l : Z) (items : list addr) :
  0 <= l ->
  all_items {| count := c; log2size := l; buckets := rebuild heap l items |} ≡ₚ items.
Proof.
  intros Hl. induction items as [|x items IH].
  - unfold all_items. cbn [rebuild foldr].
    rewrite (flat_map_ext_elem _ (fun _ => [])).
    + induction (seqZ _ _); [reflexivity | assumption].
    + intros k _. unfold bucket. cbn [buckets]. now rewrite lookup_empty.
  - cbn [rebuild foldr]. fold (rebuild heap l items).
    rewrite all_items_push by now apply hash_item_range. now rewrite IH.
Qed.

Lemma placed_rebuild (heap : gmap Z Symbol) (c l : Z) (items : list addr) :
  placed heap {| count := c; log2size := l; buckets := rebuild heap l items |}.
Proof.
  induction items as [|x items IH]; intros hv y Hy.
  - unfold bucket in Hy. cbn in Hy. rewrite lookup_empty in Hy. now apply elem_of_nil in Hy.
  - cbn [rebuild foldr] in Hy. fold (rebuild heap l items) in Hy.
    rewrite bucket_push in Hy. cbn [log2size].
    destruct (decide (hash_item heap h x l = hv)) as [E|E].
    + apply elem_of_cons in Hy as [->|Hy]; [assumption|]. subst hv.
      apply (IH _ y). exact Hy.
    + apply (IH hv y). exact Hy.
Qed.

Lemma resize_hash_table_items (heap : gmap Z Symbol) (ht : hash_table) (l : Z) :
  0 <= l -> all_items (resize_hash_table heap h ht l) ≡ₚ all_items ht.
Proof. intros Hl. unfold resize_hash_table. now apply (all_items_rebuild heap). Qed.

Lemma resize_hash_table_placed (heap : gmap Z Symbol) (ht : hash_table) (l : Z) :
  placed heap (resize_hash_table heap h ht l).
Proof. unfold resize_hash_table. apply placed_rebuild. Qed.

(** *** [add_to_hash_table] *)

(** The two steps of [add_to_hash_table]: count the item and grow the table
    if it is too full, then link the item at the head of its chain. *)
Definition grown (heap : gmap Z Symbol) (ht : hash_table) : hash_table :=
  let counted := {| count := count ht + 1; log2size := log2size ht; buckets := buckets ht |} in
  if 2 * ht_size counted <? count counted
  then resize_hash_table heap h counted (log2size counted + 1)
  else counted.

Definition link_head (heap : gmap Z Symbol) (ht : hash_table) (x : addr) : hash_table :=
  {| count := count ht; log2size := log2size ht;
     buckets := push_item (hash_item heap h x (log2size ht)) x (buckets ht) |}.

Lemma add_to_hash_table_steps (heap : gmap Z Symbol) (ht : hash_table) (x : addr) :
  add_to_hash_table heap h ht x = link_head heap (grown heap ht) x.
Proof. reflexivity. Qed.

Lemma grown_log2size (heap : gmap Z Symbol) (ht : hash_table) :
  log2size ht <= log2size (grown heap ht).
Proof. unfold grown. cbv zeta. destruct (_ <? _); cbn; lia. Qed.

Lemma grown_count (heap : gmap Z Symbol) (ht : hash_table) :
  count (grown heap ht) = count ht + 1.
Proof. unfold grown. cbv zeta. destruct (_ <? _); reflexivity. Qed.

Lemma grown_items (heap : gmap Z Symbol) (ht : hash_table) :
  0 <= log2size ht -> all_items (grown heap ht) ≡ₚ all_items ht.
Proof.
  intros Hl. unfold grown. cbv zeta. destruct (_ <? _).
  - rewrite resize_hash_table_items by (cbn; lia). reflexivity.
  - reflexivity.
Qed.

Lemma grown_placed (heap : gmap Z Symbol) (ht : hash_table) :
  placed heap ht -> placed heap (grown heap ht).
Proof.
  intros Hp. unfold grown. cbv zeta. destruct (_ <? _).
  - apply resize_hash_table_placed.
  - exact Hp.
Qed.

Lemma link_head_items (heap : gmap Z Symbol) (ht : hash_table) (x : addr) :
  0 <= log2size ht -> all_items (link_head heap ht x) ≡ₚ x :: all_items ht.
Proof.
  intros Hl. unfold link_head. rewrite all_items_push by now apply hash_item_range.
  now destruct ht.
Qed.

Lemma link_head_placed (heap : gmap Z Symbol) (ht : hash_table) (x : addr) :
  placed heap ht -> placed heap (link_head heap ht x).
Proof.
  intros Hp hv y Hy. unfold link_head in *. rewrite bucket_push in Hy. cbn [log2size].
  destruct (decide _) as [E|E].
  - apply elem_of_cons in Hy as [->|Hy]; [assumption|]. subst hv. apply Hp. exact Hy.
  - apply Hp. exact Hy.
Qed.

Lemma add_to_hash_table_items (heap : gmap Z Symbol) (ht : hash_table) (x : addr) :
  0 <= log2size ht ->
  all_items (add_to_hash_table heap h ht x) ≡ₚ x :: all_items ht.
Proof.
  intros Hl. rewrite add_to_hash_table_steps.
  pose proof (grown_log2size heap ht).
  rewrite link_head_items by lia. now rewrite grown_items.
Qed.

Lemma add_to_hash_table_head (heap : gmap Z Symbol) (ht : hash_table) (x : addr) :
  exists rest,
    bucket (add_to_hash_table heap h ht x)
      (hash_item heap h x (log2size (add_to_hash_table heap h ht x))) = x :: rest.
Proof.
  rewrite add_to_hash_table_steps. unfold link_head. cbn [log2size]. eexists.
  rewrite bucket_push. now rewrite decide_True by reflexivity.
Qed.

Lemma add_to_hash_table_count (heap : gmap Z Symbol) (ht : hash_table) (x : addr) :
  count (add_to_hash_table heap h ht x) = count ht + 1.
Proof. rewrite add_to_hash_table_steps. cbn [link_head count]. apply grown_count. Qed.

Lemma add_to_hash_table_wf (heap : gmap Z Symbol) (ht : hash_table) (x : addr) :
  table_wf heap ht -> x ∉ all_items ht ->
  table_wf heap (add_to_hash_table heap h ht x).
Proof.
  intros [Hl Hp Hnd Hc] Hx.
  pose proof (add_to_hash_table_items heap ht x ltac:(lia)) as Hperm.
  split.
  - rewrite add_to_hash_table_steps. cbn [link_head log2size].
    pose proof (grown_log2size heap ht). lia.
  - rewrite add_to_hash_table_steps. now apply link_head_placed, grown_placed.
  - rewrite Hperm. now apply NoDup_cons.
  - rewrite add_to_hash_table_count, Hperm, Hc. cbn [length]. lia.
Qed.

(** *** [remove_from_hash_table] *)

Lemma remove_from_hash_table_items (heap : gmap Z Symbol) (ht : hash_table) (x : addr) :
  table_wf heap ht -> x ∈ all_items ht ->
  all_items ht ≡ₚ x :: all_items (remove_from_hash_table heap h ht x).
Proof.
  intros [Hl Hp Hnd Hc] Hx. symmetry.
  apply (elem_of_all_items_placed heap) in Hx; [|lia|assumption].
  unfold remove_from_hash_table, all_items. rewrite !ht_size_pow. cbn [log2size].
  symmetry. apply (flat_map_cons_at _ _ _ (hash_item heap h x (log2size ht))).
  - apply NoDup_seqZ.
  - apply elem_of_seqZ. pose proof (hash_item_range heap x (log2size ht)). lia.
  - unfold bucket at 2. cbn [buckets]. rewrite lookup_insert_eq. cbn [default].
    now apply unlink_perm.
  - intros k _ Hk. unfold bucket. cbn [buckets]. now rewrite lookup_insert_ne by congruence.
Qed.

Lemma remove_from_hash_table_wf (heap : gmap Z Symbol) (ht : hash_table) (x : addr) :
  table_wf heap ht -> x ∈ all_items ht ->
  table_wf heap (remove_from_hash_table heap h ht x).
Proof.
  intros Hwf Hx. pose proof (remove_from_hash_table_items heap ht x Hwf Hx) as Hperm.
  destruct Hwf as [Hl Hp Hnd Hc]. split.
  - exact Hl.
  - intros hv y Hy. unfold remove_from_hash_table, bucket in Hy. cbn [buckets] in Hy.
    cbn [remove_from_hash_table log2size]. rewrite lookup_insert in Hy.
    destruct (decide _) as [E|E]; cbn [default] in Hy.
    + apply Hp. fold (bucket ht (hash_item heap h x (log2size ht))) in Hy.
      rewrite <- E.
      assert (Hsub : forall c, y ∈ unlink x c -> y ∈ c).
      { induction c as [|z c IH]; simpl; [trivial|]. destruct (z =? x).
        - intros H. now constructor.
        - intros H. apply elem_of_cons in H as [->|H]; [constructor|].
          constructor. now apply IH. }
      now apply Hsub.
    + now apply Hp.
  - rewrite Hperm in Hnd. now apply NoDup_cons in Hnd as [_ ?].
  - cbn [remove_from_hash_table count]. rewrite Hc, Hperm. cbn [length]. lia.
Qed.

Lemma remove_from_hash_table_gone (heap : gmap Z Symbol) (ht : hash_table) (x : addr) :
  table_wf heap ht -> x ∈ all_items ht ->
  x ∉ all_items (remove_from_hash_table heap h ht x).
Proof.
  intros Hwf Hx. pose proof (remove_from_hash_table_items heap ht x Hwf Hx) as Hperm.
  destruct Hwf as [_ _ Hnd _]. rewrite Hperm in Hnd. now apply NoDup_cons in Hnd as [? _].
Qed.

End hash_table.

(** ** The five tables and pools of the agent *)

Lemma symbol_type_eq_dec (k k' : symbol_type) : {k = k'} + {k <> k'}.
Proof. decide equality. Defined.

Lemma get_set_kind_eq {A : Type} (k : symbol_type) (x : A) (p : per_kind A) :
  get_kind k (set_kind k x p) = x.
Proof. now destruct k. Qed.

Lemma get_set_kind_ne {A : Type} (k k' : symbol_type) (x : A) (p : per_kind A) :
  k <> k' -> get_kind k' (set_kind k x p) = get_kind k' p.
Proof. intros H. destruct k, k'; try reflexivity; congruence. Qed.

Lemma table_set_table_eq (k : symbol_type) (ht : hash_table) (a : agent) :
  table k (set_table k ht a) = ht.
Proof. apply get_set_kind_eq. Qed.

Lemma table_set_table_ne (k k' : symbol_type) (ht : hash_table) (a : agent) :
  k <> k' -> table k' (set_table k ht a) = table k' a.
Proof. apply get_set_kind_ne. Qed.

Lemma pool_set_pool_eq (k : symbol_type) (p : memory_pool) (a : agent) :
  pool k (set_pool k p a) = p.
Proof. apply get_set_kind_eq. Qed.

Lemma pool_set_pool_ne (k k' : symbol_type) (p : memory_pool) (a : agent) :
  k <> k' -> pool k' (set_pool k p a) = pool k' a.
Proof. apply get_set_kind_ne. Qed.

Lemma table_set_heap (k : symbol_type) (hp : gmap Z Symbol) (a : agent) :
  table k (set_heap hp a) = table k a.
Proof. reflexivity. Qed.

Lemma table_set_pool (k k' : symbol_type) (p : memory_pool) (a : agent) :
  table k (set_pool k' p a) = table k a.
Proof. reflexivity. Qed.

Lemma pool_set_heap (k : symbol_type) (hp : gmap Z Symbol) (a : agent) :
  pool k (set_heap hp a) = pool k a.
Proof. reflexivity. Qed.

Lemma pool_set_table (k k' : symbol_type) (ht : hash_table) (a : agent) :
  pool k (set_table k' ht a) = pool k a.
Proof. reflexivity. Qed.

(** The record a [make_*] function leaves for a new symbol. *)
Definition fresh_symbol (d : symbol_data) (hid : Z) : Symbol :=
  {| reference_count := 1; hash_id := hid; tc_num := 0;
     variablized_symbol := None; unvariablized_symbol := None;
     original_var_symbol := None; data := d |}.

(** The address [allocate_with_pool] hands out, and the agent it leaves. *)
Definition alloc_addr (k : symbol_type) (a : agent) : addr :=
  snd (allocate_with_pool k a).

Definition alloc_state (k : symbol_type) (a : agent) : agent :=
  fst (allocate_with_pool k a).

(** [new_symbol] step by step. *)
Lemma new_symbol_steps (a : agent) (d : symbol_data) :
  new_symbol a d
  = let k := data_kind d in
    let sym := alloc_addr k a in
    let hid := uint32 (current_symbol_hash_id a + 137) in
    let hp := <[sym := fresh_symbol d hid]> (heap a) in
    (set_table k (add_to_hash_table hp (hash_callback k) (table k a) sym)
       (set_heap hp (set_current_symbol_hash_id hid (alloc_state k a))), sym).
Proof.
  unfold new_symbol, alloc_addr, alloc_state, allocate_with_pool. cbv zeta.
  destruct (free_list (pool (data_kind d) a)) as [|block rest]; cbn [fst snd];
    unfold get_next_symbol_hash_id, symbol_add_ref; cbn;
    rewrite lookup_insert_eq; cbn; rewrite insert_insert_eq; reflexivity.
Qed.

Lemma new_symbol_addr (a : agent) (d : symbol_data) :
  snd (new_symbol a d) = alloc_addr (data_kind d) a.
Proof. now rewrite new_symbol_steps. Qed.

Lemma new_symbol_heap (a : agent) (d : symbol_data) :
  heap (fst (new_symbol a d))
  = <[alloc_addr (data_kind d) a
      := fresh_symbol d (uint32 (current_symbol_hash_id a + 137))]> (heap a).
Proof. now rewrite new_symbol_steps. Qed.

Lemma alloc_state_heap (k : symbol_type) (a : agent) : heap (alloc_state k a) = heap a.
Proof. unfold alloc_state, allocate_with_pool. now destruct (free_list _). Qed.

Lemma alloc_state_table (k k' : symbol_type) (a : agent) :
  table k' (alloc_state k a) = table k' a.
Proof. unfold alloc_state, allocate_with_pool. now destruct (free_list _). Qed.

Lemma new_symbol_table (a : agent) (d : symbol_data) :
  table (data_kind d) (fst (new_symbol a d))
  = add_to_hash_table (heap (fst (new_symbol a d))) (hash_callback (data_kind d))
      (table (data_kind d) a) (alloc_addr (data_kind d) a).
Proof.
  rewrite new_symbol_heap, new_symbol_steps. cbv zeta. cbn [fst].
  now rewrite table_set_table_eq.
Qed.

Lemma new_symbol_other_table (a : agent) (d : symbol_data) (k : symbol_type) :
  data_kind d <> k -> table k (fst (new_symbol a d)) = table k a.
Proof.
  intros H. rewrite new_symbol_steps. cbv zeta. cbn [fst].
  rewrite table_set_table_ne by assumption. apply alloc_state_table.
Qed.

Lemma new_symbol_lookup (a : agent) (d : symbol_data) :
  heap (fst (new_symbol a d)) !! snd (new_symbol a d)
  = Some (fresh_symbol d (uint32 (current_symbol_hash_id a + 137))).
Proof. rewrite new_symbol_heap, new_symbol_addr. apply lookup_insert_eq. Qed.

Lemma new_symbol_current_symbol_hash_id (a : agent) (d : symbol_data) :
  current_symbol_hash_id (fst (new_symbol a d)) = uint32 (current_symbol_hash_id a + 137).
Proof. now rewrite new_symbol_steps. Qed.

Lemma new_symbol_id_counter (a : agent) (d : symbol_data) :
  id_counter (fst (new_symbol a d)) = id_counter a.
Proof.
  rewrite new_symbol_steps. cbn. unfold alloc_state, allocate_with_pool.
  now destruct (free_list _).
Qed.

(** ** The invariant of the symbol table *)

(** Each table is well formed and holds exactly the live symbols of its
    kind; free and unused addresses hold no symbol; no slot is free twice. *)
Record agent_wf (a : agent) : Prop := {
  wf_tables : forall k, table_wf (hash_callback k) (heap a) (table k a);
  wf_live : forall k x,
    x ∈ all_items (table k a) <-> exists s, heap a !! x = Some s /\ symbol_type_of s = k;
  wf_free : forall k x, x ∈ free_list (pool k a) -> heap a !! x = None /\ x < heap_top a;
  wf_top : forall x s, heap a !! x = Some s -> x < heap_top a;
  wf_free_nodup : forall k, NoDup (free_list (pool k a));
  wf_free_disjoint : forall k k' x,
    x ∈ free_list (pool k a) -> x ∈ free_list (pool k' a) -> k = k'
}.

Lemma table_wf_make_hash_table (h : Symbol -> Z -> Z) (heap : gmap Z Symbol) :
  table_wf h heap make_hash_table.
Proof.
  split; cbn; try lia.
  - intros hv x Hx. unfold bucket in Hx. cbn in Hx. rewrite lookup_empty in Hx.
    now apply elem_of_nil in Hx.
  - vm_compute. constructor.
  - reflexivity.
Qed.

Lemma agent_wf_empty_agent : agent_wf empty_agent.
Proof.
  split.
  - intros k. destruct k; apply table_wf_make_hash_table.
  - intros k x. split.
    + intros H. destruct k; vm_compute in H; now apply elem_of_nil in H.
    + intros (s & H & _). cbn in H. now rewrite lookup_empty in H.
  - intros k x H. destruct k; cbn in H; now apply elem_of_nil in H.
  - intros x s H. cbn in H. now rewrite lookup_empty in H.
  - intros k. destruct k; cbn; constructor.
  - intros k k' x H. destruct k; cbn in H; now apply elem_of_nil in H.
Qed.

Lemma hash_callback_data (k : symbol_type) (s s' : Symbol) (num_bits : Z) :
  data s' = data s -> hash_callback k s' num_bits = hash_callback k s num_bits.
Proof.
  intros E. destruct k; simpl;
    unfold hash_variable, hash_identifier, hash_sym_constant, hash_int_constant,
      hash_float_constant; now rewrite E.
Qed.

Lemma hash_item_insert_ne (heap : gmap Z Symbol) (h : Symbol -> Z -> Z) (x y : addr)
    (s : Symbol) (num_bits : Z) :
  x <> y -> hash_item (<[x := s]> heap) h y num_bits = hash_item heap h y num_bits.
Proof. intros H. unfold hash_item. now rewrite lookup_insert_ne. Qed.

Lemma hash_item_delete_ne (heap : gmap Z Symbol) (h : Symbol -> Z -> Z) (x y : addr)
    (num_bits : Z) :
  x <> y -> hash_item (delete x heap) h y num_bits = hash_item heap h y num_bits.
Proof. intros H. unfold hash_item. now rewrite lookup_delete_ne. Qed.

(** Rewriting a live symbol without touching its kind or what its hash is
    computed from keeps the invariant. *)
Lemma agent_wf_update_key (a : agent) (x : addr) (s s' : Symbol) :
  heap a !! x = Some s ->
  symbol_type_of s' = symbol_type_of s ->
  (forall k num_bits, hash_callback k s' num_bits = hash_callback k s num_bits) ->
  agent_wf a -> agent_wf (set_heap (<[x := s']> (heap a)) a).
Proof.
  intros Hx Hkind Hhash [Ht Hl Hf Htop Hnd Hdis]. split; cbn.
  - intros k. apply (table_wf_ext _ (hash_callback_range k) (heap a)); [|apply Ht].
    intros y _. destruct (Z.eq_dec x y) as [<-|Hne].
    + unfold hash_item. rewrite lookup_insert_eq, Hx. apply Hhash.
    + now apply hash_item_insert_ne.
  - intros k y. rewrite (Hl k y). destruct (Z.eq_dec x y) as [<-|Hne].
    + rewrite lookup_insert_eq, Hx.
      split; intros (t & [= <-] & Hk); eexists; (split; [reflexivity|]); congruence.
    + now rewrite lookup_insert_ne.
  - intros k y Hy. destruct (Hf k y Hy) as [Hnone Hlt]. split; [|assumption].
    rewrite lookup_insert_ne; [assumption|]. intros <-. congruence.
  - intros y t Hy. destruct (Z.eq_dec x y) as [<-|Hne].
    + now apply (Htop x s).
    + rewrite lookup_insert_ne in Hy by assumption. now apply (Htop y t).
  - exact Hnd.
  - exact Hdis.
Qed.

(** Rewriting the common fields of a live symbol keeps the invariant. *)
Lemma agent_wf_update (a : agent) (x : addr) (s s' : Symbol) :
  heap a !! x = Some s -> data s' = data s ->
  agent_wf a -> agent_wf (set_heap (<[x := s']> (heap a)) a).
Proof.
  intros Hx Hd. apply (agent_wf_update_key a x s s' Hx).
  - unfold symbol_type_of. now rewrite Hd.
  - intros k nb. now apply hash_callback_data.
Qed.

Lemma symbol_add_ref_wf (a : agent) (x : addr) : agent_wf a -> agent_wf (symbol_add_ref a x).
Proof.
  intros Hwf. unfold symbol_add_ref. destruct (heap a !! x) as [s|] eqn:Hx; [|assumption].
  now apply (agent_wf_update a x s).
Qed.

Lemma agent_wf_set_id_counter (a : agent) (c : list Z) :
  agent_wf a -> agent_wf (set_id_counter c a).
Proof. intros [Ht Hl Hf Htop Hnd Hdis]. now split. Qed.

(** *** Allocation *)

Lemma alloc_cases (k : symbol_type) (a : agent) :
  (exists rest, free_list (pool k a) = alloc_addr k a :: rest
                /\ alloc_state k a = set_pool k {| free_list := rest |} a)
  \/ (free_list (pool k a) = [] /\ alloc_addr k a = heap_top a
      /\ alloc_state k a = set_heap_top (heap_top a + 1) a).
Proof.
  unfold alloc_addr, alloc_state, allocate_with_pool.
  destruct (free_list (pool k a)) as [|block rest]; [right | left]; eauto.
Qed.

Lemma alloc_addr_fresh (k : symbol_type) (a : agent) :
  agent_wf a -> heap a !! alloc_addr k a = None.
Proof.
  intros [_ _ Hf Htop _ _]. destruct (alloc_cases k a) as [(rest & E & _)|(_ & E & _)].
  - apply (Hf k). rewrite E. constructor.
  - rewrite E. destruct (heap a !! heap_top a) as [s|] eqn:H; [|reflexivity].
    apply Htop in H. lia.
Qed.

Lemma new_symbol_pool (a : agent) (d : symbol_data) (k : symbol_type) :
  pool k (fst (new_symbol a d)) = pool k (alloc_state (data_kind d) a).
Proof. now rewrite new_symbol_steps. Qed.

Lemma new_symbol_heap_top (a : agent) (d : symbol_data) :
  heap_top (fst (new_symbol a d)) = heap_top (alloc_state (data_kind d) a).
Proof. now rewrite new_symbol_steps. Qed.

(** After an allocation the free lists are sublists of what they were, the
    address handed out is in none of them and lies below the new top. *)
Lemma alloc_state_pools (k : symbol_type) (a : agent) :
  agent_wf a ->
  (forall k' x, x ∈ free_list (pool k' (alloc_state k a)) ->
     x ∈ free_list (pool k' a) /\ x <> alloc_addr k a)
  /\ (forall k', NoDup (free_list (pool k' (alloc_state k a))))
  /\ heap_top a <= heap_top (alloc_state k a)
  /\ alloc_addr k a < heap_top (alloc_state k a).
Proof.
  intros [_ _ Hf Htop Hnd Hdis].
  destruct (alloc_cases k a) as [(rest & E & ->)|(E1 & E2 & ->)].
  - pose proof (Hnd k) as Hk. rewrite E in Hk. apply NoDup_cons in Hk as [Hnotin Hrest].
    assert (Hin : alloc_addr k a ∈ free_list (pool k a)) by (rewrite E; constructor).
    repeat split.
    + destruct (symbol_type_eq_dec k k') as [<-|Hne].
      * rewrite pool_set_pool_eq in H. cbn in H. rewrite E. now constructor.
      * now rewrite pool_set_pool_ne in H.
    + destruct (symbol_type_eq_dec k k') as [<-|Hne].
      * rewrite pool_set_pool_eq in H. cbn in H. intros ->. contradiction.
      * rewrite pool_set_pool_ne in H by assumption. intros ->.
        apply Hne. now apply (Hdis k k' (alloc_addr k a)).
    + intros k'. destruct (symbol_type_eq_dec k k') as [<-|Hne].
      * now rewrite pool_set_pool_eq.
      * rewrite pool_set_pool_ne by assumption. apply Hnd.
    + cbn. lia.
    + cbn. now apply (Hf k).
  - repeat split.
    + exact H.
    + intros ->. cbn in H. apply (Hf k') in H. rewrite E2 in H. lia.
    + intros k'. apply Hnd.
    + cbn. lia.
    + cbn. lia.
Qed.

(** *** Creation keeps the invariant *)

Lemma new_symbol_wf (a : agent) (d : symbol_data) :
  agent_wf a -> agent_wf (fst (new_symbol a d)).
Proof.
  intros Hwf.
  pose proof (alloc_addr_fresh (data_kind d) a Hwf) as Hfresh.
  pose proof (alloc_state_pools (data_kind d) a Hwf) as (Hsub & Hnd' & Htop1 & Htop2).
  pose proof (new_symbol_heap a d) as Hheap.
  set (k := data_kind d) in *. set (sym := alloc_addr k a) in *.
  set (s0 := fresh_symbol d _) in *.
  destruct Hwf as [Ht Hl Hf Htop Hnd Hdis].
  assert (Hold : forall k' y, y ∈ all_items (table k' a) -> y <> sym).
  { intros k' y Hy ->. apply Hl in Hy as (t & Hy & _). congruence. }
  assert (Hext : forall k', table_wf (hash_callback k') (heap (fst (new_symbol a d)))
                              (table k' a)).
  { intros k'. apply (table_wf_ext _ (hash_callback_range k') (heap a)); [|apply Ht].
    intros y Hy. rewrite Hheap. apply hash_item_insert_ne.
    intros E. now apply (Hold k' y). }
  assert (Hitems : all_items (table k (fst (new_symbol a d))) ≡ₚ sym :: all_items (table k a)).
  { unfold k. rewrite new_symbol_table.
    apply (add_to_hash_table_items _ (hash_callback_range (data_kind d))).
    pose proof (wf_log2size _ _ _ (Ht (data_kind d))). lia. }
  split.
  - intros k'. destruct (symbol_type_eq_dec k k') as [<-|Hne].
    + unfold k. rewrite new_symbol_table.
      apply (add_to_hash_table_wf _ (hash_callback_range (data_kind d))); [apply Hext|].
      intros Hin. now apply (Hold k sym).
    + rewrite new_symbol_other_table by assumption. apply Hext.
  - intros k' y. rewrite Hheap. destruct (symbol_type_eq_dec k k') as [<-|Hne].
    + rewrite Hitems, elem_of_cons, (Hl k y). split.
      * intros [->|(t & Hy & Hk)].
        -- exists s0. rewrite lookup_insert_eq. now split.
        -- exists t. rewrite lookup_insert_ne by congruence. now split.
      * intros (t & Hy & Hk). destruct (Z.eq_dec sym y) as [<-|Hn]; [now left|].
        right. rewrite lookup_insert_ne in Hy by assumption. eauto.
    + rewrite new_symbol_other_table by assumption. rewrite (Hl k' y). split.
      * intros (t & Hy & Hk). exists t. rewrite lookup_insert_ne by congruence. now split.
      * intros (t & Hy & Hk). destruct (Z.eq_dec sym y) as [<-|Hn].
        -- rewrite lookup_insert_eq in Hy. injection Hy as <-. contradiction.
        -- rewrite lookup_insert_ne in Hy by assumption. eauto.
  - intros k' y Hy. rewrite new_symbol_pool in Hy. apply Hsub in Hy as [Hy Hn].
    rewrite Hheap, new_symbol_heap_top. fold k. destruct (Hf k' y Hy) as [Hnone Hlt].
    split; [|lia]. now rewrite lookup_insert_ne by congruence.
  - intros y t Hy. rewrite Hheap in Hy. rewrite new_symbol_heap_top. fold k.
    destruct (Z.eq_dec sym y) as [<-|Hn]; [assumption|].
    rewrite lookup_insert_ne in Hy by assumption. apply Htop in Hy. lia.
  - intros k'. rewrite new_symbol_pool. apply Hnd'.
  - intros k1 k2 y H1 H2. rewrite new_symbol_pool in H1, H2.
    apply Hsub in H1 as [H1 _]. apply Hsub in H2 as [H2 _]. now apply (Hdis k1 k2 y).
Qed.

(** *** Deallocation keeps the invariant *)

Lemma deallocate_symbol_steps (a : agent) (x : addr) (s : Symbol) :
  heap a !! x = Some s ->
  deallocate_symbol a x
  = let k := symbol_type_of s in
    free_with_pool k x
      (set_table k (remove_from_hash_table (heap a) (hash_callback k) (table k a) x) a).
Proof.
  intros H. unfold deallocate_symbol, symbol_type_of. rewrite H.
  now destruct (data s).
Qed.

Lemma deallocate_symbol_heap (a : agent) (x : addr) :
  heap (deallocate_symbol a x) = delete x (heap a).
Proof.
  destruct (heap a !! x) as [s|] eqn:H.
  - now rewrite (deallocate_symbol_steps a x s H).
  - unfold deallocate_symbol. rewrite H. symmetry. now apply delete_id.
Qed.

Lemma deallocate_symbol_table (a : agent) (x : addr) (s : Symbol) :
  heap a !! x = Some s ->
  table (symbol_type_of s) (deallocate_symbol a x)
  = remove_from_hash_table (heap a) (hash_callback (symbol_type_of s))
      (table (symbol_type_of s) a) x.
Proof.
  intros H. rewrite (deallocate_symbol_steps a x s H). cbv zeta.
  unfold free_with_pool. rewrite table_set_pool, table_set_heap.
  apply table_set_table_eq.
Qed.

Lemma deallocate_symbol_other_table (a : agent) (x : addr) (s : Symbol) (k : symbol_type) :
  heap a !! x = Some s -> symbol_type_of s <> k ->
  table k (deallocate_symbol a x) = table k a.
Proof.
  intros H Hne. rewrite (deallocate_symbol_steps a x s H). cbv zeta.
  unfold free_with_pool. rewrite table_set_pool, table_set_heap.
  now apply table_set_table_ne.
Qed.

Lemma deallocate_symbol_pool (a : agent) (x : addr) (s : Symbol) :
  heap a !! x = Some s ->
  pool (symbol_type_of s) (deallocate_symbol a x)
  = {| free_list := x :: free_list (pool (symbol_type_of s) a) |}.
Proof.
  intros H. rewrite (deallocate_symbol_steps a x s H). cbv zeta.
  unfold free_with_pool. rewrite pool_set_pool_eq. reflexivity.
Qed.

Lemma deallocate_symbol_other_pool (a : agent) (x : addr) (s : Symbol) (k : symbol_type) :
  heap a !! x = Some s -> symbol_type_of s <> k ->
  pool k (deallocate_symbol a x) = pool k a.
Proof.
  intros H Hne. rewrite (deallocate_symbol_steps a x s H). cbv zeta.
  unfold free_with_pool. rewrite pool_set_pool_ne by assumption. reflexivity.
Qed.

Lemma deallocate_symbol_heap_top (a : agent) (x : addr) :
  heap_top (deallocate_symbol a x) = heap_top a.
Proof.
  destruct (heap a !! x) as [s|] eqn:H.
  - now rewrite (deallocate_symbol_steps a x s H).
  - unfold deallocate_symbol. now rewrite H.
Qed.

Lemma deallocate_symbol_wf (a : agent) (x : addr) :
  agent_wf a -> agent_wf (deallocate_symbol a x).
Proof.
  intros Hwf. destruct (heap a !! x) as [s|] eqn:Hx;
    [|unfold deallocate_symbol; now rewrite Hx].
  pose proof (deallocate_symbol_table a x s Hx) as Etab.
  pose proof (fun k => deallocate_symbol_other_table a x s k Hx) as Etab'.
  pose proof (deallocate_symbol_pool a x s Hx) as Epool.
  pose proof (fun k => deallocate_symbol_other_pool a x s k Hx) as Epool'.
  set (k := symbol_type_of s) in *.
  destruct Hwf as [Ht Hl Hf Htop Hnd Hdis].
  assert (Hin : x ∈ all_items (table k a)) by (apply Hl; eauto).
  pose proof (remove_from_hash_table_items _ (hash_callback_range k) _ _ x (Ht k) Hin) as Hperm.
  pose proof (remove_from_hash_table_gone _ (hash_callback_range k) _ _ x (Ht k) Hin) as Hgone.
  assert (Hother : forall k', k <> k' -> x ∉ all_items (table k' a)).
  { intros k' Hne Hy. apply Hl in Hy as (t & Hy & Hk). unfold k in Hne. congruence. }
  assert (Hx' : forall k', x ∉ free_list (pool k' a)).
  { intros k' Hy. apply Hf in Hy as [Hy _]. congruence. }
  split.
  - intros k'. rewrite deallocate_symbol_heap.
    destruct (symbol_type_eq_dec k k') as [<-|Hne].
    + rewrite Etab.
      apply (table_wf_ext _ (hash_callback_range k) (heap a)).
      * intros y Hy. apply hash_item_delete_ne. intros <-. contradiction.
      * apply (remove_from_hash_table_wf _ (hash_callback_range k)); [apply Ht | exact Hin].
    + rewrite Etab' by assumption.
      apply (table_wf_ext _ (hash_callback_range k') (heap a)); [|apply Ht].
      intros y Hy. apply hash_item_delete_ne. intros <-. now apply (Hother k').
  - intros k' y. rewrite deallocate_symbol_heap.
    destruct (symbol_type_eq_dec k k') as [<-|Hne].
    + rewrite Etab. split.
      * intros Hy. assert (Hn : y <> x) by (intros ->; contradiction).
        assert (Hy' : y ∈ all_items (table k a)) by (rewrite Hperm; now constructor).
        apply Hl in Hy' as (t & Hy' & Hk). exists t.
        rewrite lookup_delete_ne by congruence. now split.
      * intros (t & Hy & Hk). destruct (Z.eq_dec x y) as [<-|Hn];
          [now rewrite lookup_delete_eq in Hy|].
        rewrite lookup_delete_ne in Hy by assumption.
        assert (Hy' : y ∈ all_items (table k a)) by (apply Hl; eauto).
        rewrite Hperm in Hy'. apply elem_of_cons in Hy' as [->|Hy']; [contradiction|assumption].
    + rewrite Etab' by assumption. rewrite (Hl k' y). split.
      * intros (t & Hy & Hk). exists t. split; [|assumption].
        rewrite lookup_delete_ne; [assumption|]. intros <-. unfold k in Hne. congruence.
      * intros (t & Hy & Hk). destruct (Z.eq_dec x y) as [<-|Hn];
          [now rewrite lookup_delete_eq in Hy|].
        rewrite lookup_delete_ne in Hy by assumption. eauto.
  - intros k' y Hy. rewrite deallocate_symbol_heap, deallocate_symbol_heap_top.
    destruct (Z.eq_dec x y) as [<-|Hn].
    + rewrite lookup_delete_eq. split; [reflexivity|]. now apply (Htop x s).
    + rewrite lookup_delete_ne by assumption. apply (Hf k').
      destruct (symbol_type_eq_dec k k') as [<-|Hne].
      * rewrite Epool in Hy. cbn in Hy.
        apply elem_of_cons in Hy as [->|Hy]; [congruence|assumption].
      * now rewrite Epool' in Hy.
  - intros y t Hy. rewrite deallocate_symbol_heap in Hy. rewrite deallocate_symbol_heap_top.
    destruct (Z.eq_dec x y) as [<-|Hn]; [now rewrite lookup_delete_eq in Hy|].
    rewrite lookup_delete_ne in Hy by assumption. now apply (Htop y t).
  - intros k'. destruct (symbol_type_eq_dec k k') as [<-|Hne].
    + rewrite Epool. cbn. apply NoDup_cons. split; [apply Hx' | apply Hnd].
    + rewrite Epool' by assumption. apply Hnd.
  - intros k1 k2 y H1 H2.
    destruct (symbol_type_eq_dec k k1) as [<-|Hne1];
      destruct (symbol_type_eq_dec k k2) as [<-|Hne2]; try reflexivity.
    + rewrite Epool in H1. rewrite Epool' in H2 by assumption.
      cbn in H1. apply elem_of_cons in H1 as [->|H1].
      * exfalso. now apply (Hx' k2).
      * now apply (Hdis k k2 y).
    + rewrite Epool in H2. rewrite Epool' in H1 by assumption.
      cbn in H2. apply elem_of_cons in H2 as [->|H2].
      * exfalso. now apply (Hx' k1).
      * now apply (Hdis k1 k y).
    + rewrite Epool' in H1, H2 by assumption. now apply (Hdis k1 k2 y).
Qed.

Lemma symbol_remove_ref_wf (a : agent) (x : addr) :
  agent_wf a -> agent_wf (symbol_remove_ref a x).
Proof.
  intros Hwf. unfold symbol_remove_ref.
  destruct (heap a !! x) as [s|] eqn:Hx; [|assumption]. cbv zeta.
  assert (agent_wf (set_heap
            (<[x := set_reference_count (uint64 (reference_count s - 1)) s]> (heap a)) a))
    by now apply (agent_wf_update a x s).
  destruct (_ =? 0); [now apply deallocate_symbol_wf | assumption].
Qed.

(** ** Lookup *)

Lemma find_in_chain_Some (heap : gmap Z Symbol) (m : Symbol -> bool) (chain : list addr)
    (x : addr) :
  find_in_chain heap m chain = Some x ->
  x ∈ chain /\ exists s, heap !! x = Some s /\ m s = true.
Proof.
  induction chain as [|y chain IH]; simpl; [discriminate|].
  destruct (heap !! y) as [s|] eqn:Hy.
  - destruct (m s) eqn:Hm.
    + intros [= <-]. split; [constructor | eauto].
    + intros H. destruct (IH H) as [? ?]. split; [now constructor | assumption].
  - intros H. destruct (IH H) as [? ?]. split; [now constructor | assumption].
Qed.

Lemma find_in_chain_None (heap : gmap Z Symbol) (m : Symbol -> bool) (chain : list addr) :
  find_in_chain heap m chain = None ->
  forall x s, x ∈ chain -> heap !! x = Some s -> m s = false.
Proof.
  induction chain as [|y chain IH]; simpl; intros H x s Hx Hs; [now apply elem_of_nil in Hx|].
  apply elem_of_cons in Hx as [->|Hx].
  - rewrite Hs in H. destruct (m s); [discriminate | reflexivity].
  - destruct (heap !! y) as [t|]; [destruct (m t); [discriminate|]|]; now apply (IH H x s).
Qed.

Lemma find_in_chain_head (heap : gmap Z Symbol) (m : Symbol -> bool) (x : addr)
    (rest : list addr) (s : Symbol) :
  heap !! x = Some s -> m s = true -> find_in_chain heap m (x :: rest) = Some x.
Proof. intros H Hm. simpl. now rewrite H, Hm. Qed.

(** ** Identity keys *)

(** [same_key query stored]: the test a [find_*] function makes between the
    key it is given (carried by [query]) and a stored symbol. *)
Definition same_key (query stored : symbol_data) : bool :=
  match query with
  | var name _ => match stored with var n _ => String.eqb n name | _ => false end
  | id q => match stored with
            | id i => Ascii.eqb (name_letter q) (name_letter i)
                      && (name_number q =? name_number i)
            | _ => false
            end
  | sc name _ => match stored with sc n _ => String.eqb n name | _ => false end
  | ic value => match stored with ic v => value =? v | _ => false end
  | fc value => match stored with fc v => SFeqb value v | _ => false end
  end.

Lemma SFeqb_true (v w : spec_float) :
  SFeqb v w = true ->
  match v, w with
  | S754_zero _, S754_zero _ => True
  | S754_infinity s, S754_infinity t => s = t
  | S754_finite s m e, S754_finite t n f => s = t /\ m = n /\ e = f
  | _, _ => False
  end.
Proof.
  unfold SFeqb, SFcompare.
  destruct v as [s|s| |s m e], w as [t|t| |t n f]; try destruct s; try destruct t;
    try discriminate; try tauto.
  - destruct (e ?= f) eqn:E; try discriminate. apply Z.compare_eq in E.
    destruct (PosDef.Pos.compare_cont Eq m n) eqn:C; try discriminate.
    apply Pos.compare_eq in C. tauto.
  - destruct (e ?= f) eqn:E; try discriminate. apply Z.compare_eq in E.
    destruct (PosDef.Pos.compare_cont Eq m n) eqn:C; try discriminate.
    apply Pos.compare_eq in C. tauto.
Qed.

Lemma SFeqb_refl (v : spec_float) : v <> S754_nan -> SFeqb v v = true.
Proof.
  unfold SFeqb, SFcompare. destruct v as [s|s| |s m e]; try destruct s; try reflexivity;
    try congruence; intros _; rewrite Z.compare_refl;
    change (PosDef.Pos.compare_cont Eq m m) with (Pos.compare m m);
    now rewrite Pos.compare_refl.
Qed.

Lemma SFeqb_sym (v w : spec_float) : SFeqb v w = SFeqb w v.
Proof.
  destruct (SFeqb v w) eqn:E1, (SFeqb w v) eqn:E2; try reflexivity.
  - apply SFeqb_true in E1. destruct v as [s|s| |s m e], w as [t|t| |t n f]; try contradiction.
    + discriminate.
    + subst t. rewrite SFeqb_refl in E2 by discriminate. discriminate.
    + destruct E1 as (-> & -> & ->). rewrite SFeqb_refl in E2 by discriminate. discriminate.
  - apply SFeqb_true in E2. destruct v as [s|s| |s m e], w as [t|t| |t n f]; try contradiction.
    + discriminate.
    + subst t. rewrite SFeqb_refl in E1 by discriminate. discriminate.
    + destruct E2 as (-> & -> & ->). rewrite SFeqb_refl in E1 by discriminate. discriminate.
Qed.

Lemma same_key_sym (d1 d2 : symbol_data) : same_key d1 d2 = same_key d2 d1.
Proof.
  destruct d1, d2; simpl; try reflexivity.
  - apply String.eqb_sym.
  - now rewrite Ascii.eqb_sym, Z.eqb_sym.
  - apply String.eqb_sym.
  - apply Z.eqb_sym.
  - apply SFeqb_sym.
Qed.

Lemma same_key_kind (d1 d2 : symbol_data) :
  same_key d1 d2 = true -> data_kind d1 = data_kind d2.
Proof. destruct d1, d2; simpl; intros H; try discriminate; reflexivity. Qed.

(** Symbols with the same key hash alike. *)
Lemma same_key_hash (d : symbol_data) (s t : Symbol) (num_bits : Z) :
  data s = d -> same_key d (data t) = true ->
  hash_callback (data_kind d) t num_bits = hash_callback (data_kind d) s num_bits.
Proof.
  intros <- H. destruct (data s) eqn:Es, (data t) eqn:Et; simpl in H; try discriminate;
    simpl; unfold hash_variable, hash_identifier, hash_sym_constant, hash_int_constant,
             hash_float_constant; rewrite Es, Et.
  - apply String.eqb_eq in H. now subst.
  - apply andb_true_iff in H as [H1 H2]. apply Ascii.eqb_eq in H1. apply Z.eqb_eq in H2.
    now rewrite H1, H2.
  - apply String.eqb_eq in H. now subst.
  - apply Z.eqb_eq in H. now subst.
  - apply SFeqb_true in H.
    assert (E : double_to_uint32 value0 = double_to_uint32 value).
    { destruct value as [a|a| |a m e], value0 as [b|b| |b n f]; try contradiction.
      - exact eq_refl.
      - exact eq_refl.
      - destruct H as (-> & -> & ->). exact eq_refl. }
    rewrite E. exact eq_refl.
Qed.

(** A lookup that fails, in the chain the key hashes to, means that no live
    symbol has the key. *)
Lemma find_in_chain_None_no_key (a : agent) (d : symbol_data) :
  agent_wf a ->
  find_in_chain (heap a) (fun s => same_key d (data s))
    (bucket (table (data_kind d) a)
       (hash_callback (data_kind d) (fresh_symbol d 0) (log2size (table (data_kind d) a))))
  = None ->
  forall y sy, heap a !! y = Some sy -> same_key d (data sy) = false.
Proof.
  intros Hwf Hfind y sy Hy. destruct (same_key d (data sy)) eqn:Hk; [|reflexivity].
  pose proof (same_key_kind _ _ Hk) as Hkind.
  assert (Hin : y ∈ all_items (table (data_kind d) a)).
  { apply (wf_live a Hwf). exists sy. split; [assumption|]. now unfold symbol_type_of. }
  destruct (wf_tables a Hwf (data_kind d)) as [Hl Hp _ _].
  apply (elem_of_all_items_placed _ (hash_callback_range (data_kind d)) (heap a)) in Hin;
    [|lia|assumption].
  unfold hash_item in Hin. rewrite Hy in Hin.
  rewrite (same_key_hash d (fresh_symbol d 0) sy) in Hin by (try reflexivity; assumption).
  pose proof (find_in_chain_None _ _ _ Hfind y sy Hin Hy) as Hm. cbn in Hm. congruence.
Qed.

Lemma find_variable_None (a : agent) (name : string) :
  agent_wf a -> find_variable a name = None ->
  forall y sy, heap a !! y = Some sy -> same_key (var name 0) (data sy) = false.
Proof. intros Hwf H. now apply (find_in_chain_None_no_key a (var name 0)). Qed.

Lemma find_sym_constant_None (a : agent) (name : string) :
  agent_wf a -> find_sym_constant a name = None ->
  forall y sy, heap a !! y = Some sy -> same_key (sc name None) (data sy) = false.
Proof. intros Hwf H. now apply (find_in_chain_None_no_key a (sc name None)). Qed.

Lemma find_int_constant_None (a : agent) (value : Z) :
  agent_wf a -> find_int_constant a value = None ->
  forall y sy, heap a !! y = Some sy -> same_key (ic value) (data sy) = false.
Proof. intros Hwf H. now apply (find_in_chain_None_no_key a (ic value)). Qed.

Lemma find_float_constant_None (a : agent) (value : spec_float) :
  agent_wf a -> find_float_constant a value = None ->
  forall y sy, heap a !! y = Some sy -> same_key (fc value) (data sy) = false.
Proof. intros Hwf H. now apply (find_in_chain_None_no_key a (fc value)). Qed.

(** ** At most one live symbol per key *)

(** No two live symbols pass each other's lookup test. *)
Definition keys_unique (hp : gmap Z Symbol) : Prop :=
  forall x y sx sy,
    hp !! x = Some sx -> hp !! y = Some sy -> same_key (data sx) (data sy) = true -> x = y.

(** [hp'] holds no symbol that [hp] does not hold, and the variant parts
    agree. *)
Definition data_sub (hp' hp : gmap Z Symbol) : Prop :=
  forall x s', hp' !! x = Some s' -> exists s, hp !! x = Some s /\ data s = data s'.

Lemma keys_unique_sub (hp hp' : gmap Z Symbol) :
  data_sub hp' hp -> keys_unique hp -> keys_unique hp'.
Proof.
  intros Hsub Hu x y sx sy Hx Hy Hk.
  destruct (Hsub x sx Hx) as (tx & Hx' & Ex). destruct (Hsub y sy Hy) as (ty & Hy' & Ey).
  apply (Hu x y tx ty Hx' Hy'). now rewrite Ex, Ey.
Qed.

Lemma data_sub_refl (hp : gmap Z Symbol) : data_sub hp hp.
Proof. intros x s H. eauto. Qed.

Lemma data_sub_trans (hp1 hp2 hp3 : gmap Z Symbol) :
  data_sub hp1 hp2 -> data_sub hp2 hp3 -> data_sub hp1 hp3.
Proof.
  intros H12 H23 x s H. destruct (H12 x s H) as (t & Ht & Et).
  destruct (H23 x t Ht) as (u & Hu & Eu). exists u. split; [assumption | congruence].
Qed.

Lemma data_sub_update (hp : gmap Z Symbol) (x : addr) (s s' : Symbol) :
  hp !! x = Some s -> data s' = data s -> data_sub (<[x := s']> hp) hp.
Proof.
  intros Hx Hd y t Hy. destruct (Z.eq_dec x y) as [<-|Hne].
  - rewrite lookup_insert_eq in Hy. injection Hy as <-. eauto.
  - rewrite lookup_insert_ne in Hy by assumption. eauto.
Qed.

Lemma data_sub_delete (hp : gmap Z Symbol) (x : addr) : data_sub (delete x hp) hp.
Proof.
  intros y t Hy. destruct (Z.eq_dec x y) as [<-|Hne].
  - now rewrite lookup_delete_eq in Hy.
  - rewrite lookup_delete_ne in Hy by assumption. eauto.
Qed.

Lemma symbol_add_ref_data_sub (a : agent) (x : addr) :
  data_sub (heap (symbol_add_ref a x)) (heap a).
Proof.
  unfold symbol_add_ref. destruct (heap a !! x) as [s|] eqn:Hx; [|apply data_sub_refl].
  now apply (data_sub_update _ x s).
Qed.

Lemma symbol_remove_ref_data_sub (a : agent) (x : addr) :
  data_sub (heap (symbol_remove_ref a x)) (heap a).
Proof.
  unfold symbol_remove_ref. destruct (heap a !! x) as [s|] eqn:Hx; [|apply data_sub_refl].
  cbv zeta. destruct (_ =? 0).
  - rewrite deallocate_symbol_heap. eapply data_sub_trans; [apply data_sub_delete|].
    now apply (data_sub_update _ x s).
  - now apply (data_sub_update _ x s).
Qed.

Lemma new_symbol_keys_unique (a : agent) (d : symbol_data) :
  agent_wf a -> keys_unique (heap a) ->
  (forall y sy, heap a !! y = Some sy -> same_key d (data sy) = false) ->
  keys_unique (heap (fst (new_symbol a d))).
Proof.
  intros Hwf Hu Hnew x y sx sy. rewrite new_symbol_heap.
  pose proof (alloc_addr_fresh (data_kind d) a Hwf) as Hfresh.
  set (sym := alloc_addr (data_kind d) a) in *.
  destruct (Z.eq_dec sym x) as [<-|Hx], (Z.eq_dec sym y) as [<-|Hy]; try reflexivity.
  - rewrite lookup_insert_eq, lookup_insert_ne by assumption.
    intros [= <-] Hsy Hk. cbn in Hk. rewrite (Hnew y sy Hsy) in Hk. discriminate.
  - rewrite lookup_insert_eq, lookup_insert_ne by assumption.
    intros Hsx [= <-] Hk. cbn in Hk. rewrite same_key_sym, (Hnew x sx Hsx) in Hk. discriminate.
  - rewrite !lookup_insert_ne by assumption. apply Hu.
Qed.

(** *** Identifier numbers stay below their letter's counter *)

Definition upper_case (c : ascii) : Prop := 65 <= Z.of_N (N_of_ascii c) <= 90.

Definition ids_below (hp : gmap Z Symbol) (counters : list Z) : Prop :=
  forall x s i, hp !! x = Some s -> data s = id i ->
    upper_case (name_letter i)
    /\ name_number i < counters !!! letter_index (name_letter i).

Lemma normalize_letter_upper (c : ascii) : upper_case (normalize_letter c).
Proof.
  assert (H : (65 <=? Z.of_N (N_of_ascii (normalize_letter c)))
              && (Z.of_N (N_of_ascii (normalize_letter c)) <=? 90) = true).
  { destruct c as [[] [] [] [] [] [] [] []]; reflexivity. }
  apply andb_true_iff in H as [H1 H2]. unfold upper_case. lia.
Qed.

Lemma letter_index_bound (c : ascii) : upper_case c -> (letter_index c < 26)%nat.
Proof. unfold upper_case, letter_index. lia. Qed.

Lemma letter_index_inj (c1 c2 : ascii) :
  upper_case c1 -> upper_case c2 -> letter_index c1 = letter_index c2 -> c1 = c2.
Proof.
  unfold upper_case, letter_index. intros H1 H2 H.
  rewrite <- (ascii_N_embedding c1), <- (ascii_N_embedding c2). f_equal. lia.
Qed.

Lemma ids_below_sub (hp hp' : gmap Z Symbol) (counters : list Z) :
  data_sub hp' hp -> ids_below hp counters -> ids_below hp' counters.
Proof.
  intros Hsub Hb x s i Hx Hd. destruct (Hsub x s Hx) as (t & Ht & Et).
  apply (Hb x t i Ht). congruence.
Qed.

(** The side condition of [make_new_identifier]: the number is a 64-bit
    value; a number that is given explicitly is not below the counter of its
    letter; the counter does not wrap. *)
Definition numbering_respected (a : agent) (letter : ascii) (number : Z) : Prop :=
  let c := id_counter a !!! letter_index (normalize_letter letter) in
  0 <= number < 2 ^ 64 - 1
  /\ (number = 0 -> 0 <= c < 2 ^ 64 - 1)
  /\ (number <> 0 -> c <= number).

(** The weaker condition that keeps the names of identifiers apart: the
    number is a 64-bit value; a number taken from the counter does not make
    the counter wrap; a number that is given explicitly -- below the counter
    or not, lines 388-395 take both -- is borne by no live identifier of the
    letter. *)
Definition number_unused (a : agent) (letter : ascii) (number : Z) : Prop :=
  let L := normalize_letter letter in
  let c := id_counter a !!! letter_index L in
  0 <= number < 2 ^ 64 - 1
  /\ (number = 0 -> 0 <= c < 2 ^ 64 - 1)
  /\ (number <> 0 ->
      forall x s i, heap a !! x = Some s -> data s = id i -> name_letter i = L ->
                    name_number i <> number).

(** The invariant behind the uniqueness of keys. *)
Record interner_inv (a : agent) : Prop := {
  inv_wf : agent_wf a;
  inv_unique : keys_unique (heap a);
  inv_ids : ids_below (heap a) (id_counter a);
  inv_counters : length (id_counter a) = 26%nat
}.

Lemma symbol_add_ref_id_counter (a : agent) (x : addr) :
  id_counter (symbol_add_ref a x) = id_counter a.
Proof. unfold symbol_add_ref. now destruct (heap a !! x). Qed.

Lemma deallocate_symbol_id_counter (a : agent) (x : addr) :
  id_counter (deallocate_symbol a x) = id_counter a.
Proof.
  destruct (heap a !! x) as [s|] eqn:H.
  - now rewrite (deallocate_symbol_steps a x s H).
  - unfold deallocate_symbol. now rewrite H.
Qed.

Lemma symbol_remove_ref_id_counter (a : agent) (x : addr) :
  id_counter (symbol_remove_ref a x) = id_counter a.
Proof.
  unfold symbol_remove_ref. destruct (heap a !! x); [|reflexivity]. cbv zeta.
  destruct (_ =? 0); [now rewrite deallocate_symbol_id_counter | reflexivity].
Qed.

Lemma symbol_add_ref_inv (a : agent) (x : addr) :
  interner_inv a -> interner_inv (symbol_add_ref a x).
Proof.
  intros [Hwf Hu Hb Hc]. split.
  - now apply symbol_add_ref_wf.
  - eapply keys_unique_sub; [apply symbol_add_ref_data_sub | assumption].
  - rewrite symbol_add_ref_id_counter.
    eapply ids_below_sub; [apply symbol_add_ref_data_sub | assumption].
  - now rewrite symbol_add_ref_id_counter.
Qed.

Lemma symbol_remove_ref_inv (a : agent) (x : addr) :
  interner_inv a -> interner_inv (symbol_remove_ref a x).
Proof.
  intros [Hwf Hu Hb Hc]. split.
  - now apply symbol_remove_ref_wf.
  - eapply keys_unique_sub; [apply symbol_remove_ref_data_sub | assumption].
  - rewrite symbol_remove_ref_id_counter.
    eapply ids_below_sub; [apply symbol_remove_ref_data_sub | assumption].
  - now rewrite symbol_remove_ref_id_counter.
Qed.

(** A new symbol that is not an identifier. *)
Lemma new_symbol_inv (a : agent) (d : symbol_data) :
  interner_inv a -> data_kind d <> IDENTIFIER_SYMBOL_TYPE ->
  (forall y sy, heap a !! y = Some sy -> same_key d (data sy) = false) ->
  interner_inv (fst (new_symbol a d)).
Proof.
  intros [Hwf Hu Hb Hc] Hd Hnew. split.
  - now apply new_symbol_wf.
  - now apply new_symbol_keys_unique.
  - rewrite new_symbol_id_counter, new_symbol_heap. intros x s i Hx Hi.
    pose proof (alloc_addr_fresh (data_kind d) a Hwf) as Hfresh.
    destruct (Z.eq_dec (alloc_addr (data_kind d) a) x) as [<-|Hne].
    + rewrite lookup_insert_eq in Hx. injection Hx as <-. cbn in Hi. subst d.
      now cbn in Hd.
    + rewrite lookup_insert_ne in Hx by assumption. now apply (Hb x s i).
  - now rewrite new_symbol_id_counter.
Qed.

Lemma make_variable_inv (a : agent) (name : string) :
  interner_inv a -> interner_inv (fst (make_variable a name)).
Proof.
  intros Hinv. unfold make_variable. destruct (find_variable a name) eqn:F; cbn [fst].
  - now apply symbol_add_ref_inv.
  - apply new_symbol_inv; [assumption | discriminate |].
    apply find_variable_None; [apply Hinv | assumption].
Qed.

Lemma make_sym_constant_inv (a : agent) (name : string) :
  interner_inv a -> interner_inv (fst (make_sym_constant a name)).
Proof.
  intros Hinv. unfold make_sym_constant. destruct (find_sym_constant a name) eqn:F; cbn [fst].
  - now apply symbol_add_ref_inv.
  - apply new_symbol_inv; [assumption | discriminate |].
    apply find_sym_constant_None; [apply Hinv | assumption].
Qed.

Lemma make_int_constant_inv (a : agent) (value : Z) :
  interner_inv a -> interner_inv (fst (make_int_constant a value)).
Proof.
  intros Hinv. unfold make_int_constant. destruct (find_int_constant a value) eqn:F; cbn [fst].
  - now apply symbol_add_ref_inv.
  - apply new_symbol_inv; [assumption | discriminate |].
    apply find_int_constant_None; [apply Hinv | assumption].
Qed.

Lemma make_float_constant_inv (a : agent) (value : spec_float) :
  interner_inv a -> interner_inv (fst (make_float_constant a value)).
Proof.
  intros Hinv. unfold make_float_constant.
  destruct (find_float_constant a value) eqn:F; cbn [fst].
  - now apply symbol_add_ref_inv.
  - apply new_symbol_inv; [assumption | discriminate |].
    apply find_float_constant_None; [apply Hinv | assumption].
Qed.

(** *** [make_new_identifier] *)

(** The number [make_new_identifier] gives the identifier, and the counters
    it leaves. *)
Definition assigned_number (a : agent) (letter : ascii) (number : Z) : Z :=
  if number =? 0 then id_counter a !!! letter_index (normalize_letter letter) else number.

Definition advanced_counters (a : agent) (letter : ascii) (number : Z) : list Z :=
  let idx := letter_index (normalize_letter letter) in
  let c := id_counter a !!! idx in
  if number =? 0 then <[idx := uint64 (c + 1)]> (id_counter a)
  else if c <=? number then <[idx := uint64 (number + 1)]> (id_counter a)
       else id_counter a.

Definition new_identifier (letter : ascii) (lvl number : Z) : identifier :=
  {| name_letter := letter; name_number := number; level := lvl; promotion_level := lvl;
     higher_goal := None; lower_goal := None; smem_lti := 0;
     impasse_type := NONE_IMPASSE_TYPE; allow_bottom_up_chunks := false |}.

Lemma make_new_identifier_steps (a : agent) (letter : ascii) (lvl number : Z) :
  make_new_identifier a letter lvl number
  = new_symbol (set_id_counter (advanced_counters a letter number) a)
      (id (new_identifier (normalize_letter letter) lvl (assigned_number a letter number))).
Proof.
  unfold make_new_identifier, advanced_counters, assigned_number, new_identifier. cbv zeta.
  destruct (number =? 0); [reflexivity|].
  destruct (_ <=? number); reflexivity.
Qed.

Lemma make_new_identifier_id_counter (a : agent) (letter : ascii) (lvl number : Z) :
  id_counter (fst (make_new_identifier a letter lvl number))
  = advanced_counters a letter number.
Proof. rewrite make_new_identifier_steps. now rewrite new_symbol_id_counter. Qed.

Lemma make_new_identifier_lookup (a : agent) (letter : ascii) (lvl number : Z) :
  heap (fst (make_new_identifier a letter lvl number))
    !! snd (make_new_identifier a letter lvl number)
  = Some (fresh_symbol
            (id (new_identifier (normalize_letter letter) lvl
                   (assigned_number a letter number)))
            (uint32 (current_symbol_hash_id a + 137))).
Proof. rewrite make_new_identifier_steps. now rewrite new_symbol_lookup. Qed.

Lemma advanced_counters_length (a : agent) (letter : ascii) (number : Z) :
  length (advanced_counters a letter number) = length (id_counter a).
Proof.
  unfold advanced_counters. cbv zeta.
  destruct (number =? 0); [apply length_insert|].
  destruct (_ <=? number); [apply length_insert | reflexivity].
Qed.

(** Under the side condition the counter of the letter ends one above the
    assigned number, which is not below the old counter; the other counters
    are untouched. *)
Lemma advanced_counters_spec (a : agent) (letter : ascii) (number : Z) :
  length (id_counter a) = 26%nat -> numbering_respected a letter number ->
  let idx := letter_index (normalize_letter letter) in
  id_counter a !!! idx <= assigned_number a letter number
  /\ advanced_counters a letter number !!! idx = assigned_number a letter number + 1
  /\ (forall j, j <> idx -> advanced_counters a letter number !!! j = id_counter a !!! j).
Proof.
  intros Hlen (Hn & H0 & Hpos). cbv zeta.
  pose proof (letter_index_bound _ (normalize_letter_upper letter)) as Hidx.
  unfold advanced_counters, assigned_number. cbv zeta.
  destruct (number =? 0) eqn:E; [apply Z.eqb_eq in E | apply Z.eqb_neq in E].
  - specialize (H0 E). repeat split.
    + lia.
    + rewrite list_lookup_total_insert_eq by lia. unfold uint64. apply Z.mod_small. lia.
    + intros j Hj. now rewrite list_lookup_total_insert_ne by congruence.
  - specialize (Hpos E). rewrite (proj2 (Z.leb_le _ _) Hpos). repeat split.
    + lia.
    + rewrite list_lookup_total_insert_eq by lia. unfold uint64. apply Z.mod_small. lia.
    + intros j Hj. now rewrite list_lookup_total_insert_ne by congruence.
Qed.

Lemma make_new_identifier_inv (a : agent) (letter : ascii) (lvl number : Z) :
  interner_inv a -> numbering_respected a letter number ->
  interner_inv (fst (make_new_identifier a letter lvl number)).
Proof.
  intros [Hwf Hu Hb Hc] Hnum.
  destruct (advanced_counters_spec a letter number Hc Hnum) as (Hle & Hat & Hother).
  rewrite make_new_identifier_steps.
  set (L := normalize_letter letter) in *. set (n := assigned_number a letter number) in *.
  set (a1 := set_id_counter (advanced_counters a letter number) a).
  pose proof (normalize_letter_upper letter) as HL. fold L in HL.
  assert (Hwf1 : agent_wf a1) by now apply agent_wf_set_id_counter.
  assert (Hnew : forall y sy, heap a1 !! y = Some sy ->
                   same_key (id (new_identifier L lvl n)) (data sy) = false).
  { intros y sy Hy. cbn. destruct (data sy) as [| i | | |] eqn:Hd; try reflexivity.
    destruct (Hb y sy i Hy Hd) as [Hup Hlt].
    destruct (Ascii.eqb L (name_letter i)) eqn:E1; [|reflexivity].
    apply Ascii.eqb_eq in E1. rewrite <- E1 in Hlt. cbn.
    apply Z.eqb_neq. lia. }
  split.
  - now apply new_symbol_wf.
  - now apply new_symbol_keys_unique.
  - rewrite new_symbol_id_counter, new_symbol_heap. cbn [id_counter a1 set_id_counter].
    intros x s i Hx Hi.
    pose proof (alloc_addr_fresh IDENTIFIER_SYMBOL_TYPE a1 Hwf1) as Hfresh.
    cbn [data_kind] in Hx.
    destruct (Z.eq_dec (alloc_addr IDENTIFIER_SYMBOL_TYPE a1) x) as [<-|Hne].
    + rewrite lookup_insert_eq in Hx. injection Hx as <-. cbn in Hi. injection Hi as <-.
      cbn. split; [assumption|]. rewrite Hat. lia.
    + rewrite lookup_insert_ne in Hx by assumption.
      destruct (Hb x s i Hx Hi) as [Hup Hlt]. split; [assumption|].
      destruct (Nat.eq_dec (letter_index (name_letter i)) (letter_index L)) as [E|E].
      * rewrite E, Hat. rewrite E in Hlt. lia.
      * now rewrite Hother.
  - rewrite new_symbol_id_counter. cbn. now rewrite advanced_counters_length.
Qed.

(** A number that is not below the counter is borne by no live identifier. *)
Lemma numbering_respected_unused (a : agent) (letter : ascii) (number : Z) :
  ids_below (heap a) (id_counter a) ->
  numbering_respected a letter number -> number_unused a letter number.
Proof.
  intros Hb (Hn & H0 & Hpos). split; [exact Hn|]. split; [exact H0|].
  intros Hne x s i Hx Hd Hl. destruct (Hb x s i Hx Hd) as [_ Hlt].
  rewrite Hl in Hlt. specialize (Hpos Hne). lia.
Qed.

(** A name [find_identifier] does not find is borne by no live identifier. *)
Lemma find_identifier_None_unused (a : agent) (letter : ascii) (number : Z) :
  agent_wf a -> find_identifier a letter number = None ->
  forall x s i, heap a !! x = Some s -> data s = id i -> name_letter i = letter ->
                name_number i <> number.
Proof.
  intros Hwf F x s i Hx Hd Hl Hn.
  pose proof (find_in_chain_None_no_key a (id (new_identifier letter 0 number)) Hwf F
                x s Hx) as K.
  rewrite Hd in K. cbn in K. rewrite Hl, Hn, Ascii.eqb_refl, Z.eqb_refl in K. discriminate.
Qed.

(** Under the weaker condition the counters do not go down and the counter
    of the letter ends above the assigned number. *)
Lemma advanced_counters_unused (a : agent) (letter : ascii) (number : Z) :
  length (id_counter a) = 26%nat ->
  0 <= number < 2 ^ 64 - 1 ->
  (number = 0 -> 0 <= id_counter a !!! letter_index (normalize_letter letter) < 2 ^ 64 - 1) ->
  assigned_number a letter number
  < advanced_counters a letter number !!! letter_index (normalize_letter letter)
  /\ (forall j, id_counter a !!! j <= advanced_counters a letter number !!! j).
Proof.
  intros Hlen Hn H0.
  pose proof (letter_index_bound _ (normalize_letter_upper letter)) as Hidx.
  unfold advanced_counters, assigned_number. cbv zeta.
  set (idx := letter_index (normalize_letter letter)) in *.
  assert (G : forall v, id_counter a !!! idx <= v -> 0 <= v ->
                forall j, id_counter a !!! j <= <[idx := v]> (id_counter a) !!! j).
  { intros v Hv _ j. destruct (Nat.eq_dec j idx) as [->|Hj].
    - rewrite list_lookup_total_insert_eq by lia. exact Hv.
    - rewrite list_lookup_total_insert_ne by congruence. lia. }
  destruct (number =? 0) eqn:E; [apply Z.eqb_eq in E | apply Z.eqb_neq in E].
  - specialize (H0 E).
    assert (U : uint64 (id_counter a !!! idx + 1) = id_counter a !!! idx + 1)
      by (unfold uint64; apply Z.mod_small; lia).
    rewrite U. split.
    + rewrite list_lookup_total_insert_eq by lia. lia.
    + apply G; lia.
  - assert (U : uint64 (number + 1) = number + 1)
      by (unfold uint64; apply Z.mod_small; lia).
    destruct (id_counter a !!! idx <=? number) eqn:C;
      [apply Z.leb_le in C | apply Z.leb_gt in C].
    + rewrite U. split.
      * rewrite list_lookup_total_insert_eq by lia. lia.
      * apply G; lia.
    + split; [exact C | intros j; lia].
Qed.

(** [make_new_identifier] keeps the invariant whenever the name it hands out
    is not in use. *)
Lemma make_new_identifier_unused_inv (a : agent) (letter : ascii) (lvl number : Z) :
  interner_inv a -> number_unused a letter number ->
  interner_inv (fst (make_new_identifier a letter lvl number)).
Proof.
  intros [Hwf Hu Hb Hc] (Hn & H0 & Hfree).
  destruct (advanced_counters_unused a letter number Hc Hn H0) as (Hat & Hgrow).
  rewrite make_new_identifier_steps.
  set (L := normalize_letter letter) in *. set (n := assigned_number a letter number) in *.
  set (a1 := set_id_counter (advanced_counters a letter number) a).
  pose proof (normalize_letter_upper letter) as HL. fold L in HL.
  assert (Hwf1 : agent_wf a1) by now apply agent_wf_set_id_counter.
  assert (Hnew : forall y sy, heap a1 !! y = Some sy ->
                   same_key (id (new_identifier L lvl n)) (data sy) = false).
  { intros y sy Hy. cbn. destruct (data sy) as [| i | | |] eqn:Hd; try reflexivity.
    destruct (Hb y sy i Hy Hd) as [Hup Hlt].
    destruct (Ascii.eqb L (name_letter i)) eqn:E1; [|reflexivity].
    apply Ascii.eqb_eq in E1. rewrite <- E1 in Hlt. cbn.
    apply Z.eqb_neq. unfold n, assigned_number. fold L.
    destruct (number =? 0) eqn:E; [apply Z.eqb_eq in E | apply Z.eqb_neq in E].
    - lia.
    - intros E2. apply (Hfree E y sy i Hy Hd (eq_sym E1)). now symmetry. }
  split.
  - now apply new_symbol_wf.
  - now apply new_symbol_keys_unique.
  - rewrite new_symbol_id_counter, new_symbol_heap. cbn [id_counter a1 set_id_counter].
    intros x s i Hx Hi.
    cbn [data_kind] in Hx.
    destruct (Z.eq_dec (alloc_addr IDENTIFIER_SYMBOL_TYPE a1) x) as [<-|Hne].
    + rewrite lookup_insert_eq in Hx. injection Hx as <-. cbn in Hi. injection Hi as <-.
      cbn. split; [assumption|]. exact Hat.
    + rewrite lookup_insert_ne in Hx by assumption.
      destruct (Hb x s i Hx Hi) as [Hup Hlt]. split; [assumption|].
      specialize (Hgrow (letter_index (name_letter i))). lia.
  - rewrite new_symbol_id_counter. cbn. now rewrite advanced_counters_length.
Qed.

(** *** Sequences of interner operations *)

Inductive interner_op :=
  | op_make_variable (name : string)
  | op_make_sym_constant (name : string)
  | op_make_int_constant (value : Z)
  | op_make_float_constant (value : spec_float)
  | op_make_new_identifier (letter : ascii) (lvl : Z) (number : Z)
  | op_symbol_add_ref (sym : addr)
  | op_symbol_remove_ref (sym : addr).

Definition apply_op (a : agent) (o : interner_op) : agent :=
  match o with
  | op_make_variable name => fst (make_variable a name)
  | op_make_sym_constant name => fst (make_sym_constant a name)
  | op_make_int_constant value => fst (make_int_constant a value)
  | op_make_float_constant value => fst (make_float_constant a value)
  | op_make_new_identifier letter lvl number => fst (make_new_identifier a letter lvl number)
  | op_symbol_add_ref sym => symbol_add_ref a sym
  | op_symbol_remove_ref sym => symbol_remove_ref a sym
  end.

(** The side condition of an operation: none but for [make_new_identifier],
    which must not hand out a name that is in use. *)
Definition op_respects_numbering (a : agent) (o : interner_op) : Prop :=
  match o with
  | op_make_new_identifier letter _ number => number_unused a letter number
  | _ => True
  end.

(** The agents reached from [init_symbol_tables] by operations that hand
    out no identifier name twice. *)
Inductive reachable : agent -> Prop :=
  | reachable_init : reachable init_symbol_tables
  | reachable_step (a : agent) (o : interner_op) :
      reachable a -> op_respects_numbering a o -> reachable (apply_op a o).

(** Any sequence of operations, side condition or not. *)
Definition run (ops : list interner_op) (a : agent) : agent := foldl apply_op a ops.

Lemma interner_inv_init : interner_inv init_symbol_tables.
Proof.
  split.
  - pose proof agent_wf_empty_agent as [Ht Hl Hf Htop Hnd Hdis]. now split.
  - intros x y sx sy Hx. cbn in Hx. now rewrite lookup_empty in Hx.
  - intros x s i Hx. cbn in Hx. now rewrite lookup_empty in Hx.
  - reflexivity.
Qed.

Lemma apply_op_inv (a : agent) (o : interner_op) :
  interner_inv a -> op_respects_numbering a o -> interner_inv (apply_op a o).
Proof.
  intros Hinv Hop. destruct o; cbn [apply_op].
  - now apply make_variable_inv.
  - now apply make_sym_constant_inv.
  - now apply make_int_constant_inv.
  - now apply make_float_constant_inv.
  - now apply make_new_identifier_unused_inv.
  - now apply symbol_add_ref_inv.
  - now apply symbol_remove_ref_inv.
Qed.

Lemma reachable_inv (a : agent) : reachable a -> interner_inv a.
Proof.
  induction 1 as [|a o _ IH Hop]; [apply interner_inv_init | now apply apply_op_inv].
Qed.

(** A step of [make_new_identifier] whose number is taken from the counter
    or is not below it. *)
Lemma reachable_step_counter (a : agent) (letter : ascii) (lvl number : Z) :
  reachable a -> numbering_respected a letter number ->
  reachable (apply_op a (op_make_new_identifier letter lvl number)).
Proof.
  intros Hr Hnum. apply reachable_step; [exact Hr|].
  apply numbering_respected_unused; [|exact Hnum]. apply (inv_ids a (reachable_inv a Hr)).
Qed.

(** A step of [make_new_identifier] with a number [find_identifier] does not
    find. *)
Lemma reachable_step_unused (a : agent) (letter : ascii) (lvl number : Z) :
  reachable a -> 0 < number < 2 ^ 64 - 1 ->
  find_identifier a (normalize_letter letter) number = None ->
  reachable (apply_op a (op_make_new_identifier letter lvl number)).
Proof.
  intros Hr Hn F. apply reachable_step; [exact Hr|].
  split; [lia|]. split; [lia|]. intros _.
  apply find_identifier_None_unused; [|exact F]. apply (inv_wf a (reachable_inv a Hr)).
Qed.

(** The identity key of a symbol, in the words of the specification: the
    name of a variable or symbolic constant, the letter and number of an
    identifier, the stored value of a numeric constant. *)
Inductive identity_key :=
  | variable_key (name : string)
  | identifier_key (letter : ascii) (number : Z)
  | sym_constant_key (name : string)
  | int_constant_key (value : Z)
  | float_constant_key (value : spec_float).

Definition identity_key_of (d : symbol_data) : identity_key :=
  match d with
  | var name _ => variable_key name
  | id i => identifier_key (name_letter i) (name_number i)
  | sc name _ => sym_constant_key name
  | ic value => int_constant_key value
  | fc value => float_constant_key value
  end.

Lemma identity_key_same_key (d1 d2 : symbol_data) :
  identity_key_of d1 = identity_key_of d2 ->
  identity_key_of d1 <> float_constant_key S754_nan ->
  same_key d1 d2 = true.
Proof.
  destruct d1, d2; cbn; intros E Hnan; try discriminate.
  - injection E as ->. apply String.eqb_refl.
  - injection E as E1 E2. rewrite E1, E2, Ascii.eqb_refl. apply Z.eqb_refl.
  - injection E as ->. apply String.eqb_refl.
  - injection E as ->. apply Z.eqb_refl.
  - injection E as ->. apply SFeqb_refl. congruence.
Qed.

Ltac solve_numbering :=
  unfold numbering_respected; cbv zeta;
  match goal with
  | |- context [?l !!! ?i] =>
      let v := eval vm_compute in (l !!! i) in
      replace (l !!! i) with v by (vm_compute; reflexivity)
  end; lia.

(** C1 (amended).  In every agent reached from [init_symbol_tables] by
    [make_variable], [make_sym_constant], [make_int_constant],
    [make_float_constant], [make_new_identifier], [symbol_add_ref] and
    [symbol_remove_ref] -- where each [make_new_identifier] either takes its
    number from the counter or is given one that no live identifier of its
    letter bears, below the counter or not, and no counter wraps -- every
    table holds exactly the live symbols of its kind, and two symbols of a
    table with the same identity key (name; letter and number; stored value)
    are the same symbol, for every key other than a NaN float. *)
Theorem at_most_one_symbol_per_key (a : agent) :
  reachable a ->
  (forall k x, x ∈ all_items (table k a)
               <-> exists s, heap a !! x = Some s /\ symbol_type_of s = k)
  /\ (forall k x y sx sy,
        x ∈ all_items (table k a) -> y ∈ all_items (table k a) ->
        heap a !! x = Some sx -> heap a !! y = Some sy ->
        identity_key_of (data sx) = identity_key_of (data sy) ->
        identity_key_of (data sx) <> float_constant_key S754_nan ->
        x = y).
Proof.
  intros Hr. apply reachable_inv in Hr as [Hwf Hu _ _]. split.
  - apply (wf_live a Hwf).
  - intros k x y sx sy _ _ Hx Hy Hkey Hnan.
    apply (Hu x y sx sy Hx Hy). now apply identity_key_same_key.
Qed.

(** An agent with a symbolic constant, an integer, a float and three
    identifiers, one of them numbered explicitly. *)
Definition example_reachable_agent : agent :=
  run [op_make_sym_constant "state"; op_make_int_constant 7;
       op_make_float_constant (S754_finite false 3 (-1));
       op_make_new_identifier "q" 1 50; op_make_new_identifier "q" 1 0;
       op_make_new_identifier "s" 1 0; op_make_sym_constant "state";
       op_symbol_remove_ref 2]
      init_symbol_tables.

Lemma example_reachable_agent_reachable : reachable example_reachable_agent.
Proof.
  unfold example_reachable_agent, run. cbn [foldl].
  repeat match goal with
         | |- reachable (apply_op _ (op_make_new_identifier _ _ _)) =>
             apply reachable_step_counter; [| solve_numbering]
         | |- reachable (apply_op _ _) => apply reachable_step; [| exact I]
         end.
  apply reachable_init.
Qed.

(** An agent in which [make_new_identifier] is given a number below the
    counter of its letter: Q50, which moves the counter of Q to 51, then
    Q10. *)
Definition example_renumbered_agent : agent :=
  run [op_make_new_identifier "q" 1 50; op_make_new_identifier "q" 1 10;
       op_make_new_identifier "q" 1 0; op_make_sym_constant "state"]
      init_symbol_tables.

Lemma example_renumbered_agent_reachable : reachable example_renumbered_agent.
Proof.
  unfold example_renumbered_agent, run. cbn [foldl].
  apply reachable_step; [| exact I].
  apply reachable_step_counter; [| solve_numbering].
  apply reachable_step_unused; [| lia | vm_compute; reflexivity].
  apply reachable_step_counter; [apply reachable_init | solve_numbering].
Qed.

Lemma at_most_one_symbol_per_key_witness :
  reachable example_renumbered_agent
  /\ symbol_to_string (heap example_renumbered_agent) <$> [1; 2; 3]
     = ["Q50"; "Q10"; "Q51"]%string
  /\ (forall k x y sx sy,
        x ∈ all_items (table k example_renumbered_agent) ->
        y ∈ all_items (table k example_renumbered_agent) ->
        heap example_renumbered_agent !! x = Some sx ->
        heap example_renumbered_agent !! y = Some sy ->
        identity_key_of (data sx) = identity_key_of (data sy) ->
        identity_key_of (data sx) <> float_constant_key S754_nan ->
        x = y).
Proof.
  split; [exact example_renumbered_agent_reachable|].
  split; [vm_compute; reflexivity|].
  exact (proj2 (at_most_one_symbol_per_key example_renumbered_agent
                  example_renumbered_agent_reachable)).
Defined.

(** C1, as stated, fails for identifiers: [make_new_identifier] does not
    look the name up, so giving the number 50 twice leaves two live
    identifiers named Q50 in the identifier table. *)
Lemma two_identifiers_with_one_name :
  let a1 := fst (make_new_identifier init_symbol_tables "q" 1 50) in
  let a2 := fst (make_new_identifier a1 "q" 1 50) in
  all_items (identifier_hash_table a2) = [2; 1]
  /\ (identity_key_of <$> (data <$> heap a2 !! 1)) = Some (identifier_key "Q" 50)
  /\ (identity_key_of <$> (data <$> heap a2 !! 2)) = Some (identifier_key "Q" 50).
Proof. vm_compute. repeat split. Qed.

(** ** [make_new_identifier]: letters, numbers and counters *)

Lemma normalize_letter_cases (letter : ascii) :
  (isalpha letter = true -> normalize_letter letter = toupper letter)
  /\ (isalpha letter = false -> normalize_letter letter = "I"%char).
Proof.
  unfold normalize_letter, toupper. destruct (isalpha letter); split; intros H;
    try discriminate; try reflexivity.
  now destruct (islower letter).
Qed.

Lemma make_new_identifier_general (a : agent) (letter : ascii) (lvl number : Z) :
  length (id_counter a) = 26%nat ->
  0 <= number < 2 ^ 64 - 1 ->
  0 <= id_counter a !!! letter_index (normalize_letter letter) < 2 ^ 64 - 1 ->
  let L := normalize_letter letter in
  let c := id_counter a !!! letter_index L in
  let a' := fst (make_new_identifier a letter lvl number) in
  let sym := snd (make_new_identifier a letter lvl number) in
  exists s i,
    heap a' !! sym = Some s /\ data s = id i /\ reference_count s = 1
    /\ name_letter i = L /\ level i = lvl
    /\ (number = 0 -> name_number i = c /\ id_counter a' !!! letter_index L = c + 1)
    /\ (number <> 0 ->
        name_number i = number /\ id_counter a' !!! letter_index L = Z.max c (number + 1))
    /\ (forall j, j <> letter_index L -> id_counter a' !!! j = id_counter a !!! j).
Proof.
  intros Hlen Hn Hc. cbv zeta.
  pose proof (letter_index_bound _ (normalize_letter_upper letter)) as Hidx.
  rewrite make_new_identifier_lookup, make_new_identifier_id_counter.
  do 2 eexists. split; [reflexivity|]. cbn [data fresh_symbol reference_count].
  split; [reflexivity|]. split; [reflexivity|]. cbn [new_identifier name_letter level name_number].
  split; [reflexivity|]. split; [reflexivity|].
  unfold assigned_number, advanced_counters. cbv zeta.
  destruct (number =? 0) eqn:E; [apply Z.eqb_eq in E | apply Z.eqb_neq in E].
  - split; [|split].
    + intros _. split; [reflexivity|].
      rewrite list_lookup_total_insert_eq by lia. unfold uint64. apply Z.mod_small. lia.
    + intros H. contradiction.
    + intros j Hj. now rewrite list_lookup_total_insert_ne by congruence.
  - split; [|split].
    + intros H. contradiction.
    + intros _. split; [reflexivity|].
      destruct (_ <=? number) eqn:Hle; [apply Z.leb_le in Hle | apply Z.leb_gt in Hle].
      * rewrite list_lookup_total_insert_eq by lia. unfold uint64.
        rewrite Z.mod_small by lia. lia.
      * lia.
    + intros j Hj. destruct (_ <=? number); [|reflexivity].
      now rewrite list_lookup_total_insert_ne by congruence.
Qed.

(** C5.  [make_new_identifier] stores the letter upper-cased if it is
    alphabetic and ['I'] otherwise.  With no number given (0, the source's
    [NIL]) the identifier takes the value of the letter's counter and the
    counter goes up by one; with a number [n] given the identifier is
    numbered [n] and the counter becomes [max (counter, n + 1)]; no other
    counter changes.  (Numbers and counters are 64-bit values below
    [2^64 - 1], so that nothing wraps.)  In particular, from the initial
    tables, [make_new_identifier ('q', 1, 50)] returns Q50 and leaves the
    counter of Q at 51, and the next call without a number returns Q51. *)
Theorem make_new_identifier_spec :
  (forall (a : agent) (letter : ascii) (lvl number : Z),
     length (id_counter a) = 26%nat ->
     0 <= number < 2 ^ 64 - 1 ->
     0 <= id_counter a !!! letter_index (normalize_letter letter) < 2 ^ 64 - 1 ->
     let L := normalize_letter letter in
     let c := id_counter a !!! letter_index L in
     let a' := fst (make_new_identifier a letter lvl number) in
     let sym := snd (make_new_identifier a letter lvl number) in
     ((isalpha letter = true -> L = toupper letter)
      /\ (isalpha letter = false -> L = "I"%char))
     /\ exists s i,
          heap a' !! sym = Some s /\ data s = id i /\ reference_count s = 1
          /\ name_letter i = L /\ level i = lvl
          /\ (number = 0 ->
              name_number i = c /\ id_counter a' !!! letter_index L = c + 1)
          /\ (number <> 0 ->
              name_number i = number
              /\ id_counter a' !!! letter_index L = Z.max c (number + 1))
          /\ (forall j, j <> letter_index L -> id_counter a' !!! j = id_counter a !!! j))
  /\ (let r1 := make_new_identifier init_symbol_tables "q" 1 50 in
      let r2 := make_new_identifier (fst r1) "q" 1 0 in
      symbol_to_string (heap (fst r1)) (snd r1) = "Q50"%string
      /\ id_counter (fst r1) !!! letter_index "Q" = 51
      /\ symbol_to_string (heap (fst r2)) (snd r2) = "Q51"%string
      /\ id_counter (fst r2) !!! letter_index "Q" = 52).
Proof.
  split.
  - intros a letter lvl number Hlen Hn Hc. cbv zeta. split.
    + apply normalize_letter_cases.
    + now apply make_new_identifier_general.
  - vm_compute. repeat split.
Qed.

Lemma make_new_identifier_spec_witness :
  let a := init_symbol_tables in
  let a' := fst (make_new_identifier a "q" 1 50) in
  let sym := snd (make_new_identifier a "q" 1 50) in
  length (id_counter a) = 26%nat
  /\ exists s i,
       heap a' !! sym = Some s /\ data s = id i /\ reference_count s = 1
       /\ name_letter i = "Q"%char /\ level i = 1
       /\ (50 = 0 -> name_number i = 1 /\ id_counter a' !!! letter_index "Q" = 1 + 1)
       /\ (50 <> 0 ->
           name_number i = 50 /\ id_counter a' !!! letter_index "Q" = Z.max 1 (50 + 1))
       /\ (forall j, j <> letter_index "Q" -> id_counter a' !!! j = id_counter a !!! j).
Proof.
  cbv zeta. split; [reflexivity|].
  exact (proj2 (proj1 make_new_identifier_spec init_symbol_tables "q"%char 1 50
                  eq_refl ltac:(lia) ltac:(vm_compute; split; congruence))).
Defined.

(** ** Gensym of symbolic constants (symtab.cpp, [generate_new_sym_constant]) *)

Lemma symbol_to_string_sc (heap : gmap Z Symbol) (sym : addr) (s : Symbol)
    (name : string) (p : option addr) :
  heap !! sym = Some s -> data s = sc name p -> symbol_to_string heap sym = name.
Proof. intros H D. unfold symbol_to_string. now rewrite H, D. Qed.

(** A new symbolic constant heads the chain its name hashes to, so a lookup
    of the name finds it at once. *)
Lemma find_new_sym_constant (a : agent) (name : string) :
  find_sym_constant (fst (new_symbol a (sc name None))) name
  = Some (snd (new_symbol a (sc name None))).
Proof.
  pose proof (new_symbol_lookup a (sc name None)) as L.
  pose proof (new_symbol_table a (sc name None)) as T.
  rewrite new_symbol_addr in *. cbn [data_kind] in *.
  set (a' := fst (new_symbol a (sc name None))) in *.
  set (sym := alloc_addr SYM_CONSTANT_SYMBOL_TYPE a) in *.
  unfold find_sym_constant, sym_constant_hash_table.
  change (of_sym_constant (hash_tables a')) with (table SYM_CONSTANT_SYMBOL_TYPE a').
  destruct (add_to_hash_table_head (hash_callback SYM_CONSTANT_SYMBOL_TYPE) (heap a')
              (table SYM_CONSTANT_SYMBOL_TYPE a) sym) as (rest & Hhead).
  rewrite <- T in Hhead. unfold hash_item in Hhead. rewrite L in Hhead.
  cbn [hash_callback hash_sym_constant fresh_symbol data] in Hhead.
  unfold hash_sym_constant_raw_info. rewrite Hhead.
  apply (find_in_chain_head _ _ _ _ _ L). cbn. apply String.eqb_refl.
Qed.

(** The loop returns the first name, counting from [counter], that is not
    interned, and leaves the counter one past it. *)
Lemma generate_new_sym_constant_name_first_free (n : nat) :
  forall (fuel : nat) (a : agent) (prefix : string) (counter : Z),
    0 <= counter -> counter + Z.of_nat n < 2 ^ 64 - 1 ->
    (String.length prefix <= 1979)%nat ->
    (forall i : nat, (i < n)%nat ->
       find_sym_constant a (prefix ++ to_string (counter + Z.of_nat i)) <> None) ->
    find_sym_constant a (prefix ++ to_string (counter + Z.of_nat n)) = None ->
    (n < fuel)%nat ->
    generate_new_sym_constant_name fuel a prefix counter
    = Some ((prefix ++ to_string (counter + Z.of_nat n))%string, counter + Z.of_nat n + 1).
Proof.
  induction n as [|n IH]; intros fuel a prefix counter H0 Hmax Hlen Htaken Hfree Hfuel;
    (destruct fuel as [|fuel]; [lia|]); cbn [generate_new_sym_constant_name];
    rewrite snprintf_2000_fits by assumption.
  - rewrite Z.add_0_r in *. rewrite Hfree. f_equal. f_equal. unfold uint64.
    apply Z.mod_small. lia.
  - destruct (find_sym_constant a (prefix ++ to_string counter)) eqn:F.
    + replace (uint64 (counter + 1)) with (counter + 1)
        by (unfold uint64; symmetry; apply Z.mod_small; lia).
      rewrite (IH fuel a prefix (counter + 1)); try assumption; try lia.
      * now replace (counter + 1 + Z.of_nat n) with (counter + Z.of_nat (S n)) by lia.
      * intros i Hi. specialize (Htaken (S i) ltac:(lia)).
        now replace (counter + 1 + Z.of_nat i) with (counter + Z.of_nat (S i)) by lia.
      * now replace (counter + 1 + Z.of_nat n) with (counter + Z.of_nat (S n)) by lia.
    + exfalso. apply (Htaken 0%nat ltac:(lia)). now rewrite Z.add_0_r.
Qed.

Lemma make_sym_constant_new (a : agent) (name : string) :
  find_sym_constant a name = None ->
  let a' := fst (make_sym_constant a name) in
  let sym := snd (make_sym_constant a name) in
  symbol_to_string (heap a') sym = name
  /\ find_sym_constant a' name = Some sym
  /\ heap a' !! sym
     = Some (fresh_symbol (sc name None) (uint32 (current_symbol_hash_id a + 137))).
Proof.
  intros Hfree. cbv zeta. unfold make_sym_constant. rewrite Hfree.
  pose proof (new_symbol_lookup a (sc name None)) as L.
  repeat split.
  - eapply symbol_to_string_sc; [exact L | reflexivity].
  - apply find_new_sym_constant.
  - exact L.
Qed.

Lemma generate_new_sym_constant_first_free (n : nat) (fuel : nat) (a : agent)
    (prefix : string) (counter : Z) :
  0 <= counter -> counter + Z.of_nat n < 2 ^ 64 - 1 ->
  (String.length prefix <= 1979)%nat ->
  (forall i : nat, (i < n)%nat ->
     find_sym_constant a (prefix ++ to_string (counter + Z.of_nat i)) <> None) ->
  find_sym_constant a (prefix ++ to_string (counter + Z.of_nat n)) = None ->
  (n < fuel)%nat ->
  exists a' sym,
    generate_new_sym_constant fuel a prefix counter
    = Some (a', sym, counter + Z.of_nat n + 1)
    /\ symbol_to_string (heap a') sym = (prefix ++ to_string (counter + Z.of_nat n))%string
    /\ find_sym_constant a' (prefix ++ to_string (counter + Z.of_nat n)) = Some sym
    /\ (exists s, heap a' !! sym = Some s /\ reference_count s = 1).
Proof.
  intros H0 Hmax Hlen Htaken Hfree Hfuel. unfold generate_new_sym_constant.
  rewrite (generate_new_sym_constant_name_first_free n) by assumption.
  destruct (make_sym_constant_new a _ Hfree) as (H1 & H2 & H3).
  destruct (make_sym_constant a _) as [a' sym]. cbn [fst snd] in *.
  exists a', sym. repeat split; try assumption. eexists. split; [exact H3 | reflexivity].
Qed.

(** ** The rule namer (ebc.cpp, [generate_name_for_new_rule]) *)

(** Step 1 of the function: what the rule kind selects. *)
Definition is_chunk (e : Explanation_Based_Chunker) : bool :=
  match m_rule_type e with ebc_chunk => true | _ => false end.

Definition rule_prefix (e : Explanation_Based_Chunker) : string :=
  if is_chunk e then chunk_name_prefix e else justification_name_prefix e.

Definition rule_number (e : Explanation_Based_Chunker) : Z :=
  if is_chunk e then chunks_this_d_cycle e else justifications_this_d_cycle e.

Definition rule_naming_counter (e : Explanation_Based_Chunker) : Z :=
  if is_chunk e then chunk_naming_counter e else justification_naming_counter e.

Definition set_rule_naming_counter (x : Z) (e : Explanation_Based_Chunker)
    : Explanation_Based_Chunker :=
  if is_chunk e then set_chunk_naming_counter x e else set_justification_naming_counter x e.

(** The arm of the function taken when learning is off or the style is
    numbered (lines 195-199), under a name. *)
Definition numbered_format (fuel : nat) (e : Explanation_Based_Chunker) (a : agent)
    : result (Explanation_Based_Chunker * agent * addr) :=
  match generate_new_sym_constant fuel a (rule_prefix e)
          (increment_counter (rule_naming_counter e)) with
  | Some (a', sym, counter') => Done (set_rule_naming_counter counter' e, a', sym)
  | None => OutOfFuel
  end.

Lemma generate_name_numbered (fuel : nat) (e : Explanation_Based_Chunker) (a : agent) :
  SETTING_EBC_LEARNING_ON (ebc_settings e) = false \/ naming_style e = numberedFormat ->
  generate_name_for_new_rule fuel e a = numbered_format fuel e a.
Proof.
  intros H. unfold generate_name_for_new_rule, numbered_format, rule_prefix,
    rule_naming_counter, set_rule_naming_counter, is_chunk, generate_new_str_constant.
  cbv zeta.
  assert (C : negb (SETTING_EBC_LEARNING_ON (ebc_settings e))
              || match naming_style e with numberedFormat => true | _ => false end = true).
  { destruct H as [-> | ->]; [reflexivity | apply orb_true_r]. }
  rewrite C. now destruct (m_rule_type e).
Qed.

(** The descriptive format: the composed name, a numeric suffix from 2 on
    if the name is taken. *)
Definition descriptive_name (e : Explanation_Based_Chunker) (a : agent)
    (inst : instantiation) (t : impasse_kind) : string :=
  (rule_prefix e ++ learning_depth_segment inst ++ impasse_type_segment t
   ++ time_segment a (rule_number e))%string.

(** The impasse type [generate_name_for_new_rule] reads:
    [m_inst->match_goal->id->higher_goal->id->impasse_type]. *)
Definition impasse_above (a : agent) (inst : instantiation) : option impasse_kind :=
  match identifier_at (heap a) (match_goal inst) with
  | Some g =>
      match higher_goal g with
      | Some h =>
          match identifier_at (heap a) h with
          | Some hg => Some (impasse_type hg)
          | None => None
          end
      | None => None
      end
  | None => None
  end.

(** The assignment [m_chunk_inst->prod_naming_depth = m_inst->prod_naming_depth + 1],
    made when the triggering instantiation has a production. *)
Definition with_chunk_depth (e : Explanation_Based_Chunker) (inst : instantiation)
    : option Explanation_Based_Chunker :=
  match prod inst, m_chunk_inst e with
  | Some _, Some chunk_inst =>
      Some (set_m_chunk_inst
              (Some (set_prod_naming_depth (uint64 (prod_naming_depth inst + 1)) chunk_inst)) e)
  | Some _, None => None
  | None, _ => Some e
  end.

(** The other arm (lines 201-255), under a name. *)
Definition descriptive_format (fuel : nat) (e : Explanation_Based_Chunker) (a : agent)
    : result (Explanation_Based_Chunker * agent * addr) :=
  match m_inst e with
  | None => NullDereference
  | Some inst =>
      match with_chunk_depth e inst, impasse_above a inst with
      | Some e', Some t =>
          let name := descriptive_name e a inst t in
          match find_sym_constant a name with
          | Some _ =>
              match generate_new_sym_constant fuel a name 2 with
              | Some (a', sym, _) => Done (e', a', sym)
              | None => OutOfFuel
              end
          | None => let '(a', sym) := new_symbol a (sc name None) in Done (e', a', sym)
          end
      | _, _ => NullDereference
      end
  end.

Lemma generate_name_descriptive (fuel : nat) (e : Explanation_Based_Chunker) (a : agent) :
  SETTING_EBC_LEARNING_ON (ebc_settings e) = true -> naming_style e = descriptiveFormat ->
  generate_name_for_new_rule fuel e a = descriptive_format fuel e a.
Proof.
  intros H1 H2. unfold generate_name_for_new_rule, descriptive_format. cbv zeta.
  rewrite H1, H2. cbn [negb orb].
  destruct (m_inst e) as [inst|]; [|reflexivity].
  unfold with_chunk_depth, impasse_above, descriptive_name, rule_prefix, rule_number,
    is_chunk, find_str_constant, generate_new_str_constant, make_str_constant_no_find.
  destruct (m_rule_type e); reflexivity.
Qed.

Lemma set_rule_naming_counter_read (x : Z) (e : Explanation_Based_Chunker) :
  rule_naming_counter (set_rule_naming_counter x e) = x.
Proof.
  unfold rule_naming_counter, set_rule_naming_counter, is_chunk.
  destruct (m_rule_type e) eqn:E; cbn; rewrite E; reflexivity.
Qed.

(** C6 (amended).  In the numbered format -- the naming style is numbered,
    or learning is off -- the naming counter is advanced by one before the
    first name is tried.  With the counter at [c], the names
    [prefix (c+1)], ..., [prefix (c+n)] interned and [prefix (c+n+1)] not,
    the function returns the new symbolic constant named [prefix (c+n+1)],
    which the interner now finds under that name, and leaves the counter at
    [c+n+2].  (The prefix has at most 1979 characters, "chunk" and "justify"
    in the source, and the counter does not wrap.) *)
Theorem numbered_name_first_free
    (n fuel : nat) (e : Explanation_Based_Chunker) (a : agent) :
  SETTING_EBC_LEARNING_ON (ebc_settings e) = false \/ naming_style e = numberedFormat ->
  0 <= rule_naming_counter e ->
  rule_naming_counter e + 1 + Z.of_nat n < 2 ^ 64 - 1 ->
  (String.length (rule_prefix e) <= 1979)%nat ->
  (forall i : nat, (i < n)%nat ->
     find_sym_constant a
       (rule_prefix e ++ to_string (rule_naming_counter e + 1 + Z.of_nat i)) <> None) ->
  find_sym_constant a
    (rule_prefix e ++ to_string (rule_naming_counter e + 1 + Z.of_nat n)) = None ->
  (n < fuel)%nat ->
  exists e' a' sym,
    generate_name_for_new_rule fuel e a = Done (e', a', sym)
    /\ symbol_to_string (heap a') sym
       = (rule_prefix e ++ to_string (rule_naming_counter e + 1 + Z.of_nat n))%string
    /\ find_sym_constant a'
         (rule_prefix e ++ to_string (rule_naming_counter e + 1 + Z.of_nat n)) = Some sym
    /\ rule_naming_counter e' = rule_naming_counter e + Z.of_nat n + 2.
Proof.
  intros Hmode H0 Hmax Hlen Htaken Hfree Hfuel.
  rewrite generate_name_numbered by assumption. unfold numbered_format.
  assert (Einc : increment_counter (rule_naming_counter e) = rule_naming_counter e + 1).
  { unfold increment_counter, uint64. apply Z.mod_small. lia. }
  rewrite Einc.
  destruct (generate_new_sym_constant_first_free n fuel a (rule_prefix e)
              (rule_naming_counter e + 1)) as (a' & sym & -> & Hname & Hfind & _);
    try assumption; try lia.
  exists (set_rule_naming_counter (rule_naming_counter e + 1 + Z.of_nat n + 1) e), a', sym.
  repeat split; try assumption.
  rewrite set_rule_naming_counter_read. lia.
Qed.

(** The chunker of the examples: learning on, no restriction on the states,
    chunk kind, "chunk" and "justify" as prefixes. *)
Definition example_chunker (style : chunkNameFormats) (counter : Z)
    (inst : option instantiation) : Explanation_Based_Chunker :=
  {| ebc_settings := {| SETTING_EBC_LEARNING_ON := true; SETTING_EBC_EXCEPT := false;
                        SETTING_EBC_ONLY := false; SETTING_EBC_BOTTOM_ONLY := true |};
     naming_style := style;
     chunk_name_prefix := "chunk"; justification_name_prefix := "justify";
     chunk_naming_counter := counter; justification_naming_counter := 0;
     chunks_this_d_cycle := 3; justifications_this_d_cycle := 0;
     m_rule_type := ebc_chunk; m_inst := inst;
     m_chunk_inst := Some {| prod := None; prod_name := 0; prod_naming_depth := 0;
                             match_goal := 1; match_goal_level := 1 |};
     chunk_free_problem_spaces := []; chunky_problem_spaces := [];
     m_learning_on_for_instantiation := true |}.

Lemma numbered_name_first_free_witness :
  exists e' a' sym,
    generate_name_for_new_rule 2 (example_chunker numberedFormat 7 None)
      (fst (make_sym_constant init_symbol_tables "chunk8"))
    = Done (e', a', sym)
    /\ symbol_to_string (heap a') sym = "chunk9"%string
    /\ find_sym_constant a' "chunk9" = Some sym
    /\ rule_naming_counter e' = 10.
Proof.
  refine (numbered_name_first_free 1 2 (example_chunker numberedFormat 7 None)
            (fst (make_sym_constant init_symbol_tables "chunk8")) _ _ _ _ _ _ _).
  - now right.
  - vm_compute. congruence.
  - vm_compute. reflexivity.
  - vm_compute. lia.
  - intros [|i] Hi; [|lia]. vm_compute. congruence.
  - vm_compute. reflexivity.
  - lia.
Defined.

(** C6, as stated, fails: with the chunk naming counter at 7 and chunk7 not
    interned, the name returned is chunk8, because the counter is
    incremented before the first name is formed; the counter is left
    at 9. *)
Lemma numbered_name_at_counter_7 :
  let e := example_chunker numberedFormat 7 None in
  let a := init_symbol_tables in
  find_sym_constant a "chunk7" = None
  /\ match generate_name_for_new_rule 1 e a with
     | Done (e', a', sym) =>
         symbol_to_string (heap a') sym = "chunk8"%string
         /\ find_sym_constant a' "chunk7" = None
         /\ chunk_naming_counter e' = 9
     | _ => False
     end.
Proof. vm_compute. repeat split. Qed.

(** The text Step 2 adds, stated apart from the code: nothing
    without a production; otherwise the depth marker [x<depth>], with
    [depth] one more than the naming depth of the triggering instantiation,
    when that naming depth is not zero, then ["*"] and the original name of
    the production. *)
Definition depth_and_parent (p : option production) (parent_depth : Z) : string :=
  match p with
  | None => EmptyString
  | Some parent =>
      let marker := if parent_depth =? 0 then EmptyString
                    else String "x" (to_string (uint64 (parent_depth + 1))) in
      (marker ++ "*" ++ original_rule_name parent)%string
  end.

Lemma learning_depth_segment_spec (inst : instantiation) :
  learning_depth_segment inst = depth_and_parent (prod inst) (prod_naming_depth inst).
Proof.
  unfold learning_depth_segment, depth_and_parent.
  destruct (prod inst); [|reflexivity]. now destruct (_ =? 0).
Qed.

(** *** Which format names the rule *)

Lemma string_app_cons (c : ascii) (s t : string) :
  (String c s ++ t)%string = String c (s ++ t).
Proof. reflexivity. Qed.

Lemma string_app_inv_head (p s t : string) : (p ++ s = p ++ t)%string -> s = t.
Proof.
  induction p as [|c p IH]; [trivial|]. rewrite !string_app_cons. intros [= E]. now apply IH.
Qed.

(** A number printed in decimal starts with a digit, which is neither the
    depth marker ['x'] nor the separator ['*']. *)
Lemma to_string_digits_head (fuel : nat) :
  forall (n : Z) (acc : string),
    exists m rest, to_string_digits fuel n acc = String (digit_char (m mod 10)) rest.
Proof.
  induction fuel as [|fuel IH]; intros n acc; cbn [to_string_digits]; [eauto|].
  destruct (n / 10 =? 0); [eauto | apply IH].
Qed.

Lemma digit_char_not_marker (m : Z) :
  digit_char (m mod 10) <> "x"%char /\ digit_char (m mod 10) <> "*"%char.
Proof.
  pose proof (Z.mod_pos_bound m 10 ltac:(lia)) as Hm.
  assert (E : N_of_ascii (digit_char (m mod 10)) = Z.to_N (48 + m mod 10)).
  { unfold digit_char. apply N_ascii_embedding. lia. }
  split; intros H; rewrite H in E; cbn in E; lia.
Qed.

(** What the descriptive format writes after the prefix starts with ['x']
    or ['*']. *)
Lemma descriptive_segments_head (inst : instantiation) (t : impasse_kind) (a : agent)
    (k : Z) :
  exists c rest,
    (learning_depth_segment inst ++ impasse_type_segment t ++ time_segment a k)%string
    = String c rest
    /\ (c = "x"%char \/ c = "*"%char).
Proof.
  unfold learning_depth_segment, time_segment. cbv zeta.
  destruct (prod inst) as [p|].
  - destruct (negb (prod_naming_depth inst =? 0)).
    + do 2 eexists. split; [rewrite !string_app_cons; reflexivity | now left].
    + do 2 eexists. split; [rewrite !string_app_cons; reflexivity | now right].
  - destruct t; do 2 eexists; (split; [rewrite !string_app_cons; reflexivity | now right]).
Qed.

(** So a numbered name is no descriptive name. *)
Lemma numbered_name_not_descriptive (e : Explanation_Based_Chunker) (a : agent)
    (inst : instantiation) (t : impasse_kind) (k : Z) :
  (rule_prefix e ++ to_string k)%string <> descriptive_name e a inst t.
Proof.
  unfold descriptive_name. intros E. apply string_app_inv_head in E.
  destruct (to_string_digits_head 19 k "") as (m & rest & Hk).
  destruct (descriptive_segments_head inst t a (rule_number e)) as (c & rest' & Hd & Hc).
  unfold to_string in E. rewrite Hk, Hd in E. injection E as E _.
  destruct (digit_char_not_marker m) as [N1 N2]. destruct Hc; congruence.
Qed.

(** C10.  With learning off [generate_name_for_new_rule] uses the numbered
    format whatever the naming style is, as it does with the numbered style
    when learning is on: the naming counter is advanced, the prefix is
    followed by the first counter value whose name is not interned, that
    name is interned and returned, and it is not a descriptive composition
    for any instantiation and impasse -- the members [m_inst] and
    [m_chunk_inst] are not even read.  The descriptive composition is
    returned when learning is on and the style is descriptive, and then the
    naming counter is left alone and the name is not the prefix followed by
    a number. *)
Theorem naming_format_selection (n fuel : nat) (e : Explanation_Based_Chunker) (a : agent) :
  (SETTING_EBC_LEARNING_ON (ebc_settings e) = false \/ naming_style e = numberedFormat ->
   0 <= rule_naming_counter e ->
   rule_naming_counter e + 1 + Z.of_nat n < 2 ^ 64 - 1 ->
   (String.length (rule_prefix e) <= 1979)%nat ->
   (forall i : nat, (i < n)%nat ->
      find_sym_constant a
        (rule_prefix e ++ to_string (rule_naming_counter e + 1 + Z.of_nat i)) <> None) ->
   find_sym_constant a
     (rule_prefix e ++ to_string (rule_naming_counter e + 1 + Z.of_nat n)) = None ->
   (n < fuel)%nat ->
   exists e' a' sym,
     generate_name_for_new_rule fuel e a = Done (e', a', sym)
     /\ symbol_to_string (heap a') sym
        = (rule_prefix e ++ to_string (rule_naming_counter e + 1 + Z.of_nat n))%string
     /\ find_sym_constant a'
          (rule_prefix e ++ to_string (rule_naming_counter e + 1 + Z.of_nat n)) = Some sym
     /\ rule_naming_counter e' = rule_naming_counter e + Z.of_nat n + 2
     /\ (forall inst t, symbol_to_string (heap a') sym <> descriptive_name e a inst t))
  /\ (SETTING_EBC_LEARNING_ON (ebc_settings e) = true ->
      naming_style e = descriptiveFormat ->
      forall inst chunk_inst t,
        m_inst e = Some inst -> m_chunk_inst e = Some chunk_inst ->
        impasse_above a inst = Some t ->
        find_sym_constant a (descriptive_name e a inst t) = None ->
        exists e' a' sym,
          generate_name_for_new_rule fuel e a = Done (e', a', sym)
          /\ symbol_to_string (heap a') sym = descriptive_name e a inst t
          /\ find_sym_constant a' (descriptive_name e a inst t) = Some sym
          /\ rule_naming_counter e' = rule_naming_counter e
          /\ (forall k, symbol_to_string (heap a') sym
                        <> (rule_prefix e ++ to_string k)%string)).
Proof.
  split.
  - intros Hmode H0 Hmax Hlen Htaken Hfree Hfuel.
    rewrite generate_name_numbered by assumption. unfold numbered_format.
    assert (Einc : increment_counter (rule_naming_counter e) = rule_naming_counter e + 1).
    { unfold increment_counter, uint64. apply Z.mod_small. lia. }
    rewrite Einc.
    destruct (generate_new_sym_constant_first_free n fuel a (rule_prefix e)
                (rule_naming_counter e + 1)) as (a' & sym & -> & Hname & Hfind & _);
      try assumption; try lia.
    exists (set_rule_naming_counter (rule_naming_counter e + 1 + Z.of_nat n + 1) e), a', sym.
    split; [reflexivity|]. split; [exact Hname|]. split; [exact Hfind|]. split.
    + rewrite set_rule_naming_counter_read. lia.
    + intros inst t. rewrite Hname. apply numbered_name_not_descriptive.
  - intros Hon Hstyle inst chunk_inst t Hinst Hchunk Himp Hfree.
    rewrite generate_name_descriptive by assumption.
    unfold descriptive_format. rewrite Hinst, Himp.
    unfold with_chunk_depth. rewrite Hchunk.
    pose proof (new_symbol_lookup a (sc (descriptive_name e a inst t) None)) as L.
    pose proof (find_new_sym_constant a (descriptive_name e a inst t)) as F.
    assert (Hname : forall a' sym,
              new_symbol a (sc (descriptive_name e a inst t) None) = (a', sym) ->
              symbol_to_string (heap a') sym = descriptive_name e a inst t).
    { intros a' sym E. rewrite E in L. cbn [fst snd] in L.
      eapply symbol_to_string_sc; [exact L | reflexivity]. }
    destruct (prod inst) as [p|]; cbv zeta; rewrite Hfree;
      destruct (new_symbol a (sc (descriptive_name e a inst t) None)) as [a' sym] eqn:E;
      cbn [fst snd] in F; do 3 eexists; (split; [reflexivity|]);
      (split; [now apply Hname|]); (split; [exact F|]); (split; [|
        intros k Hk; rewrite (Hname a' sym eq_refl) in Hk;
        exact (numbered_name_not_descriptive e a inst t k (eq_sym Hk))]).
    + reflexivity.
    + reflexivity.
Qed.

(** A chunker with learning off and the descriptive style configured; no
    instantiation is set. *)
Definition learning_off_chunker : Explanation_Based_Chunker :=
  {| ebc_settings := {| SETTING_EBC_LEARNING_ON := false; SETTING_EBC_EXCEPT := false;
                        SETTING_EBC_ONLY := false; SETTING_EBC_BOTTOM_ONLY := true |};
     naming_style := descriptiveFormat;
     chunk_name_prefix := "chunk"; justification_name_prefix := "justify";
     chunk_naming_counter := 7; justification_naming_counter := 0;
     chunks_this_d_cycle := 3; justifications_this_d_cycle := 0;
     m_rule_type := ebc_chunk; m_inst := None; m_chunk_inst := None;
     chunk_free_problem_spaces := []; chunky_problem_spaces := [];
     m_learning_on_for_instantiation := false |}.

Lemma naming_format_selection_witness :
  exists e' a' sym,
    generate_name_for_new_rule 2 learning_off_chunker
      (fst (make_sym_constant init_symbol_tables "chunk8"))
    = Done (e', a', sym)
    /\ symbol_to_string (heap a') sym = "chunk9"%string
    /\ rule_naming_counter e' = 10.
Proof.
  destruct (proj1 (naming_format_selection 1 2 learning_off_chunker
                     (fst (make_sym_constant init_symbol_tables "chunk8")))
              (or_introl eq_refl) ltac:(vm_compute; congruence)
              ltac:(vm_compute; reflexivity) ltac:(vm_compute; lia)
              ltac:(intros [|i] Hi; [vm_compute; congruence | lia])
              ltac:(vm_compute; reflexivity) ltac:(lia))
    as (e' & a' & sym & H1 & H2 & _ & H3 & _).
  exists e', a', sym. split; [exact H1|]. split; [exact H2 | exact H3].
Defined.

(** C2 (amended).  In the descriptive format (learning on, descriptive
    style), when the composed name is not interned yet,
    [generate_name_for_new_rule] returns a new symbolic constant named
    [<prefix><depth and parent><impasse>*t[<init_count+1>-]<d_cycle>-<seq>].
    The marker [x<depth>] is written exactly when the naming depth of the
    triggering instantiation is non-zero, [depth] being that depth plus one;
    ["*"] and the parent's name are written whenever the instantiation has a
    production; the whole segment is omitted exactly when it has none.  With
    a production the chunk instantiation's naming depth is set to the
    parent's plus one. *)
Theorem descriptive_name_composition
    (fuel : nat) (e : Explanation_Based_Chunker) (a : agent) (inst chunk_inst : instantiation)
    (t : impasse_kind) :
  SETTING_EBC_LEARNING_ON (ebc_settings e) = true ->
  naming_style e = descriptiveFormat ->
  m_inst e = Some inst -> m_chunk_inst e = Some chunk_inst ->
  impasse_above a inst = Some t ->
  let name := (rule_prefix e
               ++ depth_and_parent (prod inst) (prod_naming_depth inst)
               ++ impasse_type_segment t
               ++ time_segment a (rule_number e))%string in
  find_sym_constant a name = None ->
  exists e' a' sym,
    generate_name_for_new_rule fuel e a = Done (e', a', sym)
    /\ symbol_to_string (heap a') sym = name
    /\ find_sym_constant a' name = Some sym
    /\ (prod inst <> None ->
        (prod_naming_depth <$> m_chunk_inst e')
        = Some (uint64 (prod_naming_depth inst + 1)))
    /\ (prod inst = None -> e' = e).
Proof.
  intros Hon Hstyle Hinst Hchunk Himp name Hfree.
  rewrite generate_name_descriptive by assumption.
  unfold descriptive_format. rewrite Hinst, Himp.
  assert (Ename : descriptive_name e a inst t = name).
  { unfold descriptive_name, name. now rewrite learning_depth_segment_spec. }
  unfold with_chunk_depth. rewrite Hchunk.
  destruct (prod inst) as [p|] eqn:Hp; cbv zeta; rewrite Ename, Hfree;
    pose proof (new_symbol_lookup a (sc name None)) as L;
    pose proof (find_new_sym_constant a name) as F;
    destruct (new_symbol a (sc name None)) as [a' sym]; cbn [fst snd] in *;
    do 3 eexists; (split; [reflexivity|]); repeat split;
    try (eapply symbol_to_string_sc; [exact L | reflexivity]);
    try exact F; try congruence; try reflexivity.
Qed.

(** The state of the specification's example: goals S1 and S2, the impasse of S1 a
    tie, the production name [mv] interned, decision cycle 42. *)
Definition example_agent : agent :=
  set_d_cycle_count 42
    (fst (make_sym_constant
            (push_goal TIE_IMPASSE_TYPE (push_goal NONE_IMPASSE_TYPE init_symbol_tables))
            "mv")).

(** A firing of [mv] in S2, not itself learned from a learned rule. *)
Definition example_instantiation : instantiation :=
  {| prod := Some {| original_rule_name := "mv" |}; prod_name := 3;
     prod_naming_depth := 0; match_goal := 2; match_goal_level := 2 |}.

Lemma descriptive_name_composition_witness :
  exists e' a' sym,
    generate_name_for_new_rule 1
      (example_chunker descriptiveFormat 0 (Some example_instantiation)) example_agent
    = Done (e', a', sym)
    /\ symbol_to_string (heap a') sym = "chunk*mv*Tie*t42-3"%string.
Proof.
  destruct (descriptive_name_composition 1
              (example_chunker descriptiveFormat 0 (Some example_instantiation))
              example_agent example_instantiation
              {| prod := None; prod_name := 0; prod_naming_depth := 0;
                 match_goal := 1; match_goal_level := 1 |}
              TIE_IMPASSE_TYPE eq_refl eq_refl eq_refl eq_refl
              ltac:(vm_compute; reflexivity) ltac:(vm_compute; reflexivity))
    as (e' & a' & sym & H1 & H2 & _).
  exists e', a', sym. split; [exact H1|]. rewrite H2. vm_compute. reflexivity.
Defined.

(** C2, as stated, fails on its example: with init_count 0, decision cycle
    42, a chunk, the production [mv], a composed naming depth of 1 (the
    triggering instantiation has naming depth 0), a tie and 3 as the chunk
    count of the cycle, the name is [chunk*mv*Tie*t42-3]: no [x1] is
    written. *)
Lemma descriptive_name_of_the_example :
  init_count example_agent = 0
  /\ d_cycle_count example_agent = 42
  /\ impasse_above example_agent example_instantiation = Some TIE_IMPASSE_TYPE
  /\ match generate_name_for_new_rule 1
             (example_chunker descriptiveFormat 0 (Some example_instantiation))
             example_agent with
     | Done (e', a', sym) =>
         symbol_to_string (heap a') sym = "chunk*mv*Tie*t42-3"%string
         /\ (prod_naming_depth <$> m_chunk_inst e') = Some 1
         /\ find_sym_constant a' "chunkx1*mv*Tie*t42-3" = None
     | _ => False
     end.
Proof. vm_compute. repeat split. Qed.

(** The gate on the example: S2 is the bottom state, so the firing of [mv]
    may be learned from. *)
Lemma set_learning_for_instantiation_witness :
  exists e' a' r,
    set_learning_for_instantiation (example_chunker descriptiveFormat 0 None)
      example_agent example_instantiation = Some (e', a', r)
    /\ m_learning_on_for_instantiation e' = r.
Proof.
  destruct (set_learning_for_instantiation_spec (example_chunker descriptiveFormat 0 None)
              example_agent example_instantiation
              (as_lower_goal (Some 1) (new_identifier "S" 2 2))
              ltac:(vm_compute; reflexivity))
    as (e' & a' & r & H1 & _ & _ & H2 & _).
  exists e', a', r. split; assumption.
Defined.

(** ** The state stack (decider.cpp, [get_state_stack_string]) *)

Lemma string_app_assoc (s t u : string) : ((s ++ t) ++ u = s ++ t ++ u)%string.
Proof.
  induction s as [|c s IH]; [reflexivity|]. rewrite !string_app_cons. now rewrite IH.
Qed.

Lemma string_app_nil_r (s : string) : (s ++ "")%string = s.
Proof.
  induction s as [|c s IH]; [reflexivity|]. rewrite string_app_cons. now rewrite IH.
Qed.

(** The goals from top to bottom are [gs]: each is a live identifier whose
    [higher_goal] is the goal before it and whose [lower_goal] is the goal
    after it. *)
Fixpoint stack_links (hp : gmap Z Symbol) (above : option addr) (gs : list addr) : Prop :=
  match gs with
  | [] => True
  | g :: rest =>
      exists i, identifier_at hp g = Some i
                /\ higher_goal i = above
                /\ lower_goal i = head rest
                /\ stack_links hp (Some g) rest
  end.

Definition goal_stack (a : agent) (gs : list addr) : Prop :=
  gs <> [] /\ top_goal a = head gs /\ bottom_goal a = last gs
  /\ stack_links (heap a) None gs.

(** The names separated by [", "]. *)
Definition comma_tail (names : list string) : string :=
  foldr (fun n acc => (", " ++ n ++ acc)%string) EmptyString names.

Definition join_comma (names : list string) : string :=
  match names with
  | [] => EmptyString
  | n :: rest => (n ++ comma_tail rest)%string
  end.

(** The text of the state stack, in the words of the specification: all the
    goals when there are at most four; otherwise the top two, [" ... "] and
    the bottom two. *)
Definition state_stack_text (names : list string) : string :=
  if (length names <=? 4)%nat then join_comma names
  else (join_comma (take 2 names) ++ " ... "
        ++ join_comma (drop (length names - 2) names))%string.

Lemma count_stack_depth_spec (hp : gmap Z Symbol) (rest : list addr) :
  forall (fuel : nat) (above : option addr) (g : addr) (depth : Z),
    stack_links hp above (g :: rest) -> (length rest < fuel)%nat ->
    count_stack_depth fuel hp g depth = Done (depth + Z.of_nat (length rest)).
Proof.
  induction rest as [|g' rest IH]; intros fuel above g depth (i & Hi & _ & Hlow & Hrest) Hfuel;
    (destruct fuel as [|fuel]; [cbn in Hfuel; lia|]); cbn [count_stack_depth];
    rewrite Hi; cbn [head] in Hlow; rewrite Hlow.
  - f_equal. cbn. lia.
  - rewrite (IH fuel (Some g) g' (depth + 1) Hrest) by (cbn in Hfuel; lia).
    f_equal. cbn [length]. lia.
Qed.

Lemma append_all_states_spec (hp : gmap Z Symbol) (gs : list addr) :
  forall (fuel : nat) (above : option addr) (out : string),
    stack_links hp above gs -> (length gs <= fuel)%nat ->
    append_all_states fuel hp (head gs) true out
    = Done (out ++ comma_tail (symbol_to_string hp <$> gs))%string.
Proof.
  induction gs as [|g rest IH]; intros fuel above out Hlinks Hfuel.
  - cbn. destruct fuel; cbn; now rewrite string_app_nil_r.
  - destruct Hlinks as (i & Hi & _ & Hlow & Hrest).
    destruct fuel as [|fuel]; [cbn in Hfuel; lia|].
    cbn [head append_all_states]. rewrite Hi, Hlow.
    rewrite (IH fuel (Some g)) by (try assumption; cbn in Hfuel; lia).
    cbn [fmap list_fmap comma_tail foldr]. f_equal.
    now rewrite !string_app_assoc.
Qed.

Lemma append_all_states_first (hp : gmap Z Symbol) (g : addr) (rest : list addr)
    (fuel : nat) (out : string) :
  stack_links hp None (g :: rest) -> (length (g :: rest) <= fuel)%nat ->
  append_all_states fuel hp (Some g) false out
  = Done (out ++ join_comma (symbol_to_string hp <$> (g :: rest)))%string.
Proof.
  intros (i & Hi & _ & Hlow & Hrest) Hfuel.
  destruct fuel as [|fuel]; [cbn in Hfuel; lia|].
  cbn [append_all_states]. rewrite Hi, Hlow.
  rewrite (append_all_states_spec hp rest fuel (Some g)) by (try assumption; cbn in Hfuel; lia).
  cbn [fmap list_fmap join_comma]. f_equal. now rewrite string_app_assoc.
Qed.

(** The bottom goal of a stack of two or more names the goal above it. *)
Lemma stack_links_bottom (hp : gmap Z Symbol) (mid : list addr) (p b : addr) :
  forall above, stack_links hp above (mid ++ [p; b]) ->
    exists i, identifier_at hp b = Some i /\ higher_goal i = Some p.
Proof.
  induction mid as [|g mid IH]; intros above H.
  - destruct H as (_ & _ & _ & _ & (i & Hi & Hh & _)). eauto.
  - destruct H as (_ & _ & _ & _ & H). now apply (IH (Some g)).
Qed.

Lemma split_last_two {A : Type} (l : list A) :
  (2 <= length l)%nat -> exists mid p b, l = mid ++ [p; b].
Proof.
  induction l as [|x l IH]; intros H; [cbn in H; lia|].
  destruct l as [|y l]; [cbn in H; lia|].
  destruct l as [|z l].
  - exists [], x, y. reflexivity.
  - destruct IH as (mid & p & b & E); [cbn; lia|]. exists (x :: mid), p, b.
    now rewrite E.
Qed.

Lemma drop_all_but_two {A : Type} (mid : list A) (p b : A) :
  drop (length (mid ++ [p; b]) - 2) (mid ++ [p; b]) = [p; b].
Proof.
  rewrite length_app. cbn [length].
  replace (length mid + 2 - 2)%nat with (length mid) by lia.
  now rewrite drop_app_length.
Qed.

(** C9.  For a goal stack [gs] (top to bottom, linked in both directions,
    [top_goal] its first and [bottom_goal] its last element) and enough fuel
    for its length, [get_state_stack_string] appends to the string it is
    given all the goals separated by [", "] when there are at most four of
    them, and the top two, [" ... "] and the bottom two when there are more;
    it returns the depth of the stack. *)
Theorem get_state_stack_string_spec
    (fuel : nat) (a : agent) (gs : list addr) (stateStackStr : string) :
  goal_stack a gs -> (length gs <= fuel)%nat ->
  get_state_stack_string fuel a stateStackStr
  = Done ((stateStackStr ++ state_stack_text (symbol_to_string (heap a) <$> gs))%string,
          Z.of_nat (length gs)).
Proof.
  intros (Hne & Htop & Hbot & Hlinks) Hfuel.
  destruct gs as [|g1 rest]; [contradiction|]. cbn [head] in Htop.
  unfold get_state_stack_string. rewrite Htop.
  rewrite (count_stack_depth_spec (heap a) rest fuel None g1 1 Hlinks)
    by (cbn in Hfuel; lia).
  replace (1 + Z.of_nat (length rest)) with (Z.of_nat (length (g1 :: rest)))
    by (cbn [length]; lia).
  destruct (Z.of_nat (length (g1 :: rest)) <? 4) eqn:Hdepth;
    [apply Z.ltb_lt in Hdepth | apply Z.ltb_ge in Hdepth].
  - rewrite (append_all_states_first (heap a) g1 rest fuel stateStackStr Hlinks Hfuel).
    unfold state_stack_text. rewrite length_fmap.
    rewrite (proj2 (Nat.leb_le _ 4)) by lia. reflexivity.
  - destruct rest as [|g2 rest]; [cbn in Hdepth; lia|].
    destruct (split_last_two rest) as (mid & p & b & ->); [cbn in Hdepth; lia|].
    destruct Hlinks as (i1 & Hi1 & _ & Hlow1 & Hrest). cbn [head] in Hlow1.
    destruct Hrest as (i2 & Hi2 & _ & _ & Hrest).
    destruct (stack_links_bottom _ _ _ _ _ Hrest) as (ib & Hib & Hhigh).
    assert (Hlast : last (g1 :: g2 :: mid ++ [p; b]) = Some b).
    { replace (g1 :: g2 :: mid ++ [p; b]) with ((g1 :: g2 :: mid ++ [p]) ++ [b])
        by (cbn; now rewrite <- app_assoc).
      apply last_snoc. }
    rewrite Hlast in Hbot. rewrite Hi1, Hbot, Hlow1, Hib, Hhigh.
    f_equal. f_equal. unfold state_stack_text. rewrite length_fmap.
    set (n := symbol_to_string (heap a)).
    destruct mid as [|m mid].
    + cbn. now rewrite !string_app_nil_r.
    + replace (4 <? Z.of_nat (length (g1 :: g2 :: (m :: mid) ++ [p; b]))) with true
        by (symmetry; apply Z.ltb_lt; cbn [length]; rewrite length_app; cbn; lia).
      replace (length (g1 :: g2 :: (m :: mid) ++ [p; b]) <=? 4)%nat with false
        by (symmetry; apply Nat.leb_gt; cbn [length]; rewrite length_app; cbn; lia).
      assert (E : n <$> g1 :: g2 :: (m :: mid) ++ [p; b]
                  = (n g1 :: n g2 :: (n <$> m :: mid)) ++ [n p; n b]).
      { cbn. now rewrite fmap_app. }
      replace (length (g1 :: g2 :: (m :: mid) ++ [p; b]))
        with (length ((n g1 :: n g2 :: (n <$> m :: mid)) ++ [n p; n b]))
        by (rewrite <- E; apply length_fmap).
      rewrite E, drop_all_but_two.
      cbn [app take join_comma comma_tail foldr].
      now rewrite !string_app_nil_r, !string_app_assoc.
Qed.

(** A stack of [n] goals below the initial tables. *)
Fixpoint example_stack (n : nat) : agent :=
  match n with
  | O => init_symbol_tables
  | S n' => push_goal SNC_IMPASSE_TYPE (example_stack n')
  end.

Ltac solve_stack_links :=
  cbn [stack_links];
  repeat (eexists; split; [vm_compute; reflexivity
                          | split; [reflexivity | split; [reflexivity|]]]);
  exact I.

Lemma example_stack_5 : goal_stack (example_stack 5) [1; 2; 3; 4; 5].
Proof.
  split; [discriminate|]. split; [vm_compute; reflexivity|].
  split; [vm_compute; reflexivity|]. solve_stack_links.
Qed.

Lemma get_state_stack_string_spec_witness :
  get_state_stack_string 5 (example_stack 5) "" = Done ("S1, S2 ... S4, S5"%string, 5).
Proof.
  etransitivity;
    [exact (get_state_stack_string_spec 5 (example_stack 5) [1; 2; 3; 4; 5] ""
              example_stack_5 (le_n 5))|].
  vm_compute. reflexivity.
Defined.

Example get_state_stack_string_3 :
  get_state_stack_string 3 (example_stack 3) "" = Done ("S1, S2, S3"%string, 3).
Proof. vm_compute. reflexivity. Qed.

Example get_state_stack_string_4 :
  get_state_stack_string 4 (example_stack 4) "" = Done ("S1, S2, S3, S4"%string, 4).
Proof. vm_compute. reflexivity. Qed.

Example get_state_stack_string_7 :
  get_state_stack_string 7 (example_stack 7) "" = Done ("S1, S2 ... S6, S7"%string, 7).
Proof. vm_compute. reflexivity. Qed.

(** ** Intern, then release *)

Lemma set_reference_count_back (s : Symbol) (rc : Z) :
  set_reference_count (reference_count s) (set_reference_count rc s) = s.
Proof. now destruct s. Qed.

Lemma set_heap_same (a : agent) (hp : gmap Z Symbol) :
  set_heap (heap a) (set_heap hp a) = a.
Proof. now destruct a. Qed.

(** Releasing the reference [symbol_add_ref] has just added restores the
    agent. *)
Lemma release_after_add_ref (a : agent) (x : addr) (s : Symbol) :
  heap a !! x = Some s -> 1 <= reference_count s < 2 ^ 64 - 1 ->
  symbol_remove_ref (symbol_add_ref a x) x = a.
Proof.
  intros Hx Hrc. unfold symbol_add_ref. rewrite Hx.
  unfold symbol_remove_ref. cbn [heap set_heap]. rewrite lookup_insert_eq. cbv zeta.
  cbn [reference_count set_reference_count].
  replace (uint64 (uint64 (reference_count s + 1) - 1)) with (reference_count s)
    by (unfold uint64; rewrite (Z.mod_small (reference_count s + 1)) by lia;
        rewrite Z.mod_small by lia; lia).
  replace (reference_count s =? 0) with false by (symmetry; apply Z.eqb_neq; lia).
  rewrite insert_insert_eq.
  change (set_reference_count (reference_count s)
            {| reference_count := uint64 (reference_count s + 1); hash_id := hash_id s;
               tc_num := tc_num s; variablized_symbol := variablized_symbol s;
               unvariablized_symbol := unvariablized_symbol s;
               original_var_symbol := original_var_symbol s; data := data s |})
    with (set_reference_count (reference_count s)
            (set_reference_count (uint64 (reference_count s + 1)) s)).
  rewrite set_reference_count_back, (insert_id _ _ _ Hx).
  now destruct a.
Qed.

(** Releasing the only reference to a symbol that was just created. *)
Lemma release_after_new_symbol (a : agent) (d : symbol_data) :
  agent_wf a ->
  let a1 := fst (new_symbol a d) in
  let sym := snd (new_symbol a d) in
  let a2 := symbol_remove_ref a1 sym in
  heap a2 = heap a
  /\ (forall k, all_items (table k a2) ≡ₚ all_items (table k a))
  /\ (forall k, count (table k a2) = count (table k a))
  /\ (forall k, k <> data_kind d -> table k a2 = table k a /\ pool k a2 = pool k a)
  /\ free_list (pool (data_kind d) a2)
     = match free_list (pool (data_kind d) a) with
       | [] => [heap_top a]
       | l => l
       end
  /\ current_symbol_hash_id a2 = uint32 (current_symbol_hash_id a + 137)
  /\ id_counter a2 = id_counter a
  /\ agent_wf a2.
Proof.
  intros Hwf. cbv zeta.
  pose proof (new_symbol_wf a d Hwf) as Hwf1.
  pose proof (new_symbol_lookup a d) as L.
  pose proof (alloc_addr_fresh (data_kind d) a Hwf) as Hfresh.
  set (a1 := fst (new_symbol a d)) in *. set (sym := snd (new_symbol a d)) in *.
  set (s1 := fresh_symbol d _) in *.
  unfold symbol_remove_ref. rewrite L. cbv zeta. cbn [reference_count s1 fresh_symbol].
  change (uint64 (1 - 1) =? 0) with true. cbv iota.
  set (s0 := set_reference_count (uint64 (1 - 1)) s1).
  set (a1' := set_heap (<[sym := s0]> (heap a1)) a1).
  assert (Hwf1' : agent_wf a1') by (now apply (agent_wf_update a1 sym s1)).
  assert (L' : heap a1' !! sym = Some s0) by (cbn; apply lookup_insert_eq).
  assert (Hk : symbol_type_of s0 = data_kind d) by reflexivity.
  assert (Hsym : sym = alloc_addr (data_kind d) a) by apply new_symbol_addr.
  assert (Hheap : heap (deallocate_symbol a1' sym) = heap a).
  { rewrite deallocate_symbol_heap. unfold a1'. cbn [heap set_heap].
    unfold a1. rewrite new_symbol_heap. fold a1. rewrite <- Hsym.
    rewrite insert_insert_eq, delete_insert_eq. apply delete_id. now rewrite Hsym. }
  assert (Hin : sym ∈ all_items (table (data_kind d) a1')).
  { apply (wf_live a1' Hwf1'). exists s0. now split. }
  assert (Hitems : all_items (table (data_kind d) (deallocate_symbol a1' sym))
                   ≡ₚ all_items (table (data_kind d) a)).
  { pose proof (remove_from_hash_table_items _ (hash_callback_range (data_kind d))
                  _ _ sym (wf_tables a1' Hwf1' (data_kind d)) Hin) as P1.
    pose proof (deallocate_symbol_table a1' sym s0 L') as Etab.
    change (symbol_type_of s0) with (data_kind d) in Etab. rewrite <- Etab in P1.
    assert (P2 : all_items (table (data_kind d) a1') ≡ₚ sym :: all_items (table (data_kind d) a)).
    { unfold a1'. rewrite table_set_heap.
      unfold a1. rewrite new_symbol_table. fold a1. rewrite <- Hsym.
      apply (add_to_hash_table_items _ (hash_callback_range (data_kind d))).
      pose proof (wf_log2size _ _ _ (wf_tables a Hwf (data_kind d))). lia. }
    rewrite P2 in P1. now apply Permutation_cons_inv in P1. }
  assert (Hother : forall k, k <> data_kind d ->
            table k (deallocate_symbol a1' sym) = table k a
            /\ pool k (deallocate_symbol a1' sym) = pool k a).
  { intros k Hne. split.
    - rewrite (deallocate_symbol_other_table a1' sym s0 k L') by (rewrite Hk; congruence).
      unfold a1'. rewrite table_set_heap.
      unfold a1. rewrite new_symbol_other_table by congruence. reflexivity.
    - rewrite (deallocate_symbol_other_pool a1' sym s0 k L') by (rewrite Hk; congruence).
      unfold a1'. rewrite pool_set_heap.
      unfold a1. rewrite new_symbol_pool.
      destruct (alloc_cases (data_kind d) a) as [(rest & E & ->)|(E1 & E2 & ->)].
      + now rewrite pool_set_pool_ne by congruence.
      + reflexivity. }
  split; [exact Hheap|]. split; [|split; [|split; [exact Hother|split; [|split; [|split]]]]].
  - intros k. destruct (symbol_type_eq_dec k (data_kind d)) as [->|Hne]; [exact Hitems|].
    now rewrite (proj1 (Hother k Hne)).
  - intros k. destruct (symbol_type_eq_dec k (data_kind d)) as [->|Hne].
    + pose proof (deallocate_symbol_wf a1' sym Hwf1') as Hwf2.
      rewrite (wf_count _ _ _ (wf_tables _ Hwf2 (data_kind d))).
      rewrite (wf_count _ _ _ (wf_tables _ Hwf (data_kind d))).
      now rewrite Hitems.
    + now rewrite (proj1 (Hother k Hne)).
  - pose proof (deallocate_symbol_pool a1' sym s0 L') as Epool.
    change (symbol_type_of s0) with (data_kind d) in Epool. rewrite Epool.
    cbn [free_list]. unfold a1'. rewrite pool_set_heap.
    unfold a1. rewrite new_symbol_pool. rewrite Hsym.
    destruct (alloc_cases (data_kind d) a) as [(rest & E & ->)|(E1 & E2 & ->)].
    + rewrite pool_set_pool_eq, E. reflexivity.
    + change (pool (data_kind d) (set_heap_top (heap_top a + 1) a))
        with (pool (data_kind d) a).
      now rewrite E1, E2.
  - rewrite (deallocate_symbol_steps a1' sym s0 L'). cbn. unfold a1.
    apply new_symbol_current_symbol_hash_id.
  - rewrite deallocate_symbol_id_counter. cbn. unfold a1. apply new_symbol_id_counter.
  - now apply deallocate_symbol_wf.
Qed.

(** What an intern followed by a release preserves, whatever the intern
    did. *)
Definition interner_preserved (a a2 : agent) : Prop :=
  heap a2 = heap a
  /\ (forall k, all_items (table k a2) ≡ₚ all_items (table k a))
  /\ (forall k, count (table k a2) = count (table k a))
  /\ (forall k, free_list (pool k a) <> [] -> pool k a2 = pool k a).

Lemma memory_pool_eq (p q : memory_pool) : free_list p = free_list q -> p = q.
Proof. destruct p, q. cbn. now intros ->. Qed.

Lemma interner_preserved_refl (a : agent) : interner_preserved a a.
Proof. repeat split; reflexivity. Qed.

Lemma interner_preserved_new_symbol (a : agent) (d : symbol_data) :
  agent_wf a ->
  interner_preserved a (symbol_remove_ref (fst (new_symbol a d)) (snd (new_symbol a d))).
Proof.
  intros Hwf.
  destruct (release_after_new_symbol a d Hwf) as (H1 & H2 & H3 & H4 & H5 & _).
  repeat split; try assumption.
  intros k Hne. destruct (symbol_type_eq_dec k (data_kind d)) as [->|Hk].
  - apply memory_pool_eq. rewrite H5.
    destruct (free_list (pool (data_kind d) a)); [contradiction | reflexivity].
  - now apply H4.
Qed.

(** The find-or-create shape shared by the four interning functions. *)
Lemma intern_then_release_generic (a : agent) (d : symbol_data) (found : option addr) :
  agent_wf a ->
  (forall x s, heap a !! x = Some s -> 1 <= reference_count s < 2 ^ 64 - 1) ->
  (forall x, found = Some x -> exists s, heap a !! x = Some s) ->
  let r := match found with
           | Some sym => (symbol_add_ref a sym, sym)
           | None => new_symbol a d
           end in
  let a2 := symbol_remove_ref (fst r) (snd r) in
  interner_preserved a a2
  /\ (found <> None -> a2 = a)
  /\ (found = None ->
      current_symbol_hash_id a2 = uint32 (current_symbol_hash_id a + 137)
      /\ id_counter a2 = id_counter a
      /\ free_list (pool (data_kind d) a2)
         = match free_list (pool (data_kind d) a) with
           | [] => [heap_top a]
           | l => l
           end
      /\ (forall k, k <> data_kind d -> pool k a2 = pool k a)).
Proof.
  intros Hwf Hrc Hfound. cbv zeta. destruct found as [x|].
  - destruct (Hfound x eq_refl) as (s & Hx). cbn [fst snd].
    rewrite (release_after_add_ref a x s Hx (Hrc x s Hx)).
    split; [apply interner_preserved_refl|]. split; [reflexivity | discriminate].
  - split; [now apply interner_preserved_new_symbol|]. split; [congruence|]. intros _.
    destruct (release_after_new_symbol a d Hwf) as (_ & _ & _ & H4 & H5 & H6 & H7 & _).
    split; [exact H6|]. split; [exact H7|]. split; [exact H5|].
    intros k Hk. apply (H4 k Hk).
Qed.

(** The interning operations of the specification. *)
Inductive intern_request :=
  | intern_variable (name : string)
  | intern_sym_constant (name : string)
  | intern_int (value : Z)
  | intern_float (value : spec_float)
  | make_identifier (letter : ascii) (lvl : Z) (number : Z).

Definition intern (a : agent) (r : intern_request) : agent * addr :=
  match r with
  | intern_variable name => make_variable a name
  | intern_sym_constant name => make_sym_constant a name
  | intern_int value => make_int_constant a value
  | intern_float value => make_float_constant a value
  | make_identifier letter lvl number => make_new_identifier a letter lvl number
  end.

(** The symbol the intern finds, if it finds one. *)
Definition found_by (a : agent) (r : intern_request) : option addr :=
  match r with
  | intern_variable name => find_variable a name
  | intern_sym_constant name => find_sym_constant a name
  | intern_int value => find_int_constant a value
  | intern_float value => find_float_constant a value
  | make_identifier _ _ _ => None
  end.

(** The kind of symbol a request is for, hence the pool and the table it
    uses. *)
Definition kind_of_request (r : intern_request) : symbol_type :=
  match r with
  | intern_variable _ => VARIABLE_SYMBOL_TYPE
  | intern_sym_constant _ => SYM_CONSTANT_SYMBOL_TYPE
  | intern_int _ => INT_CONSTANT_SYMBOL_TYPE
  | intern_float _ => FLOAT_CONSTANT_SYMBOL_TYPE
  | make_identifier _ _ _ => IDENTIFIER_SYMBOL_TYPE
  end.

(** C8 (amended).  In a well-formed agent whose reference counts are
    between 1 and [2^64 - 2], an intern followed at once by a release of the
    reference returned leaves the live symbols and all their reference
    counts as they were ([heap]), every hash table with the same items and
    the same count, and every pool that had a free slot with the same free
    list.  If the intern found the symbol, the whole agent is exactly as
    before.  If it created the symbol, [current_symbol_hash_id] stays
    advanced by 137 (modulo [2^32]), and for an identifier the counter of its
    letter stays advanced as well; the pools of the other kinds are as
    before, and the pool of the symbol's kind, if it had no free slot, keeps
    the slot it grew by -- the address [heap_top] -- as the one slot of its
    free list. *)
Theorem intern_then_release (a : agent) (r : intern_request) :
  agent_wf a ->
  (forall x s, heap a !! x = Some s -> 1 <= reference_count s < 2 ^ 64 - 1) ->
  let a2 := symbol_remove_ref (fst (intern a r)) (snd (intern a r)) in
  interner_preserved a a2
  /\ (found_by a r <> None -> a2 = a)
  /\ (found_by a r = None ->
      current_symbol_hash_id a2 = uint32 (current_symbol_hash_id a + 137)
      /\ id_counter a2
         = match r with
           | make_identifier letter _ number => advanced_counters a letter number
           | _ => id_counter a
           end
      /\ free_list (pool (kind_of_request r) a2)
         = match free_list (pool (kind_of_request r) a) with
           | [] => [heap_top a]
           | l => l
           end
      /\ (forall k, k <> kind_of_request r -> pool k a2 = pool k a)).
Proof.
  intros Hwf Hrc.
  assert (Hchain : forall m chain x, find_in_chain (heap a) m chain = Some x ->
                     exists s, heap a !! x = Some s).
  { intros m chain x H. apply find_in_chain_Some in H as (_ & s & Hs & _). eauto. }
  destruct r as [name|name|value|value|letter lvl number]; cbn [intern found_by].
  - apply (intern_then_release_generic a (var name 0) (find_variable a name) Hwf Hrc).
    intros x. apply Hchain.
  - apply (intern_then_release_generic a (sc name None) (find_sym_constant a name) Hwf Hrc).
    intros x. apply Hchain.
  - apply (intern_then_release_generic a (ic value) (find_int_constant a value) Hwf Hrc).
    intros x. apply Hchain.
  - apply (intern_then_release_generic a (fc value) (find_float_constant a value) Hwf Hrc).
    intros x. apply Hchain.
  - rewrite make_new_identifier_steps. cbv zeta.
    set (a' := set_id_counter (advanced_counters a letter number) a).
    set (d := id _).
    destruct (release_after_new_symbol a' d (agent_wf_set_id_counter a _ Hwf))
      as (_ & _ & _ & H4 & H5 & H6 & H7 & _).
    split; [|split; [congruence|]].
    + apply (interner_preserved_new_symbol a' d). now apply agent_wf_set_id_counter.
    + intros _. split; [exact H6|]. split; [exact H7|]. split; [exact H5|].
      intros k Hk. apply (H4 k Hk).
Qed.

(** A decision procedure for the bound on the reference counts. *)
Definition reference_counts_in_range (hp : gmap Z Symbol) : bool :=
  forallb (fun p : Z * Symbol =>
             (1 <=? reference_count (snd p)) && (reference_count (snd p) <? 2 ^ 64 - 1))
          (map_to_list hp).

Lemma reference_counts_checked (hp : gmap Z Symbol) :
  reference_counts_in_range hp = true ->
  forall x s, hp !! x = Some s -> 1 <= reference_count s < 2 ^ 64 - 1.
Proof.
  unfold reference_counts_in_range. rewrite forallb_forall. intros H x s Hx.
  apply elem_of_map_to_list, list_elem_of_In in Hx. apply H in Hx. cbn in Hx.
  apply andb_true_iff in Hx as [H1 H2]. apply Z.leb_le in H1. apply Z.ltb_lt in H2. lia.
Qed.

Lemma intern_then_release_witness :
  let a := example_reachable_agent in
  let a2 := symbol_remove_ref (fst (intern a (intern_sym_constant "state")))
              (snd (intern a (intern_sym_constant "state"))) in
  let b := init_symbol_tables in
  let b2 := symbol_remove_ref (fst (intern b (intern_sym_constant "state")))
              (snd (intern b (intern_sym_constant "state"))) in
  (found_by a (intern_sym_constant "state") = Some 1 /\ a2 = a)
  /\ (found_by b (intern_sym_constant "state") = None
      /\ free_list (pool SYM_CONSTANT_SYMBOL_TYPE b) = []
      /\ free_list (pool SYM_CONSTANT_SYMBOL_TYPE b2) = [heap_top b]
      /\ current_symbol_hash_id b2 = uint32 (current_symbol_hash_id b + 137)
      /\ heap b2 = heap b).
Proof.
  cbv zeta. split.
  - split; [vm_compute; reflexivity|].
    refine (proj1 (proj2 (intern_then_release example_reachable_agent
                            (intern_sym_constant "state") _ _)) _).
    + apply (inv_wf _ (reachable_inv _ example_reachable_agent_reachable)).
    + apply reference_counts_checked. vm_compute. reflexivity.
    + vm_compute. congruence.
  - assert (F : found_by init_symbol_tables (intern_sym_constant "state") = None)
      by (vm_compute; reflexivity).
    assert (Hrc : forall x s, heap init_symbol_tables !! x = Some s ->
                    1 <= reference_count s < 2 ^ 64 - 1).
    { apply reference_counts_checked. vm_compute. reflexivity. }
    pose proof (intern_then_release init_symbol_tables (intern_sym_constant "state")
                  (inv_wf _ interner_inv_init) Hrc) as H.
    cbv zeta in H. destruct H as (Hkeep & _ & Hnew).
    pose proof (proj1 Hkeep) as Hheap.
    destruct (Hnew F) as (Hid & _ & Hfree & _).
    change (kind_of_request (intern_sym_constant "state"))
      with SYM_CONSTANT_SYMBOL_TYPE in Hfree.
    split; [exact F|]. split; [vm_compute; reflexivity|].
    split; [rewrite Hfree; vm_compute; reflexivity|].
    split; [exact Hid | exact Hheap].
Defined.

(** C8, as stated, fails when the intern creates the symbol: interning
    "state" in the initial tables and releasing it leaves
    [current_symbol_hash_id] at 137 instead of 0 (and the slot the pool grew
    by on its free list). *)
Lemma intern_then_release_changes_hash_id :
  let a := init_symbol_tables in
  let a2 := symbol_remove_ref (fst (intern a (intern_sym_constant "state")))
              (snd (intern a (intern_sym_constant "state"))) in
  current_symbol_hash_id a = 0
  /\ current_symbol_hash_id a2 = 137
  /\ free_list (pool SYM_CONSTANT_SYMBOL_TYPE a) = []
  /\ free_list (pool SYM_CONSTANT_SYMBOL_TYPE a2) = [1]
  /\ heap a2 = heap a.
Proof. vm_compute. repeat split. Qed.

(** ** Interning an existing key *)

Lemma find_in_chain_exists (heap : gmap Z Symbol) (m : Symbol -> bool) (chain : list addr)
    (x : addr) (s : Symbol) :
  x ∈ chain -> heap !! x = Some s -> m s = true ->
  exists y, find_in_chain heap m chain = Some y.
Proof.
  intros Hx Hs Hm. destruct (find_in_chain heap m chain) as [y|] eqn:F; [eauto|].
  pose proof (find_in_chain_None _ _ _ F x s Hx Hs). congruence.
Qed.

Lemma SFeqb_trans (u v w : spec_float) :
  SFeqb u v = true -> SFeqb u w = true -> SFeqb v w = true.
Proof.
  intros H1 H2. apply SFeqb_true in H1. apply SFeqb_true in H2.
  destruct u as [a|a| |a m e], v as [b|b| |b n f], w as [c|c| |c o g]; try contradiction.
  - reflexivity.
  - subst. apply SFeqb_refl. discriminate.
  - destruct H1 as (<- & <- & <-). destruct H2 as (<- & <- & <-).
    apply SFeqb_refl. discriminate.
Qed.

Lemma same_key_trans (d d1 d2 : symbol_data) :
  same_key d d1 = true -> same_key d d2 = true -> same_key d1 d2 = true.
Proof.
  destruct d, d1, d2; cbn; intros H1 H2; try discriminate.
  - apply String.eqb_eq in H1, H2. subst. apply String.eqb_refl.
  - apply andb_true_iff in H1 as [A1 B1]. apply andb_true_iff in H2 as [A2 B2].
    apply Ascii.eqb_eq in A1, A2. apply Z.eqb_eq in B1, B2.
    rewrite <- A1, <- A2, <- B1, <- B2, Ascii.eqb_refl. apply Z.eqb_refl.
  - apply String.eqb_eq in H1, H2. subst. apply String.eqb_refl.
  - apply Z.eqb_eq in H1, H2. subst. apply Z.eqb_refl.
  - now apply (SFeqb_trans value).
Qed.

(** In the chain a key hashes to, the lookup finds the live symbol with that
    key. *)
Lemma find_in_chain_live_key (a : agent) (d : symbol_data) (x : addr) (s : Symbol) :
  interner_inv a -> heap a !! x = Some s -> same_key d (data s) = true ->
  find_in_chain (heap a) (fun t => same_key d (data t))
    (bucket (table (data_kind d) a)
       (hash_callback (data_kind d) (fresh_symbol d 0) (log2size (table (data_kind d) a))))
  = Some x.
Proof.
  intros [Hwf Hu _ _] Hx Hk.
  pose proof (same_key_kind _ _ Hk) as Hkind.
  assert (Hin : x ∈ all_items (table (data_kind d) a)).
  { apply (wf_live a Hwf). exists s. split; [assumption|]. now unfold symbol_type_of. }
  destruct (wf_tables a Hwf (data_kind d)) as [Hl Hp _ _].
  apply (elem_of_all_items_placed _ (hash_callback_range (data_kind d)) (heap a)) in Hin;
    [|lia|assumption].
  unfold hash_item in Hin. rewrite Hx in Hin.
  rewrite (same_key_hash d (fresh_symbol d 0) s) in Hin by (try reflexivity; assumption).
  destruct (find_in_chain_exists _ (fun t => same_key d (data t)) _ x s Hin Hx Hk) as (y & F).
  rewrite F. f_equal.
  apply find_in_chain_Some in F as (_ & t & Ht & Hm). cbn in Hm.
  apply (Hu y x t s Ht Hx). rewrite same_key_sym. now apply (same_key_trans d).
Qed.

(** The key an interning request carries, as a variant without payload. *)
Definition query_of (r : intern_request) : symbol_data :=
  match r with
  | intern_variable name => var name 0
  | intern_sym_constant name => sc name None
  | intern_int value => ic value
  | intern_float value => fc value
  | make_identifier letter lvl number => id (new_identifier letter lvl number)
  end.

Definition is_interning (r : intern_request) : Prop :=
  match r with
  | make_identifier _ _ _ => False
  | _ => True
  end.

Lemma found_by_live_key (a : agent) (r : intern_request) (x : addr) (s : Symbol) :
  interner_inv a -> is_interning r -> heap a !! x = Some s ->
  same_key (query_of r) (data s) = true -> found_by a r = Some x.
Proof.
  intros Hinv Hr Hx Hk. destruct r; try contradiction; cbn [found_by query_of] in *.
  - now apply (find_in_chain_live_key a (var name 0) x s).
  - now apply (find_in_chain_live_key a (sc name None) x s).
  - now apply (find_in_chain_live_key a (ic value) x s).
  - now apply (find_in_chain_live_key a (fc value) x s).
Qed.

(** Interning a key that a live symbol has -- any name, any integer, any
    float that compares equal to itself -- returns that symbol and adds one
    to its reference count; nothing else changes. *)
Theorem intern_existing_key (a : agent) (r : intern_request) (x : addr) (s : Symbol) :
  interner_inv a -> is_interning r -> heap a !! x = Some s ->
  same_key (query_of r) (data s) = true -> reference_count s < 2 ^ 64 - 1 ->
  0 <= reference_count s ->
  intern a r
  = (set_heap (<[x := set_reference_count (reference_count s + 1) s]> (heap a)) a, x).
Proof.
  intros Hinv Hr Hx Hk Hrc H0.
  pose proof (found_by_live_key a r x s Hinv Hr Hx Hk) as F.
  assert (E : symbol_add_ref a x
              = set_heap (<[x := set_reference_count (reference_count s + 1) s]> (heap a)) a).
  { unfold symbol_add_ref. rewrite Hx. unfold uint64. now rewrite Z.mod_small by lia. }
  destruct r; try contradiction; cbn [intern found_by] in *.
  - unfold make_variable. now rewrite F, E.
  - unfold make_sym_constant. now rewrite F, E.
  - unfold make_int_constant. now rewrite F, E.
  - unfold make_float_constant. now rewrite F, E.
Qed.

(** The first boundary scenario: "state" interned twice has reference count
    2; one release leaves it at 1 and findable; a second release removes
    it. *)
Example intern_state_twice :
  let r1 := make_sym_constant init_symbol_tables "state" in
  let r2 := make_sym_constant (fst r1) "state" in
  let a3 := symbol_remove_ref (fst r2) (snd r2) in
  let a4 := symbol_remove_ref a3 (snd r2) in
  find_sym_constant init_symbol_tables "state" = None
  /\ snd r2 = snd r1
  /\ (reference_count <$> heap (fst r2) !! snd r2) = Some 2
  /\ (reference_count <$> heap a3 !! snd r2) = Some 1
  /\ find_sym_constant a3 "state" = Some (snd r2)
  /\ find_sym_constant a4 "state" = None
  /\ heap a4 !! snd r2 = None.
Proof. vm_compute. repeat split. Qed.

(** C4 on a NaN: [find_float_constant] compares with [==], which a NaN
    fails against itself, so interning a NaN while a NaN constant is live
    creates a second symbol with reference count 1 instead of returning the
    first with reference count 2, and neither can be found. *)
Theorem make_float_constant_nan_twice :
  let r1 := make_float_constant init_symbol_tables S754_nan in
  let r2 := make_float_constant (fst r1) S754_nan in
  snd r1 = 1 /\ snd r2 = 2
  /\ (data <$> heap (fst r2) !! 1) = Some (fc S754_nan)
  /\ (data <$> heap (fst r2) !! 2) = Some (fc S754_nan)
  /\ (reference_count <$> heap (fst r2) !! 1) = Some 1
  /\ (reference_count <$> heap (fst r2) !! 2) = Some 1
  /\ all_items (float_constant_hash_table (fst r2)) = [2; 1]
  /\ find_float_constant (fst r2) S754_nan = None.
Proof. vm_compute. repeat split. Qed.

(** ** symtab.cpp: [reset_id_counters] and the leak report *)

(** The identifier is long-term: its [smem_lti] back-reference is set. *)
Definition long_term (i : identifier) : bool := negb (smem_lti i =? 0).

(** An entry of the leak report, in the words of the specification:
    [[@]<letter><number> --> <refcount>]. *)
Definition leak_entry (i : identifier) (rc : Z) : string :=
  ((if long_term i then "@" else "") ++ String (name_letter i) EmptyString
   ++ to_string (name_number i) ++ " --> " ++ to_string rc)%string.

(** The line [print_identifier_ref_info] writes for the item [x]. *)
Definition leak_line (hp : gmap Z Symbol) (x : addr) : string :=
  match hp !! x with
  | Some s =>
      match data s with
      | id i => identifier_ref_line i (reference_count s)
      | _ => EmptyString
      end
  | None => EmptyString
  end.

Definition lines_text (lines : list string) : string := foldr String.append EmptyString lines.

(** What one pass of [print_identifier_ref_info] over the table does with
    the lines it formats. *)
Definition report_line (f : option string) (a : agent) (msg : string) : agent :=
  let a := xml_generate_warning msg (print msg a) in
  match f with
  | Some file => fprintf file msg a
  | None => a
  end.

Definition report (f : option string) (lines : list string) (a : agent) : agent :=
  foldl (report_line f) a lines.

(** The long-term identifiers among [items]. *)
Definition lti_items (hp : gmap Z Symbol) (items : list addr) : list addr :=
  List.filter (fun x => match identifier_at hp x with
                        | Some i => long_term i
                        | None => false
                        end) items.

(** The 256-byte buffer holds every line: at most 49 characters. *)
Lemma identifier_ref_line_entry (i : identifier) (rc : Z) :
  identifier_ref_line i rc = (TAB ++ leak_entry i rc ++ NEWLINE)%string.
Proof.
  pose proof (to_string_length (name_number i)) as Hn.
  pose proof (to_string_length rc) as Hr.
  unfold identifier_ref_line, leak_entry, long_term, snprintf.
  set (n := to_string (name_number i)) in *. set (r := to_string rc) in *.
  clearbody n r.
  rewrite string_take_all.
  - destruct (smem_lti i =? 0); cbn [negb];
      rewrite ?string_app_assoc, ?string_app_cons; reflexivity.
  - destruct (smem_lti i =? 0); cbn [negb];
      rewrite !string_length_app; unfold TAB, NEWLINE; cbn [String.length]; lia.
Qed.

Lemma identifier_at_Some (hp : gmap Z Symbol) (x : addr) (i : identifier) :
  identifier_at hp x = Some i <-> exists s, hp !! x = Some s /\ data s = id i.
Proof.
  unfold identifier_at. destruct (hp !! x) as [s|]; [|split; [discriminate | now intros (? & [=] & _)]].
  destruct s as [rc hid tc vs us os d]; cbn. split.
  - destruct d; intros [=]; subst. eexists; split; reflexivity.
  - intros (s & [= <-] & Hd); cbn in Hd. now subst d.
Qed.

Lemma identifier_kind (s : Symbol) :
  symbol_type_of s = IDENTIFIER_SYMBOL_TYPE <-> exists i, data s = id i.
Proof.
  unfold symbol_type_of. destruct (data s); cbn; split;
    first [discriminate | now intros (? & [=]) | eauto].
Qed.

(** [smem_count_ltis] counts the long-term identifiers, as long as the
    64-bit counter cannot wrap. *)
Lemma smem_count_ltis_spec (hp : gmap Z Symbol) (items : list addr) (n : Z) :
  0 <= n -> n + Z.of_nat (length items) < 2 ^ 64 ->
  do_for_all_items (smem_count_ltis hp) items n
  = n + Z.of_nat (length (lti_items hp items)).
Proof.
  revert n. induction items as [|x items IH]; intros n Hn Hlt; cbn [do_for_all_items].
  - cbn. lia.
  - cbn [length] in Hlt. unfold lti_items; cbn [List.filter]. fold (lti_items hp items).
    unfold smem_count_ltis at 1, identifier_at, long_term.
    destruct (hp !! x) as [[rc hid tc vs us os [| i | | |]]|]; cbn [data];
      try (rewrite IH by lia; reflexivity).
    destruct (smem_lti i =? 0); cbn [negb].
    + rewrite IH by lia. reflexivity.
    + unfold uint64. rewrite Z.mod_small by lia. rewrite IH by lia. cbn [length]. lia.
Qed.

Lemma lti_items_length (hp : gmap Z Symbol) (items : list addr) :
  (length (lti_items hp items) <= length items)%nat.
Proof.
  induction items as [|x items IH]; [reflexivity|].
  unfold lti_items in *; cbn [List.filter].
  destruct (match identifier_at hp x with Some i => long_term i | None => false end);
    cbn [length]; lia.
Qed.

(** Every item is counted exactly when every item is long-term. *)
Lemma lti_items_all (hp : gmap Z Symbol) (items : list addr) :
  length (lti_items hp items) = length items <->
  forall x, x ∈ items -> exists i, identifier_at hp x = Some i /\ long_term i = true.
Proof.
  induction items as [|x items IH].
  - split; [|reflexivity]. intros _ y Hy. now apply elem_of_nil in Hy.
  - pose proof (lti_items_length hp items) as Hle.
    unfold lti_items in *; cbn [List.filter].
    destruct (identifier_at hp x) as [i|] eqn:Ex; [destruct (long_term i) eqn:El|];
      cbn [length]; split.
    + intros H y Hy. apply elem_of_cons in Hy as [->|Hy].
      * now exists i.
      * apply IH; [lia | assumption].
    + intros H. f_equal. apply IH. intros y Hy. apply H. now right.
    + lia.
    + intros H. destruct (H x) as (j & Hj & Hlt); [now left|]. congruence.
    + lia.
    + intros H. destruct (H x) as (j & Hj & _); [now left|]. congruence.
Qed.

(** One pass over live identifiers with a positive reference count never
    stops early and reports the line of each, in the order of the table. *)
Lemma print_identifier_ref_info_pass (f : option string) (hp : gmap Z Symbol)
    (items : list addr) (a : agent) :
  heap a = hp ->
  (forall x, x ∈ items ->
     exists s i, hp !! x = Some s /\ data s = id i /\ 0 < reference_count s) ->
  do_for_all_items (print_identifier_ref_info f) items a
  = report f (map (leak_line hp) items) a.
Proof.
  revert a. induction items as [|x items IH]; intros a Hhp Hall; [reflexivity|].
  destruct (Hall x) as (s & i & Hx & Hd & Hrc); [now left|].
  cbn [do_for_all_items map].
  change (report f (leak_line hp x :: map (leak_line hp) items) a)
    with (report f (map (leak_line hp) items) (report_line f a (leak_line hp x))).
  rewrite <- IH.
  - unfold print_identifier_ref_info at 1, leak_line at 1. rewrite Hhp, Hx, Hd.
    apply Z.ltb_lt in Hrc. rewrite Hrc. reflexivity.
  - destruct f; cbn; assumption.
  - intros y Hy. apply Hall. now right.
Qed.

Lemma report_heap (f : option string) (lines : list string) (a : agent) :
  heap (report f lines a) = heap a.
Proof.
  revert a; induction lines as [|l lines IH]; intros a; [reflexivity|].
  unfold report in *; cbn [foldl]. rewrite IH. now destruct f.
Qed.

Lemma report_id_counter (f : option string) (lines : list string) (a : agent) :
  id_counter (report f lines a) = id_counter a.
Proof.
  revert a; induction lines as [|l lines IH]; intros a; [reflexivity|].
  unfold report in *; cbn [foldl]. rewrite IH. now destruct f.
Qed.

Lemma report_hash_tables (f : option string) (lines : list string) (a : agent) :
  hash_tables (report f lines a) = hash_tables a.
Proof.
  revert a; induction lines as [|l lines IH]; intros a; [reflexivity|].
  unfold report in *; cbn [foldl]. rewrite IH. now destruct f.
Qed.

(** Without a stream the files are left alone. *)
Lemma report_None_fs (lines : list string) (a : agent) :
  fs (report None lines a) = fs a.
Proof.
  revert a; induction lines as [|l lines IH]; intros a; [reflexivity|].
  unfold report in *; cbn [foldl]. now rewrite IH.
Qed.

(** With a stream the lines are appended to its file, in order. *)
Lemma report_Some_file (path : string) (lines : list string) (a : agent) (old : string) :
  files (fs a) !! path = Some old ->
  files (fs (report (Some path) lines a)) !! path = Some (old ++ lines_text lines)%string.
Proof.
  revert a old; induction lines as [|l lines IH]; intros a old Hold.
  - cbn. now rewrite string_app_nil_r.
  - change (report (Some path) (l :: lines) a)
      with (report (Some path) lines (report_line (Some path) a l)).
    rewrite (IH _ (old ++ l)%string).
    + cbn [lines_text foldr]. now rewrite string_app_assoc.
    + cbn. rewrite lookup_insert_eq, Hold. reflexivity.
Qed.

(** The loop of line 670 sets all 26 counters to 1. *)
Lemma reset_counters_all_one (counters : list Z) :
  length counters = 26%nat ->
  foldl (fun cs i => <[i := 1]> cs) counters (seq 0 26) = replicate 26 1.
Proof.
  intros H. do 27 (destruct counters as [|? counters]; try discriminate H). reflexivity.
Qed.

(** The identifier table holds exactly the live identifiers. *)
Lemma identifier_table_live (a : agent) (x : addr) :
  agent_wf a ->
  x ∈ all_items (identifier_hash_table a) <-> exists i, identifier_at (heap a) x = Some i.
Proof.
  intros Hwf. change (identifier_hash_table a) with (table IDENTIFIER_SYMBOL_TYPE a).
  rewrite (wf_live a Hwf). split.
  - intros (s & Hs & Hk). apply identifier_kind in Hk as [i Hi].
    exists i. apply identifier_at_Some. eauto.
  - intros (i & Hi). apply identifier_at_Some in Hi as (s & Hs & Hd).
    exists s. split; [assumption|]. apply identifier_kind. eauto.
Qed.

(** The refusal (lines 647-664): both tests of lines 642 and 646 succeed,
    the first pass prints the lines, the second writes them to the file
    just opened. *)
Lemma reset_id_counters_refused (a : agent) :
  let ids := all_items (identifier_hash_table a) in
  count (identifier_hash_table a) <> 0 ->
  uint64 (count (identifier_hash_table a))
    <> do_for_all_items (smem_count_ltis (heap a)) ids 0 ->
  writable (fs a) = true ->
  (forall x, x ∈ ids ->
     exists s i, heap a !! x = Some s /\ data s = id i /\ 0 < reference_count s) ->
  snd (reset_id_counters a) = false /\
  id_counter (fst (reset_id_counters a)) = id_counter a /\
  heap (fst (reset_id_counters a)) = heap a /\
  hash_tables (fst (reset_id_counters a)) = hash_tables a /\
  files (fs (fst (reset_id_counters a))) !! "leaked-ids.txt"
  = Some (lines_text (map (leak_line (heap a)) ids)).
Proof.
  intros ids H0 Hne Hw Hall. unfold reset_id_counters, do_for_all_items_in_hash_table.
  apply Z.eqb_neq in H0. apply Z.eqb_neq in Hne. fold ids. rewrite H0, Hne. cbn [negb].
  set (a0 := xml_generate_warning _ _).
  rewrite (print_identifier_ref_info_pass None (heap a) ids a0 eq_refl Hall).
  unfold fopen_w. rewrite report_None_fs.
  change (writable (fs a0)) with (writable (fs a)). rewrite Hw.
  set (a1 := set_fs _ _).
  assert (Hheap : heap a1 = heap a) by (unfold a1; cbn; now rewrite report_heap).
  rewrite (print_identifier_ref_info_pass (Some "leaked-ids.txt") (heap a) ids a1 Hheap Hall).
  cbn [fst snd]. rewrite report_id_counter, report_heap, report_hash_tables.
  repeat split.
  - unfold a1; cbn. now rewrite report_id_counter.
  - assumption.
  - unfold a1; cbn. now rewrite report_hash_tables.
  - rewrite (report_Some_file _ _ a1 EmptyString); [reflexivity|].
    unfold a1; cbn. now rewrite lookup_insert_eq.
Qed.

(** The reset (lines 670-677). *)
Lemma reset_id_counters_done (a : agent) :
  let ids := all_items (identifier_hash_table a) in
  (count (identifier_hash_table a) = 0 \/
   uint64 (count (identifier_hash_table a))
     = do_for_all_items (smem_count_ltis (heap a)) ids 0) ->
  length (id_counter a) = 26%nat ->
  snd (reset_id_counters a) = true /\
  id_counter (fst (reset_id_counters a)) = replicate 26 1 /\
  heap (fst (reset_id_counters a)) = heap a /\
  hash_tables (fst (reset_id_counters a)) = hash_tables a /\
  fs (fst (reset_id_counters a)) = fs a /\
  smem_notified (fst (reset_id_counters a)) = smem_connected a || smem_notified a.
Proof.
  intros ids H Hlen. unfold reset_id_counters, do_for_all_items_in_hash_table. fold ids.
  rewrite (reset_counters_all_one _ Hlen).
  assert (E : negb (count (identifier_hash_table a) =? 0)
              && negb (uint64 (count (identifier_hash_table a))
                       =? do_for_all_items (smem_count_ltis (heap a)) ids 0) = false).
  { destruct H as [H|H].
    - apply Z.eqb_eq in H. now rewrite H.
    - apply Z.eqb_eq in H. rewrite H. now rewrite andb_false_r. }
  destruct (negb (count (identifier_hash_table a) =? 0));
    [destruct (negb (uint64 _ =? _)); [discriminate E|]|];
    cbn; destruct (smem_connected a); cbn; repeat split.
Qed.

(** Marking an identifier through [set_identifier] without renaming it
    keeps the tables well formed. *)
Lemma set_identifier_wf (a : agent) (x : addr) (f : identifier -> identifier) :
  (forall i, name_letter (f i) = name_letter i /\ name_number (f i) = name_number i) ->
  agent_wf a -> agent_wf (set_identifier x f a).
Proof.
  intros Hf Hwf. unfold set_identifier. destruct (heap a !! x) as [s|] eqn:Hx.
  - set (g := fun s : Symbol => _).
    replace (alter g x (heap a)) with (<[x := g s]> (heap a)).
    + apply (agent_wf_update_key a x s (g s) Hx); [| |assumption].
      * unfold g, symbol_type_of; cbn. now destruct (data s).
      * intros k nb. destruct (data s) as [| i | | |] eqn:Ed;
          try (apply hash_callback_data; unfold g; cbn [data]; now rewrite Ed).
        unfold g. destruct k; unfold hash_callback, hash_variable, hash_identifier,
          hash_sym_constant, hash_int_constant, hash_float_constant;
          cbn [data]; rewrite Ed; cbv beta iota; [reflexivity | | reflexivity..].
        destruct (Hf i) as [-> ->]. reflexivity.
    + apply map_eq. intros y. destruct (Z.eq_dec x y) as [<-|Hne].
      * now rewrite lookup_insert_eq, lookup_alter_eq, Hx.
      * now rewrite lookup_insert_ne, lookup_alter_ne.
  - replace (alter _ x (heap a)) with (heap a).
    + now replace (set_heap (heap a) a) with a by now destruct a.
    + apply map_eq. intros y. destruct (Z.eq_dec x y) as [<-|Hne].
      * now rewrite lookup_alter_eq, Hx.
      * now rewrite lookup_alter_ne.
Qed.

(** C3.  Let the tables be well formed, every live symbol be referenced,
    the table's count fit 64 bits, the counter array have its 26 entries and
    leaked-ids.txt be writable.  The identifier table holds each live
    identifier once.  If some live identifier is not long-term,
    [reset_id_counters] returns false, leaves the 26 counters (and the
    symbols) as they were, and writes to leaked-ids.txt one line per live
    identifier, in the order of the table: a tab, the entry
    [[@]<letter><number> --> <refcount>] with the [@] exactly for a long-term
    identifier, and a newline.  If every live identifier is long-term, or
    there is none, it returns true and every counter is 1. *)
Theorem reset_id_counters_spec (a : agent) :
  agent_wf a ->
  (forall x s, heap a !! x = Some s -> 0 < reference_count s) ->
  count (identifier_hash_table a) < 2 ^ 64 ->
  length (id_counter a) = 26%nat ->
  writable (fs a) = true ->
  let ids := all_items (identifier_hash_table a) in
  let r := reset_id_counters a in
  (NoDup ids /\ forall x, x ∈ ids <-> exists i, identifier_at (heap a) x = Some i) /\
  ((exists x i, identifier_at (heap a) x = Some i /\ long_term i = false) ->
     snd r = false /\
     id_counter (fst r) = id_counter a /\
     heap (fst r) = heap a /\
     files (fs (fst r)) !! "leaked-ids.txt"
       = Some (lines_text (map (leak_line (heap a)) ids)) /\
     forall x, x ∈ ids ->
       exists s i, heap a !! x = Some s /\ data s = id i /\
         leak_line (heap a) x
         = (TAB ++ leak_entry i (reference_count s) ++ NEWLINE)%string /\
         (long_term i = true <-> smem_lti i <> 0)) /\
  ((forall x i, identifier_at (heap a) x = Some i -> long_term i = true) ->
     snd r = true /\
     (forall L, (L < 26)%nat -> id_counter (fst r) !! L = Some 1) /\
     length (id_counter (fst r)) = 26%nat /\
     heap (fst r) = heap a).
Proof.
  intros Hwf Hrc Hcount Hlen Hw ids r.
  pose proof (wf_tables a Hwf IDENTIFIER_SYMBOL_TYPE) as Htab.
  change (table IDENTIFIER_SYMBOL_TYPE a) with (identifier_hash_table a) in Htab.
  pose proof (wf_nodup _ _ _ Htab) as Hnd. pose proof (wf_count _ _ _ Htab) as Hcnt.
  fold ids in Hnd, Hcnt.
  assert (Hlive : forall x, x ∈ ids <-> exists i, identifier_at (heap a) x = Some i)
    by (intros x; now apply identifier_table_live).
  assert (Hall : forall x, x ∈ ids ->
            exists s i, heap a !! x = Some s /\ data s = id i /\ 0 < reference_count s).
  { intros x Hx. apply Hlive in Hx as [i Hi]. apply identifier_at_Some in Hi as (s & Hs & Hd).
    exists s, i. repeat split; try assumption. now apply (Hrc x). }
  assert (Hltis : do_for_all_items (smem_count_ltis (heap a)) ids 0
                  = Z.of_nat (length (lti_items (heap a) ids))).
  { rewrite smem_count_ltis_spec; lia. }
  assert (Hu : uint64 (count (identifier_hash_table a)) = Z.of_nat (length ids)).
  { unfold uint64. rewrite Z.mod_small; lia. }
  split; [split; assumption|]. split.
  - intros (x & i & Hx & Hnl).
    assert (Hin : x ∈ ids) by (apply Hlive; eauto).
    destruct (reset_id_counters_refused a) as (R1 & R2 & R3 & _ & R5).
    + rewrite Hcnt. destruct ids; [now apply elem_of_nil in Hin | cbn; lia].
    + fold ids. rewrite Hu, Hltis. intros E. apply Nat2Z.inj in E. symmetry in E.
      destruct (proj1 (lti_items_all _ _) E x Hin) as (j & Hj & Hlt). congruence.
    + assumption.
    + assumption.
    + repeat split; try assumption.
      intros y Hy. destruct (Hall y Hy) as (s & j & Hs & Hd & _). exists s, j.
      repeat split; try assumption.
      * unfold leak_line. rewrite Hs, Hd. apply identifier_ref_line_entry.
      * unfold long_term. intros H E. now rewrite E in H.
      * unfold long_term. intros H. apply Z.eqb_neq in H. now rewrite H.
  - intros Hlt.
    destruct (reset_id_counters_done a) as (R1 & R2 & R3 & _).
    + right. fold ids. rewrite Hu, Hltis. f_equal. symmetry. apply (proj2 (lti_items_all _ _)).
      intros x Hx. apply Hlive in Hx as [i Hi]. exists i. split; [assumption|].
      now apply (Hlt x).
    + assumption.
    + fold r in R1, R2, R3. rewrite R2.
      split; [assumption|]. split; [|split; [apply length_replicate | assumption]].
      intros L HL. apply lookup_replicate_2. assumption.
Qed.

(** Two live identifiers: Q50, marked long-term, and S1. *)
Definition leaky_agent : agent :=
  set_identifier 1 (as_long_term 7)
    (run [op_make_new_identifier "q" 1 50; op_make_new_identifier "s" 1 0]
       init_symbol_tables).

Lemma leaky_agent_wf : agent_wf leaky_agent.
Proof.
  apply set_identifier_wf; [intros i; split; reflexivity|].
  apply inv_wf, reachable_inv. unfold run. cbn [foldl].
  repeat match goal with
         | |- reachable (apply_op _ (op_make_new_identifier _ _ _)) =>
             apply reachable_step_counter; [| solve_numbering]
         | |- reachable (apply_op _ _) => apply reachable_step; [| exact I]
         end.
  apply reachable_init.
Qed.

Lemma reset_id_counters_spec_witness :
  let a := leaky_agent in
  let r := reset_id_counters a in
  (exists x i, identifier_at (heap a) x = Some i /\ long_term i = false) /\
  snd r = false /\
  id_counter (fst r) = id_counter a /\
  files (fs (fst r)) !! "leaked-ids.txt"
  = Some (lines_text (map (leak_line (heap a)) (all_items (identifier_hash_table a)))).
Proof.
  cbv zeta.
  assert (H : exists x i, identifier_at (heap leaky_agent) x = Some i /\ long_term i = false).
  { exists 2. eexists. split; [vm_compute; reflexivity | reflexivity]. }
  split; [exact H|].
  destruct (proj2 (reset_id_counters_spec leaky_agent leaky_agent_wf
                     ltac:(intros x s Hx;
                           pose proof (reference_counts_checked (heap leaky_agent)
                                         eq_refl x s Hx); lia)
                     ltac:(vm_compute; reflexivity) eq_refl eq_refl)) as [Hfail _].
  destruct (Hfail H) as (R1 & R2 & _ & R4 & _). repeat split; assumption.
Defined.

(** The report of the example: the long-term Q50 carries the [@]; each
    line starts with a tab.  The counters of Q and S stay at 51 and 2. *)
Example reset_id_counters_leaky_agent :
  let r := reset_id_counters leaky_agent in
  snd r = false /\
  files (fs (fst r)) !! "leaked-ids.txt"
  = Some (TAB ++ "@Q50 --> 1" ++ NEWLINE ++ TAB ++ "S1 --> 1" ++ NEWLINE)%string /\
  id_counter (fst r) !! letter_index "Q" = Some 51 /\
  id_counter (fst r) !! letter_index "S" = Some 2.
Proof. vm_compute. repeat split. Qed.

(** One live identifier that is not long-term: failure, a one-line file,
    the counters left alone. *)
Example reset_id_counters_one_leak :
  let a := fst (make_new_identifier init_symbol_tables "q" 1 50) in
  let r := reset_id_counters a in
  snd r = false /\
  files (fs (fst r)) !! "leaked-ids.txt" = Some (TAB ++ "Q50 --> 1" ++ NEWLINE)%string /\
  id_counter (fst r) = id_counter a.
Proof. vm_compute. repeat split. Qed.

(** Once S1 is long-term as well, the reset goes through. *)
Example reset_id_counters_all_long_term :
  let a := set_identifier 2 (as_long_term 9) leaky_agent in
  let r := reset_id_counters a in
  snd r = true /\ id_counter (fst r) = replicate 26 1.
Proof. vm_compute. repeat split. Qed.

(** With no identifier at all the reset goes through. *)
Example reset_id_counters_no_identifier :
  let r := reset_id_counters init_symbol_tables in
  snd r = true /\ id_counter (fst r) = replicate 26 1.
Proof. vm_compute. repeat split. Qed.

(* ===================================================================== *)
(** * Part III: the rest of the files                                     *)
(* ===================================================================== *)

(** ** decider.cpp: the lists of enabled and disabled modules *)

(** What [get_enabled_module_strings] reads off the agent's modules
    (lines 40-48); the modules themselves are outside the files at hand.
    [svsEnabled] is [false] when the kernel is built with [NO_SVS]. *)
Record module_switches := {
  ebcEnabled : bool;
  smemEnabled : bool;
  epmemEnabled : bool;
  svsEnabled : bool;
  rlEnabled : bool;
  wmaEnabled : bool
}.

(** The two strings and the two flags the function threads through its
    blocks. *)
Record module_strings := {
  enabledStr : string;
  disabledStr : string;
  notFirstEnabledItem : bool;
  notFirstDisabledItem : bool
}.

(** [if (notFirstEnabledItem) enabledStr += ", "; else notFirstEnabledItem = true;
    enabledStr += name;] (lines 54-55, 63-64) *)
Definition append_enabled (name : string) (st : module_strings) : module_strings :=
  let '(str, flag) := if notFirstEnabledItem st
                      then ((enabledStr st ++ ", ")%string, notFirstEnabledItem st)
                      else (enabledStr st, true) in
  {| enabledStr := (str ++ name)%string; disabledStr := disabledStr st;
     notFirstEnabledItem := flag; notFirstDisabledItem := notFirstDisabledItem st |}.

(** [if (notFirstEnabledItem) { enabledStr += ", "; notFirstEnabledItem = true; }
    enabledStr += name;] (lines 71-72 and the blocks after it) *)
Definition append_enabled_braced (name : string) (st : module_strings) : module_strings :=
  let '(str, flag) := if notFirstEnabledItem st
                      then ((enabledStr st ++ ", ")%string, true)
                      else (enabledStr st, notFirstEnabledItem st) in
  {| enabledStr := (str ++ name)%string; disabledStr := disabledStr st;
     notFirstEnabledItem := flag; notFirstDisabledItem := notFirstDisabledItem st |}.

(** [if (notFirstDisabledItem) disabledStr += ", "; else notFirstDisabledItem = true;
    disabledStr += name;] *)
Definition append_disabled (name : string) (st : module_strings) : module_strings :=
  let '(str, flag) := if notFirstDisabledItem st
                      then ((disabledStr st ++ ", ")%string, notFirstDisabledItem st)
                      else (disabledStr st, true) in
  {| enabledStr := enabledStr st; disabledStr := (str ++ name)%string;
     notFirstEnabledItem := notFirstEnabledItem st; notFirstDisabledItem := flag |}.

(** [get_enabled_module_strings] (lines 38-109).  [enabledStr] is assigned,
    [disabledStr] is appended to. *)
Definition get_enabled_module_strings (m : module_switches)
    (enabledStr0 disabledStr0 : string) : string * string :=
  let spreadingEnabled := false in
  let st := {| enabledStr := "Core"; disabledStr := disabledStr0;
               notFirstEnabledItem := true; notFirstDisabledItem := false |} in
  let st := if ebcEnabled m then append_enabled "EBC" st else append_disabled "EBC" st in
  let st := if smemEnabled m then append_enabled "SMem" st else append_disabled "SMem" st in
  let st := if epmemEnabled m then append_enabled_braced "EpMem" st
            else append_disabled "EpMem" st in
  let st := if svsEnabled m then append_enabled_braced "SVS" st
            else append_disabled "SVS" st in
  let st := if rlEnabled m then append_enabled_braced "RL" st else append_disabled "RL" st in
  let st := if wmaEnabled m then append_enabled_braced "WMA" st
            else append_disabled "WMA" st in
  let st := if spreadingEnabled then append_enabled_braced "SSA" st
            else append_disabled "SSA" st in
  (enabledStr st, disabledStr st).

(** The modules in the order the function visits them, each with its
    switch. *)
Definition module_table (m : module_switches) : list (string * bool) :=
  [("EBC", ebcEnabled m); ("SMem", smemEnabled m); ("EpMem", epmemEnabled m);
   ("SVS", svsEnabled m); ("RL", rlEnabled m); ("WMA", wmaEnabled m); ("SSA", false)]%string.

Definition modules_with (state : bool) (m : module_switches) : list string :=
  map fst (List.filter (fun p => Bool.eqb (snd p) state) (module_table m)).

(** X1.  Whatever the caller passes as [enabledStr] is discarded: the
    enabled list is "Core" and the enabled modules in the order EBC, SMem,
    EpMem, SVS, RL, WMA, separated by ", ".  The disabled modules, in the
    same order and always ending with SSA, are appended to the caller's
    [disabledStr], separated by ", " among themselves but not from what the
    string already held. *)
Theorem get_enabled_module_strings_spec (m : module_switches)
    (enabledStr0 disabledStr0 : string) :
  get_enabled_module_strings m enabledStr0 disabledStr0
  = (String.concat ", " ("Core"%string :: modules_with true m),
     (disabledStr0 ++ String.concat ", " (modules_with false m))%string).
Proof.
  destruct m as [[] [] [] [] [] []];
    cbv -[String.append]; rewrite ?string_app_assoc; reflexivity.
Qed.

(** ** symtab.cpp: hash values *)

(** [compress] with the bound on its loop as a parameter; [compress] is
    [compress_within 32]. *)
Definition compress_within (fuel : nat) (h num_bits : Z) : Z :=
  let h := if num_bits <? 16 then Z.lxor (Z.land h 65535) (Z.shiftr h 16) else h in
  let h := if num_bits <? 8 then Z.lxor (Z.land h 255) (Z.shiftr h 8) else h in
  compress_loop fuel h num_bits 0.

Lemma land_ones_small (h n : Z) : 0 <= n -> 0 <= h < 2 ^ n -> Z.land h (Z.ones n) = h.
Proof. intros Hn Hh. rewrite Z.land_ones by assumption. now apply Z.mod_small. Qed.

Lemma shiftr_small (h n : Z) : 0 <= n -> 0 <= h < 2 ^ n -> Z.shiftr h n = 0.
Proof. intros Hn Hh. rewrite Z.shiftr_div_pow2 by assumption. now apply Z.div_small. Qed.

(** Folding the upper half of a value onto its lower half. *)
Lemma fold_half_range (h n : Z) :
  0 <= n -> 0 <= h < 2 ^ (2 * n) ->
  0 <= Z.lxor (Z.land h (Z.ones n)) (Z.shiftr h n) < 2 ^ n.
Proof.
  intros Hn Hh. assert (0 < 2 ^ n) by (apply Z.pow_pos_nonneg; lia).
  apply lxor_range.
  - rewrite Z.land_ones by assumption. now apply Z.mod_pos_bound.
  - rewrite Z.shiftr_div_pow2 by assumption. split; [apply Z.div_pos; lia|].
    apply Z.div_lt_upper_bound; [assumption|].
    replace (2 * n) with (n + n) in Hh by lia. rewrite Z.pow_add_r in Hh; lia.
Qed.

(** The value the loop of [compress] starts from is still a 32-bit value. *)
Lemma compress_prefold_range (h num_bits : Z) :
  0 <= h < 2 ^ 32 ->
  0 <= (let h := if num_bits <? 16 then Z.lxor (Z.land h 65535) (Z.shiftr h 16) else h in
        if num_bits <? 8 then Z.lxor (Z.land h 255) (Z.shiftr h 8) else h) < 2 ^ 32.
Proof.
  intros Hh. cbv zeta.
  assert (H16 : 0 <= Z.lxor (Z.land h 65535) (Z.shiftr h 16) < 2 ^ 16)
    by (apply (fold_half_range h 16); [lia | exact Hh]).
  destruct (num_bits <? 16); destruct (num_bits <? 8).
  - pose proof (fold_half_range (Z.lxor (Z.land h 65535) (Z.shiftr h 16)) 8
                  ltac:(lia) H16) as H8.
    change (Z.ones 8) with 255 in H8. change (2 ^ 8) with 256 in H8. lia.
  - change (2 ^ 16) with 65536 in H16. lia.
  - assert (0 <= Z.lxor (Z.land h 255) (Z.shiftr h 8) < 2 ^ 32); [|assumption].
    apply lxor_range.
    + change 255 with (Z.ones 8). rewrite Z.land_ones by lia.
      pose proof (Z.mod_pos_bound h (2 ^ 8) ltac:(lia)). lia.
    + rewrite Z.shiftr_div_pow2 by lia. split; [apply Z.div_pos; lia|].
      apply Z.div_lt_upper_bound; lia.
  - assumption.
Qed.

(** X2.  For a 32-bit hash and between 1 and 31 bits (a shift by more is
    undefined in C++), [compress] yields a bucket index below
    [2 ^ num_bits], and its loop is over within 32 rounds: a longer run
    changes nothing. *)
Theorem compress_bucket_index (h num_bits : Z) (k : nat) :
  1 <= num_bits <= 31 -> 0 <= h < 2 ^ 32 ->
  0 <= compress h num_bits < 2 ^ num_bits
  /\ compress_within (32 + k) h num_bits = compress h num_bits.
Proof.
  intros Hnb Hh. split; [apply compress_range; lia|].
  unfold compress_within, compress. cbv zeta.
  apply compress_enough_fuel; [lia|].
  exact (compress_prefold_range h num_bits Hh).
Qed.

Lemma compress_bucket_index_witness :
  0 <= compress 305419896 5 < 2 ^ 5
  /\ compress_within (32 + 8) 305419896 5 = compress 305419896 5.
Proof. apply (compress_bucket_index 305419896 5 8); lia. Defined.

(** X3.  A hash that already fits [num_bits] bits (between 1 and 31) is
    left as it is. *)
Theorem compress_small (h num_bits : Z) :
  1 <= num_bits <= 31 -> 0 <= h < 2 ^ num_bits -> compress h num_bits = h.
Proof.
  intros Hnb Hh. unfold compress. cbv zeta.
  assert (E16 : (if num_bits <? 16 then Z.lxor (Z.land h 65535) (Z.shiftr h 16) else h) = h).
  { destruct (Z.ltb_spec num_bits 16) as [Hlt|]; [|reflexivity].
    assert (2 ^ num_bits <= 2 ^ 16) by (apply Z.pow_le_mono_r; lia).
    change 65535 with (Z.ones 16).
    rewrite land_ones_small, shiftr_small by lia. apply Z.lxor_0_r. }
  rewrite E16.
  assert (E8 : (if num_bits <? 8 then Z.lxor (Z.land h 255) (Z.shiftr h 8) else h) = h).
  { destruct (Z.ltb_spec num_bits 8) as [Hlt|]; [|reflexivity].
    assert (2 ^ num_bits <= 2 ^ 8) by (apply Z.pow_le_mono_r; lia).
    change 255 with (Z.ones 8).
    rewrite land_ones_small, shiftr_small by lia. apply Z.lxor_0_r. }
  rewrite E8.
  change 32%nat with (S (S 30)). cbn [compress_loop].
  destruct (Z.eqb_spec h 0) as [->|Hne]; [reflexivity|].
  unfold masks_for_n_low_order_bits.
  rewrite land_ones_small, shiftr_small by lia. rewrite Z.eqb_refl. apply Z.lxor_0_l.
Qed.

Lemma compress_small_witness : compress 13 4 = 13.
Proof. apply compress_small; lia. Defined.

(** The code of a character, and the names made of ASCII characters other
    than NUL (which ends a C string). *)
Definition char_code (c : ascii) : Z := Z.of_N (N_of_ascii c).

Fixpoint plain_ascii (s : string) : bool :=
  match s with
  | EmptyString => true
  | String c s' => (1 <=? char_code c) && (char_code c <? 128) && plain_ascii s'
  end.

(** The characters of a name read as one number, most significant first. *)
Fixpoint big_endian_from (h : Z) (s : string) : Z :=
  match s with
  | EmptyString => h
  | String c s' => big_endian_from (256 * h + char_code c) s'
  end.

Definition big_endian (s : string) : Z := big_endian_from 0 s.

Lemma lxor_low_byte (h c : Z) : 0 <= h -> 0 <= c < 256 -> Z.lxor (256 * h) c = 256 * h + c.
Proof.
  intros Hh Hc. symmetry. apply Z.add_nocarry_lxor. apply Z.bits_inj'. intros n Hn.
  rewrite Z.land_spec, Z.bits_0.
  destruct (Z_lt_le_dec n 8) as [Hlt|Hge].
  - replace (256 * h) with (Z.shiftl h 8) by (rewrite Z.shiftl_mul_pow2; lia).
    rewrite Z.shiftl_spec_low by assumption. reflexivity.
  - destruct (Z.eq_dec c 0) as [->|Hc0]; [rewrite Z.bits_0; apply andb_false_r|].
    rewrite (Z.bits_above_log2 c n); [apply andb_false_r | lia |].
    apply Z.lt_le_trans with 8; [|assumption]. apply Z.log2_lt_pow2; lia.
Qed.

Lemma char_code_range (c : ascii) : 0 <= char_code c < 256.
Proof.
  unfold char_code. pose proof (N_ascii_bounded c) as H. lia.
Qed.

Lemma char_to_uint32_ascii (c : ascii) : char_code c < 128 -> char_to_uint32 c = char_code c.
Proof.
  intros H. pose proof (char_code_range c) as R. unfold char_to_uint32. fold (char_code c).
  destruct (Z.ltb_spec (char_code c) 128); [|lia]. unfold uint32. apply Z.mod_small. lia.
Qed.

(** One round of [hash_string] on a value of at most three bytes. *)
Lemma hash_string_round (h : Z) (c : ascii) :
  0 <= h < 2 ^ 24 -> char_code c < 128 ->
  Z.lxor (Z.lor (uint32 (Z.shiftl h 8)) (Z.shiftr h 24)) (char_to_uint32 c)
  = 256 * h + char_code c.
Proof.
  intros Hh Hc. pose proof (char_code_range c) as R.
  rewrite char_to_uint32_ascii by assumption.
  rewrite shiftr_small, Z.lor_0_r by lia.
  rewrite Z.shiftl_mul_pow2 by lia. unfold uint32. rewrite Z.mod_small by lia.
  replace (h * 2 ^ 8) with (256 * h) by lia. apply lxor_low_byte; lia.
Qed.

Lemma plain_ascii_cons (c : ascii) (s : string) :
  plain_ascii (String c s) = true -> 1 <= char_code c < 128 /\ plain_ascii s = true.
Proof.
  cbn [plain_ascii]. intros H. apply andb_true_iff in H as [H Hs].
  apply andb_true_iff in H as [H1 H2]. apply Z.leb_le in H1. apply Z.ltb_lt in H2.
  split; [lia | assumption].
Qed.

Lemma hash_string_from_short (s : string) :
  forall (h : Z) (n : nat),
    0 <= h < 256 ^ Z.of_nat n -> (n + String.length s <= 4)%nat -> plain_ascii s = true ->
    hash_string_from h s = big_endian_from h s.
Proof.
  induction s as [|c s IH]; intros h n Hh Hlen Hs; [reflexivity|].
  apply plain_ascii_cons in Hs as [Hc Hs]. cbn [String.length] in Hlen.
  cbn [hash_string_from big_endian_from].
  assert (256 ^ Z.of_nat n <= 256 ^ 3) by (apply Z.pow_le_mono_r; lia).
  rewrite hash_string_round by lia.
  apply (IH _ (S n)); [|lia|assumption].
  rewrite Nat2Z.inj_succ, Z.pow_succ_r by lia. lia.
Qed.

Lemma big_endian_from_split (s : string) (h : Z) :
  big_endian_from h s = h * 256 ^ Z.of_nat (String.length s) + big_endian s.
Proof.
  unfold big_endian. revert h. induction s as [|c s IH]; intros h.
  - cbn. lia.
  - cbn [big_endian_from String.length]. rewrite (IH (256 * h + char_code c)).
    rewrite (IH (256 * 0 + char_code c)). rewrite Nat2Z.inj_succ, Z.pow_succ_r by lia. lia.
Qed.

Lemma big_endian_range (s : string) :
  0 <= big_endian s < 256 ^ Z.of_nat (String.length s).
Proof.
  induction s as [|c s IH]; [cbn; lia|].
  unfold big_endian. cbn [big_endian_from String.length].
  rewrite big_endian_from_split. pose proof (char_code_range c).
  rewrite Nat2Z.inj_succ, Z.pow_succ_r by lia.
  assert (0 < 256 ^ Z.of_nat (String.length s)) by (apply Z.pow_pos_nonneg; lia). nia.
Qed.

(** A name that starts with a character other than NUL is at least
    [256 ^ (length - 1)]. *)
Lemma big_endian_lower (c : ascii) (s : string) :
  1 <= char_code c -> 256 ^ Z.of_nat (String.length s) <= big_endian (String c s).
Proof.
  intros Hc. unfold big_endian. cbn [big_endian_from]. rewrite big_endian_from_split.
  pose proof (big_endian_range s).
  assert (0 < 256 ^ Z.of_nat (String.length s)) by (apply Z.pow_pos_nonneg; lia). nia.
Qed.

Lemma char_code_inj (c d : ascii) : char_code c = char_code d -> c = d.
Proof.
  unfold char_code. intros H. apply N2Z.inj in H.
  rewrite <- (ascii_N_embedding c), <- (ascii_N_embedding d). now rewrite H.
Qed.

Lemma big_endian_inj (s : string) :
  forall t, plain_ascii s = true -> plain_ascii t = true ->
    big_endian s = big_endian t -> s = t.
Proof.
  induction s as [|c s IH]; intros [|d t] Hs Ht E.
  - reflexivity.
  - apply plain_ascii_cons in Ht as [Hd _].
    pose proof (big_endian_lower d t ltac:(lia)) as L. rewrite <- E in L.
    assert (0 < 256 ^ Z.of_nat (String.length t)) by (apply Z.pow_pos_nonneg; lia).
    unfold big_endian in L; cbn in L. lia.
  - apply plain_ascii_cons in Hs as [Hc _].
    pose proof (big_endian_lower c s ltac:(lia)) as L. rewrite E in L.
    assert (0 < 256 ^ Z.of_nat (String.length s)) by (apply Z.pow_pos_nonneg; lia).
    unfold big_endian in L; cbn in L. lia.
  - apply plain_ascii_cons in Hs as [Hc Hs]. apply plain_ascii_cons in Ht as [Hd Ht].
    pose proof (big_endian_lower c s ltac:(lia)) as Ls.
    pose proof (big_endian_lower d t ltac:(lia)) as Lt.
    pose proof (big_endian_range (String c s)) as Rs.
    pose proof (big_endian_range (String d t)) as Rt.
    cbn [String.length] in Rs, Rt. rewrite Nat2Z.inj_succ, Z.pow_succ_r in Rs, Rt by lia.
    assert (Hlen : String.length s = String.length t).
    { destruct (Nat.lt_trichotomy (String.length s) (String.length t)) as [Hlt|[Heq|Hgt]];
        [exfalso | exact Heq | exfalso].
      - assert (256 * 256 ^ Z.of_nat (String.length s) <= 256 ^ Z.of_nat (String.length t)).
        { rewrite <- Z.pow_succ_r by lia. apply Z.pow_le_mono_r; lia. }
        lia.
      - assert (256 * 256 ^ Z.of_nat (String.length t) <= 256 ^ Z.of_nat (String.length s)).
        { rewrite <- Z.pow_succ_r by lia. apply Z.pow_le_mono_r; lia. }
        lia. }
    unfold big_endian in E. cbn [big_endian_from] in E.
    rewrite (big_endian_from_split s), (big_endian_from_split t), Hlen in E.
    pose proof (big_endian_range s) as Bs. pose proof (big_endian_range t) as Bt.
    rewrite Hlen in Bs.
    assert (0 < 256 ^ Z.of_nat (String.length t)) by (apply Z.pow_pos_nonneg; lia).
    assert (Ec : char_code c = char_code d) by nia.
    apply char_code_inj in Ec. subst d. f_equal. apply IH; try assumption. nia.
Qed.

(** X4.  On a name of at most four ASCII characters [hash_string] is the
    number the characters spell, most significant first; so two such names
    with the same hash are the same name. *)
Theorem hash_string_short (s t : string) :
  plain_ascii s = true -> (String.length s <= 4)%nat ->
  plain_ascii t = true -> (String.length t <= 4)%nat ->
  hash_string s = big_endian s /\ (hash_string s = hash_string t -> s = t).
Proof.
  intros Hs Ls Ht Lt.
  assert (Es : hash_string s = big_endian s)
    by (apply (hash_string_from_short s 0 0); [cbn; lia | lia | assumption]).
  assert (Et : hash_string t = big_endian t)
    by (apply (hash_string_from_short t 0 0); [cbn; lia | lia | assumption]).
  split; [assumption|]. rewrite Es, Et. now apply big_endian_inj.
Qed.

Lemma hash_string_short_witness :
  hash_string "goal" = big_endian "goal"
  /\ (hash_string "goal" = hash_string "type" -> "goal"%string = "type"%string).
Proof. apply (hash_string_short "goal" "type"); first [reflexivity | cbn; lia]. Defined.

(** The hash id handed out by the [n]-th call of [get_next_symbol_hash_id]
    from the agent [a], counting from 0. *)
Fixpoint nth_symbol_hash_id (n : nat) (a : agent) : Z :=
  match n with
  | O => snd (get_next_symbol_hash_id a)
  | S n' => nth_symbol_hash_id n' (fst (get_next_symbol_hash_id a))
  end.

Lemma nth_symbol_hash_id_value (n : nat) :
  forall a, nth_symbol_hash_id n a
            = uint32 (current_symbol_hash_id a + 137 * (Z.of_nat n + 1)).
Proof.
  induction n as [|n IH]; intros a.
  - cbn [nth_symbol_hash_id]. unfold get_next_symbol_hash_id. cbn [snd].
    change (Z.of_nat 0) with 0. now rewrite Z.add_0_l, Z.mul_1_r.
  - cbn [nth_symbol_hash_id]. rewrite IH. unfold get_next_symbol_hash_id. cbn [fst].
    change (current_symbol_hash_id (set_current_symbol_hash_id ?x a)) with x.
    unfold uint32. rewrite Zplus_mod_idemp_l. f_equal. lia.
Qed.

(** X5.  The step 137 is odd, so [get_next_symbol_hash_id] does not repeat
    itself within [2^32] calls: any two of them return different hash ids,
    each a 32-bit value. *)
Theorem get_next_symbol_hash_id_distinct (a : agent) (i j : nat) :
  (i < j)%nat -> Z.of_nat j < 2 ^ 32 ->
  nth_symbol_hash_id i a <> nth_symbol_hash_id j a
  /\ 0 <= nth_symbol_hash_id i a < 2 ^ 32.
Proof.
  intros Hij Hj. rewrite !nth_symbol_hash_id_value. unfold uint32. split.
  - intros E.
    assert (D : (2 ^ 32 | 137 * (Z.of_nat j - Z.of_nat i))).
    { apply Z.mod_divide; [lia|].
      replace (137 * (Z.of_nat j - Z.of_nat i))
        with ((current_symbol_hash_id a + 137 * (Z.of_nat j + 1))
              - (current_symbol_hash_id a + 137 * (Z.of_nat i + 1))) by lia.
      rewrite Zminus_mod, E, Z.sub_diag. reflexivity. }
    apply Z.gauss in D.
    + destruct D as [q Hq].
      assert (0 < Z.of_nat j - Z.of_nat i < 2 ^ 32) by lia.
      assert (0 < q) by nia. nia.
    + reflexivity.
  - apply Z.mod_pos_bound. lia.
Qed.

Lemma get_next_symbol_hash_id_distinct_witness :
  nth_symbol_hash_id 0 init_symbol_tables <> nth_symbol_hash_id 1 init_symbol_tables
  /\ 0 <= nth_symbol_hash_id 0 init_symbol_tables < 2 ^ 32.
Proof. apply (get_next_symbol_hash_id_distinct init_symbol_tables 0 1); [lia | reflexivity]. Defined.

(** ** symtab.cpp: what the lookups find *)

(** An identifier record with the given name, for use as a key. *)
Definition identifier_key_record (letter : ascii) (number : Z) : identifier :=
  {| name_letter := letter; name_number := number; level := 0; promotion_level := 0;
     higher_goal := None; lower_goal := None; smem_lti := 0;
     impasse_type := NONE_IMPASSE_TYPE; allow_bottom_up_chunks := false |}.

Lemma option_not_Some_None {A : Type} (o : option A) :
  (forall x, o <> Some x) <-> o = None.
Proof.
  destruct o as [y|]; split; try reflexivity; try discriminate.
  intros H. now destruct (H y).
Qed.

(** X6.  Under the invariant of the interner, [find_identifier] returns
    the live identifier with the given letter and number, and [NIL] exactly
    when there is none. *)
Theorem find_identifier_spec (a : agent) (letter : ascii) (number : Z) :
  interner_inv a ->
  (forall x, find_identifier a letter number = Some x
             <-> exists s i, heap a !! x = Some s /\ data s = id i
                             /\ name_letter i = letter /\ name_number i = number)
  /\ (find_identifier a letter number = None
      <-> forall x s i, heap a !! x = Some s -> data s = id i ->
                        ~ (name_letter i = letter /\ name_number i = number)).
Proof.
  intros Hinv.
  assert (S : forall x, find_identifier a letter number = Some x
                        <-> exists s i, heap a !! x = Some s /\ data s = id i
                                        /\ name_letter i = letter /\ name_number i = number).
  { intros x. split.
    - intros F. apply find_in_chain_Some in F as (_ & s & Hs & Hm).
      destruct (data s) as [| i | | |] eqn:Ed; try discriminate.
      apply andb_true_iff in Hm as [H1 H2].
      apply Ascii.eqb_eq in H1. apply Z.eqb_eq in H2. exists s, i. now repeat split.
    - intros (s & i & Hs & Hd & Hl & Hn).
      apply (find_in_chain_live_key a (id (identifier_key_record letter number)) x s Hinv Hs).
      rewrite Hd. cbn. rewrite Hl, Hn, Ascii.eqb_refl. apply Z.eqb_refl. }
  split; [exact S|]. rewrite <- option_not_Some_None. split.
  - intros N x s i Hs Hd [Hl Hn]. apply (N x), S. eauto 7.
  - intros N x F. apply S in F as (s & i & Hs & Hd & Hl & Hn). apply (N x s i); auto.
Qed.

Lemma find_identifier_spec_witness :
  interner_inv example_reachable_agent
  /\ (forall x, find_identifier example_reachable_agent "Q" 50 = Some x
                <-> exists s i, heap example_reachable_agent !! x = Some s /\ data s = id i
                                /\ name_letter i = "Q"%char /\ name_number i = 50).
Proof.
  split; [exact (reachable_inv _ example_reachable_agent_reachable)|].
  exact (proj1 (find_identifier_spec example_reachable_agent "Q" 50
                  (reachable_inv _ example_reachable_agent_reachable))).
Defined.

(** X7.  Under the invariant, [find_variable] returns the live variable with
    the given name and [find_sym_constant] the live symbolic constant with
    it; each returns [NIL] exactly when there is none. *)
Theorem find_name_spec (a : agent) (name : string) :
  interner_inv a ->
  (forall x, find_variable a name = Some x
             <-> exists s g, heap a !! x = Some s /\ data s = var name g)
  /\ (find_variable a name = None
      <-> forall x s g, heap a !! x = Some s -> data s <> var name g)
  /\ (forall x, find_sym_constant a name = Some x
                <-> exists s p, heap a !! x = Some s /\ data s = sc name p)
  /\ (find_sym_constant a name = None
      <-> forall x s p, heap a !! x = Some s -> data s <> sc name p).
Proof.
  intros Hinv.
  assert (V : forall x, find_variable a name = Some x
                        <-> exists s g, heap a !! x = Some s /\ data s = var name g).
  { intros x. split.
    - intros F. apply find_in_chain_Some in F as (_ & s & Hs & Hm).
      destruct (data s) as [n g | | | |] eqn:Ed; try discriminate.
      apply String.eqb_eq in Hm. subst n. eauto.
    - intros (s & g & Hs & Hd).
      apply (find_in_chain_live_key a (var name 0) x s Hinv Hs).
      rewrite Hd. cbn. apply String.eqb_refl. }
  assert (C : forall x, find_sym_constant a name = Some x
                        <-> exists s p, heap a !! x = Some s /\ data s = sc name p).
  { intros x. split.
    - intros F. apply find_in_chain_Some in F as (_ & s & Hs & Hm).
      destruct (data s) as [| | n p | |] eqn:Ed; try discriminate.
      apply String.eqb_eq in Hm. subst n. eauto.
    - intros (s & p & Hs & Hd).
      apply (find_in_chain_live_key a (sc name None) x s Hinv Hs).
      rewrite Hd. cbn. apply String.eqb_refl. }
  split; [exact V|]. split; [|split; [exact C|]]; rewrite <- option_not_Some_None; split.
  - intros N x s g Hs Hd. apply (N x), V. eauto.
  - intros N x F. apply V in F as (s & g & Hs & Hd). now apply (N x s g).
  - intros N x s p Hs Hd. apply (N x), C. eauto.
  - intros N x F. apply C in F as (s & p & Hs & Hd). now apply (N x s p).
Qed.

Lemma find_name_spec_witness :
  interner_inv example_reachable_agent
  /\ (forall x, find_sym_constant example_reachable_agent "state" = Some x
                <-> exists s p, heap example_reachable_agent !! x = Some s
                                /\ data s = sc "state" p).
Proof.
  split; [exact (reachable_inv _ example_reachable_agent_reachable)|].
  exact (proj1 (proj2 (proj2 (find_name_spec example_reachable_agent "state"
                                (reachable_inv _ example_reachable_agent_reachable))))).
Defined.

(** X8.  Under the invariant, [find_int_constant] returns the live integer
    constant with the given value, and [find_float_constant] the live float
    constant whose value compares equal ([==]) to the given one; each returns
    [NIL] exactly when there is none. *)
Theorem find_number_spec (a : agent) :
  interner_inv a ->
  (forall value x, find_int_constant a value = Some x
                   <-> exists s, heap a !! x = Some s /\ data s = ic value)
  /\ (forall value, find_int_constant a value = None
                    <-> forall x s, heap a !! x = Some s -> data s <> ic value)
  /\ (forall value x, find_float_constant a value = Some x
                      <-> exists s v, heap a !! x = Some s /\ data s = fc v
                                      /\ SFeqb value v = true)
  /\ (forall value, find_float_constant a value = None
                    <-> forall x s v, heap a !! x = Some s -> data s = fc v ->
                                      SFeqb value v = false).
Proof.
  intros Hinv.
  assert (I : forall value x, find_int_constant a value = Some x
                              <-> exists s, heap a !! x = Some s /\ data s = ic value).
  { intros value x. split.
    - intros F. apply find_in_chain_Some in F as (_ & s & Hs & Hm).
      destruct (data s) as [| | | v |] eqn:Ed; try discriminate.
      apply Z.eqb_eq in Hm. subst v. eauto.
    - intros (s & Hs & Hd).
      apply (find_in_chain_live_key a (ic value) x s Hinv Hs).
      rewrite Hd. cbn. apply Z.eqb_refl. }
  assert (F : forall value x, find_float_constant a value = Some x
                              <-> exists s v, heap a !! x = Some s /\ data s = fc v
                                              /\ SFeqb value v = true).
  { intros value x. split.
    - intros F. apply find_in_chain_Some in F as (_ & s & Hs & Hm).
      destruct (data s) as [| | | | v] eqn:Ed; try discriminate. eauto.
    - intros (s & v & Hs & Hd & Hv).
      apply (find_in_chain_live_key a (fc value) x s Hinv Hs).
      rewrite Hd. exact Hv. }
  split; [exact I|]. split; [|split; [exact F|]]; intros value;
    rewrite <- option_not_Some_None; split.
  - intros N x s Hs Hd. apply (N x), I. eauto.
  - intros N x E. apply I in E as (s & Hs & Hd). now apply (N x s).
  - intros N x s v Hs Hd. destruct (SFeqb value v) eqn:E; [|reflexivity].
    exfalso. apply (N x), F. eauto.
  - intros N x E. apply F in E as (s & v & Hs & Hd & Hv).
    rewrite (N x s v Hs Hd) in Hv. discriminate.
Qed.

Lemma find_number_spec_witness :
  interner_inv example_reachable_agent
  /\ (forall value x, find_int_constant example_reachable_agent value = Some x
                      <-> exists s, heap example_reachable_agent !! x = Some s
                                    /\ data s = ic value).
Proof.
  split; [exact (reachable_inv _ example_reachable_agent_reachable)|].
  exact (proj1 (find_number_spec example_reachable_agent
                  (reachable_inv _ example_reachable_agent_reachable))).
Defined.

(** X9.  Whatever the tables hold, [find_float_constant] never finds a NaN:
    [==] fails on every entry of the chain. *)
Theorem find_float_constant_nan (a : agent) : find_float_constant a S754_nan = None.
Proof.
  unfold find_float_constant.
  generalize (bucket (float_constant_hash_table a)
                (hash_float_constant_raw_info S754_nan
                   (log2size (float_constant_hash_table a)))).
  intros chain. induction chain as [|x chain IH]; [reflexivity|].
  cbn [find_in_chain]. destruct (heap a !! x) as [s|]; [|exact IH].
  destruct (data s); exact IH.
Qed.

(** ** symtab.cpp: what the makers leave behind *)

(** The two ways of an intern: the lookup finds the symbol and a reference
    is added, or the symbol is created. *)
Lemma intern_cases (a : agent) (r : intern_request) :
  is_interning r ->
  (exists x, found_by a r = Some x /\ intern a r = (symbol_add_ref a x, x))
  \/ (found_by a r = None /\ intern a r = new_symbol a (query_of r)).
Proof.
  intros Hr. destruct r; try contradiction; cbn [found_by intern query_of];
    unfold make_variable, make_sym_constant, make_int_constant, make_float_constant.
  - destruct (find_variable a name); eauto.
  - destruct (find_sym_constant a name); eauto.
  - destruct (find_int_constant a value); eauto.
  - destruct (find_float_constant a value); eauto.
Qed.

Lemma intern_inv (a : agent) (r : intern_request) :
  interner_inv a -> is_interning r -> interner_inv (fst (intern a r)).
Proof.
  intros Hinv Hr. destruct r; try contradiction; cbn [intern].
  - now apply make_variable_inv.
  - now apply make_sym_constant_inv.
  - now apply make_int_constant_inv.
  - now apply make_float_constant_inv.
Qed.

(** What the lookup of an intern request matched. *)
Lemma found_by_Some (a : agent) (r : intern_request) (x : addr) :
  found_by a r = Some x ->
  exists s, heap a !! x = Some s /\ same_key (query_of r) (data s) = true.
Proof.
  intros F. destruct r; cbn [found_by query_of] in *; try discriminate;
    apply find_in_chain_Some in F as (_ & s & Hs & Hm); exists s; (split; [assumption|]);
    exact Hm.
Qed.

Lemma same_key_refl (d : symbol_data) : d <> fc S754_nan -> same_key d d = true.
Proof.
  intros H. apply identity_key_same_key; [reflexivity|].
  destruct d; cbn; try discriminate. intros [= E]. apply H. now rewrite E.
Qed.

(** X10.  Insert, then look up: after interning a name, an integer or a
    float other than NaN, the lookup of the same key returns the symbol the
    intern returned. *)
Theorem intern_then_find (a : agent) (r : intern_request) :
  interner_inv a -> is_interning r -> query_of r <> fc S754_nan ->
  found_by (fst (intern a r)) r = Some (snd (intern a r)).
Proof.
  intros Hinv Hr Hnan.
  pose proof (intern_inv a r Hinv Hr) as Hinv'.
  destruct (intern_cases a r Hr) as [(x & F & E)|[F E]]; rewrite E in *; cbn [fst snd] in *.
  - destruct (found_by_Some a r x F) as (s & Hs & Hk).
    apply (found_by_live_key _ r x (set_reference_count (uint64 (reference_count s + 1)) s)
             Hinv' Hr); [|exact Hk].
    unfold symbol_add_ref. rewrite Hs. cbn. apply lookup_insert_eq.
  - apply (found_by_live_key _ r _ _ Hinv' Hr (new_symbol_lookup a (query_of r))).
    cbn [fresh_symbol data]. now apply same_key_refl.
Qed.

Lemma intern_then_find_witness :
  found_by (fst (intern example_reachable_agent (intern_sym_constant "operator")))
    (intern_sym_constant "operator")
  = Some (snd (intern example_reachable_agent (intern_sym_constant "operator"))).
Proof.
  apply (intern_then_find example_reachable_agent (intern_sym_constant "operator")
           (reachable_inv _ example_reachable_agent_reachable) I).
  discriminate.
Defined.

(** X11.  When the lookup fails (and always for [make_new_identifier], which
    does not look), the maker creates the symbol at an address that held
    none, with reference count 1 and the next hash id; every other symbol is
    left as it was, the symbol's table gains exactly this item, and the
    other four tables are untouched. *)
Theorem intern_absent_key (a : agent) (r : intern_request) :
  agent_wf a -> found_by a r = None ->
  let a' := fst (intern a r) in
  let x := snd (intern a r) in
  heap a !! x = None
  /\ (exists s, heap a' !! x = Some s /\ reference_count s = 1
                /\ hash_id s = uint32 (current_symbol_hash_id a + 137)
                /\ symbol_type_of s
                   = data_kind (query_of r))
  /\ (forall y, y <> x -> heap a' !! y = heap a !! y)
  /\ all_items (table (data_kind (query_of r)) a')
     ≡ₚ x :: all_items (table (data_kind (query_of r)) a)
  /\ count (table (data_kind (query_of r)) a')
     = count (table (data_kind (query_of r)) a) + 1
  /\ (forall k, k <> data_kind (query_of r) -> table k a' = table k a).
Proof.
  intros Hwf F. cbv zeta.
  assert (G : forall a0 d,
            agent_wf a0 -> heap a0 = heap a ->
            current_symbol_hash_id a0 = current_symbol_hash_id a ->
            (forall k, table k a0 = table k a) ->
            let a' := fst (new_symbol a0 d) in
            let x := snd (new_symbol a0 d) in
            heap a !! x = None
            /\ (exists s, heap a' !! x = Some s /\ reference_count s = 1
                          /\ hash_id s = uint32 (current_symbol_hash_id a + 137)
                          /\ symbol_type_of s = data_kind d)
            /\ (forall y, y <> x -> heap a' !! y = heap a !! y)
            /\ all_items (table (data_kind d) a') ≡ₚ x :: all_items (table (data_kind d) a)
            /\ count (table (data_kind d) a') = count (table (data_kind d) a) + 1
            /\ (forall k, k <> data_kind d -> table k a' = table k a)).
  { intros a0 d Hwf0 Hh Hc Ht. cbv zeta.
    pose proof (alloc_addr_fresh (data_kind d) a0 Hwf0) as Hfresh.
    rewrite new_symbol_addr. rewrite <- Hh, <- Hc, <- !Ht. split; [assumption|]. split.
    - exists (fresh_symbol d (uint32 (current_symbol_hash_id a0 + 137))).
      rewrite <- (new_symbol_addr a0 d) at 1. now rewrite new_symbol_lookup.
    - split; [|split; [|split]].
      + intros y Hy. rewrite new_symbol_heap. now rewrite lookup_insert_ne by congruence.
      + rewrite new_symbol_table.
        apply (add_to_hash_table_items _ (hash_callback_range (data_kind d))).
        pose proof (wf_log2size _ _ _ (wf_tables a0 Hwf0 (data_kind d))). lia.
      + rewrite new_symbol_table. apply add_to_hash_table_count.
      + intros k Hk. rewrite <- Ht. apply new_symbol_other_table. congruence. }
  destruct r as [name|name|value|value|letter lvl number]; cbn [found_by intern query_of] in *.
  - unfold make_variable. rewrite F. now apply (G a).
  - unfold make_sym_constant. rewrite F. now apply (G a).
  - unfold make_int_constant. rewrite F. now apply (G a).
  - unfold make_float_constant. rewrite F. now apply (G a).
  - rewrite make_new_identifier_steps.
    apply (G (set_id_counter (advanced_counters a letter number) a)
             (id (new_identifier (normalize_letter letter) lvl
                    (assigned_number a letter number))));
      [now apply agent_wf_set_id_counter | reflexivity | reflexivity | reflexivity].
Qed.

Lemma intern_absent_key_witness :
  let a := init_symbol_tables in
  let r := intern_sym_constant "state" in
  heap a !! snd (intern a r) = None
  /\ (exists s, heap (fst (intern a r)) !! snd (intern a r) = Some s
                /\ reference_count s = 1
                /\ hash_id s = uint32 (current_symbol_hash_id a + 137)
                /\ symbol_type_of s = data_kind (query_of r)).
Proof.
  cbv zeta.
  destruct (intern_absent_key init_symbol_tables (intern_sym_constant "state")
              (inv_wf _ interner_inv_init) eq_refl) as (H1 & H2 & _).
  split; assumption.
Defined.

(** The lookup that goes with a key, for all five kinds. *)
Definition find_symbol (a : agent) (key : symbol_data) : option addr :=
  match key with
  | var name _ => find_variable a name
  | id i => find_identifier a (name_letter i) (name_number i)
  | sc name _ => find_sym_constant a name
  | ic value => find_int_constant a value
  | fc value => find_float_constant a value
  end.

Lemma find_symbol_Some (a : agent) (key : symbol_data) (x : addr) :
  find_symbol a key = Some x ->
  exists s, heap a !! x = Some s /\ same_key key (data s) = true.
Proof.
  intros F. destruct key; cbn [find_symbol] in F;
    apply find_in_chain_Some in F as (_ & s & Hs & Hm); exists s; (split; [assumption|]);
    exact Hm.
Qed.

Lemma find_symbol_live_key (a : agent) (key : symbol_data) (x : addr) (s : Symbol) :
  interner_inv a -> heap a !! x = Some s -> same_key key (data s) = true ->
  find_symbol a key = Some x.
Proof.
  intros Hinv Hs Hk. destruct key as [name g | i | name p | value | value];
    cbn [find_symbol].
  - now apply (find_in_chain_live_key a (var name g) x s).
  - now apply (find_in_chain_live_key a (id i) x s).
  - now apply (find_in_chain_live_key a (sc name p) x s).
  - now apply (find_in_chain_live_key a (ic value) x s).
  - now apply (find_in_chain_live_key a (fc value) x s).
Qed.

Lemma deallocate_symbol_inv (a : agent) (x : addr) :
  interner_inv a -> interner_inv (deallocate_symbol a x).
Proof.
  intros [Hwf Hu Hb Hc]. split.
  - now apply deallocate_symbol_wf.
  - rewrite deallocate_symbol_heap. eapply keys_unique_sub; [apply data_sub_delete | exact Hu].
  - rewrite deallocate_symbol_heap, deallocate_symbol_id_counter.
    eapply ids_below_sub; [apply data_sub_delete | exact Hb].
  - now rewrite deallocate_symbol_id_counter.
Qed.

(** X12.  [deallocate_symbol] on a live symbol removes it and nothing else:
    its address holds no symbol afterwards, every other symbol is as it was
    and is still found by its key, a lookup by the key of the removed symbol
    returns [NIL], its table counts one item less, and the freed record is
    the one the next creation of that kind takes. *)
Theorem deallocate_symbol_forgets (a : agent) (x : addr) (s : Symbol) :
  interner_inv a -> heap a !! x = Some s ->
  let a' := deallocate_symbol a x in
  heap a' !! x = None
  /\ (forall y, y <> x -> heap a' !! y = heap a !! y)
  /\ find_symbol a' (data s) = None
  /\ (forall y sy, y <> x -> heap a !! y = Some sy -> data sy <> fc S754_nan ->
        find_symbol a' (data sy) = Some y)
  /\ count (table (symbol_type_of s) a') = count (table (symbol_type_of s) a) - 1
  /\ snd (allocate_with_pool (symbol_type_of s) a') = x.
Proof.
  intros Hinv Hs. cbv zeta.
  pose proof (deallocate_symbol_inv a x Hinv) as Hinv'.
  destruct Hinv as [Hwf Hu _ _].
  assert (Hh : forall y, y <> x -> heap (deallocate_symbol a x) !! y = heap a !! y).
  { intros y Hy. rewrite deallocate_symbol_heap. now rewrite lookup_delete_ne by congruence. }
  assert (Hx : heap (deallocate_symbol a x) !! x = None).
  { rewrite deallocate_symbol_heap. apply lookup_delete_eq. }
  split; [exact Hx|]. split; [exact Hh|]. split; [|split; [|split]].
  - apply option_not_Some_None. intros y F.
    apply find_symbol_Some in F as (sy & Hy & Hk).
    assert (Hne : y <> x) by (intros ->; congruence).
    rewrite Hh in Hy by assumption.
    apply Hne. apply (Hu y x sy s Hy Hs). rewrite same_key_sym. exact Hk.
  - intros y sy Hy Hsy Hnan. apply (find_symbol_live_key _ _ y sy Hinv').
    + now rewrite Hh.
    + now apply same_key_refl.
  - assert (Hin : x ∈ all_items (table (symbol_type_of s) a))
      by (apply (wf_live a Hwf); eauto).
    pose proof (wf_tables a Hwf (symbol_type_of s)) as Ht.
    pose proof (remove_from_hash_table_items _ (hash_callback_range (symbol_type_of s))
                  _ _ x Ht Hin) as Hp.
    pose proof (remove_from_hash_table_wf _ (hash_callback_range (symbol_type_of s))
                  _ _ x Ht Hin) as Ht'.
    rewrite (deallocate_symbol_table a x s Hs).
    rewrite (wf_count _ _ _ Ht'), (wf_count _ _ _ Ht).
    apply Permutation_length in Hp. cbn [length] in Hp. lia.
  - unfold allocate_with_pool. rewrite (deallocate_symbol_pool a x s Hs). reflexivity.
Qed.

Lemma deallocate_symbol_forgets_witness :
  let a := example_reachable_agent in
  heap (deallocate_symbol a 1) !! 1 = None
  /\ (forall y, y <> 1 -> heap (deallocate_symbol a 1) !! y = heap a !! y).
Proof.
  cbv zeta.
  destruct (heap example_reachable_agent !! 1) as [s|] eqn:Hs; [|vm_compute in Hs; discriminate].
  destruct (deallocate_symbol_forgets example_reachable_agent 1 s
              (reachable_inv _ example_reachable_agent_reachable) Hs) as (H1 & H2 & _).
  split; assumption.
Defined.

(** ** symtab.cpp: resetting the marks on symbols *)

Definition set_tc_num (x : Z) (s : Symbol) : Symbol :=
  {| reference_count := reference_count s; hash_id := hash_id s; tc_num := x;
     variablized_symbol := variablized_symbol s;
     unvariablized_symbol := unvariablized_symbol s;
     original_var_symbol := original_var_symbol s;
     data := data s |}.

Definition set_data (d : symbol_data) (s : Symbol) : Symbol :=
  {| reference_count := reference_count s; hash_id := hash_id s; tc_num := tc_num s;
     variablized_symbol := variablized_symbol s;
     unvariablized_symbol := unvariablized_symbol s;
     original_var_symbol := original_var_symbol s;
     data := d |}.

(** A callback of [do_for_all_items_in_hash_table] that rewrites the item
    and lets the walk go on ([return FALSE]).  An item that is no live
    symbol is left alone (the C++ behaviour there is undefined). *)
Definition rewrite_item (g : Symbol -> Symbol) (a : agent) (item : addr) : agent * bool :=
  match heap a !! item with
  | Some sym => (set_heap (<[item := g sym]> (heap a)) a, false)
  | None => (a, false)
  end.

(** [reset_tc_num] (lines 680-686): [sym->common.tc_num = 0]. *)
Definition reset_tc_num : agent -> addr -> agent * bool := rewrite_item (set_tc_num 0).

(** [reset_id_and_variable_tc_numbers] (lines 688-691). *)
Definition reset_id_and_variable_tc_numbers (a : agent) : agent :=
  let a := do_for_all_items_in_hash_table (identifier_hash_table a) reset_tc_num a in
  do_for_all_items_in_hash_table (variable_hash_table a) reset_tc_num a.

(** [reset_gensym_number] (lines 693-699): [sym->var.gensym_number = 0].
    The function writes the member of the variable variant whatever the
    item is; it is only handed the items of the variable table, and the
    model leaves any other variant alone. *)
Definition reset_gensym_number : agent -> addr -> agent * bool :=
  rewrite_item (fun sym => match data sym with
                           | var name _ => set_data (var name 0) sym
                           | _ => sym
                           end).

(** [reset_variable_gensym_numbers] (lines 701-703). *)
Definition reset_variable_gensym_numbers (a : agent) : agent :=
  do_for_all_items_in_hash_table (variable_hash_table a) reset_gensym_number a.

(** A walk with [rewrite_item] touches the heap only. *)
Lemma rewrite_items_agent (g : Symbol -> Symbol) (items : list addr) :
  forall a, do_for_all_items (rewrite_item g) items a
            = set_heap (heap (do_for_all_items (rewrite_item g) items a)) a.
Proof.
  induction items as [|x items IH]; intros a; cbn [do_for_all_items].
  - now destruct a.
  - unfold rewrite_item at 1 3. destruct (heap a !! x) as [s|]; [|apply IH].
    rewrite IH at 1. reflexivity.
Qed.

(** It rewrites each live item once and nothing else. *)
Lemma rewrite_items_heap (g : Symbol -> Symbol) (items : list addr) :
  forall a x, NoDup items ->
    heap (do_for_all_items (rewrite_item g) items a) !! x
    = if decide (x ∈ items) then g <$> heap a !! x else heap a !! x.
Proof.
  induction items as [|y items IH]; intros a x Hnd; cbn [do_for_all_items].
  - destruct (decide (x ∈ [])) as [H|_]; [now apply elem_of_nil in H | reflexivity].
  - apply NoDup_cons in Hnd as [Hy Hnd]. unfold rewrite_item at 1.
    destruct (heap a !! y) as [s|] eqn:Hs; rewrite IH by assumption.
    + cbn [heap set_heap].
      destruct (decide (x ∈ items)) as [Hin|Hnin].
      * assert (x <> y) by (intros ->; contradiction).
        rewrite lookup_insert_ne by congruence.
        destruct (decide (x ∈ y :: items)) as [_|H']; [reflexivity|].
        exfalso. apply H'. now right.
      * destruct (Z.eq_dec x y) as [->|Hne].
        -- rewrite lookup_insert_eq, Hs.
           destruct (decide (y ∈ y :: items)) as [_|H']; [reflexivity|].
           exfalso. apply H'. now left.
        -- rewrite lookup_insert_ne by congruence.
           destruct (decide (x ∈ y :: items)) as [H'|_]; [|reflexivity].
           apply elem_of_cons in H' as [->|H']; contradiction.
    + destruct (decide (x ∈ items)) as [Hin|Hnin].
      * destruct (decide (x ∈ y :: items)) as [_|H']; [reflexivity|].
        exfalso. apply H'. now right.
      * destruct (decide (x ∈ y :: items)) as [H'|_]; [|reflexivity].
        apply elem_of_cons in H' as [->|H']; [|contradiction]. now rewrite Hs.
Qed.

Lemma rewrite_items_table (g : Symbol -> Symbol) (items : list addr) (a : agent)
    (k : symbol_type) :
  table k (do_for_all_items (rewrite_item g) items a) = table k a.
Proof. rewrite rewrite_items_agent. apply table_set_heap. Qed.

(** A lookup does not see a rewriting that its test does not see. *)
Lemma find_in_chain_rewritten (hp hp' : gmap Z Symbol) (g : Symbol -> Symbol)
    (m : Symbol -> bool) (chain : list addr) :
  (forall x, hp' !! x = g <$> hp !! x) -> (forall s, m (g s) = m s) ->
  find_in_chain hp' m chain = find_in_chain hp m chain.
Proof.
  intros Hh Hm. induction chain as [|x chain IH]; [reflexivity|].
  cbn [find_in_chain]. rewrite Hh. destruct (hp !! x) as [s|]; cbn; [|exact IH].
  rewrite Hm. now rewrite IH.
Qed.

Lemma find_symbol_rewritten (a a' : agent) (g : Symbol -> Symbol) (key : symbol_data) :
  (forall x, heap a' !! x = g <$> heap a !! x) ->
  hash_tables a' = hash_tables a ->
  (forall s, same_key key (data (g s)) = same_key key (data s)) ->
  find_symbol a' key = find_symbol a key.
Proof.
  intros Hh Ht Hg.
  destruct key as [name n | i | name p | value | value]; cbn [find_symbol];
    unfold find_variable, find_identifier, find_sym_constant, find_int_constant,
      find_float_constant, variable_hash_table, identifier_hash_table,
      sym_constant_hash_table, int_constant_hash_table, float_constant_hash_table;
    rewrite Ht; apply (find_in_chain_rewritten (heap a) (heap a') g); try assumption;
    exact Hg.
Qed.

(** What the reset of the tc numbers does to a symbol. *)
Definition tc_num_reset (s : Symbol) : Symbol :=
  match data s with
  | var _ _ | id _ => set_tc_num 0 s
  | _ => s
  end.

Lemma reset_id_and_variable_tc_numbers_heap (a : agent) (x : addr) :
  agent_wf a ->
  heap (reset_id_and_variable_tc_numbers a) !! x = tc_num_reset <$> heap a !! x.
Proof.
  intros Hwf. unfold reset_id_and_variable_tc_numbers, do_for_all_items_in_hash_table,
    reset_tc_num. cbv zeta.
  set (a1 := do_for_all_items (rewrite_item (set_tc_num 0))
               (all_items (identifier_hash_table a)) a).
  assert (Hv : variable_hash_table a1 = variable_hash_table a)
    by apply (rewrite_items_table _ _ a VARIABLE_SYMBOL_TYPE).
  rewrite Hv.
  pose proof (wf_nodup _ _ _ (wf_tables a Hwf IDENTIFIER_SYMBOL_TYPE)) as Ni.
  pose proof (wf_nodup _ _ _ (wf_tables a Hwf VARIABLE_SYMBOL_TYPE)) as Nv.
  rewrite rewrite_items_heap by exact Nv. unfold a1.
  rewrite rewrite_items_heap by exact Ni.
  pose proof (wf_live a Hwf IDENTIFIER_SYMBOL_TYPE x) as Li.
  pose proof (wf_live a Hwf VARIABLE_SYMBOL_TYPE x) as Lv.
  change (table IDENTIFIER_SYMBOL_TYPE a) with (identifier_hash_table a) in Li.
  change (table VARIABLE_SYMBOL_TYPE a) with (variable_hash_table a) in Lv.
  destruct (heap a !! x) as [s|] eqn:Hs.
  - unfold tc_num_reset, symbol_type_of in *.
    destruct (decide (x ∈ all_items (variable_hash_table a))) as [Hin|Hnin];
      destruct (decide (x ∈ all_items (identifier_hash_table a))) as [Hin'|Hnin'].
    + apply Lv in Hin as (t & [= <-] & Hk). apply Li in Hin' as (t & [= <-] & Hk').
      congruence.
    + apply Lv in Hin as (t & [= <-] & Hk). cbn. now destruct (data s).
    + apply Li in Hin' as (t & [= <-] & Hk). cbn. now destruct (data s).
    + cbn. destruct (data s) eqn:Ed; try reflexivity.
      * exfalso. apply Hnin, Lv. exists s. now rewrite Ed.
      * exfalso. apply Hnin', Li. exists s. now rewrite Ed.
  - destruct (decide _); destruct (decide _); reflexivity.
Qed.

Lemma tc_num_reset_idem (s : Symbol) : tc_num_reset (tc_num_reset s) = tc_num_reset s.
Proof. unfold tc_num_reset. destruct s as [rc h t v u o d]. now destruct d. Qed.

Lemma tc_num_reset_data (s : Symbol) : data (tc_num_reset s) = data s.
Proof. unfold tc_num_reset. destruct s as [rc h t v u o d]. now destruct d. Qed.

Lemma set_heap_set_heap (h h' : gmap Z Symbol) (a : agent) :
  set_heap h (set_heap h' a) = set_heap h a.
Proof. reflexivity. Qed.

Lemma reset_id_and_variable_tc_numbers_agent (a : agent) :
  reset_id_and_variable_tc_numbers a
  = set_heap (heap (reset_id_and_variable_tc_numbers a)) a.
Proof.
  unfold reset_id_and_variable_tc_numbers, do_for_all_items_in_hash_table, reset_tc_num.
  cbv zeta.
  set (a1 := do_for_all_items (rewrite_item (set_tc_num 0))
               (all_items (identifier_hash_table a)) a).
  assert (E : a1 = set_heap (heap a1) a) by apply rewrite_items_agent.
  set (items := all_items (variable_hash_table a1)).
  rewrite (rewrite_items_agent _ items a1) at 1.
  generalize (heap (do_for_all_items (rewrite_item (set_tc_num 0)) items a1)). intros H.
  rewrite E. apply set_heap_set_heap.
Qed.

(** Rewriting symbols without touching their kind or what they hash on
    keeps the tables well formed. *)
Lemma agent_wf_rewritten (a : agent) (hp' : gmap Z Symbol) (g : Symbol -> Symbol) :
  (forall x, hp' !! x = g <$> heap a !! x) ->
  (forall s, symbol_type_of (g s) = symbol_type_of s) ->
  (forall s k num_bits, hash_callback k (g s) num_bits = hash_callback k s num_bits) ->
  agent_wf a -> agent_wf (set_heap hp' a).
Proof.
  intros Hh Hk Hhash [Ht Hl Hf Htop Hnd Hdis]. split; cbn.
  - intros k. apply (table_wf_ext _ (hash_callback_range k) (heap a)); [|apply Ht].
    intros y _. unfold hash_item. rewrite Hh. destruct (heap a !! y); cbn; [|reflexivity].
    apply Hhash.
  - intros k y. rewrite (Hl k y), Hh. split.
    + intros (s & Hs & Hkind). exists (g s). rewrite Hs. split; [reflexivity|].
      now rewrite Hk.
    + intros (s' & Hs & Hkind). destruct (heap a !! y) as [s|]; [|discriminate].
      injection Hs as <-. exists s. split; [reflexivity|]. now rewrite <- Hk.
  - intros k y Hy. destruct (Hf k y Hy) as [Hnone Hlt]. split; [|assumption].
    now rewrite Hh, Hnone.
  - intros y s' Hy. rewrite Hh in Hy. destruct (heap a !! y) as [s|] eqn:Hs; [|discriminate].
    now apply (Htop y s).
  - exact Hnd.
  - exact Hdis.
Qed.

(** X13.  [reset_id_and_variable_tc_numbers] sets [tc_num] to 0 on every
    live identifier and variable and changes nothing else: constants keep
    their [tc_num], no symbol appears or disappears, the tables, pools and
    counters are as before, every lookup answers as before, and a second
    reset changes nothing. *)
Theorem reset_id_and_variable_tc_numbers_spec (a : agent) :
  agent_wf a ->
  let a' := reset_id_and_variable_tc_numbers a in
  (forall x, heap a' !! x = tc_num_reset <$> heap a !! x)
  /\ a' = set_heap (heap a') a
  /\ (forall key, find_symbol a' key = find_symbol a key)
  /\ reset_id_and_variable_tc_numbers a' = a'.
Proof.
  intros Hwf. cbv zeta.
  assert (Hh : forall x, heap (reset_id_and_variable_tc_numbers a) !! x
                         = tc_num_reset <$> heap a !! x)
    by (intros x; now apply reset_id_and_variable_tc_numbers_heap).
  pose proof (reset_id_and_variable_tc_numbers_agent a) as Ha.
  split; [exact Hh|]. split; [exact Ha|]. split.
  - intros key. apply (find_symbol_rewritten a _ tc_num_reset key Hh).
    + now rewrite Ha.
    + intros s. now rewrite tc_num_reset_data.
  - assert (Hwf' : agent_wf (reset_id_and_variable_tc_numbers a)).
    { rewrite Ha. apply (agent_wf_rewritten a _ tc_num_reset Hh); [| |assumption].
      - intros s. unfold symbol_type_of. now rewrite tc_num_reset_data.
      - intros s k nb. apply hash_callback_data. apply tc_num_reset_data. }
    set (a' := reset_id_and_variable_tc_numbers a) in *.
    rewrite (reset_id_and_variable_tc_numbers_agent a').
    replace (heap (reset_id_and_variable_tc_numbers a')) with (heap a');
      [now destruct a'|].
    apply map_eq. intros x.
    rewrite (reset_id_and_variable_tc_numbers_heap _ x Hwf'), Hh.
    destruct (heap a !! x) as [s|]; cbn; [|reflexivity]. now rewrite tc_num_reset_idem.
Qed.

Lemma reset_id_and_variable_tc_numbers_spec_witness :
  let a := example_reachable_agent in
  agent_wf a
  /\ (forall x, heap (reset_id_and_variable_tc_numbers a) !! x
                = tc_num_reset <$> heap a !! x).
Proof.
  cbv zeta.
  pose proof (inv_wf _ (reachable_inv _ example_reachable_agent_reachable)) as Hwf.
  split; [exact Hwf|].
  exact (proj1 (reset_id_and_variable_tc_numbers_spec example_reachable_agent Hwf)).
Defined.

(** What the reset of the gensym numbers does to a symbol. *)
Definition gensym_number_reset (s : Symbol) : Symbol :=
  match data s with
  | var name _ => set_data (var name 0) s
  | _ => s
  end.

Lemma gensym_number_reset_idem (s : Symbol) :
  gensym_number_reset (gensym_number_reset s) = gensym_number_reset s.
Proof. unfold gensym_number_reset. destruct s as [rc h t v u o d]. now destruct d. Qed.

Lemma gensym_number_reset_key (key : symbol_data) (s : Symbol) :
  same_key key (data (gensym_number_reset s)) = same_key key (data s).
Proof.
  unfold gensym_number_reset. destruct s as [rc h t v u o d].
  destruct d; destruct key; reflexivity.
Qed.

Lemma reset_variable_gensym_numbers_heap (a : agent) (x : addr) :
  agent_wf a ->
  heap (reset_variable_gensym_numbers a) !! x = gensym_number_reset <$> heap a !! x.
Proof.
  intros Hwf. unfold reset_variable_gensym_numbers, do_for_all_items_in_hash_table,
    reset_gensym_number.
  pose proof (wf_nodup _ _ _ (wf_tables a Hwf VARIABLE_SYMBOL_TYPE)) as Nv.
  rewrite rewrite_items_heap by exact Nv.
  pose proof (wf_live a Hwf VARIABLE_SYMBOL_TYPE x) as Lv.
  change (table VARIABLE_SYMBOL_TYPE a) with (variable_hash_table a) in Lv.
  destruct (decide (x ∈ all_items (variable_hash_table a))) as [Hin|Hnin]; [reflexivity|].
  destruct (heap a !! x) as [s|] eqn:Hs; [|reflexivity]. cbn. f_equal.
  unfold gensym_number_reset. destruct (data s) eqn:Ed; try reflexivity.
  exfalso. apply Hnin, Lv. exists s. unfold symbol_type_of. now rewrite Ed.
Qed.

(** X14.  [reset_variable_gensym_numbers] sets [gensym_number] to 0 on every
    live variable and changes nothing else: the names stay, so every lookup
    answers as before; symbols of the other kinds, the tables, pools and
    counters are as before; a second reset changes nothing. *)
Theorem reset_variable_gensym_numbers_spec (a : agent) :
  agent_wf a ->
  let a' := reset_variable_gensym_numbers a in
  (forall x, heap a' !! x = gensym_number_reset <$> heap a !! x)
  /\ a' = set_heap (heap a') a
  /\ (forall key, find_symbol a' key = find_symbol a key)
  /\ reset_variable_gensym_numbers a' = a'.
Proof.
  intros Hwf. cbv zeta.
  assert (Hh : forall x, heap (reset_variable_gensym_numbers a) !! x
                         = gensym_number_reset <$> heap a !! x)
    by (intros x; now apply reset_variable_gensym_numbers_heap).
  assert (Ha : forall b, reset_variable_gensym_numbers b
                         = set_heap (heap (reset_variable_gensym_numbers b)) b)
    by (intros b; apply rewrite_items_agent).
  split; [exact Hh|]. split; [apply Ha|]. split.
  - intros key. apply (find_symbol_rewritten a _ gensym_number_reset key Hh).
    + now rewrite Ha.
    + intros s. apply gensym_number_reset_key.
  - assert (Hwf' : agent_wf (reset_variable_gensym_numbers a)).
    { rewrite Ha. apply (agent_wf_rewritten a _ gensym_number_reset Hh); [| |assumption].
      - intros s. unfold symbol_type_of, gensym_number_reset.
        destruct s as [rc h t v u o d]. now destruct d.
      - intros s k nb. unfold gensym_number_reset.
        destruct s as [rc h t v u o d]. destruct d; destruct k; reflexivity. }
    set (a' := reset_variable_gensym_numbers a) in *.
    rewrite (Ha a').
    replace (heap (reset_variable_gensym_numbers a')) with (heap a'); [now destruct a'|].
    apply map_eq. intros x.
    rewrite (reset_variable_gensym_numbers_heap _ x Hwf'), Hh.
    destruct (heap a !! x) as [s|]; cbn; [|reflexivity].
    now rewrite gensym_number_reset_idem.
Qed.

Lemma reset_variable_gensym_numbers_spec_witness :
  let a := fst (make_variable example_reachable_agent "<s>") in
  agent_wf a
  /\ (forall x, heap (reset_variable_gensym_numbers a) !! x
                = gensym_number_reset <$> heap a !! x).
Proof.
  cbv zeta.
  pose proof (inv_wf _ (make_variable_inv _ "<s>"
                          (reachable_inv _ example_reachable_agent_reachable))) as Hwf.
  split; [exact Hwf|].
  exact (proj1 (reset_variable_gensym_numbers_spec _ Hwf)).
Defined.

(** ** symtab.cpp: [generate_new_sym_constant] always finds a name *)

(** Reading a decimal numeral back. *)
Fixpoint parse_decimal_from (h : Z) (s : string) : Z :=
  match s with
  | EmptyString => h
  | String c s' => parse_decimal_from (10 * h + (char_code c - 48)) s'
  end.

Lemma digit_char_code (d : Z) : 0 <= d < 10 -> char_code (digit_char d) - 48 = d.
Proof.
  intros H. unfold char_code, digit_char. rewrite N_ascii_embedding.
  - rewrite Z2N.id by lia. lia.
  - apply N2Z.inj_lt. rewrite Z2N.id by lia. cbn. lia.
Qed.

Lemma parse_to_string_digits (fuel : nat) :
  forall n acc, 0 <= n < 10 ^ Z.of_nat (S fuel) ->
    parse_decimal_from 0 (to_string_digits fuel n acc) = parse_decimal_from n acc.
Proof.
  induction fuel as [|fuel IH]; intros n acc Hn.
  - change (10 ^ Z.of_nat 1) with 10 in Hn. cbn [to_string_digits parse_decimal_from].
    rewrite digit_char_code by (apply Z.mod_pos_bound; lia).
    rewrite Z.mod_small by lia. f_equal.
  - cbn [to_string_digits].
    pose proof (Z.div_mod n 10 ltac:(lia)) as Hdm.
    pose proof (Z.mod_pos_bound n 10 ltac:(lia)) as Hm.
    destruct (Z.eqb_spec (n / 10) 0) as [E|E].
    + cbn [parse_decimal_from]. rewrite digit_char_code by assumption. f_equal. lia.
    + rewrite IH.
      * cbn [parse_decimal_from]. rewrite digit_char_code by assumption. f_equal. lia.
      * rewrite (Nat2Z.inj_succ (S fuel)), Z.pow_succ_r in Hn by lia.
        split; [apply Z.div_pos; lia|]. apply Z.div_lt_upper_bound; lia.
Qed.

(** The numerals of two 64-bit values are equal only for equal values. *)
Lemma to_string_inj (n m : Z) :
  0 <= n < 2 ^ 64 -> 0 <= m < 2 ^ 64 -> to_string n = to_string m -> n = m.
Proof.
  intros Hn Hm E.
  assert (P : forall k, 0 <= k < 2 ^ 64 -> parse_decimal_from 0 (to_string k) = k).
  { intros k Hk. unfold to_string. rewrite parse_to_string_digits; [reflexivity|].
    change (10 ^ Z.of_nat 20) with 100000000000000000000.
    change (2 ^ 64) with 18446744073709551616 in Hk. lia. }
  rewrite <- (P n Hn), <- (P m Hm). now rewrite E.
Qed.

(** Either one of the first [n] candidates is free, and then there is a
    first one, or all of them are taken. *)
Lemma first_free_candidate (P : nat -> bool) (n : nat) :
  (exists i, (i < n)%nat /\ P i = true /\ forall j, (j < i)%nat -> P j = false)
  \/ (forall i, (i < n)%nat -> P i = false).
Proof.
  induction n as [|n [(i & Hi & Hp & Hmin)|Hall]].
  - right. intros i Hi. lia.
  - left. exists i. repeat split; [lia | assumption | assumption].
  - destruct (P n) eqn:E.
    + left. exists n. repeat split; [lia | assumption | assumption].
    + right. intros i Hi. destruct (Nat.eq_dec i n) as [->|]; [assumption|].
      apply Hall. lia.
Qed.

(** A symbolic constant the lookup returns sits in the table and bears the
    name asked for. *)
Lemma find_sym_constant_Some (a : agent) (name : string) (x : addr) :
  agent_wf a -> find_sym_constant a name = Some x ->
  x ∈ all_items (sym_constant_hash_table a)
  /\ exists s p, heap a !! x = Some s /\ data s = sc name p.
Proof.
  intros Hwf F. unfold find_sym_constant in F.
  apply find_in_chain_Some in F as (Hin & s & Hs & Hm). split.
  - apply elem_of_all_items. eexists. split; [|exact Hin].
    rewrite ht_size_pow. apply compress_range.
    pose proof (wf_log2size _ _ _ (wf_tables a Hwf SYM_CONSTANT_SYMBOL_TYPE)) as Hl.
    change (table SYM_CONSTANT_SYMBOL_TYPE a) with (sym_constant_hash_table a) in Hl. lia.
  - destruct (data s) as [| | n p | |] eqn:Ed; try discriminate.
    apply String.eqb_eq in Hm. subst n. eauto.
Qed.

(** The names [prefix0], [prefix1], ... from [counter] on cannot all be
    taken: a table of [n] constants leaves one of [n + 1] candidates free. *)
Lemma sym_constant_candidates_not_all_taken (a : agent) (prefix : string) (counter : Z) :
  agent_wf a -> 0 <= counter ->
  counter + count (sym_constant_hash_table a) < 2 ^ 64 ->
  ~ (forall i, (i < S (Z.to_nat (count (sym_constant_hash_table a))))%nat ->
       find_sym_constant a (prefix ++ to_string (counter + Z.of_nat i)) <> None).
Proof.
  intros Hwf H0 Hmax Hall.
  pose proof (wf_tables a Hwf SYM_CONSTANT_SYMBOL_TYPE) as Ht.
  change (table SYM_CONSTANT_SYMBOL_TYPE a) with (sym_constant_hash_table a) in Ht.
  pose proof (wf_count _ _ _ Ht) as Hc. rewrite Hc, Nat2Z.id in Hall. rewrite Hc in Hmax.
  set (items := all_items (sym_constant_hash_table a)) in *.
  set (candidate := fun i : nat => (prefix ++ to_string (counter + Z.of_nat i))%string).
  set (found := fun i : nat => default 0 (find_sym_constant a (candidate i))).
  assert (Hfound : forall i, (i < S (length items))%nat ->
            find_sym_constant a (candidate i) = Some (found i)).
  { intros i Hi. specialize (Hall i Hi). unfold found. fold (candidate i) in Hall.
    now destruct (find_sym_constant a (candidate i)). }
  assert (Hnd : NoDup (found <$> seq 0 (S (length items)))).
  { apply NoDup_fmap_2_strong; [|apply NoDup_seq].
    intros i j Hi Hj E. apply elem_of_seq in Hi, Hj.
    destruct (find_sym_constant_Some a _ _ Hwf (Hfound i ltac:(lia))) as (_ & s & p & Hs & Hd).
    destruct (find_sym_constant_Some a _ _ Hwf (Hfound j ltac:(lia))) as (_ & t & q & Ht' & Hd').
    rewrite E in Hs. rewrite Hs in Ht'. injection Ht' as <-. rewrite Hd in Hd'.
    assert (Hname : candidate i = candidate j).
    { apply (f_equal (fun d => match d with sc n _ => n | _ => EmptyString end)) in Hd'.
      exact Hd'. }
    unfold candidate in Hname.
    apply string_app_inv_head, to_string_inj in Hname; lia. }
  assert (Hsub : found <$> seq 0 (S (length items)) ⊆+ items).
  { apply NoDup_submseteq; [exact Hnd|]. intros x Hx.
    apply list_elem_of_fmap in Hx as (i & -> & Hi). apply elem_of_seq in Hi.
    now destruct (find_sym_constant_Some a _ _ Hwf (Hfound i ltac:(lia))). }
  apply submseteq_length in Hsub. rewrite length_fmap, length_seq in Hsub. lia.
Qed.

(** When the prefix fills the buffer, every name tried is the same. *)
Lemma string_take_app_long (n : nat) :
  forall p s : string, (n <= String.length p)%nat ->
                       string_take n (p ++ s) = string_take n p.
Proof.
  induction n as [|n IH]; intros [|c p] s H; cbn in H; try lia; try reflexivity.
  rewrite string_app_cons. cbn [string_take]. rewrite IH by lia. reflexivity.
Qed.

Lemma generate_new_sym_constant_name_long_prefix (a : agent) (prefix : string) :
  (1999 <= String.length prefix)%nat ->
  find_sym_constant a (string_take 1999 prefix) <> None ->
  forall (fuel : nat) (counter : Z),
    generate_new_sym_constant_name fuel a prefix counter = None.
Proof.
  intros Hlong Htaken. induction fuel as [|fuel IH]; intros counter;
    cbn [generate_new_sym_constant_name]; [reflexivity|]. cbv zeta.
  assert (E : snprintf 2000 (prefix ++ to_string counter) = string_take 1999 prefix).
  { unfold snprintf. change (2000 - 1)%nat with 1999%nat.
    now apply string_take_app_long. }
  rewrite E. destruct (find_sym_constant a (string_take 1999 prefix));
    [apply IH | contradiction].
Qed.

(** X15.  With a prefix of at most 1979 characters, so that no name tried
    is cut by the buffer of 2000 characters, [generate_new_sym_constant]
    returns: with [n] symbolic constants in the table it needs at most
    [n + 1] probes.  The symbol it returns is new (its address held no
    symbol, its name was not interned), has reference count 1 and is named
    by the prefix and the last number tried; the counter is left one past
    that number.  With a prefix of 1999 characters or more every name tried
    is the first 1999 characters of the prefix, and when that name is
    interned the loop does not end. *)
Theorem generate_new_sym_constant_terminates (a : agent) (prefix : string) (counter : Z) :
  agent_wf a -> 0 <= counter ->
  counter + count (sym_constant_hash_table a) < 2 ^ 64 - 1 ->
  ((String.length prefix <= 1979)%nat ->
   exists a' sym counter',
     generate_new_sym_constant (S (Z.to_nat (count (sym_constant_hash_table a)))) a
       prefix counter = Some (a', sym, counter')
     /\ counter < counter' <= counter + count (sym_constant_hash_table a) + 1
     /\ find_sym_constant a (prefix ++ to_string (counter' - 1)) = None
     /\ heap a !! sym = None
     /\ heap a' !! sym
        = Some (fresh_symbol (sc (prefix ++ to_string (counter' - 1)) None)
                  (uint32 (current_symbol_hash_id a + 137)))
     /\ find_sym_constant a' (prefix ++ to_string (counter' - 1)) = Some sym)
  /\ ((1999 <= String.length prefix)%nat ->
      find_sym_constant a (string_take 1999 prefix) <> None ->
      forall fuel : nat, generate_new_sym_constant fuel a prefix counter = None).
Proof.
  intros Hwf H0 Hmax. split.
  2: { intros Hlong Htaken fuel. unfold generate_new_sym_constant.
       now rewrite generate_new_sym_constant_name_long_prefix. }
  intros Hlen.
  pose proof (wf_tables a Hwf SYM_CONSTANT_SYMBOL_TYPE) as Ht.
  change (table SYM_CONSTANT_SYMBOL_TYPE a) with (sym_constant_hash_table a) in Ht.
  pose proof (wf_count _ _ _ Ht) as Hc.
  set (N := Z.to_nat (count (sym_constant_hash_table a))).
  assert (HN : Z.of_nat N = count (sym_constant_hash_table a))
    by (unfold N; rewrite Hc; now rewrite Nat2Z.id).
  set (free := fun i : nat =>
                 match find_sym_constant a (prefix ++ to_string (counter + Z.of_nat i)) with
                 | None => true
                 | Some _ => false
                 end).
  destruct (first_free_candidate free (S N)) as [(n & Hn & Hfree & Hmin)|Hall].
  - assert (F : find_sym_constant a (prefix ++ to_string (counter + Z.of_nat n)) = None).
    { unfold free in Hfree.
      destruct (find_sym_constant a (prefix ++ to_string (counter + Z.of_nat n)));
        [discriminate Hfree | reflexivity]. }
    assert (T : forall i : nat, (i < n)%nat ->
              find_sym_constant a (prefix ++ to_string (counter + Z.of_nat i)) <> None).
    { intros i Hi. specialize (Hmin i Hi). unfold free in Hmin.
      destruct (find_sym_constant a (prefix ++ to_string (counter + Z.of_nat i)));
        [discriminate | discriminate Hmin]. }
    unfold generate_new_sym_constant.
    rewrite (generate_new_sym_constant_name_first_free n (S N) a prefix counter)
      by (try assumption; lia).
    unfold make_sym_constant. rewrite F.
    destruct (new_symbol a (sc (prefix ++ to_string (counter + Z.of_nat n)) None))
      as [a' sym] eqn:E.
    exists a', sym, (counter + Z.of_nat n + 1).
    replace (counter + Z.of_nat n + 1 - 1) with (counter + Z.of_nat n) by lia.
    assert (Ea : a' = fst (new_symbol a (sc (prefix ++ to_string (counter + Z.of_nat n)) None)))
      by now rewrite E.
    assert (Es : sym = snd (new_symbol a (sc (prefix ++ to_string (counter + Z.of_nat n)) None)))
      by now rewrite E.
    split; [reflexivity|]. split; [lia|]. split; [exact F|]. split; [|split].
    + rewrite Es, new_symbol_addr. now apply alloc_addr_fresh.
    + rewrite Ea, Es. apply new_symbol_lookup.
    + rewrite Ea, Es. apply find_new_sym_constant.
  - exfalso. apply (sym_constant_candidates_not_all_taken a prefix counter Hwf H0);
      [lia|].
    fold N. intros i Hi. specialize (Hall i Hi). unfold free in Hall.
    destruct (find_sym_constant a (prefix ++ to_string (counter + Z.of_nat i)));
      [discriminate | discriminate Hall].
Qed.

Lemma generate_new_sym_constant_terminates_witness :
  let a := example_reachable_agent in
  exists a' sym counter',
    generate_new_sym_constant (S (Z.to_nat (count (sym_constant_hash_table a)))) a
      "chunk" 7 = Some (a', sym, counter')
    /\ 7 < counter' <= 7 + count (sym_constant_hash_table a) + 1.
Proof.
  cbv zeta.
  destruct (proj1 (generate_new_sym_constant_terminates example_reachable_agent "chunk" 7
                     (inv_wf _ (reachable_inv _ example_reachable_agent_reachable))
                     ltac:(lia) ltac:(vm_compute; reflexivity))
              ltac:(cbn; lia))
    as (a' & sym & counter' & H1 & H2 & _).
  exists a', sym, counter'. split; assumption.
Defined.

(** ** symtab.cpp: symbols made and released in bulk *)

(** The makers applied to a list of requests in order: the agent left and
    the symbols returned. *)
Fixpoint intern_all (rs : list intern_request) (a : agent) : agent * list addr :=
  match rs with
  | [] => (a, [])
  | r :: rs' =>
      let '(a1, x) := intern a r in
      let '(a2, xs) := intern_all rs' a1 in
      (a2, x :: xs)
  end.

(** One [symbol_remove_ref] per reference, in the order of the list. *)
Definition release_all (xs : list addr) (a : agent) : agent := foldl symbol_remove_ref a xs.

(** The reference count at an address, 0 where no symbol lives. *)
Definition rc_of (hp : gmap Z Symbol) (x : addr) : Z :=
  match hp !! x with
  | Some s => reference_count s
  | None => 0
  end.

(** [hp1] is [hp0] with the references [pending] added: each count is up by
    the number of pending references to the symbol, the symbols of [hp0] are
    otherwise as they were, and what else lives in [hp1] lives on pending
    references alone. *)
Record credited (hp0 : gmap Z Symbol) (pending : list addr) (hp1 : gmap Z Symbol)
    : Prop := {
  cr_count : forall x,
    rc_of hp1 x = rc_of hp0 x + Z.of_nat (count_occ Z.eq_dec pending x);
  cr_old : forall x s0,
    hp0 !! x = Some s0 -> hp1 !! x = Some (set_reference_count (rc_of hp1 x) s0);
  cr_live : forall x s1, hp1 !! x = Some s1 -> 1 <= reference_count s1
}.

Lemma set_reference_count_same (s : Symbol) : set_reference_count (reference_count s) s = s.
Proof. now destruct s. Qed.

Lemma set_reference_count_twice (s : Symbol) (r r' : Z) :
  set_reference_count r' (set_reference_count r s) = set_reference_count r' s.
Proof. reflexivity. Qed.

Lemma credited_refl (hp : gmap Z Symbol) :
  (forall x s, hp !! x = Some s -> 1 <= reference_count s) -> credited hp [] hp.
Proof.
  intros Hrc. split.
  - intros x. cbn. lia.
  - intros x s Hs. unfold rc_of. rewrite Hs. now rewrite set_reference_count_same.
  - exact Hrc.
Qed.

(** With nothing pending the two heaps are the same. *)
Lemma credited_done (hp0 hp1 : gmap Z Symbol) :
  (forall x s, hp0 !! x = Some s -> 1 <= reference_count s) ->
  credited hp0 [] hp1 -> hp1 = hp0.
Proof.
  intros Hrc [Hc Ho Hl]. apply map_eq. intros x.
  specialize (Hc x). cbn in Hc. rewrite Z.add_0_r in Hc.
  destruct (hp0 !! x) as [s0|] eqn:H0.
  - rewrite (Ho x s0 H0), Hc. unfold rc_of. rewrite H0.
    now rewrite set_reference_count_same.
  - destruct (hp1 !! x) as [s1|] eqn:H1; [|reflexivity].
    specialize (Hl x s1 H1). unfold rc_of in Hc. rewrite H0, H1 in Hc. lia.
Qed.

Lemma credited_perm (hp0 hp1 : gmap Z Symbol) (p p' : list addr) :
  p ≡ₚ p' -> credited hp0 p hp1 -> credited hp0 p' hp1.
Proof.
  intros Hp [Hc Ho Hl]. split; [|assumption|assumption].
  intros x. rewrite Hc. now rewrite (proj1 (Permutation_count_occ Z.eq_dec p p') Hp x).
Qed.

Lemma rc_of_insert (hp : gmap Z Symbol) (x y : addr) (s : Symbol) :
  rc_of (<[x := s]> hp) y = if decide (x = y) then reference_count s else rc_of hp y.
Proof.
  unfold rc_of. destruct (decide (x = y)) as [<-|Hne].
  - now rewrite lookup_insert_eq.
  - now rewrite lookup_insert_ne.
Qed.

Lemma count_occ_cons (x y : addr) (p : list addr) :
  Z.of_nat (count_occ Z.eq_dec (x :: p) y)
  = (if decide (x = y) then 1 else 0) + Z.of_nat (count_occ Z.eq_dec p y).
Proof.
  cbn [count_occ]. destruct (Z.eq_dec x y) as [E|E]; destruct (decide (x = y)); try lia;
    contradiction.
Qed.

(** A reference added to a live symbol. *)
Lemma credited_add_ref (hp0 hp1 : gmap Z Symbol) (p : list addr) (x : addr) (s : Symbol) :
  hp1 !! x = Some s -> reference_count s + 1 < 2 ^ 64 ->
  credited hp0 p hp1 ->
  credited hp0 (x :: p)
    (<[x := set_reference_count (uint64 (reference_count s + 1)) s]> hp1).
Proof.
  intros Hs Hmax [Hc Ho Hl]. pose proof (Hl x s Hs) as Hpos.
  assert (E : uint64 (reference_count s + 1) = reference_count s + 1)
    by (unfold uint64; apply Z.mod_small; lia).
  rewrite E. split.
  - intros y. rewrite rc_of_insert, count_occ_cons. specialize (Hc y).
    destruct (decide (x = y)) as [<-|Hne]; [|lia].
    cbn [reference_count set_reference_count]. unfold rc_of in Hc at 1. rewrite Hs in Hc. lia.
  - intros y s0 H0. rewrite rc_of_insert. specialize (Ho y s0 H0).
    destruct (decide (x = y)) as [<-|Hne].
    + rewrite lookup_insert_eq. rewrite Hs in Ho. injection Ho as ->. reflexivity.
    + now rewrite lookup_insert_ne.
  - intros y s1 Hy. destruct (decide (x = y)) as [<-|Hne].
    + rewrite lookup_insert_eq in Hy. injection Hy as <-. cbn. lia.
    + rewrite lookup_insert_ne in Hy by assumption. now apply (Hl y).
Qed.

(** A symbol created where none lived. *)
Lemma credited_new (hp0 hp1 : gmap Z Symbol) (p : list addr) (x : addr) (s : Symbol) :
  hp1 !! x = None -> reference_count s = 1 ->
  (forall y s0, hp0 !! y = Some s0 -> 1 <= reference_count s0) ->
  credited hp0 p hp1 -> credited hp0 (x :: p) (<[x := s]> hp1).
Proof.
  intros Hx Hrc H0 [Hc Ho Hl].
  assert (Hx0 : hp0 !! x = None).
  { destruct (hp0 !! x) as [s0|] eqn:E; [|reflexivity].
    rewrite (Ho x s0 E) in Hx. discriminate. }
  assert (Hp : count_occ Z.eq_dec p x = 0%nat).
  { specialize (Hc x). unfold rc_of in Hc. rewrite Hx, Hx0 in Hc. lia. }
  split.
  - intros y. rewrite rc_of_insert, count_occ_cons. specialize (Hc y).
    destruct (decide (x = y)) as [<-|Hne]; [|lia].
    unfold rc_of. rewrite Hx0, Hp, Hrc. lia.
  - intros y s0 Hy. rewrite rc_of_insert. specialize (Ho y s0 Hy).
    destruct (decide (x = y)) as [<-|Hne]; [congruence|].
    now rewrite lookup_insert_ne.
  - intros y s1 Hy. destruct (decide (x = y)) as [<-|Hne].
    + rewrite lookup_insert_eq in Hy. injection Hy as <-. lia.
    + rewrite lookup_insert_ne in Hy by assumption. now apply (Hl y).
Qed.

(** A pending reference given back. *)
Lemma credited_release (hp0 : gmap Z Symbol) (p : list addr) (x : addr) (a1 : agent) :
  (forall y s0, hp0 !! y = Some s0 -> 1 <= reference_count s0) ->
  rc_of (heap a1) x < 2 ^ 64 ->
  credited hp0 (x :: p) (heap a1) ->
  credited hp0 p (heap (symbol_remove_ref a1 x)).
Proof.
  intros H0 Hmax [Hc Ho Hl].
  pose proof (Hc x) as Hcx. rewrite count_occ_cons in Hcx.
  destruct (decide (x = x)) as [_|]; [|contradiction].
  assert (R0 : 0 <= rc_of hp0 x).
  { unfold rc_of. destruct (hp0 !! x) as [s0|] eqn:E; [|lia]. specialize (H0 x s0 E). lia. }
  unfold symbol_remove_ref.
  destruct (heap a1 !! x) as [s|] eqn:Hs.
  2:{ unfold rc_of in Hcx at 1. rewrite Hs in Hcx. lia. }
  unfold rc_of in Hcx at 1, Hmax. rewrite Hs in Hcx, Hmax. cbv zeta.
  assert (E : uint64 (reference_count s - 1) = reference_count s - 1)
    by (unfold uint64; apply Z.mod_small; lia).
  rewrite E.
  assert (Hstep : forall y, Z.of_nat (count_occ Z.eq_dec (x :: p) y)
                            = (if decide (x = y) then 1 else 0)
                              + Z.of_nat (count_occ Z.eq_dec p y))
    by (intros y; apply count_occ_cons).
  destruct (Z.eqb_spec (reference_count s - 1) 0) as [Ez|Enz].
  - (* the last reference: the symbol goes *)
    rewrite deallocate_symbol_heap. cbn [heap set_heap].
    rewrite delete_insert_eq.
    assert (Hx0 : hp0 !! x = None).
    { destruct (hp0 !! x) as [s0|] eqn:E0; [|reflexivity].
      specialize (H0 x s0 E0). unfold rc_of in Hcx. rewrite E0 in Hcx. lia. }
    split.
    + intros y. specialize (Hc y). rewrite Hstep in Hc.
      destruct (decide (x = y)) as [<-|Hne].
      * unfold rc_of at 1. rewrite lookup_delete_eq.
        unfold rc_of in Hcx. rewrite Hx0 in Hcx. unfold rc_of. rewrite Hx0. lia.
      * unfold rc_of at 1. rewrite lookup_delete_ne by assumption.
        fold (rc_of (heap a1) y). lia.
    + intros y s0 Hy. assert (x <> y) by congruence.
      unfold rc_of. rewrite lookup_delete_ne by assumption.
      fold (rc_of (heap a1) y). now apply Ho.
    + intros y s1 Hy. destruct (decide (x = y)) as [<-|Hne].
      * now rewrite lookup_delete_eq in Hy.
      * rewrite lookup_delete_ne in Hy by assumption. now apply (Hl y).
  - cbn [heap set_heap]. split.
    + intros y. rewrite rc_of_insert. specialize (Hc y). rewrite Hstep in Hc.
      destruct (decide (x = y)) as [<-|Hne]; [|lia].
      cbn [reference_count set_reference_count]. unfold rc_of in Hc at 1.
      rewrite Hs in Hc. lia.
    + intros y s0 Hy. rewrite rc_of_insert. specialize (Ho y s0 Hy).
      destruct (decide (x = y)) as [<-|Hne].
      * rewrite lookup_insert_eq. rewrite Hs in Ho. injection Ho as ->. reflexivity.
      * now rewrite lookup_insert_ne.
    + intros y s1 Hy. destruct (decide (x = y)) as [<-|Hne].
      * rewrite lookup_insert_eq in Hy. injection Hy as <-. cbn. lia.
      * rewrite lookup_insert_ne in Hy by assumption. now apply (Hl y).
Qed.

(** The makers keep the tables well formed, identifiers included. *)
Lemma intern_wf (a : agent) (r : intern_request) :
  agent_wf a -> agent_wf (fst (intern a r)).
Proof.
  intros Hwf. destruct r as [name|name|value|value|letter lvl number]; cbn [intern].
  - unfold make_variable. destruct (find_variable a name); cbn [fst];
      [now apply symbol_add_ref_wf | now apply new_symbol_wf].
  - unfold make_sym_constant. destruct (find_sym_constant a name); cbn [fst];
      [now apply symbol_add_ref_wf | now apply new_symbol_wf].
  - unfold make_int_constant. destruct (find_int_constant a value); cbn [fst];
      [now apply symbol_add_ref_wf | now apply new_symbol_wf].
  - unfold make_float_constant. destruct (find_float_constant a value); cbn [fst];
      [now apply symbol_add_ref_wf | now apply new_symbol_wf].
  - rewrite make_new_identifier_steps. apply new_symbol_wf.
    now apply agent_wf_set_id_counter.
Qed.

(** What a maker does to the heap: a reference more on a live symbol, or a
    symbol with one reference where none lived. *)
Lemma intern_heap (a : agent) (r : intern_request) :
  agent_wf a ->
  (exists s, heap a !! snd (intern a r) = Some s
             /\ heap (fst (intern a r))
                = <[snd (intern a r)
                    := set_reference_count (uint64 (reference_count s + 1)) s]> (heap a))
  \/ (heap a !! snd (intern a r) = None
      /\ exists s, reference_count s = 1
                   /\ heap (fst (intern a r)) = <[snd (intern a r) := s]> (heap a)).
Proof.
  intros Hwf.
  assert (N : forall a0 d, agent_wf a0 -> heap a0 = heap a ->
            heap a !! snd (new_symbol a0 d) = None
            /\ exists s, reference_count s = 1
                         /\ heap (fst (new_symbol a0 d)) = <[snd (new_symbol a0 d) := s]> (heap a)).
  { intros a0 d Hwf0 Hh. rewrite new_symbol_addr, new_symbol_heap, <- Hh. split.
    - now apply alloc_addr_fresh.
    - eexists. split; [|reflexivity]. reflexivity. }
  destruct r as [name|name|value|value|letter lvl number].
  5:{ right. cbn [intern]. rewrite make_new_identifier_steps.
      apply N; [now apply agent_wf_set_id_counter | reflexivity]. }
  all: match goal with
       | |- context [intern _ ?r] =>
           destruct (intern_cases a r I) as [(x & F & E)|[F E]]; rewrite E; cbn [fst snd];
           [left; destruct (found_by_Some a r x F) as (s & Hs & _); exists s;
            (split; [assumption|]); unfold symbol_add_ref; now rewrite Hs
           |right; now apply N]
       end.
Qed.

Lemma credited_bound (hp0 hp1 : gmap Z Symbol) (p : list addr) (x : addr) :
  credited hp0 p hp1 -> rc_of hp1 x <= rc_of hp0 x + Z.of_nat (length p).
Proof.
  intros [Hc _ _]. rewrite Hc. pose proof (count_occ_bound Z.eq_dec x p). lia.
Qed.

Lemma intern_all_credited (hp0 : gmap Z Symbol) :
  (forall y s0, hp0 !! y = Some s0 -> 1 <= reference_count s0) ->
  forall rs a1 p,
    agent_wf a1 -> credited hp0 p (heap a1) ->
    (forall x, rc_of hp0 x + Z.of_nat (length p) + Z.of_nat (length rs) < 2 ^ 64) ->
    agent_wf (fst (intern_all rs a1))
    /\ credited hp0 (snd (intern_all rs a1) ++ p) (heap (fst (intern_all rs a1))).
Proof.
  intros H0. induction rs as [|r rs IH]; intros a1 p Hwf Hcr Hmax; [now split|].
  cbn [intern_all].
  pose proof (intern_wf a1 r Hwf) as Hwf'.
  pose proof (intern_heap a1 r Hwf) as Hheap.
  destruct (intern a1 r) as [a1' x] eqn:E. cbn [fst snd] in Hwf', Hheap.
  assert (Hcr' : credited hp0 (x :: p) (heap a1')).
  { destruct Hheap as [(s & Hs & ->)|(Hs & s & Hrc & ->)].
    - apply credited_add_ref; try assumption.
      pose proof (credited_bound hp0 (heap a1) p x Hcr) as Hb.
      unfold rc_of in Hb at 1. rewrite Hs in Hb. specialize (Hmax x).
      cbn [length] in Hmax. lia.
    - now apply credited_new. }
  destruct (IH a1' (x :: p) Hwf' Hcr') as [Hwf2 Hcr2].
  { intros y. specialize (Hmax y). cbn [length] in *. lia. }
  destruct (intern_all rs a1') as [a2 xs]. cbn [fst snd] in *.
  split; [assumption|].
  apply (credited_perm hp0 _ (xs ++ x :: p)); [|assumption].
  symmetry. apply (Permutation_middle xs p x).
Qed.

Lemma release_all_credited (hp0 : gmap Z Symbol) :
  (forall y s0, hp0 !! y = Some s0 -> 1 <= reference_count s0) ->
  forall ys a1,
    agent_wf a1 -> credited hp0 ys (heap a1) ->
    (forall x, rc_of hp0 x + Z.of_nat (length ys) < 2 ^ 64) ->
    agent_wf (release_all ys a1) /\ credited hp0 [] (heap (release_all ys a1)).
Proof.
  intros H0. induction ys as [|y ys IH]; intros a1 Hwf Hcr Hmax; [now split|].
  unfold release_all. cbn [foldl]. fold (release_all ys (symbol_remove_ref a1 y)).
  apply IH.
  - now apply symbol_remove_ref_wf.
  - apply credited_release; try assumption.
    pose proof (credited_bound hp0 (heap a1) (y :: ys) y Hcr). specialize (Hmax y). lia.
  - intros x. specialize (Hmax x). cbn [length] in Hmax. lia.
Qed.

(** Two well-formed agents with the same symbols have the same items in
    their tables. *)
Lemma same_heap_same_items (a a' : agent) (k : symbol_type) :
  agent_wf a -> agent_wf a' -> heap a' = heap a ->
  all_items (table k a') ≡ₚ all_items (table k a)
  /\ count (table k a') = count (table k a).
Proof.
  intros Hwf Hwf' Hh.
  assert (P : all_items (table k a') ≡ₚ all_items (table k a)).
  { apply NoDup_Permutation.
    - apply (wf_nodup _ _ _ (wf_tables a' Hwf' k)).
    - apply (wf_nodup _ _ _ (wf_tables a Hwf k)).
    - intros x. rewrite (wf_live a' Hwf' k x), (wf_live a Hwf k x). now rewrite Hh. }
  split; [exact P|].
  rewrite (wf_count _ _ _ (wf_tables a' Hwf' k)), (wf_count _ _ _ (wf_tables a Hwf k)).
  f_equal. now apply Permutation_length.
Qed.

(** The content of the balance of makers and releases. *)
Lemma intern_all_release_all_balance (a : agent) (rs : list intern_request)
    (ys : list addr) :
  agent_wf a ->
  (forall x s, heap a !! x = Some s ->
     1 <= reference_count s /\ reference_count s + Z.of_nat (length rs) < 2 ^ 64) ->
  Z.of_nat (length rs) < 2 ^ 64 ->
  ys ≡ₚ snd (intern_all rs a) ->
  agent_wf (release_all ys (fst (intern_all rs a)))
  /\ heap (release_all ys (fst (intern_all rs a))) = heap a.
Proof.
  intros Hwf Hrc Hlen Hys.
  assert (H0 : forall y s0, heap a !! y = Some s0 -> 1 <= reference_count s0)
    by (intros y s0 Hy; now apply (Hrc y s0)).
  assert (Hmax : forall x, rc_of (heap a) x + Z.of_nat (length rs) < 2 ^ 64).
  { intros x. unfold rc_of. destruct (heap a !! x) as [s|] eqn:E; [|lia].
    now apply (Hrc x s). }
  destruct (intern_all_credited (heap a) H0 rs a [] Hwf (credited_refl _ H0)) as [Hwf1 Hcr1].
  { intros x. specialize (Hmax x). cbn [length]. lia. }
  rewrite app_nil_r in Hcr1.
  assert (Hl : length ys = length rs).
  { rewrite (Permutation_length Hys).
    clear. revert a. induction rs as [|r rs IH]; intros a; [reflexivity|].
    cbn [intern_all]. destruct (intern a r) as [a1 x]. specialize (IH a1).
    destruct (intern_all rs a1) as [a2 xs]. cbn in *. now rewrite IH. }
  destruct (release_all_credited (heap a) H0 ys (fst (intern_all rs a)) Hwf1) as [Hwf2 Hcr2].
  - apply (credited_perm _ _ (snd (intern_all rs a))); [now symmetry | assumption].
  - intros x. rewrite Hl. apply Hmax.
  - split; [assumption|]. now apply credited_done.
Qed.

(** X16.  Makers and releases balance: after any list of makers
    ([make_variable], [make_sym_constant], [make_int_constant],
    [make_float_constant], [make_new_identifier]), releasing each returned
    reference once, in any order, leaves exactly the symbols that lived
    before with the reference counts they had, and every table with the
    items and the count it had.  No counter may wrap: every reference count
    plus the number of makers stays below [2^64]. *)
Theorem intern_all_release_all (a : agent) (rs : list intern_request) (ys : list addr) :
  agent_wf a ->
  (forall x s, heap a !! x = Some s ->
     1 <= reference_count s /\ reference_count s + Z.of_nat (length rs) < 2 ^ 64) ->
  Z.of_nat (length rs) < 2 ^ 64 ->
  ys ≡ₚ snd (intern_all rs a) ->
  let a2 := release_all ys (fst (intern_all rs a)) in
  heap a2 = heap a
  /\ (forall k, all_items (table k a2) ≡ₚ all_items (table k a))
  /\ (forall k, count (table k a2) = count (table k a)).
Proof.
  intros Hwf Hrc Hlen Hys. cbv zeta.
  destruct (intern_all_release_all_balance a rs ys Hwf Hrc Hlen Hys) as [Hwf2 Hh].
  split; [exact Hh|].
  split; intros k; now apply (same_heap_same_items a _ k Hwf Hwf2 Hh).
Qed.

(** ** symtab.cpp: the predefined symbols *)

(** The members of [agent] that point to the predefined symbols, looked up
    by the name of the member; 0 is [NIL]. *)
Abbreviation predefined_members := (gmap string Z) (only parsing).

(** The assignments of [create_predefined_symbols] (lines 745-852) in the
    order of the source: the member, and the maker with its argument. *)
Definition predefined_symbols : list (string * intern_request) :=
  [
   ("problem_space_symbol", intern_sym_constant "problem-space");
   ("state_symbol", intern_sym_constant "state");
   ("operator_symbol", intern_sym_constant "operator");
   ("superstate_symbol", intern_sym_constant "superstate");
   ("io_symbol", intern_sym_constant "io");
   ("object_symbol", intern_sym_constant "object");
   ("attribute_symbol", intern_sym_constant "attribute");
   ("impasse_symbol", intern_sym_constant "impasse");
   ("choices_symbol", intern_sym_constant "choices");
   ("none_symbol", intern_sym_constant "none");
   ("constraint_failure_symbol", intern_sym_constant "constraint-failure");
   ("no_change_symbol", intern_sym_constant "no-change");
   ("multiple_symbol", intern_sym_constant "multiple");
   ("item_count_symbol", intern_sym_constant "item-count");
   ("non_numeric_count_symbol", intern_sym_constant "non-numeric-count");
   ("conflict_symbol", intern_sym_constant "conflict");
   ("tie_symbol", intern_sym_constant "tie");
   ("item_symbol", intern_sym_constant "item");
   ("non_numeric_symbol", intern_sym_constant "non-numeric");
   ("quiescence_symbol", intern_sym_constant "quiescence");
   ("t_symbol", intern_sym_constant "t");
   ("nil_symbol", intern_sym_constant "nil");
   ("type_symbol", intern_sym_constant "type");
   ("goal_symbol", intern_sym_constant "goal");
   ("name_symbol", intern_sym_constant "name");
   ("ts_context_variable", intern_variable "<ts>");
   ("to_context_variable", intern_variable "<to>");
   ("sss_context_variable", intern_variable "<sss>");
   ("sso_context_variable", intern_variable "<sso>");
   ("ss_context_variable", intern_variable "<ss>");
   ("so_context_variable", intern_variable "<so>");
   ("s_context_variable", intern_variable "<s>");
   ("o_context_variable", intern_variable "<o>");
   ("wait_symbol", intern_variable "wait");
   ("input_link_symbol", intern_sym_constant "input-link");
   ("output_link_symbol", intern_sym_constant "output-link");
   ("rl_sym_reward_link", intern_sym_constant "reward-link");
   ("rl_sym_reward", intern_sym_constant "reward");
   ("rl_sym_value", intern_sym_constant "value");
   ("epmem_sym", intern_sym_constant "epmem");
   ("epmem_sym_cmd", intern_sym_constant "command");
   ("epmem_sym_result", intern_sym_constant "result");
   ("epmem_sym_retrieved", intern_sym_constant "retrieved");
   ("epmem_sym_status", intern_sym_constant "status");
   ("epmem_sym_match_score", intern_sym_constant "match-score");
   ("epmem_sym_cue_size", intern_sym_constant "cue-size");
   ("epmem_sym_normalized_match_score", intern_sym_constant "normalized-match-score");
   ("epmem_sym_match_cardinality", intern_sym_constant "match-cardinality");
   ("epmem_sym_memory_id", intern_sym_constant "memory-id");
   ("epmem_sym_present_id", intern_sym_constant "present-id");
   ("epmem_sym_no_memory", intern_sym_constant "no-memory");
   ("epmem_sym_graph_match", intern_sym_constant "graph-match");
   ("epmem_sym_graph_match_mapping", intern_sym_constant "mapping");
   ("epmem_sym_graph_match_mapping_node", intern_sym_constant "node");
   ("epmem_sym_graph_match_mapping_cue", intern_sym_constant "cue");
   ("epmem_sym_success", intern_sym_constant "success");
   ("epmem_sym_failure", intern_sym_constant "failure");
   ("epmem_sym_bad_cmd", intern_sym_constant "bad-cmd");
   ("epmem_sym_retrieve", intern_sym_constant "retrieve");
   ("epmem_sym_next", intern_sym_constant "next");
   ("epmem_sym_prev", intern_sym_constant "previous");
   ("epmem_sym_query", intern_sym_constant "query");
   ("epmem_sym_negquery", intern_sym_constant "neg-query");
   ("epmem_sym_before", intern_sym_constant "before");
   ("epmem_sym_after", intern_sym_constant "after");
   ("epmem_sym_prohibit", intern_sym_constant "prohibit");
   ("epmem_sym_yes", intern_sym_constant "yes");
   ("epmem_sym_no", intern_sym_constant "no");
   ("smem_sym", intern_sym_constant "smem");
   ("smem_sym_cmd", intern_sym_constant "command");
   ("smem_sym_result", intern_sym_constant "result");
   ("smem_sym_retrieved", intern_sym_constant "retrieved");
   ("smem_sym_status", intern_sym_constant "status");
   ("smem_sym_success", intern_sym_constant "success");
   ("smem_sym_failure", intern_sym_constant "failure");
   ("smem_sym_bad_cmd", intern_sym_constant "bad-cmd");
   ("smem_sym_retrieve", intern_sym_constant "retrieve");
   ("smem_sym_query", intern_sym_constant "query");
   ("smem_sym_negquery", intern_sym_constant "neg-query");
   ("smem_sym_prohibit", intern_sym_constant "prohibit");
   ("smem_sym_store", intern_sym_constant "store");
   ("smem_sym_math_query", intern_sym_constant "math-query");
   ("smem_sym_math_query_less", intern_sym_constant "less");
   ("smem_sym_math_query_greater", intern_sym_constant "greater");
   ("smem_sym_math_query_less_or_equal", intern_sym_constant "less-or-equal");
   ("smem_sym_math_query_greater_or_equal", intern_sym_constant "greater-or-equal");
   ("smem_sym_math_query_max", intern_sym_constant "max");
   ("smem_sym_math_query_min", intern_sym_constant "min")
  ]%string.

(** One assignment [thisAgent->member = make_... (thisAgent, name)]. *)
Definition assign_predefined (st : agent * predefined_members)
    (entry : string * intern_request) : agent * predefined_members :=
  let '(a, m) := st in
  let '(a', sym) := intern a (snd entry) in
  (a', <[fst entry := sym]> m).

(** [create_predefined_symbols] (lines 744-853). *)
Definition create_predefined_symbols (a : agent) (m : predefined_members)
    : agent * predefined_members :=
  foldl assign_predefined (a, m) predefined_symbols.

(** [release_helper] (lines 855-858): [symbol_remove_ref (thisAgent, *sym);
    *sym = 0;].  A member never assigned reads as [NIL]. *)
Definition release_helper (st : agent * predefined_members) (member : string)
    : agent * predefined_members :=
  let '(a, m) := st in
  (symbol_remove_ref a (default 0 (m !! member)), <[member := 0]> m).

(** The members [release_predefined_symbols] releases (lines 861-966), in
    the order of the source. *)
Definition released_members : list string :=
  [
   "problem_space_symbol"; "state_symbol"; "operator_symbol"; "superstate_symbol";
   "io_symbol"; "object_symbol"; "attribute_symbol"; "impasse_symbol"; "choices_symbol";
   "none_symbol"; "constraint_failure_symbol"; "no_change_symbol"; "multiple_symbol";
   "conflict_symbol"; "tie_symbol"; "item_symbol"; "non_numeric_symbol";
   "quiescence_symbol"; "t_symbol"; "nil_symbol"; "type_symbol"; "goal_symbol";
   "name_symbol"; "ts_context_variable"; "to_context_variable"; "sss_context_variable";
   "sso_context_variable"; "ss_context_variable"; "so_context_variable";
   "s_context_variable"; "o_context_variable"; "item_count_symbol";
   "non_numeric_count_symbol"; "wait_symbol"; "input_link_symbol"; "output_link_symbol";
   "rl_sym_reward_link"; "rl_sym_reward"; "rl_sym_value"; "epmem_sym"; "epmem_sym_cmd";
   "epmem_sym_result"; "epmem_sym_retrieved"; "epmem_sym_status"; "epmem_sym_match_score";
   "epmem_sym_cue_size"; "epmem_sym_normalized_match_score"; "epmem_sym_match_cardinality";
   "epmem_sym_memory_id"; "epmem_sym_present_id"; "epmem_sym_no_memory";
   "epmem_sym_graph_match"; "epmem_sym_graph_match_mapping";
   "epmem_sym_graph_match_mapping_node"; "epmem_sym_graph_match_mapping_cue";
   "epmem_sym_success"; "epmem_sym_failure"; "epmem_sym_bad_cmd"; "epmem_sym_retrieve";
   "epmem_sym_next"; "epmem_sym_prev"; "epmem_sym_query"; "epmem_sym_negquery";
   "epmem_sym_before"; "epmem_sym_after"; "epmem_sym_prohibit"; "epmem_sym_yes";
   "epmem_sym_no"; "smem_sym"; "smem_sym_cmd"; "smem_sym_result"; "smem_sym_retrieved";
   "smem_sym_status"; "smem_sym_success"; "smem_sym_failure"; "smem_sym_bad_cmd";
   "smem_sym_retrieve"; "smem_sym_query"; "smem_sym_negquery"; "smem_sym_prohibit";
   "smem_sym_store"; "smem_sym_math_query"; "smem_sym_math_query_less";
   "smem_sym_math_query_greater"; "smem_sym_math_query_less_or_equal";
   "smem_sym_math_query_greater_or_equal"; "smem_sym_math_query_max";
   "smem_sym_math_query_min"
  ]%string.

(** [release_predefined_symbols] (lines 860-967). *)
Definition release_predefined_symbols (a : agent) (m : predefined_members)
    : agent * predefined_members :=
  foldl release_helper (a, m) released_members.

Lemma released_members_NoDup : NoDup released_members.
Proof. refine (bool_decide_unpack _ _). vm_compute. exact I. Qed.

Lemma released_members_perm : released_members ≡ₚ fst <$> predefined_symbols.
Proof.
  refine (bool_decide_unpack _ _). vm_compute. exact I.
Qed.

(** The value of a member, [NIL] if it was never assigned. *)
Definition member_value (m : predefined_members) (member : string) : addr :=
  default 0 (m !! member).

(** A run of assignments to distinct members is the run of the makers, and
    each member ends up with the symbol its maker returned. *)
Lemma assign_predefined_steps (tbl : list (string * intern_request)) :
  forall a m, NoDup (fst <$> tbl) ->
    fst (foldl assign_predefined (a, m) tbl) = fst (intern_all (snd <$> tbl) a)
    /\ member_value (snd (foldl assign_predefined (a, m) tbl)) <$> (fst <$> tbl)
       = snd (intern_all (snd <$> tbl) a)
    /\ (forall member, member ∉ fst <$> tbl ->
          snd (foldl assign_predefined (a, m) tbl) !! member = m !! member)
    /\ (forall member, member ∈ fst <$> tbl ->
          is_Some (snd (foldl assign_predefined (a, m) tbl) !! member)).
Proof.
  induction tbl as [|[member r] tbl IH]; intros a m Hnd.
  { repeat split. intros member H. now apply elem_of_nil in H. }
  cbn [fmap list_fmap fst snd] in Hnd. apply NoDup_cons in Hnd as [Hnin Hnd].
  cbn [foldl fmap list_fmap intern_all fst snd].
  replace (assign_predefined (a, m) (member, r))
    with (fst (intern a r), <[member := snd (intern a r)]> m)
    by (unfold assign_predefined; cbn [fst snd]; now destruct (intern a r)).
  destruct (intern a r) as [a' x]. cbn [fst snd].
  destruct (IH a' (<[member := x]> m) Hnd) as (H1 & H2 & H3 & H4).
  destruct (intern_all (snd <$> tbl) a') as [a2 xs]. cbn [fst snd] in *.
  split; [exact H1|]. split; [|split].
  - rewrite H2. f_equal. unfold member_value. rewrite (H3 member Hnin).
    now rewrite lookup_insert_eq.
  - intros member' Hm. apply not_elem_of_cons in Hm as [Hne Hm].
    rewrite (H3 member' Hm). now rewrite lookup_insert_ne by congruence.
  - intros member' Hm. apply elem_of_cons in Hm as [->|Hm]; [|now apply H4].
    rewrite (H3 member Hnin), lookup_insert_eq. eauto.
Qed.

(** A run of [release_helper] over distinct members releases the symbols
    the members held, in that order, and leaves the members [NIL]. *)
Lemma release_helper_steps (members : list string) :
  forall a m, NoDup members ->
    fst (foldl release_helper (a, m) members)
    = release_all (member_value m <$> members) a
    /\ (forall member, member ∈ members ->
          snd (foldl release_helper (a, m) members) !! member = Some 0)
    /\ (forall member, member ∉ members ->
          snd (foldl release_helper (a, m) members) !! member = m !! member).
Proof.
  induction members as [|member members IH]; intros a m Hnd.
  - repeat split. intros member H. now apply elem_of_nil in H.
  - apply NoDup_cons in Hnd as [Hnin Hnd].
    cbn [foldl fmap list_fmap].
    change (release_helper (a, m) member)
      with (symbol_remove_ref a (default 0 (m !! member)), <[member := 0]> m).
    destruct (IH (symbol_remove_ref a (default 0 (m !! member))) (<[member := 0]> m) Hnd)
      as (H1 & H2 & H3).
    split; [|split].
    + rewrite H1. unfold release_all. cbn [foldl]. f_equal.
      apply list_fmap_ext. intros i member' Hm. unfold member_value.
      rewrite lookup_insert_ne; [reflexivity|]. intros ->.
      apply Hnin. now apply list_elem_of_lookup_2 in Hm.
    + intros member' Hm. apply elem_of_cons in Hm as [->|Hm].
      * rewrite (H3 member Hnin). apply lookup_insert_eq.
      * now apply H2.
    + intros member' Hm. apply not_elem_of_cons in Hm as [Hne Hm].
      rewrite (H3 member' Hm). now rewrite lookup_insert_ne by congruence.
Qed.

Lemma predefined_symbols_count : Z.of_nat (length (snd <$> predefined_symbols)) = 88.
Proof. reflexivity. Qed.

Lemma predefined_symbols_NoDup : NoDup (fst <$> predefined_symbols).
Proof. rewrite <- released_members_perm. apply released_members_NoDup. Qed.

(** X17.  [release_predefined_symbols] undoes [create_predefined_symbols]:
    whatever symbols the agent held, after the 88 makers and the 88
    releases the live symbols and their reference counts are as before the
    creation (no predefined symbol is left behind, none that lived before is
    lost), every table has the items and the count it had, and all the
    members are [NIL]. *)
Theorem release_predefined_symbols_balances (a : agent) (m : gmap string Z) :
  agent_wf a ->
  (forall x s, heap a !! x = Some s ->
     1 <= reference_count s /\ reference_count s + 88 < 2 ^ 64) ->
  let created := create_predefined_symbols a m in
  let released := release_predefined_symbols (fst created) (snd created) in
  heap (fst released) = heap a
  /\ (forall k, all_items (table k (fst released)) ≡ₚ all_items (table k a))
  /\ (forall k, count (table k (fst released)) = count (table k a))
  /\ (forall member, member ∈ released_members -> snd released !! member = Some 0).
Proof.
  intros Hwf Hrc. cbv zeta. unfold create_predefined_symbols, release_predefined_symbols.
  destruct (assign_predefined_steps predefined_symbols a m predefined_symbols_NoDup)
    as (H1 & H2 & _ & _).
  set (created := foldl assign_predefined (a, m) predefined_symbols) in *.
  destruct (release_helper_steps released_members (fst created) (snd created)
              released_members_NoDup) as (R1 & R2 & _).
  rewrite R1, H1.
  destruct (intern_all_release_all_balance a (snd <$> predefined_symbols)
              (member_value (snd created) <$> released_members) Hwf) as [Hwf2 Hh].
  - rewrite predefined_symbols_count. exact Hrc.
  - rewrite predefined_symbols_count. reflexivity.
  - rewrite <- H2. apply fmap_Permutation. apply released_members_perm.
  - split; [exact Hh|]. split; [|split].
    + intros k. now apply (same_heap_same_items a _ k Hwf Hwf2 Hh).
    + intros k. now apply (same_heap_same_items a _ k Hwf Hwf2 Hh).
    + exact R2.
Qed.

(** A check of every live symbol, by evaluation. *)
Lemma heap_forallb (P : Symbol -> bool) (hp : gmap Z Symbol) :
  forallb (fun p : Z * Symbol => P (snd p)) (map_to_list hp) = true ->
  forall x s, hp !! x = Some s -> P s = true.
Proof.
  rewrite forallb_forall. intros H x s Hx.
  apply elem_of_map_to_list, list_elem_of_In in Hx. exact (H _ Hx).
Qed.

Lemma reference_counts_leave_room (n : Z) (hp : gmap Z Symbol) :
  forallb (fun p : Z * Symbol =>
             (1 <=? reference_count (snd p)) && (reference_count (snd p) + n <? 2 ^ 64))
          (map_to_list hp) = true ->
  forall x s, hp !! x = Some s ->
    1 <= reference_count s /\ reference_count s + n < 2 ^ 64.
Proof.
  intros H x s Hx.
  pose proof (heap_forallb (fun s => (1 <=? reference_count s)
                                     && (reference_count s + n <? 2 ^ 64)) hp H x s Hx) as E.
  cbn in E. apply andb_true_iff in E as [E1 E2].
  apply Z.leb_le in E1. apply Z.ltb_lt in E2. now split.
Qed.

Lemma intern_all_release_all_witness :
  let a := example_reachable_agent in
  let rs := [intern_sym_constant "state"; intern_variable "<s>"; make_identifier "s" 1 0;
             intern_sym_constant "state"; intern_int 7] in
  heap (release_all (rev (snd (intern_all rs a))) (fst (intern_all rs a))) = heap a.
Proof.
  cbv zeta.
  refine (proj1 (intern_all_release_all example_reachable_agent _ _
                   (inv_wf _ (reachable_inv _ example_reachable_agent_reachable))
                   _ _ _)).
  - apply (reference_counts_leave_room 5). vm_compute. reflexivity.
  - reflexivity.
  - symmetry. apply Permutation_rev.
Defined.

Lemma release_predefined_symbols_balances_witness :
  let a := example_reachable_agent in
  let created := create_predefined_symbols a ∅ in
  let released := release_predefined_symbols (fst created) (snd created) in
  heap (fst released) = heap a.
Proof.
  cbv zeta.
  refine (proj1 (release_predefined_symbols_balances example_reachable_agent ∅
                   (inv_wf _ (reachable_inv _ example_reachable_agent_reachable)) _)).
  apply (reference_counts_leave_room 88). vm_compute. reflexivity.
Defined.

(** A maker keeps every symbol that lives, with its variant part. *)
Lemma intern_keeps (a : agent) (r : intern_request) (y : addr) (s : Symbol) :
  agent_wf a -> heap a !! y = Some s ->
  exists s', heap (fst (intern a r)) !! y = Some s' /\ data s' = data s.
Proof.
  intros Hwf Hy. destruct (intern_heap a r Hwf) as [(s0 & H0 & ->)|(H0 & s0 & _ & ->)].
  - destruct (Z.eq_dec (snd (intern a r)) y) as [E|E].
    + rewrite E in *. rewrite lookup_insert_eq. rewrite Hy in H0. injection H0 as <-.
      eexists. split; reflexivity.
    + rewrite lookup_insert_ne by assumption. eauto.
  - assert (snd (intern a r) <> y) by congruence.
    rewrite lookup_insert_ne by assumption. eauto.
Qed.

Lemma intern_all_wf (rs : list intern_request) :
  forall a, agent_wf a -> agent_wf (fst (intern_all rs a)).
Proof.
  induction rs as [|r rs IH]; intros a Hwf; [assumption|].
  cbn [intern_all]. pose proof (intern_wf a r Hwf) as Hwf'.
  destruct (intern a r) as [a1 x]. specialize (IH a1 Hwf').
  now destruct (intern_all rs a1).
Qed.

Lemma intern_all_keeps (rs : list intern_request) :
  forall a y s, agent_wf a -> heap a !! y = Some s ->
    exists s', heap (fst (intern_all rs a)) !! y = Some s' /\ data s' = data s.
Proof.
  induction rs as [|r rs IH]; intros a y s Hwf Hy; [eauto|].
  cbn [intern_all]. pose proof (intern_wf a r Hwf) as Hwf'.
  destruct (intern_keeps a r y s Hwf Hy) as (s1 & H1 & D1).
  destruct (intern a r) as [a1 x]. cbn [fst] in *.
  destruct (IH a1 y s1 Hwf' H1) as (s2 & H2 & D2).
  destruct (intern_all rs a1) as [a2 xs]. cbn [fst] in *.
  exists s2. split; [assumption|]. congruence.
Qed.

(** The requests that look a key up, a NaN apart. *)
Definition looks_up (r : intern_request) : bool :=
  match r with
  | intern_variable _ | intern_sym_constant _ | intern_int _ => true
  | intern_float value => match value with S754_nan => false | _ => true end
  | make_identifier _ _ _ => false
  end.

Lemma looks_up_spec (r : intern_request) :
  looks_up r = true -> is_interning r /\ query_of r <> fc S754_nan.
Proof.
  destruct r as [name|name|value|value|letter lvl number]; cbn; intros H;
    try (split; [exact I | discriminate]); try discriminate H.
  split; [exact I|]. intros [= ->]. discriminate H.
Qed.

(** The symbol a maker returns bears the key asked for. *)
Lemma intern_returns (a : agent) (r : intern_request) :
  agent_wf a -> looks_up r = true ->
  exists s, heap (fst (intern a r)) !! snd (intern a r) = Some s
            /\ same_key (query_of r) (data s) = true.
Proof.
  intros Hwf Hr. apply looks_up_spec in Hr as [Hr Hnan].
  destruct (intern_cases a r Hr) as [(x & F & E)|[F E]]; rewrite E; cbn [fst snd].
  - destruct (found_by_Some a r x F) as (s & Hs & Hk).
    exists (set_reference_count (uint64 (reference_count s + 1)) s). split; [|exact Hk].
    unfold symbol_add_ref. rewrite Hs. cbn. apply lookup_insert_eq.
  - eexists. split; [apply new_symbol_lookup|]. cbn [fresh_symbol data].
    now apply same_key_refl.
Qed.

Lemma intern_all_returns (rs : list intern_request) :
  forall a, agent_wf a -> forallb looks_up rs = true ->
    forall i r x, rs !! i = Some r -> snd (intern_all rs a) !! i = Some x ->
      exists s, heap (fst (intern_all rs a)) !! x = Some s
                /\ same_key (query_of r) (data s) = true.
Proof.
  induction rs as [|r0 rs IH]; intros a Hwf Hall i r x Hr Hx; [discriminate|].
  cbn [forallb] in Hall. apply andb_true_iff in Hall as [H0 Hall].
  cbn [intern_all] in *.
  pose proof (intern_wf a r0 Hwf) as Hwf'.
  pose proof (intern_returns a r0 Hwf H0) as Hret.
  destruct (intern a r0) as [a1 x0]. cbn [fst snd] in *.
  specialize (IH a1 Hwf' Hall).
  pose proof (intern_all_keeps rs a1) as Hkeep.
  destruct (intern_all rs a1) as [a2 xs]. cbn [fst snd] in *.
  destruct i as [|i]; cbn in Hr, Hx.
  - injection Hr as <-. injection Hx as <-.
    destruct Hret as (s & Hs & Hk).
    destruct (Hkeep x0 s Hwf' Hs) as (s' & Hs' & Hd). exists s'. split; [assumption|].
    now rewrite Hd.
  - now apply (IH i r x).
Qed.

Lemma intern_all_inv (rs : list intern_request) :
  forall a, interner_inv a -> forallb looks_up rs = true ->
    interner_inv (fst (intern_all rs a)).
Proof.
  induction rs as [|r rs IH]; intros a Hinv Hall; [assumption|].
  cbn [forallb] in Hall. apply andb_true_iff in Hall as [H0 Hall].
  cbn [intern_all].
  pose proof (intern_inv a r Hinv (proj1 (looks_up_spec r H0))) as Hinv'.
  destruct (intern a r) as [a1 x]. specialize (IH a1 Hinv' Hall).
  now destruct (intern_all rs a1).
Qed.

(** The symbol bears the name the request asks for. *)
Definition request_names (r : intern_request) (s : Symbol) : Prop :=
  match r with
  | intern_variable name => exists g, data s = var name g
  | intern_sym_constant name => exists p, data s = sc name p
  | _ => False
  end.

Lemma predefined_symbols_look_up : forallb looks_up (snd <$> predefined_symbols) = true.
Proof. vm_compute. reflexivity. Qed.

Lemma predefined_symbols_are_names (member : string) (r : intern_request) :
  (member, r) ∈ predefined_symbols ->
  match r with intern_variable _ | intern_sym_constant _ => True | _ => False end.
Proof.
  intros H.
  assert (A : forallb (fun e : string * intern_request =>
                         match snd e with
                         | intern_variable _ | intern_sym_constant _ => true
                         | _ => false
                         end) predefined_symbols = true) by (vm_compute; reflexivity).
  rewrite forallb_forall in A. apply list_elem_of_In in H. specialize (A _ H). cbn in A.
  now destruct r.
Qed.

(** X18.  After [create_predefined_symbols], under the invariant of the
    interner: every member holds a live symbol of the kind and name the
    source gives it, the one a lookup of that name returns; so members given
    the same name (such as [epmem_sym_cmd] and [smem_sym_cmd], both
    "command") hold the same symbol; and every symbol that lived before
    still lives, its variant part untouched. *)
Theorem create_predefined_symbols_spec (a : agent) (m : gmap string Z) :
  interner_inv a ->
  let created := create_predefined_symbols a m in
  (forall member r, (member, r) ∈ predefined_symbols ->
     exists x s, snd created !! member = Some x
                 /\ heap (fst created) !! x = Some s
                 /\ request_names r s
                 /\ found_by (fst created) r = Some x)
  /\ (forall member member' r,
        (member, r) ∈ predefined_symbols -> (member', r) ∈ predefined_symbols ->
        snd created !! member = snd created !! member')
  /\ (forall y s, heap a !! y = Some s ->
        exists s', heap (fst created) !! y = Some s' /\ data s' = data s).
Proof.
  intros Hinv. cbv zeta. unfold create_predefined_symbols.
  pose proof (inv_wf a Hinv) as Hwf.
  destruct (assign_predefined_steps predefined_symbols a m predefined_symbols_NoDup)
    as (H1 & H2 & _ & H4).
  pose proof (intern_all_inv _ a Hinv predefined_symbols_look_up) as Hinv1.
  pose proof (intern_all_returns _ a Hwf predefined_symbols_look_up) as Hret.
  pose proof (intern_all_keeps (snd <$> predefined_symbols) a) as Hkeep.
  set (created := foldl assign_predefined (a, m) predefined_symbols) in *.
  rewrite <- H1 in Hinv1, Hret, Hkeep. rewrite <- H2 in Hret. clearbody created.
  assert (M : forall member r, (member, r) ∈ predefined_symbols ->
            exists x s, snd created !! member = Some x
                        /\ heap (fst created) !! x = Some s
                        /\ request_names r s
                        /\ found_by (fst created) r = Some x).
  { intros member r Hin.
    pose proof (predefined_symbols_are_names member r Hin) as Hname.
    apply list_elem_of_lookup_1 in Hin as [i Hi].
    destruct (H4 member) as [x Hx].
    { apply list_elem_of_fmap. exists (member, r). split; [reflexivity|].
      now apply list_elem_of_lookup_2 in Hi. }
    destruct (Hret i r x) as (s & Hs & Hk).
    { rewrite list_lookup_fmap, Hi. reflexivity. }
    { rewrite !list_lookup_fmap, Hi. cbn. unfold member_value. now rewrite Hx. }
    exists x, s. split; [assumption|]. split; [assumption|]. split.
    - destruct r as [name|name| | |]; try contradiction; cbn in Hk |- *;
        destruct (data s) as [n g | | n p | |]; try discriminate;
        apply String.eqb_eq in Hk; subst n; eauto.
    - apply (found_by_live_key _ r x s Hinv1); [|assumption|assumption].
      now destruct r. }
  split; [exact M|]. split.
  - intros member member' r Hin Hin'.
    destruct (M member r Hin) as (x & s & Hx & _ & _ & F).
    destruct (M member' r Hin') as (x' & s' & Hx' & _ & _ & F').
    rewrite Hx, Hx'. congruence.
  - intros y s Hy. now apply Hkeep.
Qed.

Lemma create_predefined_symbols_spec_witness :
  let created := create_predefined_symbols example_reachable_agent ∅ in
  interner_inv example_reachable_agent
  /\ snd created !! "epmem_sym_cmd"%string = snd created !! "smem_sym_cmd"%string.
Proof.
  cbv zeta.
  pose proof (reachable_inv _ example_reachable_agent_reachable) as Hinv.
  split; [exact Hinv|].
  apply (proj1 (proj2 (create_predefined_symbols_spec example_reachable_agent ∅ Hinv))
           _ _ (intern_sym_constant "command")).
  - now apply (list_elem_of_lookup_2 _ 40).
  - now apply (list_elem_of_lookup_2 _ 69).
Defined.

(** ** symtab.cpp: the names [make_new_identifier] hands out *)

(** X19.  [make_new_identifier] does not look the name up; what keeps the
    names of identifiers apart is the counter of the letter.  Under the
    invariant of the interner, when the number comes from the counter or is
    given and not below it, no live identifier had the letter and number
    before the call, [find_identifier] returns the new identifier for them
    after it, and the new identifier carries the greatest number of all
    live identifiers of its letter. *)
Theorem make_new_identifier_new_name (a : agent) (letter : ascii) (lvl number : Z) :
  interner_inv a -> numbering_respected a letter number ->
  let L := normalize_letter letter in
  let n := assigned_number a letter number in
  let a' := fst (make_new_identifier a letter lvl number) in
  let x := snd (make_new_identifier a letter lvl number) in
  find_identifier a L n = None
  /\ find_identifier a' L n = Some x
  /\ (forall y s i, heap a' !! y = Some s -> data s = id i -> name_letter i = L ->
        y <> x -> name_number i < n).
Proof.
  intros Hinv Hnum. cbv zeta.
  pose proof (make_new_identifier_inv a letter lvl number Hinv Hnum) as Hinv'.
  destruct Hinv as [Hwf Hu Hb Hc].
  destruct (advanced_counters_spec a letter number Hc Hnum) as (Hle & Hat & Hother).
  set (L := normalize_letter letter) in *. set (n := assigned_number a letter number) in *.
  assert (Hold : forall y s i, heap a !! y = Some s -> data s = id i -> name_letter i = L ->
                   name_number i < n).
  { intros y s i Hy Hd Hl. destruct (Hb y s i Hy Hd) as [_ Hlt]. rewrite Hl in Hlt. lia. }
  split; [|split].
  - destruct (find_identifier a L n) as [y|] eqn:F; [|reflexivity]. exfalso.
    apply find_in_chain_Some in F as (_ & s & Hs & Hm).
    destruct (data s) as [| i | | |] eqn:Ed; try discriminate.
    apply andb_true_iff in Hm as [H1 H2].
    apply Ascii.eqb_eq in H1. apply Z.eqb_eq in H2.
    specialize (Hold y s i Hs Ed (eq_sym H1)). lia.
  - pose proof (make_new_identifier_lookup a letter lvl number) as Hx.
    fold L n in Hx.
    apply (find_in_chain_live_key _ (id (identifier_key_record L n)) _ _ Hinv' Hx).
    cbn. rewrite Ascii.eqb_refl. apply Z.eqb_refl.
  - intros y s i Hy Hd Hl Hne. apply (Hold y s i); [|assumption|assumption].
    rewrite make_new_identifier_steps in Hy, Hne. rewrite new_symbol_addr in Hne.
    rewrite new_symbol_heap in Hy. cbn [data_kind] in Hy, Hne.
    rewrite lookup_insert_ne in Hy by congruence. exact Hy.
Qed.

Lemma make_new_identifier_new_name_witness :
  find_identifier example_reachable_agent "Q" 52 = None
  /\ find_identifier (fst (make_new_identifier example_reachable_agent "q" 3 0)) "Q" 52
     = Some (snd (make_new_identifier example_reachable_agent "q" 3 0)).
Proof.
  pose proof (make_new_identifier_new_name example_reachable_agent "q" 3 0
                (reachable_inv _ example_reachable_agent_reachable)) as H.
  cbv zeta in H.
  replace (assigned_number example_reachable_agent "q" 0) with 52 in H
    by (vm_compute; reflexivity).
  change (normalize_letter "q") with "Q"%char in H.
  assert (N : numbering_respected example_reachable_agent "q" 0).
  { unfold numbering_respected. cbv zeta.
    replace (id_counter example_reachable_agent !!! letter_index (normalize_letter "q"))
      with 52 by (vm_compute; reflexivity).
    lia. }
  destruct (H N) as (H1 & H2 & _). split; assumption.
Defined.

(** ** ebc.cpp: the names of new rules *)

(** The loop of [generate_new_sym_constant] breaks only on a name that is
    not interned. *)
Lemma generate_new_sym_constant_name_free (fuel : nat) :
  forall (a : agent) (prefix : string) (counter : Z) (name : string) (counter' : Z),
    generate_new_sym_constant_name fuel a prefix counter = Some (name, counter') ->
    find_sym_constant a name = None.
Proof.
  induction fuel as [|fuel IH]; intros a prefix counter name counter' H;
    cbn [generate_new_sym_constant_name] in H; [discriminate|]. cbv zeta in H.
  destruct (find_sym_constant a (snprintf 2000 (prefix ++ to_string counter))) eqn:F.
  - exact (IH _ _ _ _ _ H).
  - injection H as <- _. exact F.
Qed.

(** So the symbol it returns is always created, never found. *)
Lemma generate_new_sym_constant_creates (fuel : nat) (a : agent) (prefix : string)
    (counter : Z) (a' : agent) (sym : addr) (counter' : Z) :
  generate_new_sym_constant fuel a prefix counter = Some (a', sym, counter') ->
  exists name, find_sym_constant a name = None /\ new_symbol a (sc name None) = (a', sym).
Proof.
  unfold generate_new_sym_constant. intros H.
  destruct (generate_new_sym_constant_name fuel a prefix counter) as [[name c]|] eqn:G;
    [|discriminate].
  pose proof (generate_new_sym_constant_name_free _ _ _ _ _ _ G) as F.
  exists name. split; [exact F|].
  unfold make_sym_constant in H. rewrite F in H.
  destruct (new_symbol a (sc name None)) as [a1 x]. now injection H as <- <- _.
Qed.

(** What the creation of a symbolic constant changes. *)
Lemma new_sym_constant_frame (a : agent) (name : string) (a' : agent) (sym : addr) :
  agent_wf a -> new_symbol a (sc name None) = (a', sym) ->
  heap a !! sym = None
  /\ heap a' !! sym
     = Some (fresh_symbol (sc name None) (uint32 (current_symbol_hash_id a + 137)))
  /\ find_sym_constant a' name = Some sym
  /\ (forall y, y <> sym -> heap a' !! y = heap a !! y).
Proof.
  intros Hwf E.
  pose proof (alloc_addr_fresh SYM_CONSTANT_SYMBOL_TYPE a Hwf) as Hfresh.
  pose proof (new_symbol_lookup a (sc name None)) as L.
  pose proof (find_new_sym_constant a name) as F.
  pose proof (new_symbol_heap a (sc name None)) as Hh.
  pose proof (new_symbol_addr a (sc name None)) as Ha.
  rewrite E in L, F, Hh, Ha. cbn [fst snd data_kind] in *. subst sym.
  repeat split; try assumption.
  intros y Hy. rewrite Hh. now rewrite lookup_insert_ne by congruence.
Qed.

(** X20.  Whenever [generate_name_for_new_rule] returns a symbol, in either
    format, the symbol is a new one: its address held no symbol before, its
    name was not interned before and is found under it afterwards, it is a
    symbolic constant with reference count 1, and no other symbol has
    changed.  Naming a rule never advances the counts of rules of the
    decision cycle, and naming a chunk never uses up a justification number
    nor the other way round. *)
Theorem generate_name_for_new_rule_new_symbol
    (fuel : nat) (e : Explanation_Based_Chunker) (a : agent)
    (e' : Explanation_Based_Chunker) (a' : agent) (sym : addr) :
  agent_wf a ->
  generate_name_for_new_rule fuel e a = Done (e', a', sym) ->
  (exists name,
     find_sym_constant a name = None
     /\ heap a !! sym = None
     /\ heap a' !! sym
        = Some (fresh_symbol (sc name None) (uint32 (current_symbol_hash_id a + 137)))
     /\ find_sym_constant a' name = Some sym
     /\ (forall y, y <> sym -> heap a' !! y = heap a !! y))
  /\ chunks_this_d_cycle e' = chunks_this_d_cycle e
  /\ justifications_this_d_cycle e' = justifications_this_d_cycle e
  /\ (m_rule_type e = ebc_chunk ->
      justification_naming_counter e' = justification_naming_counter e)
  /\ (m_rule_type e <> ebc_chunk -> chunk_naming_counter e' = chunk_naming_counter e).
Proof.
  intros Hwf H.
  destruct (SETTING_EBC_LEARNING_ON (ebc_settings e)) eqn:Hon;
    [destruct (naming_style e) eqn:Hstyle|].
  2: { rewrite generate_name_descriptive in H by assumption.
       unfold descriptive_format in H.
       destruct (m_inst e) as [inst|]; [|discriminate].
       destruct (with_chunk_depth e inst) as [e1|] eqn:Hd; [|discriminate].
       destruct (impasse_above a inst) as [t|]; [|discriminate]. cbv zeta in H.
       assert (He : chunks_this_d_cycle e1 = chunks_this_d_cycle e
                    /\ justifications_this_d_cycle e1 = justifications_this_d_cycle e
                    /\ justification_naming_counter e1 = justification_naming_counter e
                    /\ chunk_naming_counter e1 = chunk_naming_counter e).
       { unfold with_chunk_depth in Hd.
         destruct (prod inst), (m_chunk_inst e); try discriminate;
           injection Hd as <-; repeat split. }
       destruct He as (T1 & T2 & T3 & T4).
       destruct (find_sym_constant a (descriptive_name e a inst t)) eqn:F.
       - destruct (generate_new_sym_constant fuel a (descriptive_name e a inst t) 2)
           as [[[a1 x] c]|] eqn:G; [|discriminate].
         injection H as <- <- <-.
         destruct (generate_new_sym_constant_creates _ _ _ _ _ _ _ G) as (name & Hfree & N).
         split; [exists name; split; [exact Hfree | now apply new_sym_constant_frame]|].
         auto.
       - destruct (new_symbol a (sc (descriptive_name e a inst t) None)) as [a1 x] eqn:N.
         injection H as <- <- <-.
         split; [eexists; split; [exact F | now apply new_sym_constant_frame]|].
         auto. }
  all: rewrite generate_name_numbered in H by (first [now right | now left]);
    unfold numbered_format in H;
    destruct (generate_new_sym_constant fuel a (rule_prefix e)
                (increment_counter (rule_naming_counter e))) as [[[a1 x] c]|] eqn:G;
    [|discriminate]; injection H as <- <- <-;
    destruct (generate_new_sym_constant_creates _ _ _ _ _ _ _ G) as (name & Hfree & N);
    (split; [exists name; split; [exact Hfree | now apply new_sym_constant_frame]|]);
    unfold set_rule_naming_counter, is_chunk;
    destruct (m_rule_type e); repeat split; intros; congruence.
Qed.

Lemma generate_name_for_new_rule_new_symbol_witness :
  exists e' a' sym,
    generate_name_for_new_rule 2 (example_chunker numberedFormat 7 None)
      (fst (make_sym_constant init_symbol_tables "chunk8"))
    = Done (e', a', sym)
    /\ heap (fst (make_sym_constant init_symbol_tables "chunk8")) !! sym = None
    /\ chunks_this_d_cycle e' = 3.
Proof.
  assert (Hwf : agent_wf (fst (make_sym_constant init_symbol_tables "chunk8"))).
  { apply inv_wf. apply (reachable_inv (apply_op init_symbol_tables
                                           (op_make_sym_constant "chunk8"))).
    apply reachable_step; [apply reachable_init | exact I]. }
  destruct (generate_name_for_new_rule 2 (example_chunker numberedFormat 7 None)
              (fst (make_sym_constant init_symbol_tables "chunk8")))
    as [[[e' a'] sym]| |] eqn:R.
  - exists e', a', sym. split; [reflexivity|].
    destruct (generate_name_for_new_rule_new_symbol _ _ _ _ _ _ Hwf R)
      as ((name & _ & H & _) & T & _).
    split; [exact H | exact T].
  - exfalso. vm_compute in R. discriminate.
  - exfalso. vm_compute in R. discriminate.
Defined.

(** X21.  The descriptive format when the composed name is taken: the
    function appends a number to it, counting from 2 -- the counter is a
    local of the function set to 2 and is not advanced before the first
    try --, and returns the first of [name2], [name3], ... that is not
    interned.  The naming counters of the chunker are not used: they stay as
    they were. *)
Theorem descriptive_name_taken
    (n fuel : nat) (e : Explanation_Based_Chunker) (a : agent)
    (inst chunk_inst : instantiation) (t : impasse_kind) :
  SETTING_EBC_LEARNING_ON (ebc_settings e) = true ->
  naming_style e = descriptiveFormat ->
  m_inst e = Some inst -> m_chunk_inst e = Some chunk_inst ->
  impasse_above a inst = Some t ->
  let name := descriptive_name e a inst t in
  (String.length name <= 1979)%nat ->
  find_sym_constant a name <> None ->
  (forall i : nat, (i < n)%nat ->
     find_sym_constant a (name ++ to_string (2 + Z.of_nat i)) <> None) ->
  find_sym_constant a (name ++ to_string (2 + Z.of_nat n)) = None ->
  (n < fuel)%nat -> 2 + Z.of_nat n < 2 ^ 64 - 1 ->
  exists e' a' sym,
    generate_name_for_new_rule fuel e a = Done (e', a', sym)
    /\ symbol_to_string (heap a') sym = (name ++ to_string (2 + Z.of_nat n))%string
    /\ find_sym_constant a' (name ++ to_string (2 + Z.of_nat n)) = Some sym
    /\ chunk_naming_counter e' = chunk_naming_counter e
    /\ justification_naming_counter e' = justification_naming_counter e.
Proof.
  intros Hon Hstyle Hinst Hchunk Himp name Hlen Htaken Hnext Hfree Hfuel Hmax.
  rewrite generate_name_descriptive by assumption.
  unfold descriptive_format. rewrite Hinst, Himp.
  fold name.
  destruct (generate_new_sym_constant_first_free n fuel a name 2
              ltac:(lia) Hmax Hlen Hnext Hfree Hfuel)
    as (a' & sym & G & H1 & H2 & _).
  unfold with_chunk_depth. rewrite Hchunk.
  destruct (prod inst) as [p|]; cbv zeta; fold name;
    (destruct (find_sym_constant a name); [|congruence]);
    rewrite G; do 3 eexists; (split; [reflexivity|]); repeat split; assumption.
Qed.

Lemma descriptive_name_taken_witness :
  exists e' a' sym,
    generate_name_for_new_rule 2
      (example_chunker descriptiveFormat 0 (Some example_instantiation))
      (fst (make_sym_constant example_agent "chunk*mv*Tie*t42-3"))
    = Done (e', a', sym)
    /\ symbol_to_string (heap a') sym = "chunk*mv*Tie*t42-32"%string.
Proof.
  destruct (descriptive_name_taken 0 2
              (example_chunker descriptiveFormat 0 (Some example_instantiation))
              (fst (make_sym_constant example_agent "chunk*mv*Tie*t42-3"))
              example_instantiation
              {| prod := None; prod_name := 0; prod_naming_depth := 0;
                 match_goal := 1; match_goal_level := 1 |}
              TIE_IMPASSE_TYPE eq_refl eq_refl eq_refl eq_refl
              ltac:(vm_compute; reflexivity) ltac:(vm_compute; lia)
              ltac:(vm_compute; congruence) ltac:(intros i Hi; lia)
              ltac:(vm_compute; reflexivity) ltac:(lia) ltac:(lia))
    as (e' & a' & sym & H1 & H2 & _).
  exists e', a', sym. split; [exact H1|]. rewrite H2. vm_compute. reflexivity.
Defined.

(** ** ebc.cpp: [reinit] *)

(** [Explanation_Based_Chunker::reinit] (lines 90-120) on the members of the
    record: both naming counters go back to 0, the instantiations and the
    two lists of flagged states are dropped, the rule kind becomes
    [ebc_no_rule], and [m_learning_on_for_instantiation] takes the value of
    the learning setting.  The settings, the naming style and the prefixes
    are not assigned, nor are the counts of rules of the decision cycle. *)
Definition reinit (e : Explanation_Based_Chunker) : Explanation_Based_Chunker :=
  {| ebc_settings := ebc_settings e; naming_style := naming_style e;
     chunk_name_prefix := chunk_name_prefix e;
     justification_name_prefix := justification_name_prefix e;
     chunk_naming_counter := 0;
     justification_naming_counter := 0;
     chunks_this_d_cycle := chunks_this_d_cycle e;
     justifications_this_d_cycle := justifications_this_d_cycle e;
     m_rule_type := ebc_no_rule; m_inst := None; m_chunk_inst := None;
     chunk_free_problem_spaces := [];
     chunky_problem_spaces := [];
     m_learning_on_for_instantiation := SETTING_EBC_LEARNING_ON (ebc_settings e) |}.

(** X22.  The learning gate right after [reinit], before any state is
    flagged again: the lists of chunk-free and chunky states are empty, so
    the except mode refuses nothing and the only mode refuses everything.
    For an instantiation whose match goal is a live identifier [g] the gate
    answers [true] exactly when learning is on, the firing is below the top
    level, the only mode is off and, in bottom-only mode,
    [allow_bottom_up_chunks] is set; [reinit] itself leaves
    [m_learning_on_for_instantiation] equal to the learning setting. *)
Theorem reinit_then_set_learning_for_instantiation
    (e : Explanation_Based_Chunker) (a : agent) (inst : instantiation) (g : identifier) :
  identifier_at (heap a) (match_goal inst) = Some g ->
  m_learning_on_for_instantiation (reinit e) = SETTING_EBC_LEARNING_ON (ebc_settings e)
  /\ exists e' a' r,
       set_learning_for_instantiation (reinit e) a inst = Some (e', a', r)
       /\ (r = true <->
             SETTING_EBC_LEARNING_ON (ebc_settings e) = true
             /\ match_goal_level inst <> TOP_GOAL_LEVEL
             /\ SETTING_EBC_ONLY (ebc_settings e) = false
             /\ (SETTING_EBC_BOTTOM_ONLY (ebc_settings e) = true ->
                 allow_bottom_up_chunks g = true))
       /\ (SETTING_EBC_LEARNING_ON (ebc_settings e) = true ->
           match_goal_level inst <> TOP_GOAL_LEVEL ->
           SETTING_EBC_ONLY (ebc_settings e) = true ->
           a' = trace_refusal inst " was not flagged for learning" a).
Proof.
  intros Hg. split; [reflexivity|].
  unfold set_learning_for_instantiation. rewrite Hg.
  cbn [reinit ebc_settings chunk_free_problem_spaces chunky_problem_spaces].
  unfold member_of_list. cbn [existsb]. rewrite andb_false_r. cbn [negb].
  rewrite andb_true_r.
  destruct (SETTING_EBC_LEARNING_ON (ebc_settings e)); cbn [negb orb].
  2: { do 3 eexists. split; [reflexivity|]. split; [|discriminate].
       split; [discriminate | intros [H _]; discriminate]. }
  destruct (match_goal_level inst =? TOP_GOAL_LEVEL) eqn:Hl;
    [apply Z.eqb_eq in Hl | apply Z.eqb_neq in Hl].
  { do 3 eexists. split; [reflexivity|]. split; [|contradiction].
    split; [discriminate | intros (_ & H & _); contradiction]. }
  destruct (SETTING_EBC_ONLY (ebc_settings e)).
  { do 3 eexists. split; [reflexivity|]. split; [|reflexivity].
    split; [discriminate | intros (_ & _ & H & _); discriminate]. }
  destruct (SETTING_EBC_BOTTOM_ONLY (ebc_settings e)).
  - destruct (allow_bottom_up_chunks g); cbn [negb]; do 3 eexists;
      (split; [reflexivity|]); (split; [|discriminate]).
    + split; [now repeat split | reflexivity].
    + split; [discriminate | intros (_ & _ & _ & H); now specialize (H eq_refl)].
  - do 3 eexists. split; [reflexivity|]. split; [|discriminate].
    split; [intros _; repeat split; [assumption | discriminate] | reflexivity].
Qed.

Lemma reinit_then_set_learning_for_instantiation_witness :
  exists e' a' r,
    set_learning_for_instantiation (reinit (example_chunker descriptiveFormat 0 None))
      example_agent example_instantiation = Some (e', a', r)
    /\ r = true.
Proof.
  destruct (reinit_then_set_learning_for_instantiation
              (example_chunker descriptiveFormat 0 None)
              example_agent example_instantiation
              (as_lower_goal (Some 1) (new_identifier "S" 2 2))
              ltac:(vm_compute; reflexivity))
    as (_ & e' & a' & r & H1 & H2 & _).
  exists e', a', r. split; [exact H1|]. apply H2.
  repeat split; try reflexivity. vm_compute. discriminate.
Defined.

(** The assignment [m_rule_type = k], which [reinit] makes with
    [ebc_no_rule] (line 118) and which precedes the naming of a rule. *)
Definition set_m_rule_type (k : ebc_rule_type) (e : Explanation_Based_Chunker)
    : Explanation_Based_Chunker :=
  {| ebc_settings := ebc_settings e; naming_style := naming_style e;
     chunk_name_prefix := chunk_name_prefix e;
     justification_name_prefix := justification_name_prefix e;
     chunk_naming_counter := chunk_naming_counter e;
     justification_naming_counter := justification_naming_counter e;
     chunks_this_d_cycle := chunks_this_d_cycle e;
     justifications_this_d_cycle := justifications_this_d_cycle e;
     m_rule_type := k; m_inst := m_inst e; m_chunk_inst := m_chunk_inst e;
     chunk_free_problem_spaces := chunk_free_problem_spaces e;
     chunky_problem_spaces := chunky_problem_spaces e;
     m_learning_on_for_instantiation := m_learning_on_for_instantiation e |}.

(** X23.  [reinit] restarts the numbering of rule names but does not forget
    the names that are still interned.  In the numbered format the first
    rule named after [reinit] is [<prefix>1], whatever the counters were
    before; if [<prefix>1], ..., [<prefix>n] are still interned it is
    [<prefix>(n+1)].  The prefix is that of chunks for the kind [ebc_chunk]
    and that of justifications for every other kind, [ebc_no_rule] -- the
    kind [reinit] leaves -- included; the counter of the other prefix stays
    at 0. *)
Theorem reinit_restarts_numbering
    (n fuel : nat) (e : Explanation_Based_Chunker) (a : agent) (k : ebc_rule_type) :
  SETTING_EBC_LEARNING_ON (ebc_settings e) = false \/ naming_style e = numberedFormat ->
  let prefix := match k with
                | ebc_chunk => chunk_name_prefix e
                | _ => justification_name_prefix e
                end in
  (String.length prefix <= 1979)%nat ->
  Z.of_nat n + 1 < 2 ^ 64 - 1 ->
  (forall i : nat, (i < n)%nat ->
     find_sym_constant a (prefix ++ to_string (1 + Z.of_nat i)) <> None) ->
  find_sym_constant a (prefix ++ to_string (1 + Z.of_nat n)) = None ->
  (n < fuel)%nat ->
  exists e' a' sym,
    generate_name_for_new_rule fuel (set_m_rule_type k (reinit e)) a = Done (e', a', sym)
    /\ symbol_to_string (heap a') sym = (prefix ++ to_string (1 + Z.of_nat n))%string
    /\ find_sym_constant a' (prefix ++ to_string (1 + Z.of_nat n)) = Some sym
    /\ match k with
       | ebc_chunk =>
           chunk_naming_counter e' = Z.of_nat n + 2 /\ justification_naming_counter e' = 0
       | _ =>
           justification_naming_counter e' = Z.of_nat n + 2 /\ chunk_naming_counter e' = 0
       end.
Proof.
  intros Hmode prefix Hlen Hmax Htaken Hfree Hfuel.
  rewrite generate_name_numbered by exact Hmode. unfold numbered_format.
  assert (Ep : rule_prefix (set_m_rule_type k (reinit e)) = prefix) by now destruct k.
  assert (Ec : increment_counter (rule_naming_counter (set_m_rule_type k (reinit e))) = 1)
    by now destruct k.
  rewrite Ep, Ec.
  destruct (generate_new_sym_constant_first_free n fuel a prefix 1
              ltac:(lia) ltac:(lia) Hlen Htaken Hfree Hfuel)
    as (a' & sym & -> & Hname & Hfind & _).
  do 3 eexists. split; [reflexivity|]. split; [exact Hname|]. split; [exact Hfind|].
  destruct k; cbn; split; lia.
Qed.

Lemma reinit_restarts_numbering_witness :
  exists e' a' sym,
    generate_name_for_new_rule 2
      (set_m_rule_type ebc_chunk (reinit (example_chunker numberedFormat 7 None)))
      (fst (make_sym_constant init_symbol_tables "chunk1"))
    = Done (e', a', sym)
    /\ symbol_to_string (heap a') sym = "chunk2"%string
    /\ chunk_naming_counter e' = 3.
Proof.
  destruct (reinit_restarts_numbering 1 2 (example_chunker numberedFormat 7 None)
              (fst (make_sym_constant init_symbol_tables "chunk1")) ebc_chunk
              ltac:(now right) ltac:(vm_compute; lia) ltac:(lia)
              ltac:(intros [|i] Hi; [vm_compute; congruence | lia])
              ltac:(vm_compute; reflexivity) ltac:(lia))
    as (e' & a' & sym & H1 & H2 & _ & H3 & _).
  exists e', a', sym. split; [exact H1|]. split; [exact H2 | exact H3].
Defined.

(** ** ebc.cpp: [set_up_rule_name] *)

(** The entries of [thisAgent->trace_settings] the function reads. *)
Record trace_settings_array := {
  TRACE_CHUNK_NAMES_SYSPARAM : Z;
  TRACE_CHUNKS_SYSPARAM : Z;
  TRACE_JUSTIFICATION_NAMES_SYSPARAM : Z;
  TRACE_JUSTIFICATIONS_SYSPARAM : Z
}.

(** The two production types the function assigns. *)
Inductive production_type := CHUNK_PRODUCTION_TYPE | JUSTIFICATION_PRODUCTION_TYPE.

(** The members of the chunker the function assigns besides the counts. *)
Record rule_name_members := {
  m_prod_name : addr;
  m_prod_type : production_type;
  m_should_print_name : bool;
  m_should_print_prod : bool
}.

(** The names of [soar_TraceNames] and the calls to the output manager and
    the XML generator the function makes, recorded in the order of the
    calls. *)
Inductive trace_name := kTagLearning | kTagProduction | kProduction_Name.

Inductive output_call :=
  | start_fresh_line
  | printa_sf (format : string) (sym : addr)
  | xml_begin_tag (tag : trace_name)
  | xml_att_val (attribute : trace_name) (sym : addr)
  | xml_end_tag (tag : trace_name).

Definition set_chunks_this_d_cycle (x : Z) (e : Explanation_Based_Chunker)
    : Explanation_Based_Chunker :=
  {| ebc_settings := ebc_settings e; naming_style := naming_style e;
     chunk_name_prefix := chunk_name_prefix e;
     justification_name_prefix := justification_name_prefix e;
     chunk_naming_counter := chunk_naming_counter e;
     justification_naming_counter := justification_naming_counter e;
     chunks_this_d_cycle := x;
     justifications_this_d_cycle := justifications_this_d_cycle e;
     m_rule_type := m_rule_type e; m_inst := m_inst e; m_chunk_inst := m_chunk_inst e;
     chunk_free_problem_spaces := chunk_free_problem_spaces e;
     chunky_problem_spaces := chunky_problem_spaces e;
     m_learning_on_for_instantiation := m_learning_on_for_instantiation e |}.

Definition set_justifications_this_d_cycle (x : Z) (e : Explanation_Based_Chunker)
    : Explanation_Based_Chunker :=
  {| ebc_settings := ebc_settings e; naming_style := naming_style e;
     chunk_name_prefix := chunk_name_prefix e;
     justification_name_prefix := justification_name_prefix e;
     chunk_naming_counter := chunk_naming_counter e;
     justification_naming_counter := justification_naming_counter e;
     chunks_this_d_cycle := chunks_this_d_cycle e;
     justifications_this_d_cycle := x;
     m_rule_type := m_rule_type e; m_inst := m_inst e; m_chunk_inst := m_chunk_inst e;
     chunk_free_problem_spaces := chunk_free_problem_spaces e;
     chunky_problem_spaces := chunky_problem_spaces e;
     m_learning_on_for_instantiation := m_learning_on_for_instantiation e |}.

(** [Explanation_Based_Chunker::set_up_rule_name] (lines 258-292): the count
    of the rule's kind goes up by one, then the rule is named; the chunker,
    the agent, the members assigned and the output calls made.  The call
    under [EBC_DEBUG_STATISTICS] updates a statistic of the explanation
    memory and has no counterpart. *)
Definition set_up_rule_name (fuel : nat) (trace_settings : trace_settings_array)
    (e : Explanation_Based_Chunker) (a : agent)
    : result (Explanation_Based_Chunker * agent * rule_name_members * list output_call) :=
  let announce (print_name : bool) (name : addr) :=
    if print_name
    then [start_fresh_line;
          printa_sf (NEWLINE ++ "Learning new rule %y" ++ NEWLINE) name;
          xml_begin_tag kTagLearning; xml_begin_tag kTagProduction;
          xml_att_val kProduction_Name name;
          xml_end_tag kTagProduction; xml_end_tag kTagLearning]
    else [] in
  match m_rule_type e with
  | ebc_chunk =>
      let e := set_chunks_this_d_cycle (uint64 (chunks_this_d_cycle e + 1)) e in
      match generate_name_for_new_rule fuel e a with
      | Done (e, a, name) =>
          let print_name := negb (TRACE_CHUNK_NAMES_SYSPARAM trace_settings =? 0) in
          let print_prod := negb (TRACE_CHUNKS_SYSPARAM trace_settings =? 0) in
          Done (e, a,
                {| m_prod_name := name; m_prod_type := CHUNK_PRODUCTION_TYPE;
                   m_should_print_name := print_name; m_should_print_prod := print_prod |},
                announce print_name name)
      | OutOfFuel => OutOfFuel
      | NullDereference => NullDereference
      end
  | _ =>
      let e := set_justifications_this_d_cycle
                 (uint64 (justifications_this_d_cycle e + 1)) e in
      match generate_name_for_new_rule fuel e a with
      | Done (e, a, name) =>
          let print_name :=
            negb (TRACE_JUSTIFICATION_NAMES_SYSPARAM trace_settings =? 0) in
          let print_prod := negb (TRACE_JUSTIFICATIONS_SYSPARAM trace_settings =? 0) in
          Done (e, a,
                {| m_prod_name := name; m_prod_type := JUSTIFICATION_PRODUCTION_TYPE;
                   m_should_print_name := print_name; m_should_print_prod := print_prod |},
                announce print_name name)
      | OutOfFuel => OutOfFuel
      | NullDereference => NullDereference
      end
  end.

(** The composed name with the count [k] of the decision cycle. *)
Definition descriptive_name_with (e : Explanation_Based_Chunker) (a : agent)
    (inst : instantiation) (t : impasse_kind) (k : Z) : string :=
  (rule_prefix e ++ learning_depth_segment inst ++ impasse_type_segment t
   ++ time_segment a k)%string.

(** Two counts give two names. *)
Lemma descriptive_name_with_inj (e : Explanation_Based_Chunker) (a : agent)
    (inst : instantiation) (t : impasse_kind) (k k' : Z) :
  0 <= k < 2 ^ 64 -> 0 <= k' < 2 ^ 64 ->
  descriptive_name_with e a inst t k = descriptive_name_with e a inst t k' -> k = k'.
Proof.
  intros Hk Hk' E. unfold descriptive_name_with, time_segment in E. cbv zeta in E.
  do 7 apply string_app_inv_head in E. now apply to_string_inj.
Qed.

(** The creation of a symbol leaves every live identifier as it was. *)
Lemma new_symbol_identifier_at (a : agent) (d : symbol_data) (x : addr) (i : identifier) :
  agent_wf a -> identifier_at (heap a) x = Some i ->
  identifier_at (heap (fst (new_symbol a d))) x = Some i.
Proof.
  intros Hwf H. unfold identifier_at in *. rewrite new_symbol_heap.
  pose proof (alloc_addr_fresh (data_kind d) a Hwf) as Hfresh.
  destruct (Z.eq_dec (alloc_addr (data_kind d) a) x) as [<-|Hne].
  - now rewrite Hfresh in H.
  - now rewrite lookup_insert_ne by assumption.
Qed.

Lemma new_symbol_impasse_above (a : agent) (d : symbol_data) (inst : instantiation)
    (t : impasse_kind) :
  agent_wf a -> impasse_above a inst = Some t ->
  impasse_above (fst (new_symbol a d)) inst = Some t.
Proof.
  intros Hwf H. unfold impasse_above in *.
  destruct (identifier_at (heap a) (match_goal inst)) as [g|] eqn:Hg; [|discriminate].
  rewrite (new_symbol_identifier_at a d _ g Hwf Hg).
  destruct (higher_goal g) as [h|]; [|discriminate].
  destruct (identifier_at (heap a) h) as [hg|] eqn:Hh; [|discriminate].
  now rewrite (new_symbol_identifier_at a d _ hg Hwf Hh).
Qed.

Lemma new_symbol_time_segment (a : agent) (d : symbol_data) (k : Z) :
  time_segment (fst (new_symbol a d)) k = time_segment a k.
Proof.
  unfold time_segment. rewrite new_symbol_steps. cbn.
  unfold alloc_state, allocate_with_pool. now destruct (free_list _).
Qed.

(** A name that is not interned stays so when another name is. *)
Lemma new_sym_constant_other_name (a : agent) (name other : string) :
  interner_inv a -> name <> other -> find_sym_constant a other = None ->
  find_sym_constant (fst (new_symbol a (sc name None))) other = None.
Proof.
  intros Hinv Hne Hfree.
  destruct (find_sym_constant (fst (new_symbol a (sc name None))) other) as [x|] eqn:F;
    [|reflexivity].
  exfalso. apply find_in_chain_Some in F as (_ & s & Hs & Hm).
  rewrite new_symbol_heap in Hs. cbn [data_kind] in Hs.
  destruct (Z.eq_dec (alloc_addr SYM_CONSTANT_SYMBOL_TYPE a) x) as [<-|Hx].
  - rewrite lookup_insert_eq in Hs. injection Hs as <-. cbn in Hm.
    apply String.eqb_eq in Hm. congruence.
  - rewrite lookup_insert_ne in Hs by assumption.
    assert (F : find_sym_constant a other = Some x).
    { apply (find_in_chain_live_key a (sc other None) x s Hinv Hs). exact Hm. }
    rewrite Hfree in F. discriminate.
Qed.

(** One call in the descriptive format, the composed name being free. *)
Lemma set_up_rule_name_descriptive (fuel : nat) (trace_settings : trace_settings_array)
    (e : Explanation_Based_Chunker) (a : agent) (inst chunk_inst : instantiation)
    (t : impasse_kind) :
  SETTING_EBC_LEARNING_ON (ebc_settings e) = true ->
  naming_style e = descriptiveFormat ->
  m_inst e = Some inst -> m_chunk_inst e = Some chunk_inst ->
  impasse_above a inst = Some t ->
  0 <= rule_number e -> rule_number e + 1 < 2 ^ 64 ->
  let name := descriptive_name_with e a inst t (rule_number e + 1) in
  find_sym_constant a name = None ->
  exists e1 r1 out1,
    set_up_rule_name fuel trace_settings e a
    = Done (e1, fst (new_symbol a (sc name None)), r1, out1)
    /\ m_prod_name r1 = snd (new_symbol a (sc name None))
    /\ ebc_settings e1 = ebc_settings e /\ naming_style e1 = naming_style e
    /\ m_inst e1 = m_inst e /\ (exists chunk_inst1, m_chunk_inst e1 = Some chunk_inst1)
    /\ rule_prefix e1 = rule_prefix e /\ rule_number e1 = rule_number e + 1
    /\ chunk_naming_counter e1 = chunk_naming_counter e
    /\ justification_naming_counter e1 = justification_naming_counter e.
Proof.
  intros Hon Hstyle Hinst Hchunk Himp H0 Hmax name Hfree.
  assert (G : forall e0,
            ebc_settings e0 = ebc_settings e -> naming_style e0 = naming_style e ->
            m_inst e0 = m_inst e -> m_chunk_inst e0 = m_chunk_inst e ->
            rule_prefix e0 = rule_prefix e -> rule_number e0 = rule_number e + 1 ->
            chunk_naming_counter e0 = chunk_naming_counter e ->
            justification_naming_counter e0 = justification_naming_counter e ->
            exists e1,
              generate_name_for_new_rule fuel e0 a
              = Done (e1, fst (new_symbol a (sc name None)), snd (new_symbol a (sc name None)))
              /\ ebc_settings e1 = ebc_settings e /\ naming_style e1 = naming_style e
              /\ m_inst e1 = m_inst e
              /\ (exists chunk_inst1, m_chunk_inst e1 = Some chunk_inst1)
              /\ rule_prefix e1 = rule_prefix e /\ rule_number e1 = rule_number e + 1
              /\ chunk_naming_counter e1 = chunk_naming_counter e
              /\ justification_naming_counter e1 = justification_naming_counter e).
  { intros e0 E1 E2 E3 E4 E5 E6 E7 E8.
    rewrite generate_name_descriptive by congruence.
    unfold descriptive_format. rewrite E3, Hinst, Himp.
    assert (En : descriptive_name e0 a inst t = name).
    { unfold descriptive_name, name, descriptive_name_with. now rewrite E5, E6. }
    unfold with_chunk_depth. rewrite E4, Hchunk.
    destruct (prod inst) as [p|]; cbv zeta; rewrite En, Hfree;
      destruct (new_symbol a (sc name None)) as [a1 x]; cbn [fst snd];
      eexists; (split; [reflexivity|]).
    - refine (conj E1 (conj E2 (conj _ (conj (ex_intro _ _ eq_refl)
                (conj E5 (conj E6 (conj E7 E8))))))).
      cbn [m_inst set_m_chunk_inst]. congruence.
    - refine (conj E1 (conj E2 (conj _ (conj (ex_intro _ chunk_inst _)
                (conj E5 (conj E6 (conj E7 E8))))))); congruence. }
  unfold set_up_rule_name. cbv zeta.
  assert (U : uint64 (rule_number e + 1) = rule_number e + 1)
    by (unfold uint64; apply Z.mod_small; lia).
  unfold rule_number, rule_prefix, is_chunk in *.
  destruct (m_rule_type e) eqn:K.
  - destruct (G (set_justifications_this_d_cycle
                   (uint64 (justifications_this_d_cycle e + 1)) e))
      as (e1 & -> & F); try reflexivity; cbn; rewrite ?K; try reflexivity; try exact U.
    do 3 eexists. split; [reflexivity|]. split; [reflexivity | exact F].
  - destruct (G (set_chunks_this_d_cycle (uint64 (chunks_this_d_cycle e + 1)) e))
      as (e1 & -> & F); try reflexivity; cbn; rewrite ?K; try reflexivity; try exact U.
    do 3 eexists. split; [reflexivity|]. split; [reflexivity | exact F].
  - destruct (G (set_justifications_this_d_cycle
                   (uint64 (justifications_this_d_cycle e + 1)) e))
      as (e1 & -> & F); try reflexivity; cbn; rewrite ?K; try reflexivity; try exact U.
    do 3 eexists. split; [reflexivity|]. split; [reflexivity | exact F].
Qed.

(** X24.  Two rules set up one after the other in one decision cycle, in
    the descriptive format and from the same instantiation, are told apart
    by the count of the cycle alone: [set_up_rule_name] advances the count
    of the rule's kind before it names the rule, so the first name ends in
    [-<count+1>] and the second in [-<count+2>]; the second call does not
    find its name taken by the first and appends no number.  The two names
    belong to two symbols, both live afterwards, and the naming counters
    are not used. *)
Theorem set_up_rule_name_twice (fuel : nat) (trace_settings : trace_settings_array)
    (e : Explanation_Based_Chunker) (a : agent) (inst chunk_inst : instantiation)
    (t : impasse_kind) :
  interner_inv a ->
  SETTING_EBC_LEARNING_ON (ebc_settings e) = true ->
  naming_style e = descriptiveFormat ->
  m_inst e = Some inst -> m_chunk_inst e = Some chunk_inst ->
  impasse_above a inst = Some t ->
  0 <= rule_number e -> rule_number e + 2 < 2 ^ 64 ->
  let name1 := descriptive_name_with e a inst t (rule_number e + 1) in
  let name2 := descriptive_name_with e a inst t (rule_number e + 2) in
  find_sym_constant a name1 = None -> find_sym_constant a name2 = None ->
  exists e1 a1 r1 out1 e2 a2 r2 out2,
    set_up_rule_name fuel trace_settings e a = Done (e1, a1, r1, out1)
    /\ set_up_rule_name fuel trace_settings e1 a1 = Done (e2, a2, r2, out2)
    /\ symbol_to_string (heap a2) (m_prod_name r1) = name1
    /\ symbol_to_string (heap a2) (m_prod_name r2) = name2
    /\ name1 <> name2
    /\ m_prod_name r1 <> m_prod_name r2
    /\ rule_number e2 = rule_number e + 2
    /\ chunk_naming_counter e2 = chunk_naming_counter e
    /\ justification_naming_counter e2 = justification_naming_counter e.
Proof.
  intros Hinv Hon Hstyle Hinst Hchunk Himp H0 Hmax name1 name2 Hfree1 Hfree2.
  pose proof (inv_wf a Hinv) as Hwf.
  assert (Hne : name1 <> name2).
  { intros E. apply descriptive_name_with_inj in E; lia. }
  destruct (set_up_rule_name_descriptive fuel trace_settings e a inst chunk_inst t
              Hon Hstyle Hinst Hchunk Himp H0 ltac:(lia) Hfree1)
    as (e1 & r1 & out1 & S1 & N1 & E1 & E2 & E3 & (chunk_inst1 & E4) & E5 & E6 & E7 & E8).
  fold name1 in S1, N1.
  pose proof (new_symbol_lookup a (sc name1 None)) as L1.
  pose proof (new_symbol_wf a (sc name1 None) Hwf) as Hwf1.
  set (a1 := fst (new_symbol a (sc name1 None))) in *.
  assert (En : descriptive_name_with e1 a1 inst t (rule_number e1 + 1) = name2).
  { unfold name2, descriptive_name_with. rewrite E5, E6.
    unfold a1. rewrite new_symbol_time_segment.
    now replace (rule_number e + 1 + 1) with (rule_number e + 2) by lia. }
  destruct (set_up_rule_name_descriptive fuel trace_settings e1 a1 inst chunk_inst1 t)
    as (e2 & r2 & out2 & S2 & N2 & _ & _ & _ & _ & _ & F6 & F7 & F8); try congruence; try lia.
  { now apply new_symbol_impasse_above. }
  { rewrite En. now apply new_sym_constant_other_name. }
  rewrite En in S2, N2.
  pose proof (new_symbol_lookup a1 (sc name2 None)) as L2.
  pose proof (alloc_addr_fresh SYM_CONSTANT_SYMBOL_TYPE a1 Hwf1) as Hfresh.
  pose proof (new_symbol_heap a1 (sc name2 None)) as Hh.
  pose proof (new_symbol_addr a1 (sc name2 None)) as Ha.
  cbn [data_kind] in Hh, Ha.
  set (a2 := fst (new_symbol a1 (sc name2 None))) in *.
  assert (Hd : m_prod_name r1 <> m_prod_name r2).
  { rewrite N1, N2, Ha. intros E. rewrite E in L1. rewrite Hfresh in L1. discriminate. }
  exists e1, a1, r1, out1, e2, a2, r2, out2.
  split; [exact S1|]. split; [exact S2|]. split; [|split; [|split; [exact Hne|split]]].
  - apply (symbol_to_string_sc _ _
             (fresh_symbol (sc name1 None) (uint32 (current_symbol_hash_id a + 137)))
             name1 None); [|reflexivity].
    rewrite Hh, lookup_insert_ne by (rewrite <- Ha, <- N2; congruence).
    rewrite N1. exact L1.
  - apply (symbol_to_string_sc _ _
             (fresh_symbol (sc name2 None) (uint32 (current_symbol_hash_id a1 + 137)))
             name2 None); [|reflexivity].
    rewrite N2. exact L2.
  - exact Hd.
  - split; [lia|]. split; congruence.
Qed.

(** The invariant of the interner reads the symbols, the tables, the pools
    and the counters of identifiers only. *)
Lemma interner_inv_same (a a' : agent) :
  heap a' = heap a -> hash_tables a' = hash_tables a -> pools a' = pools a ->
  heap_top a' = heap_top a -> id_counter a' = id_counter a ->
  interner_inv a -> interner_inv a'.
Proof.
  intros E1 E2 E3 E4 E5 [[W1 W2 W3 W4 W5 W6] Hu Hb Hc].
  unfold table, pool in *.
  split; [split|..]; unfold table, pool; rewrite ?E1, ?E2, ?E3, ?E4, ?E5; assumption.
Qed.

(** [set_identifier] with a function that keeps the letter and the number
    keeps the invariant. *)
Lemma set_identifier_inv (a : agent) (x : addr) (f : identifier -> identifier) :
  (forall i, name_letter (f i) = name_letter i /\ name_number (f i) = name_number i) ->
  interner_inv a -> interner_inv (set_identifier x f a).
Proof.
  intros Hf [Hwf Hu Hb Hc].
  assert (L : forall y s', heap (set_identifier x f a) !! y = Some s' ->
            exists s, heap a !! y = Some s
                      /\ (forall d, same_key d (data s') = same_key d (data s))
                      /\ (forall i', data s' = id i' ->
                            exists i, data s = id i /\ name_letter i' = name_letter i
                                      /\ name_number i' = name_number i)).
  { intros y s' Hy. unfold set_identifier in Hy. cbn [heap set_heap] in Hy.
    destruct (Z.eq_dec x y) as [<-|Hne].
    - rewrite lookup_alter_eq in Hy. destruct (heap a !! x) as [s|]; [|discriminate].
      injection Hy as <-. exists s. split; [reflexivity|]. cbn [data].
      destruct (data s) as [| i | | |]; try (split; [reflexivity | eauto]).
      destruct (Hf i) as [E1 E2]. split.
      + intros d. destruct d; cbn; try reflexivity. now rewrite E1, E2.
      + intros i' [= <-]. eauto.
    - rewrite lookup_alter_ne in Hy by assumption. exists s'. split; [assumption|].
      split; [reflexivity | eauto]. }
  split.
  - now apply set_identifier_wf.
  - intros y z sy sz Hy Hz Hk.
    destruct (L y sy Hy) as (ty & Hy' & Ky & _). destruct (L z sz Hz) as (tz & Hz' & Kz & _).
    apply (Hu y z ty tz Hy' Hz'). rewrite <- Kz, same_key_sym, <- Ky, same_key_sym.
    exact Hk.
  - intros y s' i' Hy Hd. destruct (L y s' Hy) as (s & Hs & _ & Ki).
    destruct (Ki i' Hd) as (i & Hi & -> & ->). exact (Hb y s i Hs Hi).
  - exact Hc.
Qed.

Lemma push_goal_inv (impasse : impasse_kind) (a : agent) :
  interner_inv a -> numbering_respected a "S" 0 -> interner_inv (push_goal impasse a).
Proof.
  intros Hinv Hnum. unfold push_goal. cbv zeta.
  set (lvl := match bottom_goal a with Some _ => _ | None => _ end). clearbody lvl.
  pose proof (make_new_identifier_inv a "S" lvl 0 Hinv Hnum) as H1.
  destruct (make_new_identifier a "S" lvl 0) as [a1 g]. cbn [fst] in H1.
  assert (H2 : interner_inv (set_identifier g (as_lower_goal (bottom_goal a)) a1))
    by (apply set_identifier_inv; [intros i; split; reflexivity | exact H1]).
  destruct (bottom_goal a) as [b|].
  - apply (interner_inv_same
             (set_identifier b (as_higher_goal g impasse)
                (set_identifier g (as_lower_goal (Some b)) a1))); try reflexivity.
    apply set_identifier_inv; [intros i; split; reflexivity | exact H2].
  - apply (interner_inv_same (set_identifier g (as_lower_goal None) a1));
      try reflexivity.
    exact H2.
Qed.

Lemma set_d_cycle_count_inv (x : Z) (a : agent) :
  interner_inv a -> interner_inv (set_d_cycle_count x a).
Proof. now apply interner_inv_same. Qed.

Lemma example_agent_inv : interner_inv example_agent.
Proof.
  unfold example_agent.
  apply set_d_cycle_count_inv, make_sym_constant_inv.
  apply push_goal_inv; [apply push_goal_inv; [apply interner_inv_init|]|];
    unfold numbering_respected; cbv zeta;
    match goal with
    | |- context [?l !!! ?i] =>
        let v := eval vm_compute in (l !!! i) in
        replace (l !!! i) with v by (vm_compute; reflexivity)
    end; lia.
Qed.

Lemma set_up_rule_name_twice_witness :
  exists e1 a1 r1 out1 e2 a2 r2 out2,
    set_up_rule_name 1 {| TRACE_CHUNK_NAMES_SYSPARAM := 1; TRACE_CHUNKS_SYSPARAM := 0;
                          TRACE_JUSTIFICATION_NAMES_SYSPARAM := 0;
                          TRACE_JUSTIFICATIONS_SYSPARAM := 0 |}
      (example_chunker descriptiveFormat 0 (Some example_instantiation)) example_agent
    = Done (e1, a1, r1, out1)
    /\ set_up_rule_name 1 {| TRACE_CHUNK_NAMES_SYSPARAM := 1; TRACE_CHUNKS_SYSPARAM := 0;
                             TRACE_JUSTIFICATION_NAMES_SYSPARAM := 0;
                             TRACE_JUSTIFICATIONS_SYSPARAM := 0 |} e1 a1
       = Done (e2, a2, r2, out2)
    /\ symbol_to_string (heap a2) (m_prod_name r1) = "chunk*mv*Tie*t42-4"%string
    /\ symbol_to_string (heap a2) (m_prod_name r2) = "chunk*mv*Tie*t42-5"%string.
Proof.
  pose proof example_agent_inv as Hinv.
  destruct (set_up_rule_name_twice 1
              {| TRACE_CHUNK_NAMES_SYSPARAM := 1; TRACE_CHUNKS_SYSPARAM := 0;
                 TRACE_JUSTIFICATION_NAMES_SYSPARAM := 0;
                 TRACE_JUSTIFICATIONS_SYSPARAM := 0 |}
              (example_chunker descriptiveFormat 0 (Some example_instantiation))
              example_agent example_instantiation
              {| prod := None; prod_name := 0; prod_naming_depth := 0;
                 match_goal := 1; match_goal_level := 1 |}
              TIE_IMPASSE_TYPE Hinv eq_refl eq_refl eq_refl eq_refl
              ltac:(vm_compute; reflexivity) ltac:(vm_compute; congruence)
              ltac:(vm_compute; reflexivity)
              ltac:(vm_compute; reflexivity) ltac:(vm_compute; reflexivity))
    as (e1 & a1 & r1 & out1 & e2 & a2 & r2 & out2 & S1 & S2 & H1 & H2 & _).
  exists e1, a1, r1, out1, e2, a2, r2, out2.
  split; [exact S1|]. split; [exact S2|]. split.
  - rewrite H1. vm_compute. reflexivity.
  - rewrite H2. vm_compute. reflexivity.
Defined.

(** ** ebc.cpp: the learning gate keeps no memory *)

Lemma trace_refusal_heap (inst : instantiation) (reason : string) (a : agent) :
  heap (trace_refusal inst reason a) = heap a
  /\ hash_tables (trace_refusal inst reason a) = hash_tables a.
Proof. unfold trace_refusal. destruct (trace_chunks_warnings a); split; reflexivity. Qed.

(** The answer of the gate is a function of the settings, the two lists of
    flagged states, the instantiation and the live symbols. *)
Lemma set_learning_for_instantiation_reads
    (e e' : Explanation_Based_Chunker) (a a' : agent) (inst : instantiation) :
  ebc_settings e' = ebc_settings e ->
  chunk_free_problem_spaces e' = chunk_free_problem_spaces e ->
  chunky_problem_spaces e' = chunky_problem_spaces e ->
  heap a' = heap a ->
  (snd <$> set_learning_for_instantiation e' a' inst)
  = (snd <$> set_learning_for_instantiation e a inst).
Proof.
  intros E1 E2 E3 E4. unfold set_learning_for_instantiation. rewrite E1, E2, E3, E4.
  destruct (negb _ || _); [reflexivity|].
  destruct (SETTING_EBC_EXCEPT _ && _); [reflexivity|].
  destruct (SETTING_EBC_ONLY _ && _); [reflexivity|].
  destruct (SETTING_EBC_BOTTOM_ONLY _); [|reflexivity].
  destruct (identifier_at (heap a) (match_goal inst)) as [g|]; [|reflexivity].
  now destruct (negb (allow_bottom_up_chunks g)).
Qed.

(** X25.  The learning gate keeps no memory of its answers.  A call changes
    one member of the chunker, [m_learning_on_for_instantiation], which it
    sets to its answer and never reads, and writes at most a trace: no
    symbol and no hash table is touched.  So the answer for an instantiation
    is the same whether or not other instantiations were put to the gate
    before it. *)
Theorem set_learning_for_instantiation_keeps_no_memory
    (e : Explanation_Based_Chunker) (a : agent) (inst1 inst2 : instantiation)
    (e1 : Explanation_Based_Chunker) (a1 : agent) (r1 : bool) :
  set_learning_for_instantiation e a inst1 = Some (e1, a1, r1) ->
  e1 = set_m_learning_on_for_instantiation r1 e
  /\ heap a1 = heap a /\ hash_tables a1 = hash_tables a
  /\ (snd <$> set_learning_for_instantiation e1 a1 inst2)
     = (snd <$> set_learning_for_instantiation e a inst2).
Proof.
  intros H.
  assert (S : e1 = set_m_learning_on_for_instantiation r1 e
              /\ heap a1 = heap a /\ hash_tables a1 = hash_tables a).
  { unfold set_learning_for_instantiation in H.
    destruct (negb _ || _); [injection H as <- <- <-; now repeat split|].
    destruct (SETTING_EBC_EXCEPT _ && _);
      [injection H as <- <- <-; split; [reflexivity | apply trace_refusal_heap]|].
    destruct (SETTING_EBC_ONLY _ && _);
      [injection H as <- <- <-; split; [reflexivity | apply trace_refusal_heap]|].
    destruct (SETTING_EBC_BOTTOM_ONLY _).
    - destruct (identifier_at (heap a) (match_goal inst1)) as [g|]; [|discriminate].
      destruct (negb (allow_bottom_up_chunks g)); injection H as <- <- <-;
        (split; [reflexivity|]); [apply trace_refusal_heap | now split].
    - injection H as <- <- <-. now repeat split. }
  destruct S as (Se & Sh & St). split; [exact Se|]. split; [exact Sh|]. split; [exact St|].
  apply set_learning_for_instantiation_reads; try assumption; now rewrite Se.
Qed.

Lemma set_learning_for_instantiation_keeps_no_memory_witness :
  let top := {| prod := None; prod_name := 0; prod_naming_depth := 0;
                match_goal := 1; match_goal_level := 1 |} in
  match set_learning_for_instantiation (example_chunker descriptiveFormat 0 None)
          example_agent example_instantiation with
  | Some (e1, a1, r1) =>
      (snd <$> set_learning_for_instantiation e1 a1 top)
      = (snd <$> set_learning_for_instantiation (example_chunker descriptiveFormat 0 None)
                   example_agent top)
  | None => False
  end.
Proof.
  intros top.
  destruct (set_learning_for_instantiation (example_chunker descriptiveFormat 0 None)
              example_agent example_instantiation) as [[[e1 a1] r1]|] eqn:R.
  - apply (set_learning_for_instantiation_keeps_no_memory _ _ _ top _ _ _ R).
  - vm_compute in R. discriminate.
Defined.
